(** * Byte-Forge: a shallow embedding of the ROM patcher core

    The development follows the TypeScript sources:
    - [src/lib/core/binary-file.ts]   the byte cursor [BinFile];
    - [src/lib/formats/*.ts]          the patch codecs (IPS, UPS, RUP, BPS, PPF, APS, PMSR);
    - [src/plugins/theme.client.ts]   the VCDIFF decoder and its code table;
    - [src/unnamed/part_002]          the dispatcher [RomPatcher].

    JavaScript numbers are modelled as [Z]: every number the modelled code
    handles is an integer below 2^53, where doubles are exact.  The bitwise
    operators go through [ToInt32] / [ToUint32] exactly as ECMAScript
    prescribes.  A typed-array read out of range is [None] ([undefined]). *)

From Stdlib Require Import ZArith List Lia Bool String Ascii HexString DecimalString.
From stdpp Require Import gmap.
Import ListNotations.

Local Open Scope Z_scope.

(** ** ECMAScript integer operators *)

Module JS.

Definition ToUint32 (z : Z) : Z := z mod 2 ^ 32.

Definition ToInt32 (z : Z) : Z :=
  let u := z mod 2 ^ 32 in
  if u <? 2 ^ 31 then u else u - 2 ^ 32.

(** [a << n], [a >> n], [a >>> n]: the shift count is taken modulo 32. *)
Definition shl (a n : Z) : Z := ToInt32 (Z.shiftl (ToInt32 a) (n mod 32)).
Definition shr (a n : Z) : Z := Z.shiftr (ToInt32 a) (n mod 32).
Definition ushr (a n : Z) : Z := Z.shiftr (ToUint32 a) (n mod 32).

(** [a & b], [a | b], [a ^ b], [~a]. *)
Definition band (a b : Z) : Z := Z.land (ToInt32 a) (ToInt32 b).
Definition bor (a b : Z) : Z := Z.lor (ToInt32 a) (ToInt32 b).
Definition bxor (a b : Z) : Z := Z.lxor (ToInt32 a) (ToInt32 b).
Definition bnot (a : Z) : Z := Z.lnot (ToInt32 a).

(** A value read from a typed array: a number, or [undefined].  In a
    bitwise or shift operand [undefined] converts to 0. *)
Definition value := option Z.
Definition num (v : value) : Z := match v with Some z => z | None => 0 end.

(** Truthiness of such a value: a number other than 0. *)
Definition truthy (v : value) : bool :=
  match v with Some z => negb (z =? 0) | None => false end.

(** [a === b] on such values. *)
Definition strict_eq (a b : value) : bool :=
  match a, b with
  | Some x, Some y => x =? y
  | None, None => true
  | _, _ => false
  end.

(** What the modelled code can throw. *)
Inductive exn :=
| RangeError
| TypeError
| Error (msg : string)
| InvalidPatchFileError (msg : string)
| InvalidRomFileError (msg : string)
| PatchValidationError (msg : string)
| UnsupportedFormatError (msg : string).

(** [error.message]; the text of the engine's own RangeError and TypeError
    is not modelled. *)
Definition message (e : exn) : string :=
  match e with
  | RangeError | TypeError => EmptyString
  | Error m | InvalidPatchFileError m | InvalidRomFileError m
  | PatchValidationError m | UnsupportedFormatError m => m
  end.

(** The outcome of a call: a value, an exception, or no return at all (a
    loop that never reaches its exit; memory limits are not modelled). *)
Inductive result (A : Type) :=
| Ok (a : A)
| Throw (e : exn)
| Diverge.
Arguments Ok {A} a.
Arguments Throw {A} e.
Arguments Diverge {A}.

Definition bind {A B} (r : result A) (k : A -> result B) : result B :=
  match r with Ok a => k a | Throw e => Throw e | Diverge => Diverge end.

(** [for (const x of xs) { ... }] where the body may throw. *)
Fixpoint for_of {A S} (xs : list A) (body : S -> A -> result S) (s : S) : result S :=
  match xs with
  | [] => Ok s
  | x :: rest => bind (body s x) (for_of rest body)
  end.

End JS.

Notation "'let*' x ':=' r 'in' k" := (JS.bind r (fun x => k))
  (at level 10, x pattern, r at level 100, k at level 200).

(** ** Uint8Array *)

Module U8.

(** [a[i]] *)
Definition get (a : list Z) (i : Z) : JS.value :=
  if i <? 0 then None else nth_error a (Z.to_nat i).

(** [a[i] = v]: the stored element is [v] modulo 256; an index outside the
    array is ignored. *)
Definition put (a : list Z) (i : Z) (v : Z) : list Z :=
  if (0 <=? i) && (i <? Z.of_nat (length a))
  then firstn (Z.to_nat i) a ++ (v mod 256) :: skipn (S (Z.to_nat i)) a
  else a.

(** [new Uint8Array(n)] *)
Definition alloc (n : Z) : JS.result (list Z) :=
  if n <? 0 then JS.Throw JS.RangeError else JS.Ok (repeat 0 (Z.to_nat n)).

(** The relative index of [slice]: negative counts from the end. *)
Definition rel (len i : Z) : Z :=
  if i <? 0 then Z.max (len + i) 0 else Z.min i len.

(** [a.slice(s, e)] *)
Definition slice (a : list Z) (s e : Z) : list Z :=
  let len := Z.of_nat (length a) in
  let k := rel len s in
  let final := rel len e in
  firstn (Z.to_nat (final - k)) (skipn (Z.to_nat k) a).

(** [new Uint8Array(numbers)]: each element is stored modulo 256; a missing
    array gives the empty one. *)
Definition of_array (l : option (list Z)) : list Z :=
  match l with Some l => map (fun v => v mod 256) l | None => [] end.

(** [a.set(src, off)] *)
Definition set (a src : list Z) (off : Z) : JS.result (list Z) :=
  if (off <? 0) || (Z.of_nat (length a) <? off + Z.of_nat (length src))
  then JS.Throw JS.RangeError
  else JS.Ok (firstn (Z.to_nat off) a ++ src
              ++ skipn (Z.to_nat off + length src) a).

End U8.

(** ** The byte cursor: src/lib/core/binary-file.ts *)

Module BinFile.

Record BinFile := mkBinFile {
  fileName : string;
  fileSize : Z;
  littleEndian : bool;
  offset : Z;
  data : list Z;              (* [data] and its alias [_u8array] *)
  _offsetsStack : list Z
}.

Definition capacity (f : BinFile) : Z := Z.of_nat (length (data f)).

Definition with_offset (f : BinFile) (o : Z) : BinFile :=
  mkBinFile (fileName f) (fileSize f) (littleEndian f) o (data f) (_offsetsStack f).
Definition with_fileSize (f : BinFile) (s : Z) : BinFile :=
  mkBinFile (fileName f) s (littleEndian f) (offset f) (data f) (_offsetsStack f).
Definition with_data (f : BinFile) (d : list Z) : BinFile :=
  mkBinFile (fileName f) (fileSize f) (littleEndian f) (offset f) d (_offsetsStack f).
Definition with_littleEndian (f : BinFile) (b : bool) : BinFile :=
  mkBinFile (fileName f) (fileSize f) b (offset f) (data f) (_offsetsStack f).
Definition with_fileName (f : BinFile) (n : string) : BinFile :=
  mkBinFile n (fileSize f) (littleEndian f) (offset f) (data f) (_offsetsStack f).
Definition with_stack (f : BinFile) (s : list Z) : BinFile :=
  mkBinFile (fileName f) (fileSize f) (littleEndian f) (offset f) (data f) s.

(** [new BinFile(n)] for a number and [new BinFile(bytes)] for a Uint8Array. *)
Definition of_size (n : Z) : JS.result BinFile :=
  let* d := U8.alloc n in
  JS.Ok (mkBinFile EmptyString n false 0 d []).

Definition of_bytes (bytes : list Z) : BinFile :=
  mkBinFile EmptyString (Z.of_nat (length bytes)) false 0 bytes [].

Definition seek (f : BinFile) (o : Z) : BinFile :=
  with_offset f (Z.max 0 (Z.min o (fileSize f))).

Definition tell (f : BinFile) : Z := offset f.

Definition skip (f : BinFile) (bytes : Z) : BinFile := seek f (offset f + bytes).

Definition save (f : BinFile) : BinFile := with_stack f (_offsetsStack f ++ [offset f]).

Definition restore (f : BinFile) : BinFile :=
  match rev (_offsetsStack f) with
  | [] => f
  | o :: rest => with_stack (with_offset f o) (rev rest)
  end.

Definition isEOF (f : BinFile) : bool := fileSize f <=? offset f.

Definition readU8 (f : BinFile) : JS.value * BinFile :=
  if fileSize f <=? offset f then (Some 0, f)
  else (U8.get (data f) (offset f), with_offset f (offset f + 1)).

Definition readU16 (f : BinFile) : Z * BinFile :=
  let '(byte1, f1) := readU8 f in
  let '(byte2, f2) := readU8 f1 in
  let b1 := JS.num byte1 in
  let b2 := JS.num byte2 in
  (if littleEndian f then JS.bor (JS.shl b2 8) b1 else JS.bor (JS.shl b1 8) b2, f2).

Definition readU24 (f : BinFile) : Z * BinFile :=
  let '(byte1, f1) := readU8 f in
  let '(byte2, f2) := readU8 f1 in
  let '(byte3, f3) := readU8 f2 in
  let b1 := JS.num byte1 in
  let b2 := JS.num byte2 in
  let b3 := JS.num byte3 in
  (if littleEndian f
   then JS.bor (JS.bor (JS.shl b3 16) (JS.shl b2 8)) b1
   else JS.bor (JS.bor (JS.shl b1 16) (JS.shl b2 8)) b3, f3).

Definition readU32 (f : BinFile) : Z * BinFile :=
  let '(byte1, f1) := readU8 f in
  let '(byte2, f2) := readU8 f1 in
  let '(byte3, f3) := readU8 f2 in
  let '(byte4, f4) := readU8 f3 in
  let b1 := JS.num byte1 in
  let b2 := JS.num byte2 in
  let b3 := JS.num byte3 in
  let b4 := JS.num byte4 in
  (if littleEndian f
   then JS.ushr (JS.bor (JS.bor (JS.bor (JS.shl b4 24) (JS.shl b3 16)) (JS.shl b2 8)) b1) 0
   else JS.ushr (JS.bor (JS.bor (JS.bor (JS.shl b1 24) (JS.shl b2 16)) (JS.shl b3 8)) b4) 0,
   f4).

Definition readBytes (f : BinFile) (length : Z) : list Z * BinFile :=
  let end_ := Z.min (offset f + length) (fileSize f) in
  (U8.slice (data f) (offset f) end_, with_offset f end_).

Definition expand (f : BinFile) (newSize : Z) : BinFile :=
  if newSize <=? capacity f then f
  else with_data f (data f ++ repeat 0 (Z.to_nat newSize - length (data f))%nat).

Definition writeU8 (f : BinFile) (value : Z) : BinFile :=
  let f1 := if capacity f <=? offset f then expand f (offset f + 1) else f in
  let f2 := with_data f1 (U8.put (data f1) (offset f1) (JS.band value 255)) in
  let f3 := with_offset f2 (offset f2 + 1) in
  if fileSize f3 <? offset f3 then with_fileSize f3 (offset f3) else f3.

Definition writeU16 (f : BinFile) (value : Z) : BinFile :=
  if littleEndian f then
    writeU8 (writeU8 f (JS.band value 255)) (JS.band (JS.shr value 8) 255)
  else
    writeU8 (writeU8 f (JS.band (JS.shr value 8) 255)) (JS.band value 255).

Definition writeU24 (f : BinFile) (value : Z) : BinFile :=
  if littleEndian f then
    writeU8 (writeU8 (writeU8 f (JS.band value 255)) (JS.band (JS.shr value 8) 255))
            (JS.band (JS.shr value 16) 255)
  else
    writeU8 (writeU8 (writeU8 f (JS.band (JS.shr value 16) 255)) (JS.band (JS.shr value 8) 255))
            (JS.band value 255).

Definition writeU32 (f : BinFile) (value : Z) : BinFile :=
  if littleEndian f then
    writeU8 (writeU8 (writeU8 (writeU8 f (JS.band value 255)) (JS.band (JS.shr value 8) 255))
                     (JS.band (JS.shr value 16) 255))
            (JS.band (JS.shr value 24) 255)
  else
    writeU8 (writeU8 (writeU8 (writeU8 f (JS.band (JS.shr value 24) 255))
                              (JS.band (JS.shr value 16) 255))
                     (JS.band (JS.shr value 8) 255))
            (JS.band value 255).

Definition writeBytes (f : BinFile) (bytes : list Z) : JS.result BinFile :=
  let requiredSize := offset f + Z.of_nat (length bytes) in
  let f1 := if capacity f <? requiredSize then expand f requiredSize else f in
  let* d := U8.set (data f1) bytes (offset f1) in
  let f2 := with_data f1 d in
  let f3 := with_offset f2 (offset f2 + Z.of_nat (length bytes)) in
  JS.Ok (if fileSize f3 <? offset f3 then with_fileSize f3 (offset f3) else f3).

Definition truncate (f : BinFile) (size : Z) : BinFile :=
  let f1 := with_fileSize f (Z.min size (capacity f)) in
  if fileSize f1 <? offset f1 then with_offset f1 (fileSize f1) else f1.

Definition clone (f : BinFile) : BinFile :=
  mkBinFile (fileName f) (fileSize f) (littleEndian f) 0 (U8.slice (data f) 0 (capacity f)) [].

(** [this.copyTo(target, targetOffset, sourceLength)]: returns the target. *)
Definition copyTo (this target : BinFile) (targetOffset : Z) (sourceLength : option Z)
  : JS.result BinFile :=
  let length := match sourceLength with Some l => l | None => fileSize this - offset this end in
  let sourceData := U8.slice (data this) (offset this) (offset this + length) in
  writeBytes (seek target targetOffset) sourceData.

Definition getBytes (f : BinFile) : list Z := U8.slice (data f) 0 (fileSize f).

(** *** Strings

    A string read with [readString(n, 'ascii')] has one character per byte,
    [String.fromCharCode(byte)]; such strings are [string]s of 8-bit
    characters.  [writeString(s, 'ascii')] writes [charCodeAt(i) & 0xFF]. *)

Definition string_of_bytes (bytes : list Z) : string :=
  string_of_list_ascii (map (fun b => ascii_of_nat (Z.to_nat b)) bytes).

Definition bytes_of_string (s : string) : list Z :=
  map (fun c => Z.of_nat (nat_of_ascii c)) (list_ascii_of_string s).

Definition readString_ascii (f : BinFile) (length : Z) : string * BinFile :=
  let '(bytes, f1) := readBytes f length in
  (string_of_bytes bytes, f1).

Definition writeString_ascii (f : BinFile) (str : string) : JS.result BinFile :=
  writeBytes f (bytes_of_string str).

(** [readString(n) === magic] with the default encoding, for an ASCII
    [magic] of [n] characters without NUL: the UTF-8 decoder yields [magic]
    exactly when the [n] bytes read are the codes of [magic] (any byte above
    0x7f decodes to another character, and a NUL byte shortens the string). *)
Definition readString_is (f : BinFile) (magic : string) : bool * BinFile :=
  let '(bytes, f1) := readBytes f (Z.of_nat (String.length magic)) in
  (String.eqb (string_of_bytes bytes) magic, f1).

(** *** File names (strings of 8-bit characters) *)

Definition lastIndexOf (c : ascii) (s : string) : option nat :=
  let fix go (l : list ascii) (i : nat) (found : option nat) : option nat :=
    match l with
    | [] => found
    | x :: rest => go rest (S i) (if Ascii.eqb x c then Some i else found)
    end in
  go (list_ascii_of_string s) 0%nat None.

(** [s.toLowerCase()] on a string of 8-bit characters: the letters A to Z
    and the upper-case letters of Latin-1 (0xC0 to 0xDE, but not the
    multiplication sign 0xD7) move up by 32; every other character stays. *)
Definition toLowerCase (s : string) : string :=
  string_of_list_ascii
    (map (fun c => let n := nat_of_ascii c in
                   if (((65 <=? n) && (n <=? 90))
                       || ((192 <=? n) && (n <=? 222) && negb (n =? 215)))%nat
                   then ascii_of_nat (n + 32) else c)
         (list_ascii_of_string s)).

Definition substring_from (n : nat) (s : string) : string :=
  String.substring n (String.length s - n) s.

Definition getExtension (f : BinFile) : string :=
  match lastIndexOf "." (fileName f) with
  | Some lastDot => toLowerCase (substring_from (S lastDot) (fileName f))
  | None => EmptyString
  end.

Definition getName (f : BinFile) : string :=
  let slash := lastIndexOf "/" (fileName f) in
  let backslash := lastIndexOf (ascii_of_nat 92) (fileName f) in
  let lastSlash :=
    match slash, backslash with
    | Some a, Some b => Some (Nat.max a b)
    | Some a, None => Some a
    | None, b => b
    end in
  let nameWithExt :=
    match lastSlash with
    | Some i => substring_from (S i) (fileName f)
    | None => fileName f
    end in
  match lastIndexOf "." nameWithExt with
  | Some lastDot => String.substring 0 lastDot nameWithExt
  | None => nameWithExt
  end.

Definition setName (f : BinFile) (name : string) : BinFile := with_fileName f name.

(** The name every codec gives its output:
    [`${baseName}${tag}${suffix}`] with [tag] such as [" (patched)"]. *)
Definition patched_name (romFile : BinFile) (tag : string) : string :=
  let extension := getExtension romFile in
  let suffix := if String.eqb extension EmptyString then EmptyString
                else String "." extension in
  append (getName romFile) (append tag suffix).

(** *** Checksums *)

(** [_getCRC32Table()] *)
Definition crc32_step (c : Z) : Z :=
  if JS.band c 1 =? 0 then JS.ushr c 1 else JS.bxor 0xedb88320 (JS.ushr c 1).

Definition _getCRC32Table : list Z :=
  map (fun n => Nat.iter 8 crc32_step (Z.of_nat n)) (seq 0 256).

(** [hashCRC32(startOffset, endOffset)]; a missing [endOffset] is the file
    size.  The table index is a number between 0 and 255. *)
Definition hashCRC32 (f : BinFile) (startOffset : Z) (endOffset : option Z) : Z :=
  let end_ := match endOffset with Some e => e | None => fileSize f end in
  let bytes := U8.slice (data f) startOffset end_ in
  let table := _getCRC32Table in
  let crc :=
    fold_left
      (fun crc b => JS.bxor (nth (Z.to_nat (JS.band (JS.bxor crc b) 255)) table 0)
                            (JS.ushr crc 8))
      bytes 0xffffffff in
  JS.ushr (JS.bxor crc 0xffffffff) 0.

(** [hashCRC16(startOffset, length)]; a missing or zero [length] runs to the
    file size. *)
Definition crc16_bit (crc : Z) : Z :=
  if JS.band crc 0x8000 =? 0 then JS.shl crc 1 else JS.bxor (JS.shl crc 1) 0x1021.

Definition hashCRC16 (f : BinFile) (startOffset : Z) (length : option Z) : Z :=
  let endOffset :=
    match length with
    | Some l => if l =? 0 then fileSize f else startOffset + l
    | None => fileSize f
    end in
  let bytes := U8.slice (data f) startOffset (Z.min endOffset (fileSize f)) in
  let crc :=
    fold_left (fun crc b => Nat.iter 8 crc16_bit (JS.bxor crc (JS.shl b 8))) bytes 0xffff in
  JS.band crc 0xffff.

(** [n.toString(16)] for an integer, and [s.padStart(n, '0')]. *)
Definition toString16 (n : Z) : string :=
  match n with
  | Z0 => String "0" EmptyString
  | Zpos p => HexString.Raw.of_pos p EmptyString
  | Zneg p => String "-" (HexString.Raw.of_pos p EmptyString)
  end.

Definition padStart0 (s : string) (n : nat) : string :=
  append (string_of_list_ascii (repeat "0"%char (n - String.length s))) s.

(** [_simpleHash(algorithm)]: the placeholder behind [hashMD5] and [hashSHA1].
    [is_md5] stands for [algorithm === 'md5']. *)
Definition _simpleHash (f : BinFile) (is_md5 : bool) : string :=
  let bytes := U8.slice (data f) 0 (fileSize f) in
  let hash :=
    fold_left (fun hash b => JS.band (JS.shl hash 5 - hash + b) 0xffffffff) bytes 0 in
  padStart0 (toString16 (Z.abs hash)) (if is_md5 then 32 else 40).

Definition hashMD5 (f : BinFile) : string := _simpleHash f true.
Definition hashSHA1 (f : BinFile) : string := _simpleHash f false.

(** *** Variable-length values (UPS style)

    The loops are [while (true)]; [fuel] bounds the number of iterations and
    [None] means that the loop did not finish within it. *)

Fixpoint readVLV_loop (fuel : nat) (f : BinFile) (value shift : Z)
  : option (Z * BinFile) :=
  match fuel with
  | O => None
  | S fuel' =>
      let '(byte, f1) := readU8 f in
      let value1 := value + JS.band (JS.num byte) 0x7f * shift in
      if JS.band (JS.num byte) 0x80 =? 0 then Some (value1, f1)
      else
        let shift1 := JS.shl shift 7 in
        readVLV_loop fuel' f1 (value1 + shift1) shift1
  end.

(** [readVLV()]: a byte with bit 7 set is consumed at each further turn, and
    a read at the end of the file yields 0, which stops the loop; so the
    remaining bytes plus one bound the number of turns. *)
Definition readVLV (f : BinFile) : option (Z * BinFile) :=
  readVLV_loop (S (Z.to_nat (fileSize f - offset f))) f 0 1.

Fixpoint writeVLV (fuel : nat) (f : BinFile) (value : Z) : option BinFile :=
  match fuel with
  | O => None
  | S fuel' =>
      let byte := JS.band value 0x7f in
      let value1 := JS.shr value 7 in
      if value1 =? 0 then Some (writeU8 f byte)
      else writeVLV fuel' (writeU8 f (JS.bor byte 0x80)) value1
  end.

Fixpoint getVLVLength_loop (fuel : nat) (length value : Z) : option Z :=
  match fuel with
  | O => None
  | S fuel' =>
      let value1 := JS.shr value 7 in
      if value1 =? 0 then Some (length + 1)
      else getVLVLength_loop fuel' (length + 1) value1
  end.

Definition getVLVLength (fuel : nat) (value : Z) : option Z :=
  getVLVLength_loop fuel 0 value.

(** The cursor invariant of the specification:
    [0 <= offset <= size <= capacity]. *)
Definition wf (f : BinFile) : Prop :=
  0 <= offset f /\ offset f <= fileSize f /\ fileSize f <= capacity f.

End BinFile.


(** ** VCDIFF: src/plugins/theme.client.ts *)

Module VCDIFF.

Definition VCDIFF_MAGIC : list Z := [0xd6; 0xc3; 0xc4].

Definition VCD_NOOP : Z := 0.
Definition VCD_ADD : Z := 1.
Definition VCD_RUN : Z := 2.
Definition VCD_COPY : Z := 3.

Record VCDIFFInstruction := mkInstruction { type : Z; size : Z; mode : Z }.

(** [for (let x = a; x < b; x++)] *)
Definition range (a b : nat) : list Z := map Z.of_nat (seq a (b - a)).

Definition empty : VCDIFFInstruction := mkInstruction VCD_NOOP 0 0.

(** The table is built by the same six loops as the source, in the same order. *)
Definition VCD_DEFAULT_CODE_TABLE : list (VCDIFFInstruction * VCDIFFInstruction) :=
  (* 0 *)
  [(mkInstruction VCD_RUN 0 0, empty)]
  (* 1-18 *)
  ++ map (fun size => (mkInstruction VCD_ADD size 0, empty)) (range 0 18)
  (* 19-162 *)
  ++ flat_map (fun mode =>
       (mkInstruction VCD_COPY 0 mode, empty)
       :: map (fun size => (mkInstruction VCD_COPY size mode, empty)) (range 4 19))
     (range 0 9)
  (* 163-234 *)
  ++ flat_map (fun mode =>
       flat_map (fun addSize =>
         map (fun copySize =>
                (mkInstruction VCD_ADD addSize 0, mkInstruction VCD_COPY copySize mode))
             (range 4 7))
       (range 1 5))
     (range 0 6)
  (* 235-246 *)
  ++ flat_map (fun mode =>
       map (fun addSize =>
              (mkInstruction VCD_ADD addSize 0, mkInstruction VCD_COPY 4 mode))
           (range 1 5))
     (range 6 9)
  (* 247-255 *)
  ++ map (fun mode => (mkInstruction VCD_COPY 4 mode, mkInstruction VCD_ADD 1 0))
         (range 0 9).

(** The default code table as RFC 3284 (section 5.6) lays it out, entry by
    index.  This definition follows the specification's words; it is compared
    with [VCD_DEFAULT_CODE_TABLE] below. *)
Definition rfc3284_entry (i : Z) : VCDIFFInstruction * VCDIFFInstruction :=
  if i =? 0 then
    (* RUN, size coded separately *)
    (mkInstruction VCD_RUN 0 0, empty)
  else if i <=? 18 then
    (* ADD of size 0 (coded separately), then sizes 1..17 *)
    (mkInstruction VCD_ADD (i - 1) 0, empty)
  else if i <=? 162 then
    (* per mode: COPY of size 0 (coded separately), then sizes 4..18 *)
    let j := i - 19 in
    let k := j mod 16 in
    (mkInstruction VCD_COPY (if k =? 0 then 0 else k + 3) (j / 16), empty)
  else if i <=? 234 then
    (* modes 0..5: ADD sizes 1..4 with COPY sizes 4..6 *)
    let j := i - 163 in
    (mkInstruction VCD_ADD ((j mod 12) / 3 + 1) 0,
     mkInstruction VCD_COPY (j mod 3 + 4) (j / 12))
  else if i <=? 246 then
    (* modes 6..8: ADD sizes 1..4 with COPY size 4 *)
    let j := i - 235 in
    (mkInstruction VCD_ADD (j mod 4 + 1) 0, mkInstruction VCD_COPY 4 (6 + j / 4))
  else
    (* the 9 modes: COPY size 4 with ADD size 1 *)
    (mkInstruction VCD_COPY 4 (i - 247), mkInstruction VCD_ADD 1 0).

(** [adler32(file, offset, length)].  A read outside the array is
    [undefined]: the sums become NaN ([None]) and [(b << 16) | a] is 0. *)
Definition adler32 (file : BinFile.BinFile) (offset length : Z) : Z :=
  let MOD_ADLER := 65521 in
  let step (st : option (Z * Z)) (i : Z) : option (Z * Z) :=
    match st, U8.get (BinFile.data file) (offset + i) with
    | Some (a, b), Some x =>
        let a' := Z.rem (a + x) MOD_ADLER in
        Some (a', Z.rem (b + a') MOD_ADLER)
    | _, _ => None
    end in
  match fold_left step (range 0 (Z.to_nat length)) (Some (1, 0)) with
  | Some (a, b) => JS.bor (JS.shl b 16) a
  | None => 0
  end.

(** A [VCDIFFPatch] keeps the patch file. *)
Record VCDIFFPatch := mkPatch { file : BinFile.BinFile }.

Definition fromFile (patchFile : BinFile.BinFile)
  : BinFile.BinFile * option VCDIFFPatch :=
  let f := BinFile.seek patchFile 0 in
  let '(magic, f) := BinFile.readBytes f 3 in
  if negb (String.eqb (BinFile.string_of_bytes magic) (BinFile.string_of_bytes VCDIFF_MAGIC))
  then (f, None)
  else (f, Some (mkPatch f)).

End VCDIFF.

(** ** IPS: src/lib/formats/ips.ts *)

Module IPS.
Import BinFile.

Definition IPS_MAGIC : string := "PATCH".
Definition IPS_EOF : string := "EOF".
Definition IPS_RECORD_RLE : Z := 0.
Definition IPS_RECORD_SIMPLE : Z := 1.

(** [PatchRecord] of src/lib/types/rom-patcher.ts; [byte] is a value pushed
    from a typed-array read, hence possibly [undefined]. *)
Record PatchRecord := mkRecord {
  offset : Z;
  type : Z;
  length : Z;
  data : option (list Z);
  byte : JS.value
}.

Record IPSPatch := mkPatch {
  records : list PatchRecord;
  truncate : option Z;                        (* [false] is [None] *)
  metadata : option (list (string * string))  (* [null] is [None] *)
}.

Definition addSimpleRecord (p : IPSPatch) (offset : Z) (data : list Z) : IPSPatch :=
  mkPatch (records p ++ [mkRecord offset IPS_RECORD_SIMPLE (Z.of_nat (List.length data))
                                  (Some data) None])
          (truncate p) (metadata p).

Definition addRLERecord (p : IPSPatch) (offset length : Z) (byte : JS.value) : IPSPatch :=
  mkPatch (records p ++ [mkRecord offset IPS_RECORD_RLE length None byte])
          (truncate p) (metadata p).

(** [{ patcher: 'EBPatcher', ...metadataObject }]: a [patcher] key of the
    argument replaces the value and keeps the first place.  An object is an
    association list with distinct keys, in insertion order. *)
Definition setEBPMetadata (p : IPSPatch) (metadataObject : list (string * string))
  : IPSPatch :=
  let others := filter (fun kv => negb (String.eqb (fst kv) "patcher")) metadataObject in
  let patcher :=
    match List.find (fun kv => String.eqb (fst kv) "patcher") metadataObject with
    | Some kv => snd kv
    | None => "EBPatcher"%string
    end in
  mkPatch (records p) (truncate p) (Some (("patcher"%string, patcher) :: others)).

Definition validateSource (p : IPSPatch) (romFile : BinFile) (skipHeaderSize : Z) : bool :=
  true.

(** The first loop of [apply]: the largest [offset + length]. *)
Definition maxOffset_of (start : Z) (rs : list PatchRecord) : Z :=
  fold_left (fun m r => let endOffset := offset r + length r in
                        if m <? endOffset then endOffset else m) rs start.

Definition apply_record (patchedRom : BinFile) (r : PatchRecord) : JS.result BinFile :=
  let f := seek patchedRom (offset r) in
  if type r =? IPS_RECORD_RLE then
    JS.Ok (Nat.iter (Z.to_nat (length r)) (fun g => writeU8 g (JS.num (byte r))) f)
  else
    match data r with
    | Some d => writeBytes f d
    | None => JS.Throw JS.TypeError
    end.

Definition apply (p : IPSPatch) (romFile : BinFile) : JS.result BinFile :=
  let patchedRom := clone romFile in
  let maxOffset := maxOffset_of (fileSize patchedRom) (records p) in
  let patchedRom :=
    if fileSize patchedRom <? maxOffset then expand patchedRom maxOffset else patchedRom in
  let* patchedRom := JS.for_of (records p) apply_record patchedRom in
  let patchedRom :=
    match truncate p with
    | Some t => if t =? 0 then patchedRom else BinFile.truncate patchedRom t
    | None => patchedRom
    end in
  JS.Ok (setName patchedRom (patched_name romFile " (patched)")).

(** [offset < file.fileSize ? originalFile.data[offset] : 0].  In [create]
    both the original and the modified byte are read from
    [originalFile.data]; only the size tested differs. *)
Definition byte_below (originalFile : BinFile) (size offset : Z) : JS.value :=
  if offset <? size then U8.get (BinFile.data originalFile) offset else Some 0.

(** The inner [while (offset < maxSize)] of [create]: collects the run of
    differing bytes.  [n] counts the offsets left below [maxSize]. *)
Fixpoint collect (n : nat) (originalFile modifiedFile : BinFile) (offset : Z)
  (changes : list JS.value) : list JS.value * Z :=
  match n with
  | O => (changes, offset)
  | S n' =>
      let origByte := byte_below originalFile (fileSize originalFile) offset in
      let modByte := byte_below originalFile (fileSize modifiedFile) offset in
      if JS.strict_eq origByte modByte then (changes, offset)
      else collect n' originalFile modifiedFile (offset + 1) (changes ++ [modByte])
  end.

(** The outer [while (offset < maxSize)]; every turn moves [offset] forward,
    so [fuel = maxSize] turns are enough ([None]: out of fuel). *)
Fixpoint create_loop (fuel : nat) (originalFile modifiedFile : BinFile)
  (maxSize offset : Z) (patch : IPSPatch) : option IPSPatch :=
  if maxSize <=? offset then Some patch
  else
    match fuel with
    | O => None
    | S fuel' =>
        let originalByte := byte_below originalFile (fileSize originalFile) offset in
        let modifiedByte := byte_below originalFile (fileSize modifiedFile) offset in
        if JS.strict_eq originalByte modifiedByte then
          create_loop fuel' originalFile modifiedFile maxSize (offset + 1) patch
        else
          let startOffset := offset in
          let '(changes, offset1) :=
            collect (Z.to_nat (maxSize - offset)) originalFile modifiedFile offset [] in
          let n := Z.of_nat (List.length changes) in
          let patch1 :=
            if (3 <? n) && forallb (fun b => JS.strict_eq b (hd None changes)) changes
            then addRLERecord patch startOffset n (hd None changes)
            else addSimpleRecord patch startOffset
                   (U8.of_array (Some (map JS.num changes))) in
          create_loop fuel' originalFile modifiedFile maxSize offset1 patch1
    end.

Definition create (originalFile modifiedFile : BinFile)
  (metadataArg : option (list (string * string))) : option IPSPatch :=
  let patch := mkPatch [] None None in
  let patch := match metadataArg with
               | Some m => setEBPMetadata patch m
               | None => patch
               end in
  let maxSize := Z.max (fileSize originalFile) (fileSize modifiedFile) in
  match create_loop (Z.to_nat maxSize) originalFile modifiedFile maxSize 0 patch with
  | None => None
  | Some patch =>
      Some (if fileSize modifiedFile <? fileSize originalFile
            then mkPatch (records patch) (Some (fileSize modifiedFile)) (metadata patch)
            else patch)
  end.

(** [IPS.fromFile].  [JSON.parse] belongs to the language, not to the
    repository: it is a parameter; [None] is the exception that [fromFile]
    catches and ignores. *)
Section FromFile.
Variable JSON_parse : string -> option (list (string * string)).

Fixpoint fromFile_loop (fuel : nat) (patch : IPSPatch) (patchFile : BinFile)
  : BinFile * JS.result IPSPatch :=
  match fuel with
  | O => (patchFile, JS.Diverge)
  | S fuel' =>
      (* Check for EOF *)
      if fileSize patchFile <? BinFile.offset patchFile + 3
      then (patchFile, JS.Throw (JS.InvalidPatchFileError "Unexpected end of IPS file"))
      else
        let '(marker, f) := readString_ascii patchFile 3 in
        if String.eqb marker IPS_EOF then
          if BinFile.offset f <? fileSize f then
            if fileSize f - BinFile.offset f =? 3 then
              let '(t, f) := readU24 f in
              (f, JS.Ok (mkPatch (records patch) (Some t) (metadata patch)))
            else
              let '(metadataStr, f) := readString_ascii f (fileSize f - BinFile.offset f) in
              (f, match JSON_parse metadataStr with
                  | Some m => JS.Ok (mkPatch (records patch) (truncate patch) (Some m))
                  | None => JS.Ok patch
                  end)
          else (f, JS.Ok patch)
        else
          let f := seek f (BinFile.offset f - 3) in
          let '(offset, f) := readU24 f in
          let '(length, f) := readU16 f in
          if length =? 0 then
            let '(rleLength, f) := readU16 f in
            let '(rleByte, f) := readU8 f in
            fromFile_loop fuel' (addRLERecord patch offset rleLength rleByte) f
          else
            if fileSize f <? BinFile.offset f + length
            then (f, JS.Throw (JS.InvalidPatchFileError
                                 "Invalid IPS record: data extends beyond file"))
            else
              let '(data, f) := readBytes f length in
              fromFile_loop fuel' (addSimpleRecord patch offset data) f
  end.

(** Every turn that carries on has read five bytes or more, so the file
    size bounds the number of turns.  The file is returned with the patch:
    its cursor has moved. *)
Definition fromFile (patchFile : BinFile) : BinFile * JS.result IPSPatch :=
  let f := seek patchFile 0 in
  let '(magic, f) := readString_ascii f 5 in
  if negb (String.eqb magic IPS_MAGIC)
  then (f, JS.Throw (JS.InvalidPatchFileError "Invalid IPS file: missing PATCH header"))
  else fromFile_loop (S (Z.to_nat (fileSize f))) (mkPatch [] None None) f.

End FromFile.

(** [IPSPatch.export].  [JSON.stringify] belongs to the language: it is a
    parameter, and the text it gives is taken as a string of 8-bit
    characters.  A record without [data] makes [record.data!.length] a
    TypeError. *)
Section Writer.
Variable JSON_stringify : list (string * string) -> string.

(** [this.truncate && !this.metadata] *)
Definition writes_truncate (p : IPSPatch) : bool :=
  match truncate p, metadata p with
  | Some t, None => negb (t =? 0)
  | _, _ => false
  end.

(** The first loop of [export]: the size of the records. *)
Definition export_size_step (patchFileSize : Z) (r : PatchRecord) : JS.result Z :=
  if type r =? IPS_RECORD_RLE then JS.Ok (patchFileSize + (3 + 2 + 2 + 1))
  else
    match data r with
    | Some d => JS.Ok (patchFileSize + (3 + 2 + Z.of_nat (List.length d)))
    | None => JS.Throw JS.TypeError
    end.

(** The second loop of [export]: one record written. *)
Definition export_record (patchFile : BinFile) (r : PatchRecord) : JS.result BinFile :=
  let f := writeU24 patchFile (offset r) in
  if type r =? IPS_RECORD_RLE then
    let f := writeU16 f 0 in
    let f := writeU16 f (length r) in
    JS.Ok (writeU8 f (JS.num (byte r)))
  else
    match data r with
    | Some d => writeBytes (writeU16 f (Z.of_nat (List.length d))) d
    | None => JS.Throw JS.TypeError
    end.

Definition export (p : IPSPatch) (fileName : option string) : JS.result BinFile :=
  let* patchFileSize := JS.for_of (records p) export_size_step 5 in
  let patchFileSize := patchFileSize + 3 in
  let patchFileSize :=
    if writes_truncate p then patchFileSize + 3
    else match metadata p with
         | Some m => patchFileSize + Z.of_nat (String.length (JSON_stringify m))
         | None => patchFileSize
         end in
  let* patchFile := of_size patchFileSize in
  let baseFileName :=
    match fileName with
    | Some n => if String.eqb n EmptyString then "patch"%string else n
    | None => "patch"%string
    end in
  let extension := match metadata p with Some _ => ".ebp"%string | None => ".ips"%string end in
  let patchFile := setName patchFile (append baseFileName extension) in
  let* patchFile := writeString_ascii patchFile IPS_MAGIC in
  let* patchFile := JS.for_of (records p) export_record patchFile in
  let* patchFile := writeString_ascii patchFile IPS_EOF in
  if writes_truncate p then
    JS.Ok (writeU24 patchFile (match truncate p with Some t => t | None => 0 end))
  else
    match metadata p with
    | Some m => writeString_ascii patchFile (JSON_stringify m)
    | None => JS.Ok patchFile
    end.

End Writer.

End IPS.

(** ** UPS: the first half of src/lib/formats/ups.ts *)

Module UPS.
Import BinFile.

Definition UPS_MAGIC : string := "UPS1".

Record UPSRecord := mkRecord { offset : Z; XORdata : list JS.value }.

Record UPSPatch := mkPatch {
  upsRecords : list UPSRecord;
  sizeInput : Z;
  sizeOutput : Z;
  checksumInput : Z;
  checksumOutput : Z
}.

Definition addRecord (p : UPSPatch) (relativeOffset : Z) (xorData : list JS.value)
  : UPSPatch :=
  mkPatch (upsRecords p ++ [mkRecord relativeOffset xorData])
          (sizeInput p) (sizeOutput p) (checksumInput p) (checksumOutput p).

(** [romFile.hashCRC32(headerSize) === this.checksumInput]: no end offset is
    passed, so the checksum runs to the end of the buffer. *)
Definition validateSource (p : UPSPatch) (romFile : BinFile) (headerSize : Z) : bool :=
  hashCRC32 romFile headerSize None =? checksumInput p.

(** One record of [apply]; the state is the output, the source (whose
    cursor moves) and [absoluteOffset]. *)
Definition apply_record (st : BinFile * BinFile * Z) (r : UPSRecord)
  : BinFile * BinFile * Z :=
  let '(tempFile, romFile, absoluteOffset) := st in
  let absoluteOffset := absoluteOffset + offset r in
  let tempFile := seek tempFile absoluteOffset in
  let romFile := seek romFile absoluteOffset in
  let '(tempFile, romFile) :=
    fold_left
      (fun '(t, rom) xorByte =>
         let '(originalByte, rom') :=
           if isEOF rom then (Some 0, rom) else readU8 rom in
         (writeU8 t (JS.bxor (JS.num originalByte) (JS.num xorByte)), rom'))
      (XORdata r) (tempFile, romFile) in
  (tempFile, romFile, absoluteOffset + Z.of_nat (List.length (XORdata r))).

Definition apply (p : UPSPatch) (romFile : BinFile) : JS.result BinFile :=
  if negb (validateSource p romFile 0)
  then JS.Throw (JS.Error "Source ROM checksum mismatch")
  else
    (* Fix glitch when source file is larger than expected *)
    let '(sizeInput, sizeOutput) :=
      if sizeInput p <? fileSize romFile
      then (fileSize romFile,
            if sizeOutput p <? fileSize romFile then fileSize romFile else sizeOutput p)
      else (sizeInput p, sizeOutput p) in
    let* tempFile := of_size sizeOutput in
    let* tempFile := copyTo romFile tempFile 0 (Some sizeInput) in
    let '(tempFile, _, _) := fold_left apply_record (upsRecords p) (tempFile, romFile, 0) in
    if negb (hashCRC32 tempFile 0 None =? checksumOutput p)
    then JS.Throw (JS.Error "Target ROM checksum mismatch")
    else JS.Ok (setName tempFile (patched_name romFile " (patched)")).

(** The inner loop of [fromFile]: [while ((byte = readU8()) !== 0)]. *)
Fixpoint read_xor (fuel : nat) (f : BinFile) (acc : list JS.value)
  : option (list JS.value * BinFile) :=
  match fuel with
  | O => None
  | S fuel' =>
      let '(byte, f1) := readU8 f in
      if JS.strict_eq byte (Some 0) then Some (acc, f1)
      else read_xor fuel' f1 (acc ++ [byte])
  end.

Fixpoint read_records (fuel : nat) (patch : UPSPatch) (f : BinFile)
  : option (UPSPatch * BinFile) :=
  if BinFile.offset f <? fileSize f - 12 then
    match fuel with
    | O => None
    | S fuel' =>
        match readVLV f with
        | None => None
        | Some (relativeOffset, f1) =>
            match read_xor (S (Z.to_nat (fileSize f1 - BinFile.offset f1))) f1 [] with
            | None => None
            | Some (XORdifferences, f2) =>
                read_records fuel' (addRecord patch relativeOffset XORdifferences) f2
            end
        end
    end
  else Some (patch, f).

(** [UPSPatch.fromFile]: the patch, or [null] ([None]). *)
Definition fromFile (patchFile : BinFile) : BinFile * JS.result (option UPSPatch) :=
  let f := seek patchFile 0 in
  let '(is_magic, f) := readString_is f UPS_MAGIC in
  if negb is_magic then (f, JS.Ok None)
  else
    match readVLV f with
    | None => (f, JS.Diverge)
    | Some (sizeIn, f) =>
        match readVLV f with
        | None => (f, JS.Diverge)
        | Some (sizeOut, f) =>
            match read_records (Z.to_nat (fileSize f)) (mkPatch [] sizeIn sizeOut 0 0) f with
            | None => (f, JS.Diverge)
            | Some (patch, f) =>
                let f := with_littleEndian f true in
                let '(checksumInput, f) := readU32 f in
                let '(checksumOutput, f) := readU32 f in
                let '(crc, f) := readU32 f in
                if negb (crc =? hashCRC32 f 0 (Some (fileSize f - 4)))
                then (f, JS.Throw (JS.InvalidPatchFileError "Patch checksum mismatch"))
                else (with_littleEndian f false,
                      JS.Ok (Some (mkPatch (upsRecords patch) (sizeInput patch)
                                           (sizeOutput patch) checksumInput checksumOutput)))
            end
        end
    end.

End UPS.

(** ** PPF: src/lib/formats/ppf.ts *)

Module PPF.
Import BinFile.

Definition PPF_MAGIC : string := "PPF".
Definition PPF_BEGIN_FILE_ID_DIZ_MAGIC : string := "@BEGIN_FILE_ID.DIZ".
Definition PPF_IMAGETYPE_BIN : Z := 0.

Record PPFRecord := mkRecord {
  offset : Z;
  data : list Z;
  undoData : option (list Z)
}.

(** [blockCheck: boolean | number[]] *)
Inductive BlockCheck :=
| BCfalse
| BCtrue
| BCarray (bytes : list Z).

Record PPFPatch := mkPatch {
  version : Z;
  imageType : JS.value;
  blockCheck : BlockCheck;
  patchUndoData : bool;        (* the field [undoData] of the patch *)
  records : list PPFRecord;
  description : string;
  fileIdDiz : option string;
  inputFileSize : option Z
}.

(** [new PPFPatch()] *)
Definition new_patch : PPFPatch :=
  mkPatch 3 (Some PPF_IMAGETYPE_BIN) BCfalse false [] "Patch description" None None.

Definition truthy_blockCheck (b : BlockCheck) : bool :=
  match b with BCfalse => false | _ => true end.

Definition truthy_string (s : option string) : bool :=
  match s with Some (String _ _) => true | _ => false end.

(** [n.toString()] for an integer, [s.padStart(k, c)] and [s.padEnd(k, c)]. *)
Definition toString10 (n : Z) : string := NilZero.string_of_int (Z.to_int n).

Definition padStart (s : string) (k : nat) (c : ascii) : string :=
  append (string_of_list_ascii (repeat c (k - String.length s))) s.

Definition padEnd (s : string) (k : nat) (c : ascii) : string :=
  append s (string_of_list_ascii (repeat c (k - String.length s))).

Definition export_record (p : PPFPatch) (tempFile : BinFile) (r : PPFRecord)
  : JS.result BinFile :=
  let f :=
    if version p =? 3 then
      (* Write 64-bit offset (as two 32-bit values) *)
      writeU32 (writeU32 tempFile (JS.band (offset r) 0xFFFFFFFF))
               (JS.band (JS.shr (offset r) 32) 0xFFFFFFFF)
    else writeU32 tempFile (offset r) in
  let f := writeU8 f (Z.of_nat (List.length (data r))) in
  let* f := writeBytes f (U8.of_array (Some (data r))) in
  match patchUndoData p, undoData r with
  | true, Some u => writeBytes f (U8.of_array (Some u))
  | _, _ => JS.Ok f
  end.

Definition export (p : PPFPatch) (fileName : option string) : JS.result BinFile :=
  let patchFileSize := 5 + 1 + 50 in
  let patchFileSize :=
    fold_left (fun sz r => sz + 4 + 1 + Z.of_nat (List.length (data r))
                           + (if version p =? 3 then 4 else 0))
              (records p) patchFileSize in
  let patchFileSize :=
    if (version p =? 3) || (version p =? 2) then patchFileSize + 4 else patchFileSize in
  let patchFileSize :=
    if truthy_blockCheck (blockCheck p) then patchFileSize + 1024 else patchFileSize in
  let patchFileSize :=
    match fileIdDiz p with
    | Some (String c d) =>
        patchFileSize + 18 + Z.of_nat (String.length (String c d)) + 16 + 4
    | _ => patchFileSize
    end in
  let* tempFile := of_size patchFileSize in
  let name := match fileName with
              | Some (String c n) => String c n
              | _ => "patch"%string
              end in
  let tempFile := setName tempFile (append name ".ppf") in
  let* tempFile := writeString_ascii tempFile PPF_MAGIC in
  let* tempFile :=
    writeString_ascii tempFile (padStart (toString10 (version p * 10)) 2 "0") in
  let tempFile := writeU8 tempFile (version p + 1) in
  let* tempFile := writeString_ascii tempFile (padEnd (description p) 50 " ") in
  let tempFile :=
    if version p =? 3 then
      let f := writeU8 tempFile (JS.num (imageType p)) in
      let f := writeU8 f (if truthy_blockCheck (blockCheck p) then 1 else 0) in
      let f := writeU8 f (if patchUndoData p then 1 else 0) in
      writeU8 f 0
    else if version p =? 2 then
      writeU32 tempFile (match inputFileSize p with Some n => n | None => 0 end)
    else tempFile in
  let* tempFile :=
    match blockCheck p with
    | BCarray bytes => writeBytes tempFile (U8.of_array (Some bytes))
    | _ => JS.Ok tempFile
    end in
  let tempFile := with_littleEndian tempFile true in
  let* tempFile := JS.for_of (records p) (export_record p) tempFile in
  match fileIdDiz p with
  | Some (String c d) =>
      let diz := String c d in
      let* f := writeString_ascii tempFile PPF_BEGIN_FILE_ID_DIZ_MAGIC in
      let f := writeU8 (writeU8 f 0) 0 in
      let f := writeU32 f (Z.of_nat (String.length diz) + 16) in
      let* f := writeString_ascii f diz in
      writeString_ascii f "@END_FILE_ID.DIZ"
  | _ => JS.Ok tempFile
  end.

(** [parseInt(s)]: leading white space, a sign, a [0x] prefix, then digits;
    [None] is NaN. *)
Definition is_space (c : ascii) : bool :=
  let n := nat_of_ascii c in
  ((9 <=? n) && (n <=? 13) || (n =? 32) || (n =? 160))%nat.

Definition digit_of (radix : Z) (c : ascii) : option Z :=
  let n := Z.of_nat (nat_of_ascii c) in
  let d := if (48 <=? n) && (n <=? 57) then Some (n - 48)
           else if (97 <=? n) && (n <=? 122) then Some (n - 87)
           else if (65 <=? n) && (n <=? 90) then Some (n - 55)
           else None in
  match d with
  | Some v => if v <? radix then Some v else None
  | None => None
  end.

Fixpoint digits (radix : Z) (l : list ascii) (acc : option Z) : option Z :=
  match l with
  | [] => acc
  | c :: rest =>
      match digit_of radix c with
      | Some d => digits radix rest (Some (match acc with Some a => a | None => 0 end
                                            * radix + d))
      | None => acc
      end
  end.

Fixpoint drop_spaces (l : list ascii) : list ascii :=
  match l with
  | c :: rest => if is_space c then drop_spaces rest else l
  | [] => []
  end.

Definition parseInt (s : string) : option Z :=
  let l := drop_spaces (list_ascii_of_string s) in
  let '(sign, l) :=
    match l with
    | "-"%char :: rest => (-1, rest)
    | "+"%char :: rest => (1, rest)
    | _ => (1, l)
    end in
  let '(radix, l) :=
    match l with
    | "0"%char :: "x"%char :: rest => (16, rest)
    | "0"%char :: "X"%char :: rest => (16, rest)
    | _ => (10, l)
    end in
  option_map (Z.mul sign) (digits radix l None).

(** [s.replace(/ +$/, '')] *)
Definition strip_trailing_spaces (s : string) : string :=
  string_of_list_ascii
    (rev (let fix go (l : list ascii) :=
            match l with
            | " "%char :: rest => go rest
            | _ => l
            end in
          go (rev (list_ascii_of_string s)))).

(** One turn of [while (!patchFile.isEOF())]: [inl] carries on with a new
    record, [inr] is the [break] on the file-id trailer. *)
Definition parse_record (patch : PPFPatch) (patchFile : BinFile)
  : (PPFPatch * BinFile) + (PPFPatch * BinFile) :=
  let '(s4, f) := readString_ascii patchFile 4 in
  if String.eqb s4 (String.substring 1 4 PPF_BEGIN_FILE_ID_DIZ_MAGIC) then
    let f := skip f 14 in
    let '(diz, f) := readString_ascii f 3072 in
    let diz := match String.index 0 "@END_FILE_ID.DIZ" diz with
               | Some i => String.substring 0 i diz
               | None => EmptyString
               end in
    inr (mkPatch (version patch) (imageType patch) (blockCheck patch)
                 (patchUndoData patch) (records patch) (description patch)
                 (Some diz) (inputFileSize patch), f)
  else
    let f := skip f (-4) in
    let '(offset, f) :=
      if version patch =? 3 then
        let '(u64_1, f) := readU32 f in
        let '(u64_2, f) := readU32 f in
        (u64_1 + u64_2 * 0x100000000, f)
      else readU32 f in
    let '(len, f) := readU8 f in
    let '(data, f) := readBytes f (JS.num len) in
    let '(undo, f) :=
      if patchUndoData patch
      then let '(u, f) := readBytes f (JS.num len) in (Some u, f)
      else (None, f) in
    inl (mkPatch (version patch) (imageType patch) (blockCheck patch)
                 (patchUndoData patch) (records patch ++ [mkRecord offset data undo])
                 (description patch) (fileIdDiz patch) (inputFileSize patch), f).

Fixpoint parse_records (fuel : nat) (patch : PPFPatch) (patchFile : BinFile)
  : JS.result PPFPatch :=
  if isEOF patchFile then JS.Ok patch
  else
    match fuel with
    | O => JS.Diverge
    | S fuel' =>
        match parse_record patch patchFile with
        | inl (patch', f) => parse_records fuel' patch' f
        | inr (patch', _) => JS.Ok patch'
        end
    end.

(** [PPF.fromFile(patchFile)].  [parseInt(..) / 10] is compared with the
    integer [version2]: for an integer [n], [n / 10 === version2] is
    [n = 10 * version2] and [n / 10 > 3] is [n > 30]. *)
Definition fromFile (patchFile : BinFile) : JS.result PPFPatch :=
  let patch := new_patch in
  let f := seek patchFile 3 in
  let '(s2, f) := readString_ascii f 2 in
  let '(b, f) := readU8 f in
  match parseInt s2, b with
  | Some n, Some b =>
      let version2 := b + 1 in
      if negb (n =? 10 * version2) || (30 <? n)
      then JS.Throw (JS.InvalidPatchFileError "Invalid PPF version")
      else
        let '(d, f) := readString_ascii f 50 in
        let patch := mkPatch version2 (imageType patch) (blockCheck patch)
                             (patchUndoData patch) (records patch)
                             (strip_trailing_spaces d) None None in
        let '(patch, f) :=
          if version patch =? 3 then
            let '(it, f) := readU8 f in
            let '(bc, f) := readU8 f in
            let '(ud, f) := readU8 f in
            (mkPatch (version patch) it
                     (if JS.truthy bc then BCtrue else blockCheck patch)
                     (if JS.truthy ud then true else patchUndoData patch)
                     (records patch) (description patch) None None,
             skip f 1)
          else if version patch =? 2 then
            let '(sz, f) := readU32 f in
            (mkPatch (version patch) (imageType patch) BCtrue (patchUndoData patch)
                     (records patch) (description patch) None (Some sz), f)
          else (patch, f) in
        let '(patch, f) :=
          if truthy_blockCheck (blockCheck patch) then
            let '(bytes, f) := readBytes f 1024 in
            (mkPatch (version patch) (imageType patch) (BCarray bytes)
                     (patchUndoData patch) (records patch) (description patch)
                     None (inputFileSize patch), f)
          else (patch, f) in
        let f := with_littleEndian f true in
        parse_records (Z.to_nat (fileSize f)) patch f
  | _, _ => JS.Throw (JS.InvalidPatchFileError "Invalid PPF version")
  end.

End PPF.

(** ** RUP (NINJA2): the second half of src/lib/formats/ups.ts *)

Module RUP.
Import BinFile.

(** [readVLV(file)]: a length byte, then that many little-endian bytes. *)
Definition readVLV (file : BinFile) : Z * BinFile :=
  let '(nBytes, f0) := readU8 file in
  fold_left
    (fun '(data, f) i =>
       let '(b, f') := readU8 f in
       (data + JS.shl (JS.num b) (i * 8), f'))
    (map Z.of_nat (seq 0 (Z.to_nat (JS.num nBytes))))
    (0, f0).

(** [getVLVLength(data)]: [while (data) { ret++; data >>= 8 }]. *)
Fixpoint getVLVLength_loop (fuel : nat) (ret data : Z) : option Z :=
  match fuel with
  | O => None
  | S fuel' =>
      if data =? 0 then Some ret
      else getVLVLength_loop fuel' (ret + 1) (JS.shr data 8)
  end.

Definition getVLVLength (fuel : nat) (data : Z) : option Z :=
  getVLVLength_loop fuel 1 data.

Fixpoint writeVLV_loop (fuel : nat) (file : BinFile) (data : Z) : option BinFile :=
  match fuel with
  | O => None
  | S fuel' =>
      if data =? 0 then Some file
      else writeVLV_loop fuel' (writeU8 file (JS.band data 0xff)) (JS.shr data 8)
  end.

Definition writeVLV (fuel : nat) (file : BinFile) (data : Z) : option BinFile :=
  match getVLVLength fuel data with
  | None => None
  | Some n => writeVLV_loop fuel (writeU8 file (n - 1)) data
  end.

End RUP.

(** ** APS (GBA): the first half of src/lib/formats/aps-gba.ts *)

Module APSGBA.
Import BinFile.

Definition APS_GBA_MAGIC : string := "APS1".
Definition APS_GBA_BLOCK_SIZE : Z := 0x010000.
Definition APS_GBA_RECORD_SIZE : Z := 4 + 2 + 2 + APS_GBA_BLOCK_SIZE.

Record APSGBARecord := mkRecord {
  offset : Z;
  sourceCrc16 : Z;
  targetCrc16 : Z;
  xorBytes : list Z
}.

Record APSGBAPatch := mkPatch {
  sourceSize : Z;
  targetSize : Z;
  apsRecords : list APSGBARecord
}.

Fixpoint read_records (fuel : nat) (patch : APSGBAPatch) (f : BinFile)
  : JS.result APSGBAPatch :=
  if isEOF f then JS.Ok patch
  else
    match fuel with
    | O => JS.Diverge
    | S fuel' =>
        let '(offset, f) := readU32 f in
        let '(sourceCrc16, f) := readU16 f in
        let '(targetCrc16, f) := readU16 f in
        let '(xorBytes, f) := readBytes f APS_GBA_BLOCK_SIZE in
        read_records fuel'
          (mkPatch (sourceSize patch) (targetSize patch)
                   (apsRecords patch ++ [mkRecord offset sourceCrc16 targetCrc16 xorBytes]))
          f
    end.

Definition fromFile (patchFile : BinFile) : BinFile * JS.result (option APSGBAPatch) :=
  let f := with_littleEndian (seek patchFile 0) true in
  let '(is_magic, f) := readString_is f APS_GBA_MAGIC in
  if negb is_magic
     || (fileSize f <? 12 + APS_GBA_RECORD_SIZE)
     || negb (Z.rem (fileSize f - 12) APS_GBA_RECORD_SIZE =? 0)
  then (f, JS.Ok None)
  else
    let '(sourceSize, f) := readU32 f in
    let '(targetSize, f) := readU32 f in
    (f, match read_records (Z.to_nat (fileSize f)) (mkPatch sourceSize targetSize []) f with
        | JS.Ok p => JS.Ok (Some p)
        | JS.Throw e => JS.Throw e
        | JS.Diverge => JS.Diverge
        end).

(** [validateSource(sourceFile, skipHeaderSize)]: the answer and the file,
    whose cursor the loop over the records moves. *)
Fixpoint validate_records (rs : list APSGBARecord) (sourceFile : BinFile)
  (skipHeaderSize : Z) : bool * BinFile :=
  match rs with
  | [] => (true, sourceFile)
  | record :: rest =>
      let sourceFile := seek sourceFile (offset record + skipHeaderSize) in
      if negb (hashCRC16 sourceFile (offset record + skipHeaderSize)
                         (Some APS_GBA_BLOCK_SIZE)
               =? sourceCrc16 record)
      then (false, sourceFile)
      else validate_records rest sourceFile skipHeaderSize
  end.

Definition validateSource (p : APSGBAPatch) (sourceFile : BinFile) (skipHeaderSize : Z)
  : bool * BinFile :=
  if negb (fileSize sourceFile =? sourceSize p) then (false, sourceFile)
  else validate_records (apsRecords p) sourceFile skipHeaderSize.

(** One record of [apply]: the block of 65536 bytes, then the check of its
    CRC16; the state is the output and the ROM, whose cursor moves. *)
Definition apply_record (st : BinFile * BinFile) (record : APSGBARecord)
  : JS.result (BinFile * BinFile) :=
  let '(tempFile, romFile) := st in
  let romFile := seek romFile (offset record) in
  let tempFile := seek tempFile (offset record) in
  let '(tempFile, romFile) :=
    fold_left
      (fun '(t, rom) j =>
         let '(sourceByte, rom') := readU8 rom in
         let xorByte := nth_error (xorBytes record) j in
         (writeU8 t (JS.bxor (JS.num sourceByte) (JS.num xorByte)), rom'))
      (seq 0 (Z.to_nat APS_GBA_BLOCK_SIZE)) (tempFile, romFile) in
  if negb (hashCRC16 tempFile (offset record) (Some APS_GBA_BLOCK_SIZE)
           =? targetCrc16 record)
  then JS.Throw (JS.Error "Target ROM checksum mismatch")
  else JS.Ok (tempFile, romFile).

(** [apply(romFile)]: the copy into the new buffer starts at the cursor of
    [romFile], where [validateSource] left it. *)
Definition apply (p : APSGBAPatch) (romFile : BinFile) : JS.result BinFile :=
  let '(valid, romFile) := validateSource p romFile 0 in
  if negb valid then JS.Throw (JS.Error "Source ROM checksum mismatch")
  else
    let* tempFile := of_size (targetSize p) in
    let* tempFile := copyTo romFile tempFile 0 (Some (fileSize romFile)) in
    let* (tempFile, _) := JS.for_of (apsRecords p) apply_record (tempFile, romFile) in
    JS.Ok tempFile.

(** [export(fileName)]; [writeString(APS_GBA_MAGIC)] uses the default
    encoding, which on the ASCII text of the magic yields its character
    codes. *)
Definition export (p : APSGBAPatch) (fileName : option string) : JS.result BinFile :=
  let patchFileSize := 12 + Z.of_nat (List.length (apsRecords p)) * APS_GBA_RECORD_SIZE in
  let* tempFile := of_size patchFileSize in
  let tempFile :=
    with_fileName tempFile
      (append (match fileName with Some n => n | None => "patch"%string end) ".aps") in
  let tempFile := with_littleEndian tempFile true in
  let* tempFile := writeString_ascii tempFile APS_GBA_MAGIC in
  let tempFile := writeU32 tempFile (sourceSize p) in
  let tempFile := writeU32 tempFile (targetSize p) in
  JS.for_of (apsRecords p)
            (fun tempFile r =>
               writeBytes
                 (writeU16 (writeU16 (writeU32 tempFile (offset r)) (sourceCrc16 r))
                           (targetCrc16 r))
                 (xorBytes r))
            tempFile.

End APSGBA.

(** ** PMSR: the second half of src/lib/formats/aps-gba.ts *)

Module PMSR.
Import BinFile.

Definition PMSR_MAGIC : string := "PMSR".
Definition PAPER_MARIO_USA10_CRC32 : Z := 0xa7f5cd7e.
Definition PAPER_MARIO_USA10_FILE_SIZE : Z := 41943040.

Record PMSRRecord := mkRecord { offset : Z; data : list Z }.

Record PMSRPatch := mkPatch { targetSize : Z; records : list PMSRRecord }.

Definition read_record (st : PMSRPatch * BinFile) : PMSRPatch * BinFile :=
  let '(patch, f) := st in
  let '(offset, f) := readU32 f in
  let '(length, f) := readU32 f in
  let '(data, f) := readBytes f length in
  (mkPatch (if targetSize patch <? offset + length then offset + length
            else targetSize patch)
           (records patch ++ [mkRecord offset data]),
   f).

Definition fromFile (patchFile : BinFile) : BinFile * option PMSRPatch :=
  let f := seek patchFile 0 in
  let '(is_magic, f) := readString_is f PMSR_MAGIC in
  if negb is_magic then (f, None)
  else
    let '(nRecords, f) := readU32 f in
    let '(patch, f) :=
      Nat.iter (Z.to_nat nRecords) read_record
               (mkPatch PAPER_MARIO_USA10_FILE_SIZE [], f) in
    (f, Some patch).

Definition validateSource (romFile : BinFile) : bool :=
  (fileSize romFile =? PAPER_MARIO_USA10_FILE_SIZE)
  && (hashCRC32 romFile 0 None =? PAPER_MARIO_USA10_CRC32).

(** [apply(romFile, validate)]: the copy into a new buffer starts at the
    cursor of [romFile]. *)
Definition apply (p : PMSRPatch) (romFile : BinFile) (validate : bool)
  : JS.result BinFile :=
  if validate && negb (validateSource romFile)
  then JS.Throw (JS.Error "Source ROM checksum mismatch")
  else
    let* tempFile :=
      if targetSize p =? fileSize romFile then JS.Ok (clone romFile)
      else (let* t := of_size (targetSize p) in copyTo romFile t 0 None) in
    JS.for_of (records p)
              (fun tempFile r => writeBytes (seek tempFile (offset r)) (data r))
              tempFile.

(** [export(fileName)]; [writeString(PMSR_MAGIC)] uses the default
    encoding, which on the ASCII text of the magic yields its character
    codes. *)
Definition export (p : PMSRPatch) (fileName : option string) : JS.result BinFile :=
  let patchFileSize :=
    fold_left (fun size r => size + (8 + Z.of_nat (List.length (data r)))) (records p) 8 in
  let* tempFile := of_size patchFileSize in
  let tempFile :=
    with_fileName tempFile
      (append (match fileName with Some n => n | None => "patch"%string end) ".pmsr") in
  let* tempFile := writeString_ascii tempFile PMSR_MAGIC in
  let tempFile := writeU32 tempFile (Z.of_nat (List.length (records p))) in
  JS.for_of (records p)
            (fun tempFile r =>
               writeBytes (writeU32 (writeU32 tempFile (offset r))
                                    (Z.of_nat (List.length (data r))))
                          (data r))
            tempFile.

(** A block of differences under construction: its offset and the bytes
    read from the modified file. *)
Definition Diff : Type := Z * list JS.value.

(** The loop of [buildFromRoms], [while (!modified.isEOF())]: every turn
    reads one byte of [modified]; [None] when the turns allowed run out. *)
Fixpoint build_loop (fuel : nat) (original modified : BinFile)
  (differences : list Diff) (currentDiff : option Diff)
  : option (BinFile * BinFile * list Diff * option Diff) :=
  if isEOF modified then Some (original, modified, differences, currentDiff)
  else
    match fuel with
    | O => None
    | S fuel' =>
        let offset := BinFile.offset modified in
        let '(originalByte, original1) :=
          if isEOF original then (Some 0, original) else readU8 original in
        let '(modifiedByte, modified1) := readU8 modified in
        if negb (JS.strict_eq originalByte modifiedByte) then
          match currentDiff with
          | Some (o, d) =>
              if negb (offset =? o + Z.of_nat (List.length d)) then
                (* Start new difference block *)
                build_loop fuel' original1 modified1 (differences ++ [(o, d)])
                           (Some (offset, [modifiedByte]))
              else
                (* Continue current difference block *)
                build_loop fuel' original1 modified1 differences
                           (Some (o, d ++ [modifiedByte]))
          | None =>
              build_loop fuel' original1 modified1 differences
                         (Some (offset, [modifiedByte]))
          end
        else
          match currentDiff with
          | Some cd =>
              (* End current difference block *)
              build_loop fuel' original1 modified1 (differences ++ [cd]) None
          | None => build_loop fuel' original1 modified1 differences None
          end
    end.

(** [buildFromRoms(original, modified)]: the two files, whose cursors have
    moved, and the patch. *)
Definition buildFromRoms (original modified : BinFile)
  : option (BinFile * BinFile * PMSRPatch) :=
  let original := seek original 0 in
  let modified := seek modified 0 in
  match build_loop (Z.to_nat (fileSize modified)) original modified [] None with
  | None => None
  | Some (original, modified, differences, currentDiff) =>
      let differences :=
        match currentDiff with
        | Some cd => differences ++ [cd]
        | None => differences
        end in
      Some (original, modified,
            mkPatch (fileSize modified)
                    (map (fun diff : Diff =>
                            mkRecord (fst diff) (U8.of_array (Some (map JS.num (snd diff)))))
                         differences))
  end.

End PMSR.

(** ** BPS: src/lib/formats/bps.ts *)

Module BPS.
Import BinFile.

Definition BPS_ACTION_SOURCE_READ : Z := 0.
Definition BPS_ACTION_TARGET_READ : Z := 1.
Definition BPS_ACTION_SOURCE_COPY : Z := 2.
Definition BPS_ACTION_TARGET_COPY : Z := 3.

Record BPSAction := mkAction {
  type : Z;
  length : Z;
  bytes : option (list Z);
  relativeOffset : option Z
}.

Record BPSPatch := mkPatch {
  sourceSize : Z;
  targetSize : Z;
  metaData : string;
  actions : list BPSAction;
  sourceChecksum : Z;
  targetChecksum : Z;
  patchChecksum : Z
}.

Definition validateSource (p : BPSPatch) (romFile : BinFile) (headerSize : Z) : bool :=
  sourceChecksum p =? hashCRC32 romFile headerSize None.

(** [while (actionLength--) { tempFile.writeU8(array[rel]); rel++ }], the
    array being the source's (SourceCopy) or the output's own (TargetCopy).
    [rel] is [None] when it is NaN.  A negative count never reaches 0. *)
Fixpoint copy_loop (n : nat) (from_target : bool) (romFile tempFile : BinFile)
  (rel : option Z) : BinFile * option Z :=
  match n with
  | O => (tempFile, rel)
  | S n' =>
      let array := if from_target then data tempFile else data romFile in
      let v := match rel with Some i => U8.get array i | None => None end in
      copy_loop n' from_target romFile (writeU8 tempFile (JS.num v))
                (option_map (fun i => i + 1) rel)
  end.

Definition copy_action (from_target : bool) (romFile tempFile : BinFile)
  (rel : option Z) (a : BPSAction) : JS.result (BinFile * option Z) :=
  let rel1 := match rel, relativeOffset a with
              | Some r, Some d => Some (r + d)
              | _, _ => None
              end in
  if length a <? 0 then JS.Diverge
  else JS.Ok (copy_loop (Z.to_nat (length a)) from_target romFile tempFile rel1).

(** The state of the loop of [apply]: the output and the two relative offsets. *)
Definition apply_action (romFile : BinFile)
  (st : BinFile * option Z * option Z) (a : BPSAction)
  : JS.result (BinFile * option Z * option Z) :=
  let '(tempFile, sourceRelativeOffset, targetRelativeOffset) := st in
  if type a =? BPS_ACTION_SOURCE_READ then
    let* t1 := copyTo romFile tempFile (offset tempFile) (Some (length a)) in
    JS.Ok (skip t1 (length a), sourceRelativeOffset, targetRelativeOffset)
  else if type a =? BPS_ACTION_TARGET_READ then
    let* t1 := writeBytes tempFile (U8.of_array (bytes a)) in
    JS.Ok (t1, sourceRelativeOffset, targetRelativeOffset)
  else if type a =? BPS_ACTION_SOURCE_COPY then
    let* (t1, rel) := copy_action false romFile tempFile sourceRelativeOffset a in
    JS.Ok (t1, rel, targetRelativeOffset)
  else if type a =? BPS_ACTION_TARGET_COPY then
    let* (t1, rel) := copy_action true romFile tempFile targetRelativeOffset a in
    JS.Ok (t1, sourceRelativeOffset, rel)
  else JS.Ok st.

Definition apply (p : BPSPatch) (romFile : BinFile) (validate : bool)
  : JS.result BinFile :=
  if validate && negb (validateSource p romFile 0)
  then JS.Throw (JS.Error "Source ROM checksum mismatch")
  else
    let* tempFile := of_size (targetSize p) in
    let* (tempFile, _, _) :=
      JS.for_of (actions p) (apply_action romFile) (tempFile, Some 0, Some 0) in
    if validate && negb (targetChecksum p =? hashCRC32 tempFile 0 None)
    then JS.Throw (JS.Error "Target ROM checksum mismatch")
    else JS.Ok (setName tempFile (patched_name romFile " (patched)")).

(** *** Variable-length values (BPS style)

    The three loops are [while (true)]; [fuel] bounds the number of turns
    and [None] means that the loop did not finish within it. *)

(** [_readVLV(file)]: the byte with bit 7 set is the last one. *)
Fixpoint _readVLV_loop (fuel : nat) (file : BinFile) (data shift : Z)
  : option (Z * BinFile) :=
  match fuel with
  | O => None
  | S fuel' =>
      let '(x, f1) := readU8 file in
      let data1 := data + JS.band (JS.num x) 0x7f * shift in
      if negb (JS.band (JS.num x) 0x80 =? 0) then Some (data1, f1)
      else
        let shift1 := JS.shl shift 7 in
        _readVLV_loop fuel' f1 (data1 + shift1) shift1
  end.

Definition _readVLV (fuel : nat) (file : BinFile) : option (Z * BinFile) :=
  _readVLV_loop fuel file 0 1.

(** [_writeVLV(data)], bound to the patch file as [this]. *)
Fixpoint _writeVLV (fuel : nat) (this : BinFile) (data : Z) : option BinFile :=
  match fuel with
  | O => None
  | S fuel' =>
      let x := JS.band data 0x7f in
      let data1 := JS.shr data 7 in
      if data1 =? 0 then Some (writeU8 this (JS.bor 0x80 x))
      else _writeVLV fuel' (writeU8 this x) (data1 - 1)
  end.

(** [_getVLVLen(data)] *)
Fixpoint _getVLVLen_loop (fuel : nat) (len data : Z) : option Z :=
  match fuel with
  | O => None
  | S fuel' =>
      let data1 := JS.shr data 7 in
      if data1 =? 0 then Some (len + 1)
      else _getVLVLen_loop fuel' (len + 1) (data1 - 1)
  end.

Definition _getVLVLen (fuel : nat) (data : Z) : option Z := _getVLVLen_loop fuel 0 data.

(** *** [export], [calculateFileChecksum] and [fromFile]

    [fuel] bounds the turns of every loop that the source leaves unbounded;
    a loop that does not finish within it does not return. *)

Definition BPS_MAGIC : string := "BPS1".

Definition returned {A} (o : option A) : JS.result A :=
  match o with Some a => JS.Ok a | None => JS.Diverge end.

(** [((action.length - 1) << 2) + action.type] *)
Definition action_code (a : BPSAction) : Z := JS.shl (length a - 1) 2 + type a.

(** [(Math.abs(relativeOffset) << 1) + (relativeOffset < 0 ? 1 : 0)]; of a
    missing offset [Math.abs] makes NaN, which [<<] takes for 0, and the
    comparison is false. *)
Definition offset_code (a : BPSAction) : Z :=
  match relativeOffset a with
  | Some r => JS.shl (Z.abs r) 1 + (if r <? 0 then 1 else 0)
  | None => 0
  end.

Definition is_copy (type : Z) : bool :=
  (type =? BPS_ACTION_SOURCE_COPY) || (type =? BPS_ACTION_TARGET_COPY).

(** The first loop of [export]: the size of the actions. *)
Definition export_size_step (fuel : nat) (patchFileSize : Z) (a : BPSAction)
  : JS.result Z :=
  let* n := returned (_getVLVLen fuel (action_code a)) in
  let patchFileSize := patchFileSize + n in
  if type a =? BPS_ACTION_TARGET_READ then JS.Ok (patchFileSize + length a)
  else if is_copy (type a) then
    let* n := returned (_getVLVLen fuel (offset_code a)) in
    JS.Ok (patchFileSize + n)
  else JS.Ok patchFileSize.

(** The second loop of [export]: one action written. *)
Definition export_action (fuel : nat) (patchFile : BinFile) (a : BPSAction)
  : JS.result BinFile :=
  let* patchFile := returned (_writeVLV fuel patchFile (action_code a)) in
  if type a =? BPS_ACTION_TARGET_READ then writeBytes patchFile (U8.of_array (bytes a))
  else if is_copy (type a) then returned (_writeVLV fuel patchFile (offset_code a))
  else JS.Ok patchFile.

Definition export (fuel : nat) (p : BPSPatch) (fileName : option string)
  : JS.result BinFile :=
  let patchFileSize := Z.of_nat (String.length BPS_MAGIC) in
  let* n := returned (_getVLVLen fuel (sourceSize p)) in
  let patchFileSize := patchFileSize + n in
  let* n := returned (_getVLVLen fuel (targetSize p)) in
  let patchFileSize := patchFileSize + n in
  let* n := returned (_getVLVLen fuel (Z.of_nat (String.length (metaData p)))) in
  let patchFileSize := patchFileSize + n in
  let patchFileSize := patchFileSize + Z.of_nat (String.length (metaData p)) in
  let* patchFileSize := JS.for_of (actions p) (export_size_step fuel) patchFileSize in
  let patchFileSize := patchFileSize + 12 in
  let* patchFile := of_size patchFileSize in
  let baseFileName :=
    match fileName with
    | Some n => if String.eqb n EmptyString then "patch"%string else n
    | None => "patch"%string
    end in
  let patchFile := setName patchFile (append baseFileName ".bps") in
  let patchFile := with_littleEndian patchFile true in
  let* patchFile := writeString_ascii patchFile BPS_MAGIC in
  let* patchFile := returned (_writeVLV fuel patchFile (sourceSize p)) in
  let* patchFile := returned (_writeVLV fuel patchFile (targetSize p)) in
  let* patchFile :=
    returned (_writeVLV fuel patchFile (Z.of_nat (String.length (metaData p)))) in
  let* patchFile := writeString_ascii patchFile (metaData p) in
  let* patchFile := JS.for_of (actions p) (export_action fuel) patchFile in
  let patchFile := writeU32 patchFile (sourceChecksum p) in
  let patchFile := writeU32 patchFile (targetChecksum p) in
  JS.Ok (writeU32 patchFile (patchChecksum p)).

Definition calculateFileChecksum (fuel : nat) (p : BPSPatch) : JS.result Z :=
  let* patchFile := export fuel p None in
  JS.Ok (hashCRC32 patchFile 0 (Some (fileSize patchFile - 4))).

(** One turn of the loop of [fromFile] over the actions. *)
Definition read_action (fuel : nat) (patchFile : BinFile)
  : JS.result (BPSAction * BinFile) :=
  let* (data, patchFile) := returned (_readVLV fuel patchFile) in
  let type := JS.band data 3 in
  let length := JS.shr data 2 + 1 in
  if type =? BPS_ACTION_TARGET_READ then
    let '(bytes, patchFile) := readBytes patchFile length in
    JS.Ok (mkAction type length (Some bytes) None, patchFile)
  else if is_copy type then
    let* (relativeOffset, patchFile) := returned (_readVLV fuel patchFile) in
    JS.Ok (mkAction type length None
             (Some ((if negb (JS.band relativeOffset 1 =? 0) then -1 else 1)
                    * JS.shr relativeOffset 1)),
           patchFile)
  else JS.Ok (mkAction type length None None, patchFile).

Fixpoint read_actions (turns fuel : nat) (actions : list BPSAction)
  (patchFile : BinFile) (endActionsOffset : Z)
  : JS.result (list BPSAction * BinFile) :=
  if offset patchFile <? endActionsOffset then
    match turns with
    | O => JS.Diverge
    | S turns' =>
        let* (action, patchFile) := read_action fuel patchFile in
        read_actions turns' fuel (actions ++ [action]) patchFile endActionsOffset
    end
  else JS.Ok (actions, patchFile).

(** [BPS.fromFile(patchFile)]: the patch and the patch file, which is
    little-endian now and whose cursor has moved. *)
Definition fromFile (fuel : nat) (patchFile : BinFile) : JS.result (BPSPatch * BinFile) :=
  let patchFile := with_littleEndian patchFile true in
  let patchFile := seek patchFile 4 in
  let* (sourceSize, patchFile) := returned (_readVLV fuel patchFile) in
  let* (targetSize, patchFile) := returned (_readVLV fuel patchFile) in
  let* (metaDataLength, patchFile) := returned (_readVLV fuel patchFile) in
  let '(metaData, patchFile) :=
    if negb (metaDataLength =? 0) then readString_ascii patchFile metaDataLength
    else (EmptyString, patchFile) in
  (* Read actions *)
  let endActionsOffset := fileSize patchFile - 12 in
  let* (actions, patchFile) := read_actions fuel fuel [] patchFile endActionsOffset in
  (* Read checksums *)
  let '(sourceChecksum, patchFile) := readU32 patchFile in
  let '(targetChecksum, patchFile) := readU32 patchFile in
  let '(patchChecksum, patchFile) := readU32 patchFile in
  let patch := mkPatch sourceSize targetSize metaData actions
                       sourceChecksum targetChecksum patchChecksum in
  let* crc := calculateFileChecksum fuel patch in
  if negb (patchChecksum =? crc)
  then JS.Throw (JS.InvalidPatchFileError "Patch checksum mismatch")
  else JS.Ok (patch, patchFile).

End BPS.

(** ** The byte cursor over a store

    [BinFile] objects and the typed arrays they point to live in a store, so
    that two objects can be told apart from two views of one array.  A
    typed-array write mutates the array in place; [expand] allocates a new
    array and leaves the old one as it was.  [None] stands for a dangling
    reference (or the RangeError of [writeBytes]); no modelled call produces
    one from a valid store. *)

Module Store.

Definition loc := nat.

(** A [BinFile] object: the fields of the class, [data] being a reference. *)
Record Obj := mkObj {
  fileName : string;
  fileSize : Z;
  littleEndian : bool;
  offset : Z;
  data : loc;
  _offsetsStack : list Z
}.

Record heap := mkHeap {
  arrays : gmap loc (list Z);
  files : gmap loc Obj
}.

Definition with_data (o : Obj) (a : loc) : Obj :=
  mkObj (fileName o) (fileSize o) (littleEndian o) (offset o) a (_offsetsStack o).

(** The object at [this] read as a value of the pure model. *)
Definition view (h : heap) (this : loc) : option BinFile.BinFile :=
  o ← files h !! this;
  arr ← arrays h !! data o;
  Some (BinFile.mkBinFile (fileName o) (fileSize o) (littleEndian o) (offset o) arr
                          (_offsetsStack o)).

(** [new Uint8Array(..)]: a fresh location. *)
Definition alloc_array (h : heap) (bytes : list Z) : heap * loc :=
  let a := fresh (dom (arrays h)) in
  (mkHeap (<[a := bytes]> (arrays h)) (files h), a).

(** [new BinFile(..)]: a fresh object. *)
Definition alloc_file (h : heap) (o : Obj) : heap * loc :=
  let l := fresh (dom (files h)) in
  (mkHeap (arrays h) (<[l := o]> (files h)), l).

(** [clone()]: [this.data.slice()] is a new array, and the constructor
    copies it once more into the array the new object keeps. *)
Definition clone (h : heap) (this : loc) : option (heap * loc) :=
  o ← files h !! this;
  arr ← arrays h !! data o;
  let '(h1, a1) := alloc_array h (U8.slice arr 0 (Z.of_nat (length arr))) in
  let '(h2, a2) := alloc_array h1 (U8.slice arr 0 (Z.of_nat (length arr))) in
  Some (alloc_file h2 (mkObj (fileName o) (fileSize o) (littleEndian o) 0 a2 [])).

(** [expand(newSize)] *)
Definition expand (h : heap) (this : loc) (newSize : Z) : option heap :=
  o ← files h !! this;
  arr ← arrays h !! data o;
  if newSize <=? Z.of_nat (length arr) then Some h
  else
    let '(h1, a) :=
      alloc_array h (arr ++ repeat 0 (Z.to_nat newSize - length arr)%nat) in
    Some (mkHeap (arrays h1) (<[this := with_data o a]> (files h1))).

(** [writeU8(value)] *)
Definition writeU8 (h : heap) (this : loc) (value : Z) : option heap :=
  o ← files h !! this;
  arr ← arrays h !! data o;
  h1 ← (if Z.of_nat (length arr) <=? offset o then expand h this (offset o + 1)
        else Some h);
  o1 ← files h1 !! this;
  arr1 ← arrays h1 !! data o1;
  let arr2 := U8.put arr1 (offset o1) (JS.band value 255) in
  let offset2 := offset o1 + 1 in
  let size2 := if fileSize o1 <? offset2 then offset2 else fileSize o1 in
  Some (mkHeap (<[data o1 := arr2]> (arrays h1))
               (<[this := mkObj (fileName o1) size2 (littleEndian o1) offset2 (data o1)
                                (_offsetsStack o1)]> (files h1))).

Definition writeU16 (h : heap) (this : loc) (value : Z) : option heap :=
  o ← files h !! this;
  if littleEndian o then
    h1 ← writeU8 h this (JS.band value 255);
    writeU8 h1 this (JS.band (JS.shr value 8) 255)
  else
    h1 ← writeU8 h this (JS.band (JS.shr value 8) 255);
    writeU8 h1 this (JS.band value 255).

Definition writeU24 (h : heap) (this : loc) (value : Z) : option heap :=
  o ← files h !! this;
  if littleEndian o then
    h1 ← writeU8 h this (JS.band value 255);
    h2 ← writeU8 h1 this (JS.band (JS.shr value 8) 255);
    writeU8 h2 this (JS.band (JS.shr value 16) 255)
  else
    h1 ← writeU8 h this (JS.band (JS.shr value 16) 255);
    h2 ← writeU8 h1 this (JS.band (JS.shr value 8) 255);
    writeU8 h2 this (JS.band value 255).

Definition writeU32 (h : heap) (this : loc) (value : Z) : option heap :=
  o ← files h !! this;
  if littleEndian o then
    h1 ← writeU8 h this (JS.band value 255);
    h2 ← writeU8 h1 this (JS.band (JS.shr value 8) 255);
    h3 ← writeU8 h2 this (JS.band (JS.shr value 16) 255);
    writeU8 h3 this (JS.band (JS.shr value 24) 255)
  else
    h1 ← writeU8 h this (JS.band (JS.shr value 24) 255);
    h2 ← writeU8 h1 this (JS.band (JS.shr value 16) 255);
    h3 ← writeU8 h2 this (JS.band (JS.shr value 8) 255);
    writeU8 h3 this (JS.band value 255).

(** [writeBytes(data)] *)
Definition writeBytes (h : heap) (this : loc) (bytes : list Z) : option heap :=
  o ← files h !! this;
  arr ← arrays h !! data o;
  let requiredSize := offset o + Z.of_nat (length bytes) in
  h1 ← (if Z.of_nat (length arr) <? requiredSize then expand h this requiredSize
        else Some h);
  o1 ← files h1 !! this;
  arr1 ← arrays h1 !! data o1;
  match U8.set arr1 bytes (offset o1) with
  | JS.Ok arr2 =>
      let offset2 := offset o1 + Z.of_nat (length bytes) in
      let size2 := if fileSize o1 <? offset2 then offset2 else fileSize o1 in
      Some (mkHeap (<[data o1 := arr2]> (arrays h1))
                   (<[this := mkObj (fileName o1) size2 (littleEndian o1) offset2
                                    (data o1) (_offsetsStack o1)]> (files h1)))
  | _ => None
  end.

(** The writes and [expand], as commands run one after the other on one
    object. *)
Inductive command :=
| WriteU8 (value : Z)
| WriteU16 (value : Z)
| WriteU24 (value : Z)
| WriteU32 (value : Z)
| WriteBytes (bytes : list Z)
| Expand (newSize : Z).

Definition run (h : heap) (this : loc) (c : command) : option heap :=
  match c with
  | WriteU8 v => writeU8 h this v
  | WriteU16 v => writeU16 h this v
  | WriteU24 v => writeU24 h this v
  | WriteU32 v => writeU32 h this v
  | WriteBytes bytes => writeBytes h this bytes
  | Expand n => expand h this n
  end.

(** The same commands on a value of the pure model. *)
Definition run_pure (f : BinFile.BinFile) (c : command) : JS.result BinFile.BinFile :=
  match c with
  | WriteU8 v => JS.Ok (BinFile.writeU8 f v)
  | WriteU16 v => JS.Ok (BinFile.writeU16 f v)
  | WriteU24 v => JS.Ok (BinFile.writeU24 f v)
  | WriteU32 v => JS.Ok (BinFile.writeU32 f v)
  | WriteBytes bytes => BinFile.writeBytes f bytes
  | Expand n => JS.Ok (BinFile.expand f n)
  end.

Fixpoint run_all (h : heap) (this : loc) (cs : list command) : option heap :=
  match cs with
  | [] => Some h
  | c :: rest => h1 ← run h this c; run_all h1 this rest
  end.

End Store.

(** ** The dispatcher: src/unnamed/part_002 *)

Module RomPatcher.
Import BinFile.

(** A parsed patch: one variant per registered codec. *)
Inductive PatchFile :=
| IPSPatchFile (p : IPS.IPSPatch)
| UPSPatchFile (p : UPS.UPSPatch)
| APSGBAPatchFile (p : APSGBA.APSGBAPatch)
| PMSRPatchFile (p : PMSR.PMSRPatch)
| VCDIFFPatchFile (p : VCDIFF.VCDIFFPatch).

(** [PatchFormatModule]: [parse] gives a patch or [null], may throw, and
    moves the cursor of the file it is given. *)
Record PatchFormatModule := mkModule {
  name : string;
  extension : string;
  magic : string;
  parse : BinFile -> BinFile * JS.result (option PatchFile)
}.

Definition lift {A} (inj : A -> PatchFile) (r : JS.result (option A))
  : JS.result (option PatchFile) :=
  match r with
  | JS.Ok o => JS.Ok (option_map inj o)
  | JS.Throw e => JS.Throw e
  | JS.Diverge => JS.Diverge
  end.

Section Registry.
Variable JSON_parse : string -> option (list (string * string)).

(** [IPSModule.parse]: whatever [IPS.fromFile] throws is caught and turned
    into [null]. *)
Definition IPSModule : PatchFormatModule :=
  mkModule "IPS" ".ips" IPS.IPS_MAGIC
    (fun file =>
       let '(f, r) := IPS.fromFile JSON_parse file in
       (f, match r with
           | JS.Ok p => JS.Ok (Some (IPSPatchFile p))
           | JS.Throw _ => JS.Ok None
           | JS.Diverge => JS.Diverge
           end)).

Definition UPSModule : PatchFormatModule :=
  mkModule "UPS" ".ups" UPS.UPS_MAGIC
    (fun file => let '(f, r) := UPS.fromFile file in (f, lift UPSPatchFile r)).

Definition APSGBAModule : PatchFormatModule :=
  mkModule "APS-GBA" ".aps" APSGBA.APS_GBA_MAGIC
    (fun file => let '(f, r) := APSGBA.fromFile file in (f, lift APSGBAPatchFile r)).

Definition PMSRModule : PatchFormatModule :=
  mkModule "PMSR" ".pmsr" PMSR.PMSR_MAGIC
    (fun file => let '(f, r) := PMSR.fromFile file in
                 (f, JS.Ok (option_map PMSRPatchFile r))).

Definition VCDIFFModule : PatchFormatModule :=
  mkModule "VCDIFF" ".vcdiff" (string_of_bytes VCDIFF.VCDIFF_MAGIC)
    (fun file => let '(f, r) := VCDIFF.fromFile file in
                 (f, JS.Ok (option_map VCDIFFPatchFile r))).

(** The registry, in insertion order.  The BPS, APS (N64), PPF and RUP
    entries are commented out in the source. *)
Definition formatModules : list PatchFormatModule :=
  [IPSModule; UPSModule; APSGBAModule; PMSRModule; VCDIFFModule].

(** The [for ... of this.formatModules] loop of [parsePatchFile]. *)
Fixpoint try_modules (modules : list PatchFormatModule) (header : string)
  (patchFile : BinFile) : JS.result PatchFile :=
  match modules with
  | [] => JS.Throw (JS.UnsupportedFormatError "Unknown patch format")
  | module :: rest =>
      if String.prefix (magic module) header then
        match parse module patchFile with
        | (_, JS.Ok (Some patch)) => JS.Ok patch
        | (f, JS.Ok None) => try_modules rest header f
        | (_, JS.Throw e) =>
            JS.Throw (JS.InvalidPatchFileError
                        (append "Failed to parse "
                                (append (magic module)
                                        (append " patch: " (JS.message e)))))
        | (_, JS.Diverge) => JS.Diverge
        end
      else try_modules rest header patchFile
  end.

(** What the loop answers once the codec [module] has been run and no
    other codec matches. *)
Definition answer (module : PatchFormatModule) (patchFile : BinFile)
  : JS.result PatchFile :=
  match parse module patchFile with
  | (_, JS.Ok (Some patch)) => JS.Ok patch
  | (_, JS.Ok None) => JS.Throw (JS.UnsupportedFormatError "Unknown patch format")
  | (_, JS.Throw e) =>
      JS.Throw (JS.InvalidPatchFileError
                  (append "Failed to parse "
                          (append (magic module) (append " patch: " (JS.message e)))))
  | (_, JS.Diverge) => JS.Diverge
  end.

Definition parsePatchFile (patchFile : BinFile) : JS.result PatchFile :=
  let f := seek (with_littleEndian patchFile false) 0 in
  (* Try to detect format by magic header *)
  if fileSize f <? 5
  then JS.Throw (JS.InvalidPatchFileError "Patch file is too small")
  else
    let '(header, f) := readString_ascii f 6 in
    try_modules formatModules header (seek f 0).

End Registry.

(** *** ROM headers *)

Module Header.
Record HeaderInfo := mkHeaderInfo {
  extensions : list string;
  size : Z;
  romSizeMultiple : Z;
  name : string
}.
End Header.

Definition TOO_BIG_ROM_SIZE : Z := 67108863.

Definition HEADERS_INFO : list Header.HeaderInfo :=
  [Header.mkHeaderInfo ["nes"%string] 16 1024 "iNES";
   Header.mkHeaderInfo ["fds"%string] 16 65500 "fwNES";
   Header.mkHeaderInfo ["lnx"%string] 64 1024 "LNX";
   Header.mkHeaderInfo ["sfc"%string; "smc"%string; "swc"%string; "fig"%string]
     512 262144 "SNES copier"].

(** [extensions.includes(extension)] *)
Definition includes (extensions : list string) (extension : string) : bool :=
  existsb (String.eqb extension) extensions.

(** [canRomGetHeader]: the first entry of the table that lists the extension
    and whose multiple divides the size; [a % b] is [Z.rem]. *)
Definition canRomGetHeader (romFile : BinFile) : option Header.HeaderInfo :=
  let extension := getExtension romFile in
  find (fun headerInfo =>
          includes (Header.extensions headerInfo) extension
          && (Z.rem (fileSize romFile) (Header.romSizeMultiple headerInfo) =? 0))
       HEADERS_INFO.

Definition isRomHeadered (romFile : BinFile) : option Header.HeaderInfo :=
  let extension := getExtension romFile in
  find (fun headerInfo =>
          includes (Header.extensions headerInfo) extension
          && (Z.rem (fileSize romFile - Header.size headerInfo)
                    (Header.romSizeMultiple headerInfo) =? 0))
       HEADERS_INFO.

(** [removeHeader]: the header and the ROM without it, two new files. *)
Definition removeHeader (romFile : BinFile) : JS.result (BinFile * BinFile) :=
  match isRomHeadered romFile with
  | None => JS.Throw (JS.InvalidRomFileError "ROM does not have a removable header")
  | Some headerInfo =>
      let headerData := U8.slice (getBytes romFile) 0 (Header.size headerInfo) in
      let romData :=
        U8.slice (getBytes romFile) (Header.size headerInfo)
                 (Z.of_nat (length (getBytes romFile))) in
      let header := with_fileName (of_bytes headerData) (append (fileName romFile) ".header") in
      let rom := with_fileName (of_bytes romData) (fileName romFile) in
      JS.Ok (header, rom)
  end.

Definition addFakeHeader (romFile : BinFile) : JS.result BinFile :=
  match canRomGetHeader romFile with
  | None => JS.Throw (JS.InvalidRomFileError "ROM cannot get a header")
  | Some headerInfo =>
      let* fakeHeader := U8.alloc (Header.size headerInfo) in
      let* romWithHeader := of_size (Header.size headerInfo + fileSize romFile) in
      let romWithHeader := with_fileName romWithHeader (fileName romFile) in
      let* romWithHeader := writeBytes romWithHeader fakeHeader in
      writeBytes romWithHeader (getBytes romFile)
  end.

(** [fixRomHeaderChecksum] has an empty body. *)
Definition fixRomHeaderChecksum (romFile : BinFile) : BinFile := romFile.

Definition isRomTooBig (romFile : BinFile) : bool := TOO_BIG_ROM_SIZE <? fileSize romFile.

(** *** [validateRom] and [applyPatch]

    A patch is an object of the interface [PatchFile]: [validateSource], if
    the object has one, answers for a ROM and a header size and may move the
    ROM's cursor; [apply] gives the patched file or throws.  The ROM and the
    patch are objects (the tests for a missing argument do not fire). *)

Record PatchObject := mkPatchObject {
  validateSource : option (BinFile -> Z -> JS.result (bool * BinFile));
  apply : BinFile -> JS.result BinFile
}.

Module PatchOptions.
Record t := mk {
  requireValidation : bool;
  removeHeader : bool;
  addHeader : bool;
  fixChecksum : bool;
  outputSuffix : bool
}.
End PatchOptions.

(** The options [applyPatch] starts from. *)
Definition default_options : PatchOptions.t :=
  PatchOptions.mk false false false false true.

(** [validateRom(romFile, patch, skipHeaderSize)]: the answer and the ROM. *)
Definition validateRom (romFile : BinFile) (patch : PatchObject) (skipHeaderSize : Z)
  : JS.result (bool * BinFile) :=
  let skipHeaderSize := if skipHeaderSize <? 0 then 0 else skipHeaderSize in
  match validateSource patch with
  | Some validate => validate romFile skipHeaderSize
  | None => JS.Ok (true, romFile)
  end.

(** [applyPatch(romFile, patch, options)], [options] being the defaults
    overridden by the caller's. *)
Definition applyPatch (romFile : BinFile) (patch : PatchObject) (options : PatchOptions.t)
  : JS.result BinFile :=
  (* Handle headers *)
  let* (workingRom, extractedHeader, fakeHeaderSize) :=
    if PatchOptions.removeHeader options then
      match isRomHeadered romFile with
      | Some _ =>
          let* (header, rom) := removeHeader romFile in
          JS.Ok (rom, Some header, 0)
      | None => JS.Ok (romFile, None, 0)
      end
    else if PatchOptions.addHeader options then
      match canRomGetHeader romFile with
      | Some headerInfo =>
          let* w := addFakeHeader romFile in
          JS.Ok (w, None, Header.size headerInfo)
      | None => JS.Ok (romFile, None, 0)
      end
    else JS.Ok (romFile, None, 0) in
  (* Validate ROM if required *)
  let* (valid, workingRom) :=
    if PatchOptions.requireValidation options then validateRom workingRom patch 0
    else JS.Ok (true, workingRom) in
  if negb valid then JS.Throw (JS.PatchValidationError "Invalid input ROM checksum")
  else
    (* Apply patch *)
    let* patchedRom := apply patch workingRom in
    match extractedHeader with
    | Some extractedHeader =>
        (* Reinsert header if it was removed *)
        let patchedRom :=
          if PatchOptions.fixChecksum options then fixRomHeaderChecksum patchedRom
          else patchedRom in
        let* patchedRomWithHeader :=
          of_size (fileSize extractedHeader + fileSize patchedRom) in
        let patchedRomWithHeader :=
          with_fileName patchedRomWithHeader (fileName patchedRom) in
        let* patchedRomWithHeader :=
          writeBytes patchedRomWithHeader (getBytes extractedHeader) in
        writeBytes patchedRomWithHeader (getBytes patchedRom)
    | None =>
        if 0 <? fakeHeaderSize then
          (* Remove fake header *)
          let dataWithoutHeader :=
            U8.slice (getBytes patchedRom) fakeHeaderSize
                     (Z.of_nat (length (getBytes patchedRom))) in
          JS.Ok (with_fileName (of_bytes dataWithoutHeader) (fileName romFile))
        else JS.Ok patchedRom
    end.

(** *** [createPatch] *)

(** The values of the enumeration [PatchFormat]. *)
Module PatchFormat.
Definition IPS : string := "ips".
Definition UPS : string := "ups".
Definition BPS : string := "bps".
Definition APS_N64 : string := "aps_n64".
Definition APS_GBA : string := "aps_gba".
Definition RUP : string := "rup".
Definition PPF : string := "ppf".
Definition PMSR : string := "pmsr".
Definition VCDIFF : string := "vcdiff".
Definition EBP : string := "ebp".
Definition values : list string :=
  [IPS; UPS; BPS; APS_N64; APS_GBA; RUP; PPF; PMSR; VCDIFF; EBP].
End PatchFormat.

(** [s.toLowerCase()] on a string of 8-bit characters: the letters A to Z
    and the upper-case letters of Latin-1 (0xC0 to 0xDE, but not the
    multiplication sign 0xD7) move up by 32. *)
Definition toLowerCase (s : string) : string :=
  string_of_list_ascii
    (map (fun c => let n := nat_of_ascii c in
                   if (((65 <=? n) && (n <=? 90))
                       || ((192 <=? n) && (n <=? 222) && negb (n =? 215)))%nat
                   then ascii_of_nat (n + 32) else c)
         (list_ascii_of_string s)).

Section Create.
Variable JSON_parse : string -> option (list (string * string)).
(** [module.build(original, modified, metadata)] *)
Variable build : PatchFormatModule -> BinFile -> BinFile ->
                 option (list (string * string)) -> JS.result PatchFile.

(** [createPatch(originalFile, modifiedFile, format, metadata)]: the first
    module of the registry whose magic, in lower case, is the format. *)
Definition createPatch (originalFile modifiedFile : BinFile) (format : string)
  (metadata : option (list (string * string))) : JS.result PatchFile :=
  match find (fun module =>
                String.eqb (toLowerCase (magic module)) (toLowerCase format))
             (formatModules JSON_parse) with
  | None =>
      JS.Throw (JS.UnsupportedFormatError (append "Unsupported patch format: " format))
  | Some formatModule => build formatModule originalFile modifiedFile metadata
  end.

End Create.

End RomPatcher.

(** ** HashCalculator: src/lib/core/hash-calculator.ts *)

Module HashCalculator.

(** [CRC32_TABLE] *)
Definition CRC32_TABLE : list Z :=
  map (fun n =>
         Nat.iter 8
           (fun c => if negb (JS.band c 1 =? 0) then JS.bxor 0xedb88320 (JS.ushr c 1)
                     else JS.ushr c 1)
           (Z.of_nat n))
      (seq 0 256).

(** The context of the CRC32 is its field [crc]. *)
Definition initCRC32 : Z := 0xffffffff.

Definition updateCRC32 (crc : Z) (data : list Z) : Z :=
  fold_left
    (fun crc b => JS.bxor (nth (Z.to_nat (JS.band (JS.bxor crc b) 255)) CRC32_TABLE 0)
                          (JS.ushr crc 8))
    data crc.

(** [s.toUpperCase()] on the digits of a number written in base 16. *)
Definition toUpperCase (s : string) : string :=
  string_of_list_ascii
    (map (fun c => let n := nat_of_ascii c in
                   if ((97 <=? n) && (n <=? 122))%nat then ascii_of_nat (n - 32) else c)
         (list_ascii_of_string s)).

Definition finalizeCRC32 (crc : Z) : string :=
  let finalCrc := JS.ushr (JS.bxor crc 0xffffffff) 0 in
  BinFile.padStart0 (toUpperCase (BinFile.toString16 finalCrc)) 8.

(** The CRC32 context through the loop of [calculateHashes] over the chunks
    of 64 KB, [data.subarray(offset, end)]; the contexts of the two other
    hashes and the progress reports do not touch it.  [None] when the turns
    allowed run out. *)
Definition chunkSize : Z := 64 * 1024.

Fixpoint crc32_loop (fuel : nat) (data : list Z) (offset crc : Z) : option Z :=
  let totalBytes := Z.of_nat (length data) in
  if offset <? totalBytes then
    match fuel with
    | O => None
    | S fuel' =>
        let end_ := Z.min (offset + chunkSize) totalBytes in
        let chunk := U8.slice data offset end_ in
        crc32_loop fuel' data (offset + chunkSize) (updateCRC32 crc chunk)
    end
  else Some crc.

(** The field [crc32] of what [calculateHashes(data)] resolves to. *)
Definition calculateHashes_crc32 (data : list Z) : option string :=
  option_map finalizeCRC32 (crc32_loop (S (length data)) data 0 initCRC32).

End HashCalculator.
(** ** Auxiliary definitions for the proofs *)

Module VLVLists.

(** The bytes [BinFile.writeVLV] appends for a value below 2^31, and the
    value [BinFile.readVLV] computes from a list of bytes followed by the
    end of the file. *)
Fixpoint encode (fuel : nat) (x : Z) : option (list Z) :=
  match fuel with
  | O => None
  | S fuel' =>
      if x / 128 =? 0 then Some [x mod 128]
      else option_map (cons (x mod 128 + 128)) (encode fuel' (x / 128))
  end.

Fixpoint decode (l : list Z) (value shift : Z) : Z :=
  match l with
  | [] => value
  | b :: rest =>
      let value1 := value + (b mod 128) * shift in
      if b <? 128 then value1
      else decode rest (value1 + JS.shl shift 7) (JS.shl shift 7)
  end.

Definition is_byte (b : Z) : Prop := 0 <= b < 256.

(** A buffer whose cursor, size and capacity coincide: writes append. *)
Definition full (f : BinFile.BinFile) : Prop :=
  BinFile.offset f = BinFile.fileSize f
  /\ BinFile.fileSize f = BinFile.capacity f.

Definition append_bytes (f : BinFile.BinFile) (l : list Z) : BinFile.BinFile :=
  BinFile.mkBinFile (BinFile.fileName f)
    (BinFile.fileSize f + Z.of_nat (length l)) (BinFile.littleEndian f)
    (BinFile.offset f + Z.of_nat (length l)) (BinFile.data f ++ l)
    (BinFile._offsetsStack f).

(** The base-256 digits [RUPPatch.writeVLV] writes after the length byte,
    and the value [RUPPatch.readVLV] adds up from the digits, the first one
    having index [i]. *)
Fixpoint digits256 (fuel : nat) (x : Z) : option (list Z) :=
  match fuel with
  | O => None
  | S fuel' =>
      if x =? 0 then Some []
      else option_map (cons (x mod 256)) (digits256 fuel' (x / 256))
  end.

Fixpoint rup_value (l : list Z) (i : Z) : Z :=
  match l with
  | [] => 0
  | b :: rest => JS.shl b (i * 8) + rup_value rest (i + 1)
  end.

End VLVLists.

(** ** Concrete inputs used by the examples below *)

Module Samples.
Import BinFile.

(** A buffer of three bytes with the cursor at its end. *)
Definition at_end : BinFile :=
  mkBinFile EmptyString 3 false 3 [1; 2; 3] [].

(** A buffer of four bytes with the cursor at 0, and the same buffer after
    [expand(8)] and [seek(4)]: the cursor is at the size and the backing
    store has room for four more bytes. *)
Definition four : BinFile := of_bytes [1; 2; 3; 4].
Definition roomy : BinFile := seek (expand four 8) 4.

(** The character codes of an ASCII string. *)
Definition ascii_bytes (s : string) : list Z :=
  map (fun c => Z.of_nat (nat_of_ascii c)) (list_ascii_of_string s).

(** Encode [x] into an empty buffer, rewind, decode: the UPS-style codec of
    [BinFile] and the RUP codec. *)
Definition vlv_ups_roundtrip (x : Z) : option Z :=
  match writeVLV 64 (of_bytes []) x with
  | Some f => option_map fst (readVLV (seek f 0))
  | None => None
  end.

Definition vlv_ups_encoding (x : Z) : option (list Z) :=
  option_map getBytes (writeVLV 64 (of_bytes []) x).

Definition vlv_rup_roundtrip (x : Z) : option Z :=
  match RUP.writeVLV 64 (of_bytes []) x with
  | Some f => Some (fst (RUP.readVLV (seek f 0)))
  | None => None
  end.

(** BPS: a source of four bytes and a patch whose actions are
    [TargetRead [9]] then [SourceRead 3]; by the BPS format the output is
    [9; 2; 3; 4]. *)
Definition bps_source : BinFile := of_bytes [1; 2; 3; 4].

Definition bps_expected : list Z := [9; 2; 3; 4].

Definition bps_patch : BPS.BPSPatch :=
  BPS.mkPatch 4 4 EmptyString
    [BPS.mkAction BPS.BPS_ACTION_TARGET_READ 1 (Some [9]) None;
     BPS.mkAction BPS.BPS_ACTION_SOURCE_READ 3 None None]
    (hashCRC32 bps_source 0 None)
    (hashCRC32 (of_bytes bps_expected) 0 None)
    0.

(** Two [SourceRead 1] actions over a source of two bytes. *)
Definition bps_patch2 : BPS.BPSPatch :=
  BPS.mkPatch 2 2 EmptyString
    [BPS.mkAction BPS.BPS_ACTION_SOURCE_READ 1 None None;
     BPS.mkAction BPS.BPS_ACTION_SOURCE_READ 1 None None]
    0 0 0.

Definition output_bytes (r : JS.result BinFile) : option (list Z) :=
  match r with JS.Ok f => Some (getBytes f) | _ => None end.

(** [apply(create(source, modified), source)] for IPS, as output bytes. *)
Definition ips_create_apply (source modified : BinFile) : option (list Z) :=
  match IPS.create source modified None with
  | Some p => output_bytes (IPS.apply p source)
  | None => None
  end.

(** UPS: the patch that leaves the one-byte source 41 as it is (declared
    sizes 1 and 1, no record, both checksums the CRC32 of 41), and a source
    that agrees with it on the declared range and has one byte more. *)
Definition ups_declared_source : BinFile := of_bytes [0x41].

Definition ups_identity_patch : UPS.UPSPatch :=
  UPS.mkPatch [] 1 1
    (hashCRC32 ups_declared_source 0 None)
    (hashCRC32 ups_declared_source 0 None).

Definition ups_longer_source : BinFile := of_bytes [0x41; 0x42].

(** PPF: a version 3 patch file with the description "demo" and one
    record, offset 1 (low dword 1, high dword 0), one byte AA. *)
Definition ppf_file : BinFile :=
  of_bytes (bytes_of_string "PPF30" ++ [2]
            ++ bytes_of_string (PPF.padEnd "demo" 50 " ")
            ++ [0; 0; 0; 0]
            ++ [1; 0; 0; 0; 0; 0; 0; 0] ++ [1] ++ [0xAA]).

Definition ppf_patch : PPF.PPFPatch :=
  PPF.mkPatch 3 (Some 0) PPF.BCfalse false
    [PPF.mkRecord 1 [0xAA] None] "demo" None None.

(** What [export] writes for [ppf_patch]. *)
Definition ppf_exported_bytes : list Z :=
  bytes_of_string "PPF30" ++ [4]
  ++ bytes_of_string (PPF.padEnd "demo" 50 " ")
  ++ [0; 0; 0; 0]
  ++ [1; 0; 0; 0; 1; 0; 0; 0] ++ [1] ++ [0xAA].

(** The exported bytes with the version byte (index 5) set to the value
    [fromFile] expects, to read the record offset back. *)
Definition ppf_exported_version_fixed : BinFile :=
  of_bytes (U8.put ppf_exported_bytes 5 2).

Definition parse_export_ppf (p : PPF.PPFPatch) : JS.result PPF.PPFPatch :=
  let* f := PPF.export p None in PPF.fromFile f.

(** A store with one buffer: three bytes, the cursor at 2. *)
Definition one_buffer_store : Store.heap :=
  Store.mkHeap {[ 0%nat := [1; 2; 3] ]}
               {[ 0%nat := Store.mkObj "rom.bin" 3 true 2 0%nat [] ]}.

Definition one_buffer : BinFile :=
  mkBinFile "rom.bin" 3 true 2 [1; 2; 3] [].

(** A [JSON.parse] that rejects every text; none of the buffers below
    reaches it. *)
Definition no_json (s : string) : option (list (string * string)) := None.

(** Patch buffers by magic: the minimal IPS patch of the specification
    (one record, offset 2, bytes AA BB), a buffer that stops after PATCH,
    a BPS, a NINJA2 and an APS10 buffer. *)
Definition ips_minimal_file : BinFile :=
  of_bytes (bytes_of_string "PATCH" ++ [0; 0; 2; 0; 2; 0xAA; 0xBB]
            ++ bytes_of_string "EOF").

Definition ips_truncated_file : BinFile := of_bytes (bytes_of_string "PATCH" ++ [0; 0]).

Definition bps_file : BinFile :=
  of_bytes (bytes_of_string "BPS1" ++ [0x84; 0x84; 0x80; 0x8c]
            ++ [0; 0; 0; 0; 0; 0; 0; 0; 0; 0; 0; 0]).

Definition rup_file : BinFile :=
  of_bytes (bytes_of_string "NINJA2" ++ repeat 0 2043).

Definition aps_n64_file : BinFile :=
  of_bytes (bytes_of_string "APS10" ++ repeat 0 60).

(** The six characters the dispatcher reads as the header, and the buffer
    as the codecs receive it (big-endian, rewound). *)
Definition header_of (patchFile : BinFile) : string :=
  fst (readString_ascii (seek (with_littleEndian patchFile false) 0) 6).

Definition rewound (patchFile : BinFile) : BinFile :=
  seek (snd (readString_ascii (seek (with_littleEndian patchFile false) 0) 6)) 0.

End Samples.

(** ** Auxiliary definitions for the proofs about buffers *)

Module Cursor.

(** The buffer seen from its cursor: the bytes before it and the bytes from
    it on. *)
Definition at_cursor (f : BinFile.BinFile) (pre rest : list Z) : Prop :=
  BinFile.data f = pre ++ rest /\ BinFile.offset f = Z.of_nat (length pre).

(** [l] written over the beginning of [rest]. *)
Definition overwrite (rest l : list Z) : list Z := l ++ skipn (length l) rest.

Definition is_byte (b : Z) : Prop := 0 <= b < 256.

(** The bytes of [v], most significant first, as the big-endian typed
    writes lay them out. *)
Definition be16 (v : Z) : list Z := [(v / 2 ^ 8) mod 256; v mod 256].
Definition be24 (v : Z) : list Z := [(v / 2 ^ 16) mod 256; (v / 2 ^ 8) mod 256; v mod 256].
Definition be32 (v : Z) : list Z :=
  [(v / 2 ^ 24) mod 256; (v / 2 ^ 16) mod 256; (v / 2 ^ 8) mod 256; v mod 256].

(** The cursor stays between 0 and the size. *)
Definition inb (f : BinFile.BinFile) : Prop :=
  0 <= BinFile.offset f <= BinFile.fileSize f.

(** The number whose base-256 digits are [l], most significant first. *)
Definition be_value (l : list Z) : Z := fold_left (fun acc b => acc * 256 + b) l 0.

(** The byte order of a buffer applied to big-endian digits. *)
Definition ordered (littleEndian : bool) (l : list Z) : list Z :=
  if littleEndian then rev l else l.

(** The bytes [BPSPatch._writeVLV] writes for a value below 2^31: seven
    bits at a time, one taken off the rest at each further byte, bit 7 set
    on the last byte. *)
Fixpoint bps_encode (fuel : nat) (x : Z) : option (list Z) :=
  match fuel with
  | O => None
  | S fuel' =>
      if x / 128 =? 0 then Some [x mod 128 + 128]
      else option_map (cons (x mod 128)) (bps_encode fuel' (x / 128 - 1))
  end.

End Cursor.

(** ** Auxiliary definitions for the proofs about the IPS codec *)

Module IPSCodec.
Import Cursor.

(** A record as the IPS file format can hold it: a 24-bit offset other
    than the three bytes of the end marker "EOF" (0x454F46), and either a
    run (16-bit length, one byte) or 1 to 65535 bytes of data. *)
Definition wf_record (r : IPS.PatchRecord) : Prop :=
  0 <= IPS.offset r < 2 ^ 24 /\ IPS.offset r <> 0x454F46
  /\ ((IPS.type r = IPS.IPS_RECORD_RLE /\ IPS.data r = None
       /\ 0 <= IPS.length r < 2 ^ 16
       /\ exists b, IPS.byte r = Some b /\ is_byte b)
      \/ (IPS.type r = IPS.IPS_RECORD_SIMPLE /\ IPS.byte r = None
          /\ exists d, IPS.data r = Some d
                       /\ (1 <= Z.of_nat (length d) < 2 ^ 16)
                       /\ IPS.length r = Z.of_nat (length d)
                       /\ Forall is_byte d)).

(** A patch without metadata, with such records, and with no truncation or
    a 24-bit one other than 0. *)
Definition wf_patch (p : IPS.IPSPatch) : Prop :=
  Forall wf_record (IPS.records p) /\ IPS.metadata p = None
  /\ match IPS.truncate p with
     | Some t => 0 < t < 2 ^ 24
     | None => True
     end.

(** The bytes of a record and of a patch in the file format. *)
Definition encode_record (r : IPS.PatchRecord) : list Z :=
  be24 (IPS.offset r)
  ++ (if IPS.type r =? IPS.IPS_RECORD_RLE
      then [0; 0] ++ be16 (IPS.length r) ++ [JS.num (IPS.byte r)]
      else match IPS.data r with
           | Some d => be16 (Z.of_nat (length d)) ++ d
           | None => []
           end).

Definition encode_truncate (p : IPS.IPSPatch) : list Z :=
  match IPS.truncate p with Some t => be24 t | None => [] end.

Definition encode (p : IPS.IPSPatch) : list Z :=
  BinFile.bytes_of_string IPS.IPS_MAGIC
  ++ flat_map encode_record (IPS.records p)
  ++ BinFile.bytes_of_string IPS.IPS_EOF
  ++ encode_truncate p.

(** What a record writes: the data, or the run of its byte. *)
Definition payload (r : IPS.PatchRecord) : list Z :=
  if IPS.type r =? IPS.IPS_RECORD_RLE
  then repeat (JS.band (JS.num (IPS.byte r)) 255) (Z.to_nat (IPS.length r))
  else match IPS.data r with Some d => d | None => [] end.

(** A record other than a run carries its data. *)
Definition has_payload (r : IPS.PatchRecord) : Prop :=
  IPS.type r = IPS.IPS_RECORD_RLE \/ exists d, IPS.data r = Some d.

(** [l] put into [bytes] at [o], the place being moved into the range from
    0 to the length of [bytes]: what lies under [l] is replaced, and the
    result is longer than [bytes] when [l] runs past the end. *)
Definition splice_at (bytes : list Z) (o : Z) (l : list Z) : list Z :=
  let k := Z.to_nat (Z.max 0 (Z.min o (Z.of_nat (length bytes)))) in
  firstn k bytes ++ l ++ skipn (k + length l) bytes.

Definition splice (bytes : list Z) (r : IPS.PatchRecord) : list Z :=
  splice_at bytes (IPS.offset r) (payload r).

(** The truncation of [apply]: a size other than 0 cuts the output. *)
Definition cut (tr : option Z) (bytes : list Z) : list Z :=
  match tr with
  | Some t => if t =? 0 then bytes else firstn (Z.to_nat t) bytes
  | None => bytes
  end.

(** The outcomes of [fromFile]: a patch, or one of its three errors. *)
Definition returns_or_rejects (r : JS.result IPS.IPSPatch) : Prop :=
  (exists p, r = JS.Ok p)
  \/ r = JS.Throw (JS.InvalidPatchFileError "Invalid IPS file: missing PATCH header")
  \/ r = JS.Throw (JS.InvalidPatchFileError "Unexpected end of IPS file")
  \/ r = JS.Throw (JS.InvalidPatchFileError "Invalid IPS record: data extends beyond file").

End IPSCodec.

(** ** Auxiliary definitions for the proofs about the APS (GBA) codec *)

Module APSCodec.
Import Cursor.

(** The bytes of [v], least significant first. *)
Definition le16 (v : Z) : list Z := rev (be16 v).
Definition le32 (v : Z) : list Z := rev (be32 v).

(** A record as the file format holds it: a 32-bit offset, two 16-bit
    checksums and a block of 65536 bytes. *)
Definition wf_record (r : APSGBA.APSGBARecord) : Prop :=
  0 <= APSGBA.offset r < 2 ^ 32
  /\ 0 <= APSGBA.sourceCrc16 r < 2 ^ 16
  /\ 0 <= APSGBA.targetCrc16 r < 2 ^ 16
  /\ Z.of_nat (length (APSGBA.xorBytes r)) = APSGBA.APS_GBA_BLOCK_SIZE
  /\ Forall is_byte (APSGBA.xorBytes r).

Definition wf_patch (p : APSGBA.APSGBAPatch) : Prop :=
  0 <= APSGBA.sourceSize p < 2 ^ 32
  /\ 0 <= APSGBA.targetSize p < 2 ^ 32
  /\ Forall wf_record (APSGBA.apsRecords p).

Definition encode_record (r : APSGBA.APSGBARecord) : list Z :=
  le32 (APSGBA.offset r) ++ le16 (APSGBA.sourceCrc16 r)
  ++ le16 (APSGBA.targetCrc16 r) ++ APSGBA.xorBytes r.

Definition encode (p : APSGBA.APSGBAPatch) : list Z :=
  BinFile.bytes_of_string APSGBA.APS_GBA_MAGIC
  ++ le32 (APSGBA.sourceSize p) ++ le32 (APSGBA.targetSize p)
  ++ flat_map encode_record (APSGBA.apsRecords p).

(** What [fromFile] makes of an exported patch: a patch without records
    exports to twelve bytes, which [fromFile] takes for no patch at all. *)
Definition parsed (p : APSGBA.APSGBAPatch) : option APSGBA.APSGBAPatch :=
  match APSGBA.apsRecords p with
  | [] => None
  | _ :: _ => Some p
  end.

End APSCodec.

(** ** Auxiliary definitions for the proofs about UPS *)

Module UPSCodec.

(** The outcomes of [UPSPatch.fromFile]: [null], a patch, or its error. *)
Definition parsed_or_rejected (r : JS.result (option UPS.UPSPatch)) : Prop :=
  r = JS.Ok None
  \/ (exists p, r = JS.Ok (Some p))
  \/ r = JS.Throw (JS.InvalidPatchFileError "Patch checksum mismatch").

(** The CRC32 of a list of bytes, as [hashCRC32()] computes it. *)
Definition crc32_bytes (bytes : list Z) : Z :=
  BinFile.hashCRC32 (BinFile.of_bytes bytes) 0 None.

(** The bytes one record writes: each XOR byte combined with the byte of
    the source at the same place, 0 past the end of the source. *)
Fixpoint xor_bytes (src : list Z) (q : Z) (xs : list JS.value) : list Z :=
  match xs with
  | [] => []
  | x :: xs' =>
      JS.band (JS.bxor (nth (Z.to_nat q) src 0) (JS.num x)) 255
      :: xor_bytes src (q + 1) xs'
  end.

(** One record put into the output: the place is the running offset plus
    the record's, moved into the output for the writes and into the source
    for the reads. *)
Definition xor_record (src : list Z) (st : list Z * Z) (r : UPS.UPSRecord)
  : list Z * Z :=
  let '(out, absoluteOffset) := st in
  let absoluteOffset := absoluteOffset + UPS.offset r in
  let q := Z.max 0 (Z.min absoluteOffset (Z.of_nat (length src))) in
  (IPSCodec.splice_at out absoluteOffset (xor_bytes src q (UPS.XORdata r)),
   absoluteOffset + Z.of_nat (length (UPS.XORdata r))).

(** The sizes [apply] works with: a ROM longer than the input size of the
    patch raises both. *)
Definition effective_sizes (p : UPS.UPSPatch) (romFile : BinFile.BinFile) : Z * Z :=
  if UPS.sizeInput p <? BinFile.fileSize romFile
  then (BinFile.fileSize romFile,
        if UPS.sizeOutput p <? BinFile.fileSize romFile then BinFile.fileSize romFile
        else UPS.sizeOutput p)
  else (UPS.sizeInput p, UPS.sizeOutput p).

(** The output before the records: zeros, as many as the output size, with
    the bytes of the array of the ROM from its cursor on, as many as the
    input size at most, put at the beginning. *)
Definition xor_base (p : UPS.UPSPatch) (romFile : BinFile.BinFile) : list Z :=
  let '(sizeInput, sizeOutput) := effective_sizes p romFile in
  IPSCodec.splice_at (repeat 0 (Z.to_nat sizeOutput)) 0
    (U8.slice (BinFile.data romFile) (BinFile.offset romFile)
              (BinFile.offset romFile + sizeInput)).

Definition xor_result (p : UPS.UPSPatch) (romFile : BinFile.BinFile) : list Z :=
  fst (fold_left (xor_record (BinFile.getBytes romFile)) (UPS.upsRecords p)
                 (xor_base p romFile, 0)).

End UPSCodec.

(** ** Auxiliary definitions for the proofs about APS (GBA) [apply] *)

Module APSApply.

(** The XOR bytes of a record as the loop of [apply] takes them: 65536 of
    them, those past the end of the array missing. *)
Definition xor_block (r : APSGBA.APSGBARecord) : list JS.value :=
  map (nth_error (APSGBA.xorBytes r)) (seq 0 (Z.to_nat APSGBA.APS_GBA_BLOCK_SIZE)).

(** The CRC16 of the block at [s], as [hashCRC16(s, 65536)] computes it. *)
Definition crc16_block (bytes : list Z) (s : Z) : Z :=
  BinFile.hashCRC16 (BinFile.of_bytes bytes) s (Some APSGBA.APS_GBA_BLOCK_SIZE).

(** One record put into the output: the block at its offset becomes the
    source bytes at that offset, 0 past the end of the source, combined by
    exclusive or with its XOR bytes; nothing if the CRC16 of the new block is
    not the one the record gives. *)
Definition xor_block_at (src : list Z) (out : option (list Z))
  (r : APSGBA.APSGBARecord) : option (list Z) :=
  match out with
  | None => None
  | Some out =>
      let q := Z.max 0 (Z.min (APSGBA.offset r) (Z.of_nat (length src))) in
      let out' :=
        IPSCodec.splice_at out (APSGBA.offset r)
          (UPSCodec.xor_bytes src q (xor_block r)) in
      if crc16_block out' (APSGBA.offset r) =? APSGBA.targetCrc16 r then Some out'
      else None
  end.

(** The output before the records: zeros, as many as the target size, with
    the bytes of the array of the ROM from its cursor on, as many as its size
    at most, put at the beginning. *)
Definition base (p : APSGBA.APSGBAPatch) (romFile : BinFile.BinFile) : list Z :=
  IPSCodec.splice_at (repeat 0 (Z.to_nat (APSGBA.targetSize p))) 0
    (U8.slice (BinFile.data romFile) (BinFile.offset romFile)
              (BinFile.offset romFile + BinFile.fileSize romFile)).

Definition result (p : APSGBA.APSGBAPatch) (romFile : BinFile.BinFile)
  : option (list Z) :=
  fold_left (xor_block_at (BinFile.getBytes romFile)) (APSGBA.apsRecords p)
            (Some (base p romFile)).

(** Where [validateSource] leaves the cursor of a ROM it accepts: at the
    offset of the last record, moved into the ROM. *)
Definition cursor_after (p : APSGBA.APSGBAPatch) (romFile : BinFile.BinFile) : Z :=
  match rev (APSGBA.apsRecords p) with
  | [] => BinFile.offset romFile
  | r :: _ => Z.max 0 (Z.min (APSGBA.offset r) (BinFile.fileSize romFile))
  end.

End APSApply.

(** ** Auxiliary definitions for the proofs about the BPS codec *)

Module BPSCodec.
Import Cursor.

(** The bytes of a number below 2^31 in the file. *)
Definition enc (x : Z) : list Z :=
  match bps_encode 5 x with Some l => l | None => [] end.

(** An action as the file format holds it: a length from 1 to 2^29; no
    further field for a SourceRead, as many bytes as the length says for a
    TargetRead, and an offset between -2^30 and 2^30 for the two copies. *)
Definition wf_action (a : BPS.BPSAction) : Prop :=
  1 <= BPS.length a <= 2 ^ 29
  /\ ((BPS.type a = BPS.BPS_ACTION_SOURCE_READ
       /\ BPS.bytes a = None /\ BPS.relativeOffset a = None)
      \/ (BPS.type a = BPS.BPS_ACTION_TARGET_READ
          /\ BPS.relativeOffset a = None
          /\ exists bs, BPS.bytes a = Some bs
                        /\ Z.of_nat (length bs) = BPS.length a
                        /\ Forall is_byte bs)
      \/ ((BPS.type a = BPS.BPS_ACTION_SOURCE_COPY
           \/ BPS.type a = BPS.BPS_ACTION_TARGET_COPY)
          /\ BPS.bytes a = None
          /\ exists r, BPS.relativeOffset a = Some r /\ - 2 ^ 30 < r < 2 ^ 30)).

Definition encode_action (a : BPS.BPSAction) : list Z :=
  enc (BPS.action_code a)
  ++ (if BPS.type a =? BPS.BPS_ACTION_TARGET_READ then U8.of_array (BPS.bytes a)
      else if BPS.is_copy (BPS.type a) then enc (BPS.offset_code a)
      else []).

(** The file without its last four bytes, the checksum of the patch. *)
Definition encode_body (p : BPS.BPSPatch) : list Z :=
  BinFile.bytes_of_string BPS.BPS_MAGIC
  ++ enc (BPS.sourceSize p) ++ enc (BPS.targetSize p)
  ++ enc (Z.of_nat (String.length (BPS.metaData p)))
  ++ BinFile.bytes_of_string (BPS.metaData p)
  ++ flat_map encode_action (BPS.actions p)
  ++ APSCodec.le32 (BPS.sourceChecksum p) ++ APSCodec.le32 (BPS.targetChecksum p).

Definition encode (p : BPS.BPSPatch) : list Z :=
  encode_body p ++ APSCodec.le32 (BPS.patchChecksum p).

(** A patch as the file format holds it; its own checksum is the CRC32 of
    the file up to that checksum, as [BPS.create] sets it. *)
Definition wf_patch (p : BPS.BPSPatch) : Prop :=
  0 <= BPS.sourceSize p < 2 ^ 31
  /\ 0 <= BPS.targetSize p < 2 ^ 31
  /\ Z.of_nat (String.length (BPS.metaData p)) < 2 ^ 31
  /\ 0 <= BPS.sourceChecksum p < 2 ^ 32
  /\ 0 <= BPS.targetChecksum p < 2 ^ 32
  /\ Forall wf_action (BPS.actions p)
  /\ BPS.patchChecksum p = UPSCodec.crc32_bytes (encode_body p).

End BPSCodec.

(** ** Further concrete inputs *)

Module Samples2.

(** An IPS patch: two bytes at offset 2, a run of four zero bytes at offset
    16, and a truncation to 32 bytes. *)
Definition ips_patch : IPS.IPSPatch :=
  IPS.mkPatch
    [IPS.mkRecord 2 IPS.IPS_RECORD_SIMPLE 2 (Some [0xAA; 0xBB]) None;
     IPS.mkRecord 16 IPS.IPS_RECORD_RLE 4 None (Some 0)]
    (Some 32) None.

(** One byte at offset 1 and a run of four bytes whose offset, 100, lies
    past the end of a four-byte ROM. *)
Definition ips_tail_patch : IPS.IPSPatch :=
  IPS.mkPatch
    [IPS.mkRecord 1 IPS.IPS_RECORD_SIMPLE 1 (Some [9]) None;
     IPS.mkRecord 100 IPS.IPS_RECORD_RLE 4 None (Some 7)]
    None None.

(** A three-byte ROM and a five-byte edit of it. *)
Definition rom3 : BinFile.BinFile := BinFile.of_bytes [1; 2; 3].
Definition rom5 : BinFile.BinFile := BinFile.of_bytes [1; 9; 3; 4; 5].

(** A 1024-byte NES ROM, the same ROM behind a 16-byte header, and a patch
    object made of [ips_patch]. *)
Definition nes_rom : BinFile.BinFile :=
  BinFile.with_fileName (BinFile.of_bytes (repeat 7 1024)) "game.nes".
Definition nes_headered : BinFile.BinFile :=
  BinFile.with_fileName (BinFile.of_bytes (repeat 1 16 ++ repeat 7 1024)) "game.nes".
Definition ips_object : RomPatcher.PatchObject :=
  RomPatcher.mkPatchObject None (IPS.apply ips_patch).
Definition iNES : RomPatcher.Header.HeaderInfo :=
  RomPatcher.Header.mkHeaderInfo ["nes"%string] 16 1024 "iNES".

(** The header of [nes_headered], [nes_rom] behind a header of zeros, and
    what the patch makes of [nes_rom] and of the latter. *)
Definition nes_header : BinFile.BinFile :=
  BinFile.with_fileName (BinFile.of_bytes (repeat 1 16)) "game.nes.header".
Definition nes_fake : BinFile.BinFile :=
  match RomPatcher.addFakeHeader nes_rom with JS.Ok f => f | _ => nes_rom end.
Definition nes_patched : BinFile.BinFile :=
  match IPS.apply ips_patch nes_rom with JS.Ok f => f | _ => nes_rom end.
Definition nes_fake_patched : BinFile.BinFile :=
  match IPS.apply ips_patch nes_fake with JS.Ok f => f | _ => nes_rom end.

(** The options that take the header off, and those that put one on. *)
Definition remove_options : RomPatcher.PatchOptions.t :=
  RomPatcher.PatchOptions.mk false true false false true.
Definition add_options : RomPatcher.PatchOptions.t :=
  RomPatcher.PatchOptions.mk false false true false true.

(** A four-byte ROM and a UPS patch that changes its second byte and
    appends a fifth one. *)
Definition ups_rom : BinFile.BinFile :=
  BinFile.with_fileName (BinFile.of_bytes [1; 2; 3; 4]) "a.gba".
Definition ups_patch : UPS.UPSPatch :=
  UPS.mkPatch [UPS.mkRecord 1 [Some 0xF0]; UPS.mkRecord 1 [Some 0x55; Some 0x66]] 4 5
    (BinFile.hashCRC32 ups_rom 0 None)
    (BinFile.hashCRC32 (BinFile.of_bytes [1; 0xF2; 3; 0x51; 0x66]) 0 None).

(** An APS (GBA) patch with one record, and one with none. *)
Definition aps_patch : APSGBA.APSGBAPatch :=
  APSGBA.mkPatch 65536 65536
    [APSGBA.mkRecord 0 0x1234 0xABCD (repeat 5 (Z.to_nat 65536))].
Definition aps_empty : APSGBA.APSGBAPatch := APSGBA.mkPatch 16 16 [].

(** A BPS patch with an action of each kind; its own checksum is that of
    its file. *)
Definition bps_draft : BPS.BPSPatch :=
  BPS.mkPatch 8 9 "hi"
    [BPS.mkAction BPS.BPS_ACTION_SOURCE_READ 2 None None;
     BPS.mkAction BPS.BPS_ACTION_TARGET_READ 3 (Some [7; 8; 9]) None;
     BPS.mkAction BPS.BPS_ACTION_SOURCE_COPY 2 None (Some (-1));
     BPS.mkAction BPS.BPS_ACTION_TARGET_COPY 2 None (Some 300)]
    0x11223344 0xAABBCCDD 0.
Definition bps_patch : BPS.BPSPatch :=
  BPS.mkPatch (BPS.sourceSize bps_draft) (BPS.targetSize bps_draft)
    (BPS.metaData bps_draft) (BPS.actions bps_draft)
    (BPS.sourceChecksum bps_draft) (BPS.targetChecksum bps_draft)
    (UPSCodec.crc32_bytes (BPSCodec.encode_body bps_draft)).

(** A four-byte ROM for APS (GBA), a block of XOR bytes, the output the
    patch is to give, and the patch, whose record, at offset 2, carries the
    CRC16 of the source block and that of the output. *)
Definition aps_rom : BinFile.BinFile := BinFile.of_bytes [1; 2; 3; 4].
Definition aps_block : list Z := repeat 5 (Z.to_nat 65536).
Definition aps_out : list Z :=
  IPSCodec.splice_at [3; 4; 0; 0] 2
    (UPSCodec.xor_bytes [1; 2; 3; 4] 2
       (map (nth_error aps_block) (seq 0 (Z.to_nat 65536)))).
Definition aps_apply_patch : APSGBA.APSGBAPatch :=
  APSGBA.mkPatch 4 4
    [APSGBA.mkRecord 2 (BinFile.hashCRC16 aps_rom 2 (Some 65536))
       (APSApply.crc16_block aps_out 2) aps_block].

(** A PMSR patch with two records. *)
Definition pmsr_patch : PMSR.PMSRPatch :=
  PMSR.mkPatch 8 [PMSR.mkRecord 1 [0xAA; 0xBB]; PMSR.mkRecord 6 [0xCC]].

End Samples2.

(** ** Auxiliary definitions for the proofs about the PMSR codec *)

Module PMSRCodec.
Import Cursor.

(** A record as the file format can hold it: a 32-bit offset and fewer than
    2^32 bytes of data. *)
Definition wf_record (r : PMSR.PMSRRecord) : Prop :=
  0 <= PMSR.offset r < 2 ^ 32
  /\ Z.of_nat (length (PMSR.data r)) < 2 ^ 32
  /\ Forall is_byte (PMSR.data r).

Definition wf_patch (p : PMSR.PMSRPatch) : Prop :=
  Forall wf_record (PMSR.records p) /\ Z.of_nat (length (PMSR.records p)) < 2 ^ 32.

Definition encode_record (r : PMSR.PMSRRecord) : list Z :=
  be32 (PMSR.offset r) ++ be32 (Z.of_nat (length (PMSR.data r))) ++ PMSR.data r.

Definition encode (p : PMSR.PMSRPatch) : list Z :=
  BinFile.bytes_of_string PMSR.PMSR_MAGIC
  ++ be32 (Z.of_nat (length (PMSR.records p)))
  ++ flat_map encode_record (PMSR.records p).

(** The target size [fromFile] computes: the size of the Paper Mario ROM,
    or the end of the record that reaches furthest. *)
Definition parsed_targetSize (rs : list PMSR.PMSRRecord) (start : Z) : Z :=
  fold_left (fun t r => Z.max t (PMSR.offset r + Z.of_nat (length (PMSR.data r)))) rs start.

(** The record [buildFromRoms] makes of a block of differences. *)
Definition rec_of (diff : PMSR.Diff) : PMSR.PMSRRecord :=
  PMSR.mkRecord (fst diff) (U8.of_array (Some (map JS.num (snd diff)))).

(** Records put into a list of bytes one after the other. *)
Definition apply_list (rs : list PMSR.PMSRRecord) (bytes : list Z) : list Z :=
  fold_left (fun bytes r => IPSCodec.splice_at bytes (PMSR.offset r) (PMSR.data r))
            rs bytes.

(** The bytes [apply] starts from: those of the ROM when the target size
    is the size of the ROM; otherwise a zero-filled buffer of the target size
    with the bytes of the ROM from its cursor on put at the beginning. *)
Definition apply_base (p : PMSR.PMSRPatch) (romFile : BinFile.BinFile) : list Z :=
  if PMSR.targetSize p =? BinFile.fileSize romFile then BinFile.getBytes romFile
  else IPSCodec.splice_at (repeat 0 (Z.to_nat (PMSR.targetSize p))) 0
         (U8.slice (BinFile.data romFile) (BinFile.offset romFile)
                   (BinFile.fileSize romFile)).

(** The elements of [l] from index [a] up to index [b]. *)
Definition seg (l : list Z) (a b : nat) : list Z := firstn (b - a) (skipn a l).

(** [ob] followed by zeros up to the length [n]. *)
Definition padded (ob : list Z) (n : nat) : list Z := ob ++ repeat 0 (n - length ob).

(** What the loop of [buildFromRoms] keeps after [k] bytes: the blocks
    closed so far turn the padded original into the modified bytes up to the
    start [e] of the open block (up to [k] when no block is open), and the
    open block holds the modified bytes from its offset up to [k]. *)
Definition build_inv (ob mb : list Z) (k : nat) (ds : list PMSR.Diff)
  (cur : option PMSR.Diff) : Prop :=
  let B := padded ob (length mb) in
  let e := match cur with Some (off, _) => Z.to_nat off | None => k end in
  apply_list (map rec_of ds) B = firstn e mb ++ skipn e B
  /\ match cur with
     | Some (off, d) =>
         0 <= off /\ off + Z.of_nat (length d) = Z.of_nat k
         /\ map JS.num d = seg mb (Z.to_nat off) k
     | None => True
     end.

(** A buffer as [new BinFile(bytes)] makes it: the size is the length of
    the array, which holds bytes. *)
Definition tight (f : BinFile.BinFile) : Prop :=
  BinFile.fileSize f = Z.of_nat (length (BinFile.data f))
  /\ Forall is_byte (BinFile.data f).

End PMSRCodec.
(** * Properties *)

(** ** The cursor invariant [0 <= offset <= size <= capacity] *)

Module BinFileFacts.
Import BinFile.

Lemma put_length a i v : length (U8.put a i v) = length a.
Proof.
  unfold U8.put.
  destruct ((0 <=? i) && (i <? Z.of_nat (length a))) eqn:E; [|reflexivity].
  apply andb_true_iff in E as [H0 H1].
  apply Z.leb_le in H0. apply Z.ltb_lt in H1.
  rewrite length_app. cbn [length]. rewrite length_firstn, length_skipn. lia.
Qed.

Lemma put_get a i v :
  0 <= i < Z.of_nat (length a) -> U8.get (U8.put a i v) i = Some (v mod 256).
Proof.
  intros Hi. unfold U8.put, U8.get.
  replace ((0 <=? i) && (i <? Z.of_nat (length a))) with true
    by (symmetry; apply andb_true_iff; split; [apply Z.leb_le | apply Z.ltb_lt]; lia).
  replace (i <? 0) with false by (symmetry; apply Z.ltb_ge; lia).
  rewrite nth_error_app2 by (rewrite length_firstn; lia).
  rewrite length_firstn.
  replace (Z.to_nat i - Nat.min (Z.to_nat i) (length a))%nat with 0%nat by lia.
  reflexivity.
Qed.

Lemma set_ok a src off :
  0 <= off -> off + Z.of_nat (length src) <= Z.of_nat (length a) ->
  exists d, U8.set a src off = JS.Ok d /\ length d = length a
            /\ U8.slice d off (off + Z.of_nat (length src)) = src.
Proof.
  intros H0 H1. unfold U8.set.
  replace (off <? 0) with false by (symmetry; apply Z.ltb_ge; lia).
  replace (Z.of_nat (length a) <? off + Z.of_nat (length src)) with false
    by (symmetry; apply Z.ltb_ge; lia).
  cbn [orb]. eexists. split; [reflexivity|]. split.
  - rewrite !length_app, length_firstn, length_skipn. lia.
  - unfold U8.slice, U8.rel.
    set (d := firstn (Z.to_nat off) a ++ src ++ skipn (Z.to_nat off + length src) a).
    assert (Hd : length d = length a).
    { unfold d. rewrite !length_app, length_firstn, length_skipn. lia. }
    rewrite Hd.
    replace (off <? 0) with false by (symmetry; apply Z.ltb_ge; lia).
    replace (off + Z.of_nat (length src) <? 0) with false by (symmetry; apply Z.ltb_ge; lia).
    rewrite !Z.min_l by lia.
    replace (Z.to_nat (off + Z.of_nat (length src) - off)) with (length src) by lia.
    unfold d. rewrite skipn_app.
    rewrite length_firstn.
    replace (skipn (Z.to_nat off) (firstn (Z.to_nat off) a)) with (@nil Z)
      by (symmetry; apply skipn_all2; rewrite length_firstn; lia).
    replace (Z.to_nat off - Nat.min (Z.to_nat off) (length a))%nat with 0%nat by lia.
    cbn [app]. rewrite skipn_O, firstn_app, firstn_all, Nat.sub_diag. cbn [firstn].
    apply app_nil_r.
Qed.

Lemma slice_full (d : list Z) : U8.slice d 0 (Z.of_nat (length d)) = d.
Proof.
  unfold U8.slice, U8.rel. change (0 <? 0) with false. cbv iota.
  replace (Z.of_nat (length d) <? 0) with false by (symmetry; apply Z.ltb_ge; lia).
  rewrite !Z.min_l by lia. rewrite Z.sub_0_r, Nat2Z.id.
  change (Z.to_nat 0) with 0%nat. rewrite skipn_O. apply firstn_all.
Qed.

Lemma capacity_expand f n : capacity (expand f n) = Z.max (capacity f) n.
Proof.
  unfold expand, capacity. destruct (n <=? Z.of_nat (length (data f))) eqn:E.
  - apply Z.leb_le in E. lia.
  - apply Z.leb_gt in E. cbn [data with_data]. rewrite length_app, repeat_length. lia.
Qed.

Lemma expand_fields f n :
  offset (expand f n) = offset f /\ fileSize (expand f n) = fileSize f
  /\ littleEndian (expand f n) = littleEndian f /\ fileName (expand f n) = fileName f.
Proof. unfold expand. destruct (n <=? capacity f); repeat split. Qed.

Lemma wf_seek f o : 0 <= fileSize f <= capacity f -> wf (seek f o).
Proof. unfold wf, seek, capacity. cbn. lia. Qed.

Lemma wf_expand f n : wf f -> wf (expand f n).
Proof.
  unfold wf. intros H. pose proof (capacity_expand f n).
  destruct (expand_fields f n) as (-> & -> & _). lia.
Qed.

Lemma wf_truncate f n : wf f -> 0 <= n -> wf (truncate f n).
Proof.
  unfold wf, truncate, capacity. intros H Hn. cbn.
  destruct (Z.min n (Z.of_nat (length (data f))) <? offset f) eqn:E; cbn.
  - apply Z.ltb_lt in E. lia.
  - apply Z.ltb_ge in E. lia.
Qed.

Lemma wf_readU8 f : wf f -> wf (snd (readU8 f)).
Proof.
  unfold wf, readU8, capacity. intros H.
  destruct (fileSize f <=? offset f) eqn:E; cbn; [lia|].
  apply Z.leb_gt in E. lia.
Qed.

Lemma readU8_eof f : fileSize f <= offset f -> readU8 f = (Some 0, f).
Proof. intros H. unfold readU8. apply Z.leb_le in H. now rewrite H. Qed.

Lemma readU8_littleEndian f : littleEndian (snd (readU8 f)) = littleEndian f.
Proof. unfold readU8. destruct (fileSize f <=? offset f); reflexivity. Qed.

Lemma wf_readU16 f : wf f -> wf (snd (readU16 f)).
Proof.
  intros H. unfold readU16.
  pose proof (wf_readU8 f H) as H1. destruct (readU8 f) as [b1 f1]. cbn [snd] in H1.
  pose proof (wf_readU8 f1 H1) as H2. destruct (readU8 f1) as [b2 f2]. exact H2.
Qed.

Lemma wf_readU24 f : wf f -> wf (snd (readU24 f)).
Proof.
  intros H. unfold readU24.
  pose proof (wf_readU8 f H) as H1. destruct (readU8 f) as [b1 f1]. cbn [snd] in H1.
  pose proof (wf_readU8 f1 H1) as H2. destruct (readU8 f1) as [b2 f2]. cbn [snd] in H2.
  pose proof (wf_readU8 f2 H2) as H3. destruct (readU8 f2) as [b3 f3]. exact H3.
Qed.

Lemma wf_readU32 f : wf f -> wf (snd (readU32 f)).
Proof.
  intros H. unfold readU32.
  pose proof (wf_readU8 f H) as H1. destruct (readU8 f) as [b1 f1]. cbn [snd] in H1.
  pose proof (wf_readU8 f1 H1) as H2. destruct (readU8 f1) as [b2 f2]. cbn [snd] in H2.
  pose proof (wf_readU8 f2 H2) as H3. destruct (readU8 f2) as [b3 f3]. cbn [snd] in H3.
  pose proof (wf_readU8 f3 H3) as H4. destruct (readU8 f3) as [b4 f4]. exact H4.
Qed.

Lemma wf_readBytes f n : wf f -> 0 <= n -> wf (snd (readBytes f n)).
Proof. unfold wf, readBytes, capacity. cbn. lia. Qed.

Lemma band_255 v : JS.band v 255 = JS.ToInt32 v mod 256.
Proof. unfold JS.band. change (JS.ToInt32 255) with (Z.ones 8). now rewrite Z.land_ones. Qed.

Lemma band_255_range v : 0 <= JS.band v 255 < 256.
Proof. rewrite band_255. apply Z.mod_pos_bound. lia. Qed.

(** What one [writeU8] does to the cursor, the size, the capacity and the
    byte under the cursor. *)
Lemma writeU8_spec f v :
  0 <= offset f ->
  offset (writeU8 f v) = offset f + 1
  /\ fileSize (writeU8 f v) = Z.max (fileSize f) (offset f + 1)
  /\ capacity (writeU8 f v) = Z.max (capacity f) (offset f + 1)
  /\ littleEndian (writeU8 f v) = littleEndian f
  /\ U8.get (data (writeU8 f v)) (offset f) = Some (JS.band v 255).
Proof.
  intros H0. unfold writeU8.
  set (f1 := if capacity f <=? offset f then expand f (offset f + 1) else f).
  assert (Hf1 : offset f1 = offset f /\ fileSize f1 = fileSize f
                /\ littleEndian f1 = littleEndian f
                /\ capacity f1 = Z.max (capacity f) (offset f + 1)).
  { unfold f1. destruct (capacity f <=? offset f) eqn:E.
    - destruct (expand_fields f (offset f + 1)) as (-> & -> & -> & _).
      rewrite capacity_expand. auto.
    - apply Z.leb_gt in E. repeat split. lia. }
  destruct Hf1 as (Ho & Hs & Hl & Hc). clearbody f1.
  assert (Hlen : capacity (with_data f1 (U8.put (data f1) (offset f1) (JS.band v 255)))
                 = capacity f1).
  { unfold capacity. cbn [data with_data]. now rewrite put_length. }
  assert (Hget : U8.get (U8.put (data f1) (offset f1) (JS.band v 255)) (offset f)
                 = Some (JS.band v 255)).
  { rewrite Ho, put_get by (unfold capacity in Hc; lia).
    f_equal. apply Z.mod_small, band_255_range. }
  cbn [offset fileSize with_offset with_data with_fileSize].
  destruct (fileSize f1 <? offset f1 + 1) eqn:E;
    [apply Z.ltb_lt in E | apply Z.ltb_ge in E];
    unfold capacity in *;
    cbn [offset fileSize littleEndian data with_offset with_data with_fileSize] in *;
    repeat split; try assumption; lia.
Qed.

Lemma wf_writeU8 f v : wf f -> wf (writeU8 f v).
Proof.
  unfold wf. intros (H0 & H1 & H2).
  destruct (writeU8_spec f v H0) as (-> & -> & -> & _). lia.
Qed.

Lemma wf_writeU16 f v : wf f -> wf (writeU16 f v).
Proof. intros H. unfold writeU16. destruct (littleEndian f); auto using wf_writeU8. Qed.

Lemma wf_writeU24 f v : wf f -> wf (writeU24 f v).
Proof. intros H. unfold writeU24. destruct (littleEndian f); auto using wf_writeU8. Qed.

Lemma wf_writeU32 f v : wf f -> wf (writeU32 f v).
Proof. intros H. unfold writeU32. destruct (littleEndian f); auto 6 using wf_writeU8. Qed.

(** What [writeBytes] does: it cannot fail once the cursor is not negative. *)
Lemma writeBytes_spec f bytes :
  0 <= offset f ->
  exists f', writeBytes f bytes = JS.Ok f'
    /\ offset f' = offset f + Z.of_nat (length bytes)
    /\ fileSize f' = Z.max (fileSize f) (offset f + Z.of_nat (length bytes))
    /\ capacity f' = Z.max (capacity f) (offset f + Z.of_nat (length bytes))
    /\ U8.slice (data f') (offset f) (offset f + Z.of_nat (length bytes)) = bytes.
Proof.
  intros H0. unfold writeBytes.
  set (n := Z.of_nat (length bytes)).
  set (f1 := if capacity f <? offset f + n then expand f (offset f + n) else f).
  assert (Hf1 : offset f1 = offset f /\ fileSize f1 = fileSize f
                /\ capacity f1 = Z.max (capacity f) (offset f + n)).
  { unfold f1. destruct (capacity f <? offset f + n) eqn:E.
    - destruct (expand_fields f (offset f + n)) as (-> & -> & _).
      rewrite capacity_expand. auto.
    - apply Z.ltb_ge in E. repeat split. lia. }
  destruct Hf1 as (Ho & Hs & Hc). clearbody f1.
  destruct (set_ok (data f1) bytes (offset f1)) as (d & Hd & Hlen & Hsl).
  { lia. } { fold n. fold (capacity f1). lia. }
  rewrite Hd. cbn [JS.bind]. eexists. split; [reflexivity|].
  cbn [offset fileSize with_offset with_data with_fileSize].
  fold n.
  destruct (fileSize f1 <? offset f1 + n) eqn:E;
    [apply Z.ltb_lt in E | apply Z.ltb_ge in E];
    unfold capacity in *;
    cbn [offset fileSize data with_offset with_data with_fileSize] in *;
    rewrite Hlen; rewrite Ho in Hsl; fold n in Hsl;
    repeat split; try assumption; lia.
Qed.

Lemma wf_writeBytes f bytes :
  wf f -> exists f', writeBytes f bytes = JS.Ok f' /\ wf f'.
Proof.
  unfold wf. intros (H0 & H1 & H2).
  destruct (writeBytes_spec f bytes H0) as (f' & Hw & Ho & Hs & Hc & _).
  exists f'. split; [exact Hw|]. lia.
Qed.

Lemma typed_reads_eof f :
  fileSize f <= offset f ->
  readU8 f = (Some 0, f) /\ readU16 f = (0, f) /\ readU24 f = (0, f) /\ readU32 f = (0, f).
Proof.
  intros H. pose proof (readU8_eof f H) as E.
  unfold readU16, readU24, readU32. rewrite !E.
  repeat split; destruct (littleEndian f); reflexivity.
Qed.

Lemma readBytes_eof f n :
  wf f -> fileSize f <= offset f -> 0 <= n -> readBytes f n = ([], f).
Proof.
  unfold wf. intros (H0 & H1 & H2) H Hn. unfold readBytes.
  replace (Z.min (offset f + n) (fileSize f)) with (offset f) by lia.
  f_equal.
  - unfold U8.slice. now rewrite Z.sub_diag.
  - now destruct f.
Qed.

(** What the typed writes of two, three and four bytes do to the size and
    the capacity: each is a run of [writeU8]. *)
Lemma writeU8_sizes f v :
  0 <= offset f ->
  0 <= offset (writeU8 f v)
  /\ offset (writeU8 f v) = offset f + 1
  /\ fileSize (writeU8 f v) = Z.max (fileSize f) (offset f + 1)
  /\ capacity (writeU8 f v) = Z.max (capacity f) (offset f + 1).
Proof.
  intros H0. destruct (writeU8_spec f v H0) as (Ho & Hs & Hc & _).
  rewrite Ho, Hs, Hc. repeat split; lia.
Qed.

Lemma writeU16_sizes f v :
  0 <= offset f ->
  fileSize (writeU16 f v) = Z.max (fileSize f) (offset f + 2)
  /\ capacity (writeU16 f v) = Z.max (capacity f) (offset f + 2).
Proof.
  intros H0. unfold writeU16.
  destruct (littleEndian f);
    match goal with
    | |- context [writeU8 (writeU8 f ?a) ?b] =>
        destruct (writeU8_sizes f a H0) as (P1 & O1 & S1 & C1);
        destruct (writeU8_sizes _ b P1) as (_ & _ & S2 & C2)
    end;
    rewrite S2, C2, O1, S1, C1; split; lia.
Qed.

Lemma writeU24_sizes f v :
  0 <= offset f ->
  fileSize (writeU24 f v) = Z.max (fileSize f) (offset f + 3)
  /\ capacity (writeU24 f v) = Z.max (capacity f) (offset f + 3).
Proof.
  intros H0. unfold writeU24.
  destruct (littleEndian f);
    match goal with
    | |- context [writeU8 (writeU8 (writeU8 f ?a) ?b) ?c] =>
        destruct (writeU8_sizes f a H0) as (P1 & O1 & S1 & C1);
        destruct (writeU8_sizes _ b P1) as (P2 & O2 & S2 & C2);
        destruct (writeU8_sizes _ c P2) as (_ & _ & S3 & C3)
    end;
    rewrite S3, C3, O2, S2, C2, O1, S1, C1; split; lia.
Qed.

Lemma writeU32_sizes f v :
  0 <= offset f ->
  fileSize (writeU32 f v) = Z.max (fileSize f) (offset f + 4)
  /\ capacity (writeU32 f v) = Z.max (capacity f) (offset f + 4).
Proof.
  intros H0. unfold writeU32.
  destruct (littleEndian f);
    match goal with
    | |- context [writeU8 (writeU8 (writeU8 (writeU8 f ?a) ?b) ?c) ?d] =>
        destruct (writeU8_sizes f a H0) as (P1 & O1 & S1 & C1);
        destruct (writeU8_sizes _ b P1) as (P2 & O2 & S2 & C2);
        destruct (writeU8_sizes _ c P2) as (P3 & O3 & S3 & C3);
        destruct (writeU8_sizes _ d P3) as (_ & _ & S4 & C4)
    end;
    rewrite S4, C4, O3, S3, C3, O2, S2, C2, O1, S1, C1; split; lia.
Qed.

(** C9 (byte cursor invariant), as the code has it.  Starting from a buffer
    with [0 <= offset <= size <= capacity], every cursor operation - [seek],
    [skip], the typed reads, [readBytes] with a length that is not negative,
    the typed writes, [writeBytes], [expand] and [truncate] to a size that is
    not negative - yields a buffer with the same invariant; a read with the
    cursor at or past the size returns 0 (no bytes for [readBytes]) and
    leaves the buffer as it is; a write with the cursor at or past the size,
    by any of [writeU8], [writeU16], [writeU24], [writeU32] and
    [writeBytes], makes the size grow by the bytes written, and the backing
    store grows only as far as it must to hold them: the capacity becomes
    the larger of the old capacity and the new size. *)
Theorem cursor_invariant_preserved (f : BinFile) (Hwf : wf f) :
  (* the invariant is kept *)
  ((forall o, wf (seek f o)) /\ (forall n, wf (skip f n))
   /\ wf (snd (readU8 f)) /\ wf (snd (readU16 f))
   /\ wf (snd (readU24 f)) /\ wf (snd (readU32 f))
   /\ (forall n, 0 <= n -> wf (snd (readBytes f n)))
   /\ (forall v, wf (writeU8 f v)) /\ (forall v, wf (writeU16 f v))
   /\ (forall v, wf (writeU24 f v)) /\ (forall v, wf (writeU32 f v))
   /\ (forall bytes, exists f', writeBytes f bytes = JS.Ok f' /\ wf f')
   /\ (forall n, wf (expand f n))
   /\ (forall n, 0 <= n -> wf (truncate f n)))
  (* reads at or past the size *)
  /\ (fileSize f <= offset f ->
      readU8 f = (Some 0, f) /\ readU16 f = (0, f)
      /\ readU24 f = (0, f) /\ readU32 f = (0, f)
      /\ (forall n, 0 <= n -> readBytes f n = ([], f)))
  (* writes at or past the size *)
  /\ (fileSize f <= offset f ->
      (forall v,
          fileSize (writeU8 f v) = fileSize f + 1
          /\ capacity (writeU8 f v) = Z.max (capacity f) (fileSize f + 1)
          /\ U8.get (data (writeU8 f v)) (fileSize f) = Some (JS.band v 255))
      /\ (forall v,
             fileSize (writeU16 f v) = fileSize f + 2
             /\ capacity (writeU16 f v) = Z.max (capacity f) (fileSize f + 2))
      /\ (forall v,
             fileSize (writeU24 f v) = fileSize f + 3
             /\ capacity (writeU24 f v) = Z.max (capacity f) (fileSize f + 3))
      /\ (forall v,
             fileSize (writeU32 f v) = fileSize f + 4
             /\ capacity (writeU32 f v) = Z.max (capacity f) (fileSize f + 4))
      /\ (forall bytes, exists f',
             writeBytes f bytes = JS.Ok f'
             /\ fileSize f' = fileSize f + Z.of_nat (length bytes)
             /\ capacity f' = Z.max (capacity f) (fileSize f + Z.of_nat (length bytes))
             /\ U8.slice (data f') (fileSize f) (fileSize f + Z.of_nat (length bytes))
                = bytes)).
Proof.
  assert (Hsz : 0 <= fileSize f <= capacity f) by (unfold wf in Hwf; lia).
  split; [|split].
  - split; [intros o; now apply wf_seek|].
    split; [intros n; unfold skip; now apply wf_seek|].
    split; [now apply wf_readU8|].
    split; [now apply wf_readU16|].
    split; [now apply wf_readU24|].
    split; [now apply wf_readU32|].
    split; [intros n Hn; now apply wf_readBytes|].
    split; [intros v; now apply wf_writeU8|].
    split; [intros v; now apply wf_writeU16|].
    split; [intros v; now apply wf_writeU24|].
    split; [intros v; now apply wf_writeU32|].
    split; [intros bytes; now apply wf_writeBytes|].
    split; [intros n; now apply wf_expand|].
    intros n Hn. now apply wf_truncate.
  - intros Heof. destruct (typed_reads_eof f Heof) as (E8 & E16 & E24 & E32).
    repeat split; try assumption.
    intros n Hn. now apply readBytes_eof.
  - intros Hpast.
    assert (Hat : offset f = fileSize f) by (unfold wf in Hwf; lia).
    destruct Hwf as (H0 & _).
    split; [|split; [|split; [|split]]].
    + intros v. destruct (writeU8_spec f v H0) as (_ & Hs & Hc & _ & Hg).
      rewrite Hat in Hs, Hc, Hg. repeat split; try assumption. lia.
    + intros v. destruct (writeU16_sizes f v H0) as (Hs & Hc).
      rewrite Hat in Hs, Hc. split; [lia | exact Hc].
    + intros v. destruct (writeU24_sizes f v H0) as (Hs & Hc).
      rewrite Hat in Hs, Hc. split; [lia | exact Hc].
    + intros v. destruct (writeU32_sizes f v H0) as (Hs & Hc).
      rewrite Hat in Hs, Hc. split; [lia | exact Hc].
    + intros bytes.
      destruct (writeBytes_spec f bytes H0) as (f' & Hw & _ & Hs & Hc & Hsl).
      rewrite Hat in Hs, Hc, Hsl. exists f'. repeat split; try assumption. lia.
Qed.

Lemma cursor_invariant_preserved_witness :
  wf Samples.at_end
  /\ readU16 Samples.at_end = (0, Samples.at_end)
  /\ fileSize (writeU8 Samples.at_end 511) = 4
  /\ fileSize (writeU32 Samples.at_end 511) = 7
  /\ capacity (writeU32 Samples.at_end 511) = 7.
Proof.
  assert (H : wf Samples.at_end) by (unfold wf, capacity; cbn; lia).
  split; [exact H|].
  destruct (cursor_invariant_preserved Samples.at_end H) as (_ & Hr & Hw).
  split; [apply Hr; cbn; lia|].
  destruct Hw as (Hw8 & _ & _ & Hw32 & _); [cbn; lia|].
  split; [apply (Hw8 511)|]. exact (Hw32 511).
Defined.

(** C9 as it is written does not hold of the code.  [truncate(-1)] and
    [readBytes(-1)] on a buffer of four bytes with the cursor at 0 leave the
    cursor at -1; and a write with the cursor at the size of a buffer whose
    backing store has room, as after [expand(8)] and [seek(4)], makes the
    size 5 and leaves the backing store at its 8 bytes. *)
Lemma cursor_invariant_counterexample :
  wf Samples.four
  /\ offset (truncate Samples.four (-1)) = -1
  /\ ~ wf (truncate Samples.four (-1))
  /\ offset (snd (readBytes Samples.four (-1))) = -1
  /\ ~ wf (snd (readBytes Samples.four (-1)))
  /\ wf Samples.roomy
  /\ offset Samples.roomy = fileSize Samples.roomy
  /\ fileSize (writeU8 Samples.roomy 9) = fileSize Samples.roomy + 1
  /\ capacity Samples.roomy = 8
  /\ capacity (writeU8 Samples.roomy 9) = 8.
Proof.
  assert (N : forall f, offset f = -1 -> ~ wf f) by (intros f E (H & _); lia).
  split; [unfold wf, capacity; cbn; lia|].
  split; [reflexivity|]. split; [apply N; reflexivity|].
  split; [reflexivity|]. split; [apply N; reflexivity|].
  assert (O : offset Samples.roomy = 4) by reflexivity.
  assert (S : fileSize Samples.roomy = 4) by reflexivity.
  assert (C : capacity Samples.roomy = 8) by reflexivity.
  split; [unfold wf; rewrite O, S, C; lia|].
  split; [reflexivity|]. split; [reflexivity|]. split; reflexivity.
Qed.

End BinFileFacts.

(** ** Checksums *)

Module ChecksumFacts.
Import BinFile.

Lemma crc32_check_value :
  hashCRC32 (of_bytes (Samples.ascii_bytes "123456789")) 0 None = 0xCBF43926.
Proof. vm_compute. reflexivity. Qed.

Lemma crc16_check_value :
  hashCRC16 (of_bytes (Samples.ascii_bytes "123456789")) 0 None = 0x29B1.
Proof. vm_compute. reflexivity. Qed.

(** C7 (checksum test vectors).  On the code, CRC32 of the empty sequence is
    0, CRC32 of "123456789" is 0xCBF43926 and Adler-32 of "Wikipedia" is
    0x11E60398; but [hashMD5] of the empty input is the placeholder's
    thirty-two zeros, not d41d8cd98f00b204e9800998ecf8427e. *)
Theorem checksum_vectors_on_code :
  hashCRC32 (of_bytes []) 0 None = 0
  /\ hashCRC32 (of_bytes (Samples.ascii_bytes "123456789")) 0 None = 0xCBF43926
  /\ VCDIFF.adler32 (of_bytes (Samples.ascii_bytes "Wikipedia")) 0 9 = 0x11E60398
  /\ hashMD5 (of_bytes []) = "00000000000000000000000000000000"%string
  /\ hashMD5 (of_bytes []) <> "d41d8cd98f00b204e9800998ecf8427e"%string.
Proof.
  split; [vm_compute; reflexivity|].
  split; [apply crc32_check_value|].
  split; [vm_compute; reflexivity|].
  split; [vm_compute; reflexivity|].
  vm_compute. discriminate.
Qed.

End ChecksumFacts.

(** ** The VCDIFF default code table *)

Module VCDIFFFacts.
Import VCDIFF.

Lemma code_table_length : length VCD_DEFAULT_CODE_TABLE = 256%nat.
Proof. reflexivity. Qed.

(** C8 (VCDIFF default code table).  The table the source builds has 256
    entries and is, index by index, the RFC 3284 table: RUN at 0; ADD of sizes
    0, 1..17 at 1-18; for each of the 9 modes a COPY of size 0 then sizes 4..18
    at 19-162; ADD 1..4 with COPY 4..6 for modes 0-5 at 163-234; ADD 1..4 with
    COPY 4 for modes 6-8 at 235-246; COPY 4 with ADD 1 for the 9 modes at
    247-255. *)
Theorem default_code_table_is_rfc3284 :
  length VCD_DEFAULT_CODE_TABLE = 256%nat
  /\ VCD_DEFAULT_CODE_TABLE = map rfc3284_entry (range 0 256).
Proof. split; vm_compute; reflexivity. Qed.

End VCDIFFFacts.

(** ** Variable-length values *)

Module VLVFacts.
Import BinFile VLVLists.

(** *** The integer operators on values below 2^31 *)

Lemma ToInt32_small x : 0 <= x < 2 ^ 31 -> JS.ToInt32 x = x.
Proof.
  intros H. unfold JS.ToInt32. rewrite Z.mod_small by lia.
  destruct (x <? 2 ^ 31) eqn:E; [reflexivity|]. apply Z.ltb_ge in E. lia.
Qed.

Lemma band_127 x : 0 <= x < 2 ^ 31 -> JS.band x 0x7f = x mod 128.
Proof.
  intros H. unfold JS.band. rewrite ToInt32_small by exact H.
  change (JS.ToInt32 127) with (Z.ones 7). now rewrite Z.land_ones.
Qed.

Lemma shr_7 x : 0 <= x < 2 ^ 31 -> JS.shr x 7 = x / 128.
Proof.
  intros H. unfold JS.shr. rewrite ToInt32_small by exact H.
  change (7 mod 32) with 7. now rewrite Z.shiftr_div_pow2.
Qed.

Lemma shl_7 s : 0 <= s -> s * 128 < 2 ^ 31 -> JS.shl s 7 = s * 128.
Proof.
  intros H0 H. unfold JS.shl. rewrite (ToInt32_small s) by lia.
  change (7 mod 32) with 7. rewrite Z.shiftl_mul_pow2 by lia.
  apply ToInt32_small. lia.
Qed.

Lemma land_128_small b : 0 <= b < 128 -> Z.land b 128 = 0.
Proof.
  intros H. rewrite <- (Z.mod_small b 128) by lia.
  change 128 with (2 ^ 7) at 1. rewrite <- Z.land_ones by lia.
  rewrite <- Z.land_assoc. change (Z.land (Z.ones 7) 128) with 0. apply Z.land_0_r.
Qed.

Lemma bor_128 b : 0 <= b < 128 -> JS.bor b 0x80 = b + 128.
Proof.
  intros H. unfold JS.bor. rewrite ToInt32_small by lia.
  change (JS.ToInt32 128) with 128.
  rewrite <- Z.lxor_lor by (now apply land_128_small).
  symmetry. apply Z.add_nocarry_lxor. now apply land_128_small.
Qed.

Lemma band_255_small v : 0 <= v < 256 -> JS.band v 255 = v.
Proof.
  intros H. rewrite BinFileFacts.band_255, ToInt32_small by lia. apply Z.mod_small. lia.
Qed.

Lemma band_byte_127 b : 0 <= b < 256 -> JS.band b 0x7f = b mod 128.
Proof. intros H. apply band_127. lia. Qed.

Lemma band_byte_128 b : 0 <= b < 256 -> (JS.band b 0x80 =? 0) = (b <? 128).
Proof.
  intros H. unfold JS.band. rewrite ToInt32_small by lia.
  change (JS.ToInt32 128) with 128.
  destruct (b <? 128) eqn:E.
  - apply Z.ltb_lt in E. rewrite land_128_small by lia. reflexivity.
  - apply Z.ltb_ge in E. apply Z.eqb_neq. intros Habs.
    assert (Hbit : Z.testbit (Z.land b 128) 7 = false) by (rewrite Habs; apply Z.bits_0).
    rewrite Z.land_spec, Z.testbit_odd, Z.shiftr_div_pow2 in Hbit by lia.
    replace (b / 2 ^ 7) with 1 in Hbit
      by (apply Z.div_unique with (r := b - 128); lia).
    discriminate Hbit.
Qed.

(** *** Writing into a full buffer appends *)

Lemma writeU8_full f v :
  full f -> 0 <= BinFile.offset f -> 0 <= v < 256 ->
  writeU8 f v = append_bytes f [v] /\ full (writeU8 f v).
Proof.
  intros (Ho & Hs) H0 Hv.
  assert (Hput : U8.put (data f ++ [0]) (offset f) v = data f ++ [v]).
  { unfold U8.put, capacity in *. rewrite length_app. cbn [length].
    replace ((0 <=? offset f) && (offset f <? Z.of_nat (length (data f) + 1))) with true
      by (symmetry; apply andb_true_iff; split; [apply Z.leb_le | apply Z.ltb_lt]; lia).
    replace (Z.to_nat (offset f)) with (length (data f)) by lia.
    rewrite firstn_app, firstn_all, Nat.sub_diag. cbn [firstn].
    rewrite app_nil_r.
    rewrite skipn_all2 by (rewrite length_app; cbn [length]; lia).
    rewrite Z.mod_small by lia. reflexivity. }
  assert (E : writeU8 f v = append_bytes f [v]).
  { unfold writeU8, append_bytes, expand, capacity in *.
    replace (Z.of_nat (length (data f)) <=? offset f) with true
      by (symmetry; apply Z.leb_le; lia).
    replace (offset f + 1 <=? Z.of_nat (length (data f))) with false
      by (symmetry; apply Z.leb_gt; lia).
    replace (Z.to_nat (offset f + 1) - length (data f))%nat with 1%nat by lia.
    cbn [repeat data offset fileSize with_data with_offset with_fileSize fileName
         littleEndian _offsetsStack].
    replace (fileSize f <? offset f + 1) with true by (symmetry; apply Z.ltb_lt; lia).
    rewrite band_255_small by exact Hv. rewrite Hput.
    unfold with_fileSize, with_offset, with_data.
    cbn [data offset fileSize fileName littleEndian _offsetsStack length].
    f_equal; lia. }
  split; [exact E|]. rewrite E. unfold full, append_bytes, capacity in *.
  cbn [data offset fileSize]. rewrite length_app. cbn [length]. lia.
Qed.

Lemma append_bytes_app f l1 l2 :
  append_bytes (append_bytes f l1) l2 = append_bytes f (l1 ++ l2).
Proof.
  unfold append_bytes. cbn [fileName fileSize littleEndian offset data _offsetsStack].
  rewrite length_app, <- app_assoc. f_equal; lia.
Qed.

Lemma append_bytes_offset f l : 0 <= offset f -> 0 <= offset (append_bytes f l).
Proof. unfold append_bytes. cbn [offset]. lia. Qed.

(** [writeVLV] on a full buffer appends the bytes of [encode]. *)
Lemma writeVLV_encode fuel : forall f x,
  full f -> 0 <= offset f -> 0 <= x < 2 ^ 31 ->
  writeVLV fuel f x = option_map (append_bytes f) (encode fuel x).
Proof.
  induction fuel as [|fuel IH]; intros f x Hfull H0 Hx; [reflexivity|].
  cbn [writeVLV encode]. rewrite band_127, shr_7 by exact Hx.
  assert (Hb : 0 <= x mod 128 < 128) by (apply Z.mod_pos_bound; lia).
  destruct (x / 128 =? 0) eqn:E.
  - cbn [option_map]. f_equal. apply writeU8_full; auto; lia.
  - rewrite bor_128 by exact Hb.
    destruct (writeU8_full f (x mod 128 + 128) Hfull H0) as (Ew & Hfull'); [lia|].
    rewrite IH.
    + rewrite Ew. destruct (encode fuel (x / 128)) as [l|]; cbn [option_map]; [|reflexivity].
      f_equal. apply append_bytes_app.
    + exact Hfull'.
    + rewrite Ew. now apply append_bytes_offset.
    + split; [apply Z.div_pos; lia|].
      apply Z.div_lt_upper_bound; lia.
Qed.

Lemma encode_total fuel : forall x,
  0 <= x < 128 ^ Z.of_nat (S fuel) ->
  exists l, encode (S fuel) x = Some l /\ Forall is_byte l.
Proof.
  induction fuel as [|fuel IH]; intros x Hx;
    assert (Hb : 0 <= x mod 128 < 128) by (apply Z.mod_pos_bound; lia).
  - change (128 ^ Z.of_nat 1) with 128 in Hx. cbn [encode].
    replace (x / 128 =? 0) with true
      by (symmetry; apply Z.eqb_eq, Z.div_small; lia).
    eexists. split; [reflexivity|]. constructor; [unfold is_byte; lia|constructor].
  - remember (S fuel) as n eqn:En. cbn [encode].
    destruct (x / 128 =? 0) eqn:E.
    + eexists. split; [reflexivity|]. constructor; [unfold is_byte; lia|constructor].
    + destruct (IH (x / 128)) as (l & El & Hl).
      { split; [apply Z.div_pos; lia|]. subst n.
        apply Z.div_lt_upper_bound; [lia|].
        rewrite (Nat2Z.inj_succ (S fuel)), Z.pow_succ_r in Hx by lia. lia. }
      subst n. rewrite El. cbn [option_map]. eexists. split; [reflexivity|].
      constructor; [unfold is_byte; lia|exact Hl].
Qed.

(** [readVLV] on a buffer that ends with the bytes [l] computes [decode l]. *)
Lemma readVLV_decode l : forall pre f value shift fuel,
  data f = pre ++ l -> offset f = Z.of_nat (length pre) ->
  fileSize f = Z.of_nat (length (data f)) ->
  Forall is_byte l -> (length l < fuel)%nat ->
  exists f', readVLV_loop fuel f value shift = Some (decode l value shift, f').
Proof.
  induction l as [|b l IH]; intros pre f value shift fuel Hd Ho Hs Hl Hfuel;
    (destruct fuel as [|fuel]; [cbn in Hfuel; lia|]); cbn [readVLV_loop decode].
  - rewrite BinFileFacts.readU8_eof
      by (rewrite Hs, Ho, Hd, length_app; cbn [length]; lia).
    cbn [JS.num]. change (JS.band 0 127) with 0. change (JS.band 0 128 =? 0) with true.
    cbv iota. rewrite Z.mul_0_l, Z.add_0_r. eauto.
  - inversion Hl as [|? ? Hb Hl']; subst.
    unfold readU8.
    replace (fileSize f <=? offset f) with false
      by (symmetry; apply Z.leb_gt; rewrite Hs, Ho, Hd, length_app; cbn [length]; lia).
    assert (Hget : U8.get (data f) (offset f) = Some b).
    { unfold U8.get. replace (offset f <? 0) with false by (symmetry; apply Z.ltb_ge; lia).
      rewrite Ho, Nat2Z.id, Hd, nth_error_app2, Nat.sub_diag by lia. reflexivity. }
    rewrite Hget. cbn [JS.num].
    rewrite band_byte_127, band_byte_128 by exact Hb.
    destruct (b <? 128); [eauto|].
    apply (IH (pre ++ [b])).
    + cbn [data with_offset]. rewrite Hd, <- app_assoc. reflexivity.
    + cbn [offset with_offset]. rewrite Ho, length_app. cbn [length]. lia.
    + exact Hs.
    + exact Hl'.
    + cbn [length] in Hfuel. lia.
Qed.

(** Decoding what was encoded: at least the value, and more than the value
    from 128 on - the bias of each continuation byte is added and was never
    subtracted. *)
Lemma decode_encode fuel : forall x value shift l,
  encode fuel x = Some l -> 0 <= x -> 0 < shift -> shift * x < 2 ^ 31 ->
  value + shift * x <= decode l value shift
  /\ (x < 128 -> decode l value shift = value + shift * x)
  /\ (128 <= x -> value + shift * x < decode l value shift).
Proof.
  induction fuel as [|fuel IH]; intros x value shift l He Hx Hs Hb; [discriminate|].
  cbn [encode] in He.
  assert (Hm : 0 <= x mod 128 < 128) by (apply Z.mod_pos_bound; lia).
  pose proof (Z.div_mod x 128 ltac:(lia)) as Hdm.
  destruct (x / 128 =? 0) eqn:E.
  - apply Z.eqb_eq in E. inversion He; subst l; clear He. cbn [decode].
    replace (x mod 128 <? 128) with true by (symmetry; apply Z.ltb_lt; lia).
    rewrite Z.mod_mod by lia. nia.
  - apply Z.eqb_neq in E.
    assert (Hq : 0 < x / 128) by (pose proof (Z.div_pos x 128); lia).
    destruct (encode fuel (x / 128)) as [l'|] eqn:El; [|discriminate].
    cbn [option_map] in He. inversion He; subst l; clear He. cbn [decode].
    replace (x mod 128 + 128 <? 128) with false by (symmetry; apply Z.ltb_ge; lia).
    replace ((x mod 128 + 128) mod 128) with (x mod 128)
      by (rewrite <- Zplus_mod_idemp_l, Z.mod_mod, Z.add_mod, Z.mod_same, Z.add_0_r,
            !Z.mod_mod by lia; reflexivity).
    rewrite shl_7 by nia.
    destruct (IH (x / 128) (value + x mod 128 * shift + shift * 128) (shift * 128) l' El)
      as (Hle & _); [lia|lia|nia|].
    split; [nia|]. split; [intros; nia|intros; nia].
Qed.

(** The round trip of the UPS-style codec of [BinFile], for every value
    below 2^31: what is read back is the value up to 127, and more than the
    value from 128 on. *)
Lemma ups_roundtrip_value x :
  0 <= x < 2 ^ 31 ->
  exists y, Samples.vlv_ups_roundtrip x = Some y
            /\ (x < 128 -> y = x) /\ (128 <= x -> x < y).
Proof.
  intros Hx. unfold Samples.vlv_ups_roundtrip.
  assert (Hfull : full (of_bytes [])) by (split; reflexivity).
  rewrite writeVLV_encode by (auto; cbn; lia).
  destruct (encode_total 63 x) as (l & El & Hl).
  { split; [lia|]. apply Z.lt_trans with (2 ^ 31); [lia|]. reflexivity. }
  rewrite El. cbn [option_map].
  set (g := seek (append_bytes (of_bytes []) l) 0).
  assert (Hr : exists f', readVLV_loop (S (Z.to_nat (fileSize g - offset g))) g 0 1
                          = Some (decode l 0 1, f')).
  { apply (readVLV_decode l []).
    - reflexivity.
    - subst g. cbn. lia.
    - subst g. cbn. lia.
    - exact Hl.
    - subst g. cbn. lia. }
  destruct Hr as (f' & Er).
  unfold readVLV. rewrite Er. cbn [option_map fst].
  destruct (decode_encode 64 x 0 1 l El) as (_ & Hs & Hb); try lia.
  eexists. split; [reflexivity|]. split; intros; [rewrite Hs | specialize (Hb ltac:(lia))]; lia.
Qed.

Lemma ups_roundtrip_fails x :
  128 <= x < 2 ^ 31 -> Samples.vlv_ups_roundtrip x <> Some x.
Proof.
  intros Hx E. destruct (ups_roundtrip_value x) as (y & Ey & _ & Hb); [lia|].
  rewrite E in Ey. inversion Ey; subst y. specialize (Hb ltac:(lia)). lia.
Qed.

(** *** Values with bit 31 set: the encoders never return *)

Lemma ToInt32_range z : - 2 ^ 31 <= JS.ToInt32 z < 2 ^ 31.
Proof.
  unfold JS.ToInt32. pose proof (Z.mod_pos_bound z (2 ^ 32) ltac:(lia)).
  destruct (z mod 2 ^ 32 <? 2 ^ 31) eqn:E;
    [apply Z.ltb_lt in E | apply Z.ltb_ge in E]; lia.
Qed.

Lemma ToInt32_id z : - 2 ^ 31 <= z < 2 ^ 31 -> JS.ToInt32 z = z.
Proof.
  intros H. unfold JS.ToInt32.
  destruct (Z.neg_nonneg_cases z) as [Hn|Hp].
  - replace (z mod 2 ^ 32) with (z + 2 ^ 32)
      by (apply Z.mod_unique with (q := -1); lia).
    replace (z + 2 ^ 32 <? 2 ^ 31) with false by (symmetry; apply Z.ltb_ge; lia). lia.
  - rewrite Z.mod_small by lia.
    replace (z <? 2 ^ 31) with true by (symmetry; apply Z.ltb_lt; lia). reflexivity.
Qed.

(** [v >> n] of a negative 32-bit value is negative again. *)
Lemma shr_negative v n :
  JS.ToInt32 v < 0 -> 0 <= n < 32 ->
  JS.shr v n < 0 /\ JS.ToInt32 (JS.shr v n) = JS.shr v n.
Proof.
  intros Hv Hn. pose proof (ToInt32_range v) as Hr. unfold JS.shr.
  rewrite (Z.mod_small n 32) by lia. rewrite Z.shiftr_div_pow2 by lia.
  assert (Hp : 0 < 2 ^ n) by (apply Z.pow_pos_nonneg; lia).
  assert (Hlt : JS.ToInt32 v / 2 ^ n < 0) by (apply Z.div_lt_upper_bound; lia).
  assert (Hge : - 2 ^ 31 <= JS.ToInt32 v / 2 ^ n).
  { apply Z.div_le_lower_bound; [lia|]. nia. }
  split; [exact Hlt|]. apply ToInt32_id. lia.
Qed.

Lemma writeVLV_diverges fuel : forall f v,
  JS.ToInt32 v < 0 -> writeVLV fuel f v = None.
Proof.
  induction fuel as [|fuel IH]; intros f v Hv; [reflexivity|].
  cbn [writeVLV]. destruct (shr_negative v 7 Hv ltac:(lia)) as (Hneg & Hid).
  replace (JS.shr v 7 =? 0) with false by (symmetry; apply Z.eqb_neq; lia).
  apply IH. rewrite Hid. exact Hneg.
Qed.

Lemma rup_getVLVLength_diverges fuel : forall ret v,
  JS.ToInt32 v < 0 -> v <> 0 -> RUP.getVLVLength_loop fuel ret v = None.
Proof.
  induction fuel as [|fuel IH]; intros ret v Hv Hnz; [reflexivity|].
  cbn [RUP.getVLVLength_loop].
  replace (v =? 0) with false by (symmetry; apply Z.eqb_neq; exact Hnz).
  destruct (shr_negative v 8 Hv ltac:(lia)) as (Hneg & Hid).
  apply IH; [rewrite Hid; exact Hneg | lia].
Qed.

Lemma ToInt32_bit31 x : 2 ^ 31 <= x < 2 ^ 32 -> JS.ToInt32 x < 0.
Proof.
  intros H. unfold JS.ToInt32. rewrite Z.mod_small by lia.
  replace (x <? 2 ^ 31) with false by (symmetry; apply Z.ltb_ge; lia). lia.
Qed.

(** For a value from 2^31 up to 2^32 - 1 neither encoder returns, whatever
    the number of turns allowed. *)
Lemma encoders_diverge_on_bit31 x fuel f :
  2 ^ 31 <= x < 2 ^ 32 ->
  writeVLV fuel f x = None /\ RUP.writeVLV fuel f x = None.
Proof.
  intros H. pose proof (ToInt32_bit31 x H) as Hneg. split.
  - now apply writeVLV_diverges.
  - unfold RUP.writeVLV, RUP.getVLVLength.
    rewrite rup_getVLVLength_diverges by (assumption || lia). reflexivity.
Qed.

(** *** The RUP codec below 2^31 *)

Lemma shr_8 x : 0 <= x < 2 ^ 31 -> JS.shr x 8 = x / 256.
Proof.
  intros H. unfold JS.shr. rewrite ToInt32_small by exact H.
  change (8 mod 32) with 8. now rewrite Z.shiftr_div_pow2.
Qed.

Lemma band_255_mod x : 0 <= x < 2 ^ 31 -> JS.band x 0xff = x mod 256.
Proof. intros H. rewrite BinFileFacts.band_255, ToInt32_small by exact H. reflexivity. Qed.

Lemma digits256_spec fuel : forall x l,
  digits256 fuel x = Some l -> 0 <= x ->
  Forall is_byte l /\ (x < 256 ^ Z.of_nat (length l)) /\ (length l < fuel)%nat.
Proof.
  induction fuel as [|fuel IH]; intros x l He Hx; [discriminate|].
  cbn [digits256] in He. destruct (x =? 0) eqn:E.
  - apply Z.eqb_eq in E. inversion He; subst.
    split; [apply Forall_nil_2|]. cbn. lia.
  - destruct (digits256 fuel (x / 256)) as [l'|] eqn:El; [|discriminate].
    cbn [option_map] in He. inversion He; subst l; clear He.
    destruct (IH _ _ El) as (Hb & Hlt & Hlen); [apply Z.div_pos; lia|].
    pose proof (Z.mod_pos_bound x 256 ltac:(lia)).
    pose proof (Z.div_mod x 256 ltac:(lia)).
    split; [constructor; [unfold is_byte; lia|exact Hb]|].
    split; [|cbn [length]; lia].
    cbn [length]. rewrite Nat2Z.inj_succ, Z.pow_succ_r by lia. lia.
Qed.

Lemma digits256_total fuel : forall x,
  0 <= x < 256 ^ Z.of_nat fuel -> exists l, digits256 (S fuel) x = Some l.
Proof.
  induction fuel as [|fuel IH]; intros x Hx.
  - change (256 ^ Z.of_nat 0) with 1 in Hx. cbn [digits256].
    replace (x =? 0) with true by (symmetry; apply Z.eqb_eq; lia). eauto.
  - change (digits256 (S (S fuel)) x)
      with (if x =? 0 then Some []
            else option_map (cons (x mod 256)) (digits256 (S fuel) (x / 256))).
    destruct (x =? 0); [eauto|].
    destruct (IH (x / 256)) as (l & El).
    { split; [apply Z.div_pos; lia|]. apply Z.div_lt_upper_bound; [lia|].
      rewrite Nat2Z.inj_succ, Z.pow_succ_r in Hx by lia. lia. }
    rewrite El. cbn [option_map]. eauto.
Qed.

Lemma rup_getVLVLength_digits fuel : forall ret x,
  0 <= x < 2 ^ 31 ->
  RUP.getVLVLength_loop fuel ret x
  = option_map (fun l => ret + Z.of_nat (length l)) (digits256 fuel x).
Proof.
  induction fuel as [|fuel IH]; intros ret x Hx; [reflexivity|].
  cbn [RUP.getVLVLength_loop digits256]. destruct (x =? 0).
  - cbn. f_equal. lia.
  - rewrite shr_8 by exact Hx. rewrite IH.
    + destruct (digits256 fuel (x / 256)); cbn [option_map length]; [f_equal; lia|reflexivity].
    + split; [apply Z.div_pos; lia|]. apply Z.div_lt_upper_bound; lia.
Qed.

Lemma append_bytes_nil f : append_bytes f [] = f.
Proof.
  unfold append_bytes. destruct f. cbn. rewrite app_nil_r, !Z.add_0_r. reflexivity.
Qed.

Lemma rup_writeVLV_loop_digits fuel : forall f x,
  full f -> 0 <= offset f -> 0 <= x < 2 ^ 31 ->
  RUP.writeVLV_loop fuel f x = option_map (append_bytes f) (digits256 fuel x).
Proof.
  induction fuel as [|fuel IH]; intros f x Hfull H0 Hx; [reflexivity|].
  cbn [RUP.writeVLV_loop digits256]. destruct (x =? 0).
  - cbn [option_map]. now rewrite append_bytes_nil.
  - rewrite shr_8, band_255_mod by exact Hx.
    pose proof (Z.mod_pos_bound x 256 ltac:(lia)) as Hb.
    destruct (writeU8_full f (x mod 256) Hfull H0 Hb) as (Ew & Hfull').
    rewrite IH.
    + rewrite Ew. destruct (digits256 fuel (x / 256)); cbn [option_map]; [|reflexivity].
      f_equal. apply append_bytes_app.
    + exact Hfull'.
    + rewrite Ew. now apply append_bytes_offset.
    + split; [apply Z.div_pos; lia|]. apply Z.div_lt_upper_bound; lia.
Qed.

(** The digits add up to the value, as long as the shifts stay exact. *)
Lemma rup_value_digits fuel : forall x l i,
  digits256 fuel x = Some l -> 0 <= x -> 0 <= i -> x * 256 ^ i < 2 ^ 31 ->
  rup_value l i = x * 256 ^ i.
Proof.
  induction fuel as [|fuel IH]; intros x l i He Hx Hi Hb; [discriminate|].
  cbn [digits256] in He. destruct (x =? 0) eqn:E.
  - apply Z.eqb_eq in E. inversion He; subst. cbn. lia.
  - apply Z.eqb_neq in E.
    destruct (digits256 fuel (x / 256)) as [l'|] eqn:El; [|discriminate].
    cbn [option_map] in He. inversion He; subst l; clear He. cbn [rup_value].
    pose proof (Z.mod_pos_bound x 256 ltac:(lia)) as Hm.
    pose proof (Z.div_mod x 256 ltac:(lia)) as Hdm.
    assert (Hp : 0 < 256 ^ i) by (apply Z.pow_pos_nonneg; lia).
    assert (Hi4 : i < 4).
    { destruct (Z.lt_ge_cases i 4) as [|Hge]; [assumption|exfalso].
      pose proof (Z.pow_le_mono_r 256 4 i ltac:(lia) Hge) as Hpow.
      change (256 ^ 4) with 4294967296 in Hpow. nia. }
    assert (Hsucc : 256 ^ (i + 1) = 256 * 256 ^ i)
      by (rewrite Z.pow_add_r by lia; change (256 ^ 1) with 256; lia).
    assert (Hq : 0 <= x / 256) by (apply Z.div_pos; lia).
    assert (Hbound : x / 256 * 256 ^ (i + 1) < 2 ^ 31) by (rewrite Hsucc; nia).
    rewrite (IH (x / 256) l' (i + 1) El Hq ltac:(lia) Hbound).
    unfold JS.shl. rewrite (ToInt32_small (x mod 256)) by lia.
    rewrite (Z.mod_small (i * 8) 32) by lia.
    rewrite Z.shiftl_mul_pow2 by lia.
    replace (2 ^ (i * 8)) with (256 ^ i)
      by (rewrite Z.mul_comm, Z.pow_mul_r by lia; reflexivity).
    rewrite ToInt32_small by nia. nia.
Qed.

Lemma rup_read_digits l : forall pre f acc k,
  data f = pre ++ l -> offset f = Z.of_nat (length pre) ->
  fileSize f = Z.of_nat (length (data f)) -> Forall is_byte l ->
  fst (fold_left
         (fun '(d, g) i => let '(b, g') := readU8 g in (d + JS.shl (JS.num b) (i * 8), g'))
         (map Z.of_nat (seq k (length l))) (acc, f))
  = acc + rup_value l (Z.of_nat k).
Proof.
  induction l as [|b l IH]; intros pre f acc k Hd Ho Hs Hl.
  - cbn. lia.
  - inversion Hl as [|? ? Hb Hl']; subst.
    cbn [length seq map fold_left rup_value].
    unfold readU8 at 2.
    replace (fileSize f <=? offset f) with false
      by (symmetry; apply Z.leb_gt; rewrite Hs, Ho, Hd, length_app; cbn [length]; lia).
    assert (Hget : U8.get (data f) (offset f) = Some b).
    { unfold U8.get. replace (offset f <? 0) with false by (symmetry; apply Z.ltb_ge; lia).
      rewrite Ho, Nat2Z.id, Hd, nth_error_app2, Nat.sub_diag by lia. reflexivity. }
    rewrite Hget. cbn [JS.num].
    rewrite (IH (pre ++ [b])).
    + rewrite Nat2Z.inj_succ. unfold Z.succ. lia.
    + cbn [data with_offset]. rewrite Hd, <- app_assoc. reflexivity.
    + cbn [offset with_offset]. rewrite Ho, length_app. cbn [length]. lia.
    + exact Hs.
    + exact Hl'.
Qed.

(** The RUP codec gives the value back for every value below 2^31. *)
Lemma rup_roundtrip x :
  0 <= x < 2 ^ 31 -> Samples.vlv_rup_roundtrip x = Some x.
Proof.
  intros Hx. unfold Samples.vlv_rup_roundtrip, RUP.writeVLV, RUP.getVLVLength.
  rewrite rup_getVLVLength_digits by exact Hx.
  destruct (digits256_total 63 x) as (l & El).
  { split; [lia|]. apply Z.lt_trans with (2 ^ 31); [lia|]. reflexivity. }
  rewrite El. cbn [option_map].
  destruct (digits256_spec 64 x l El) as (Hl & _ & Hlen); [lia|].
  replace (1 + Z.of_nat (length l) - 1) with (Z.of_nat (length l)) by lia.
  assert (Hfull : full (of_bytes [])) by (split; reflexivity).
  destruct (writeU8_full (of_bytes []) (Z.of_nat (length l)) Hfull) as (Ew & Hfull');
    [cbn; lia|lia|].
  rewrite rup_writeVLV_loop_digits; [|exact Hfull'| |exact Hx].
  2:{ rewrite Ew. apply append_bytes_offset. cbn. lia. }
  rewrite El. cbn [option_map]. rewrite Ew, append_bytes_app. f_equal.
  set (g := seek (append_bytes (of_bytes []) ([Z.of_nat (length l)] ++ l)) 0).
  unfold RUP.readVLV.
  assert (Hr : readU8 g = (Some (Z.of_nat (length l)), with_offset g 1)).
  { subst g. unfold readU8. cbn [fileSize offset seek with_offset append_bytes of_bytes].
    replace (0 + Z.of_nat (length ([Z.of_nat (length l)] ++ l))
             <=? Z.max 0 (Z.min 0 (0 + Z.of_nat (length ([Z.of_nat (length l)] ++ l)))))
      with false
      by (symmetry; apply Z.leb_gt; rewrite length_app; cbn [length]; lia).
    rewrite Z.max_l by lia. reflexivity. }
  rewrite Hr. cbn [JS.num]. rewrite Nat2Z.id.
  rewrite (rup_read_digits l [Z.of_nat (length l)]).
  - change (Z.of_nat 0) with 0. rewrite (rup_value_digits 64 x l 0 El) by lia. lia.
  - reflexivity.
  - reflexivity.
  - subst g. cbn. lia.
  - exact Hl.
Qed.

(** C2 (VLV round trips), on the code.  [writeVLV] sets bit 7 on every byte
    but the last and never subtracts the bias that [readVLV] adds after a
    continuation byte: 128 is written as 80 01 and read back as 256, and no
    value from 128 up to 2^31 - 1 is read back as itself.  The RUP codec gives
    every value below 2^31 back, and gives 0 for 2^32.  From 2^31 up to
    2^32 - 1 neither encoder returns. *)
Theorem vlv_roundtrip_on_code :
  Samples.vlv_ups_roundtrip 127 = Some 127
  /\ Samples.vlv_ups_encoding 128 = Some [0x80; 0x01]
  /\ Samples.vlv_ups_roundtrip 128 = Some 256
  /\ (forall x, 128 <= x < 2 ^ 31 -> Samples.vlv_ups_roundtrip x <> Some x)
  /\ (forall x, 0 <= x < 2 ^ 31 -> Samples.vlv_rup_roundtrip x = Some x)
  /\ Samples.vlv_rup_roundtrip (2 ^ 32) = Some 0
  /\ (forall x fuel f, 2 ^ 31 <= x < 2 ^ 32 ->
        writeVLV fuel f x = None /\ RUP.writeVLV fuel f x = None).
Proof.
  split; [vm_compute; reflexivity|].
  split; [vm_compute; reflexivity|].
  split; [vm_compute; reflexivity|].
  split; [exact ups_roundtrip_fails|].
  split; [exact rup_roundtrip|].
  split; [vm_compute; reflexivity|].
  intros x fuel f. apply encoders_diverge_on_bit31.
Qed.

End VLVFacts.

(** ** BPS apply *)

Module BPSFacts.
Import BinFile.

(** What a SourceRead action does on the code: the bytes come from the
    source's own cursor, and the output cursor moves by the bytes written and
    then by [length] once more (up to the size). *)
Lemma source_read_effect romFile tempFile s t len :
  0 <= offset tempFile ->
  exists t1,
    copyTo romFile tempFile (offset tempFile) (Some len) = JS.Ok t1
    /\ BPS.apply_action romFile (tempFile, s, t)
         (BPS.mkAction BPS.BPS_ACTION_SOURCE_READ len None None)
       = JS.Ok (skip t1 len, s, t)
    /\ U8.slice (data t1) (offset (seek tempFile (offset tempFile)))
         (offset (seek tempFile (offset tempFile))
          + Z.of_nat (length (U8.slice (data romFile) (offset romFile) (offset romFile + len))))
       = U8.slice (data romFile) (offset romFile) (offset romFile + len).
Proof.
  intros H0. unfold copyTo.
  destruct (BinFileFacts.writeBytes_spec (seek tempFile (offset tempFile))
              (U8.slice (data romFile) (offset romFile) (offset romFile + len)))
    as (t1 & Hw & _ & _ & _ & Hsl).
  { unfold seek. cbn. lia. }
  exists t1. split; [exact Hw|]. split; [|exact Hsl].
  unfold BPS.apply_action. cbn [BPS.type BPS.length].
  change (BPS.BPS_ACTION_SOURCE_READ =? BPS.BPS_ACTION_SOURCE_READ) with true.
  cbv iota. unfold copyTo. rewrite Hw. reflexivity.
Qed.

(** C3 (BPS SourceRead), evaluated on the code.  After [TargetRead [9]] the
    output offset is 1, yet [SourceRead 3] copies the source bytes 0..2 (the
    source's cursor), not 1..3: the output is 9 1 2 3 where the format gives
    9 2 3 4, and the target checksum check fails.  Two [SourceRead 1] actions
    move the output cursor by two each: the output is 1 0 1. *)
Theorem bps_source_read_on_code :
  Samples.output_bytes (BPS.apply Samples.bps_patch Samples.bps_source false)
    = Some [9; 1; 2; 3]
  /\ Samples.output_bytes (BPS.apply Samples.bps_patch Samples.bps_source false)
     <> Some Samples.bps_expected
  /\ BPS.apply Samples.bps_patch Samples.bps_source true
     = JS.Throw (JS.Error "Target ROM checksum mismatch")
  /\ Samples.output_bytes (BPS.apply Samples.bps_patch2 (of_bytes [1; 2]) false)
     = Some [1; 0; 1].
Proof.
  split; [vm_compute; reflexivity|].
  split; [vm_compute; discriminate|].
  split; vm_compute; reflexivity.
Qed.

End BPSFacts.

(** ** IPS create and apply *)

Module IPSFacts.
Import BinFile.

Lemma strict_eq_refl v : JS.strict_eq v v = true.
Proof. destruct v; cbn; [apply Z.eqb_refl | reflexivity]. Qed.

(** With files of one size the builder compares each source byte with
    itself: it never opens a record. *)
Lemma create_loop_equal_sizes fuel originalFile modifiedFile maxSize offset patch :
  fileSize originalFile = fileSize modifiedFile ->
  (Z.to_nat (maxSize - offset) <= fuel)%nat ->
  IPS.create_loop fuel originalFile modifiedFile maxSize offset patch = Some patch.
Proof.
  intros Hsz. revert offset.
  induction fuel as [|fuel IH]; intros offset Hfuel; cbn [IPS.create_loop].
  - replace (maxSize <=? offset) with true by (symmetry; apply Z.leb_le; lia).
    reflexivity.
  - destruct (maxSize <=? offset) eqn:E; [reflexivity|].
    apply Z.leb_gt in E.
    rewrite Hsz, strict_eq_refl. apply IH. lia.
Qed.

Lemma create_equal_sizes originalFile modifiedFile :
  fileSize originalFile = fileSize modifiedFile ->
  IPS.create originalFile modifiedFile None = Some (IPS.mkPatch [] None None).
Proof.
  intros Hsz. unfold IPS.create.
  rewrite create_loop_equal_sizes by (assumption || lia).
  rewrite Hsz, Z.ltb_irrefl. reflexivity.
Qed.

(** Applying the patch without records gives the source bytes back. *)
Lemma apply_empty_patch romFile :
  Samples.output_bytes (IPS.apply (IPS.mkPatch [] None None) romFile)
  = Some (getBytes romFile).
Proof.
  unfold IPS.apply. cbn [IPS.records IPS.truncate IPS.maxOffset_of fold_left JS.for_of JS.bind].
  rewrite Z.ltb_irrefl. cbn [JS.bind Samples.output_bytes]. f_equal.
  unfold getBytes, setName, with_fileName, clone, capacity. cbn [data fileSize].
  now rewrite BinFileFacts.slice_full.
Qed.

(** C1 (create then apply), on the code for IPS.  The builder reads both
    bytes from [originalFile.data]: for buffers of one size it emits no
    record, and applying the patch gives the source back, whatever the
    modified buffer is; so for source 00 and modified 01. *)
Theorem ips_create_apply_on_code :
  (forall source modified,
      fileSize source = fileSize modified ->
      IPS.create source modified None = Some (IPS.mkPatch [] None None)
      /\ Samples.ips_create_apply source modified = Some (getBytes source))
  /\ Samples.ips_create_apply (of_bytes [0]) (of_bytes [1]) = Some [0]
  /\ Samples.ips_create_apply (of_bytes [0]) (of_bytes [1])
     <> Some (getBytes (of_bytes [1])).
Proof.
  split; [|split].
  - intros source modified Hsz.
    pose proof (create_equal_sizes source modified Hsz) as E.
    split; [exact E|]. unfold Samples.ips_create_apply. rewrite E.
    apply apply_empty_patch.
  - vm_compute. reflexivity.
  - vm_compute. discriminate.
Qed.

End IPSFacts.

(** ** UPS apply *)

Module UPSFacts.
Import BinFile.

(** [apply] returns only when the CRC32 of the whole source buffer is the
    declared one. *)
Lemma apply_needs_whole_source_crc p romFile out :
  UPS.apply p romFile = JS.Ok out ->
  hashCRC32 romFile 0 None = UPS.checksumInput p.
Proof.
  unfold UPS.apply, UPS.validateSource.
  destruct (hashCRC32 romFile 0 None =? UPS.checksumInput p) eqn:E; cbn [negb].
  - intros _. now apply Z.eqb_eq.
  - discriminate.
Qed.

(** C6 (UPS with a longer source), evaluated on the code.  The patch is
    valid for the one-byte source 41; the source 41 42 agrees with it on the
    declared range [0, 1), yet [validateSource] hashes both bytes and [apply]
    throws. *)
Theorem ups_longer_source_on_code :
  Samples.output_bytes (UPS.apply Samples.ups_identity_patch Samples.ups_declared_source)
    = Some [0x41]
  /\ hashCRC32 Samples.ups_longer_source 0 (Some (UPS.sizeInput Samples.ups_identity_patch))
     = UPS.checksumInput Samples.ups_identity_patch
  /\ UPS.validateSource Samples.ups_identity_patch Samples.ups_longer_source 0 = false
  /\ UPS.apply Samples.ups_identity_patch Samples.ups_longer_source
     = JS.Throw (JS.Error "Source ROM checksum mismatch").
Proof. repeat split; vm_compute; reflexivity. Qed.

End UPSFacts.

(** ** PPF export and parse *)

Module PPFFacts.
Import BinFile.

(** C4 (export then parse), evaluated on the code for PPF version 3.  The
    file parses to a patch with one record at offset 1.  [export] writes the
    version byte as [version + 1] where [fromFile] expects [version - 1], so
    parsing the exported file throws; and it writes the high dword of the
    offset as [(offset >> 32)], which is the low dword again: read back (with
    the version byte put right) the offset is 1 + 2^32. *)
Theorem ppf_export_parse_on_code :
  PPF.fromFile Samples.ppf_file = JS.Ok Samples.ppf_patch
  /\ Samples.output_bytes (PPF.export Samples.ppf_patch None)
     = Some Samples.ppf_exported_bytes
  /\ Samples.parse_export_ppf Samples.ppf_patch
     = JS.Throw (JS.InvalidPatchFileError "Invalid PPF version")
  /\ Samples.parse_export_ppf Samples.ppf_patch <> JS.Ok Samples.ppf_patch
  /\ PPF.fromFile Samples.ppf_exported_version_fixed
     = JS.Ok (PPF.mkPatch 3 (Some 0) PPF.BCfalse false
                [PPF.mkRecord (1 + 2 ^ 32) [0xAA] None] "demo" None None).
Proof.
  split; [vm_compute; reflexivity|].
  split; [vm_compute; reflexivity|].
  split; [vm_compute; reflexivity|].
  split; [vm_compute; discriminate|].
  vm_compute; reflexivity.
Qed.

End PPFFacts.

(** ** clone shares no storage *)

Module StoreFacts.
Import Store.

(** [b] is an object of the store with its array, [c] is another object, and
    the array of [c] is not the array of [b]. *)
Definition apart (h : heap) (b c : loc) (ob : Obj) : Prop :=
  files h !! b = Some ob
  /\ b <> c
  /\ is_Some (arrays h !! data ob)
  /\ forall oc, files h !! c = Some oc -> data oc <> data ob.

Lemma fresh_array_not_used (h : heap) (a : loc) :
  is_Some (arrays h !! a) -> fresh (dom (arrays h)) <> a.
Proof.
  intros Hin E. apply elem_of_dom in Hin. rewrite <- E in Hin.
  exact (is_fresh (dom (arrays h)) Hin).
Qed.

Lemma expand_frame h b c ob n h' :
  apart h b c ob -> expand h c n = Some h' ->
  apart h' b c ob /\ arrays h' !! data ob = arrays h !! data ob.
Proof.
  intros Hap He. pose proof Hap as (Hb & Hne & Harr & Hsep). unfold expand in He.
  destruct (files h !! c) as [oc|] eqn:Hc; [|discriminate]. cbn [mbind option_bind] in He.
  destruct (arrays h !! data oc) as [arr|] eqn:Ha; [|discriminate]. cbn [mbind option_bind] in He.
  destruct (n <=? Z.of_nat (length arr)).
  - inversion He; subst h'. split; [exact Hap|reflexivity].
  - inversion He; subst h'; clear He. cbn [arrays files].
    pose proof (fresh_array_not_used h (data ob) Harr) as Hfresh.
    split.
    + unfold apart. cbn [arrays files]. split; [|split; [|split]].
      * rewrite lookup_insert_ne by congruence. exact Hb.
      * exact Hne.
      * rewrite lookup_insert_ne by exact Hfresh. exact Harr.
      * intros oc'. rewrite lookup_insert_eq. intros [= <-]. cbn. exact Hfresh.
    + rewrite lookup_insert_ne by exact Hfresh. reflexivity.
Qed.

Lemma writeU8_frame h b c ob v h' :
  apart h b c ob -> writeU8 h c v = Some h' ->
  apart h' b c ob /\ arrays h' !! data ob = arrays h !! data ob.
Proof.
  intros Hap Hw. unfold writeU8 in Hw.
  destruct (files h !! c) as [oc|] eqn:Hc; [|discriminate]. cbn [mbind option_bind] in Hw.
  destruct (arrays h !! data oc) as [arr|] eqn:Ha; [|discriminate]. cbn [mbind option_bind] in Hw.
  assert (Hstep : exists h1, (if Z.of_nat (length arr) <=? offset oc
                              then expand h c (offset oc + 1) else Some h) = Some h1
                  /\ apart h1 b c ob /\ arrays h1 !! data ob = arrays h !! data ob).
  { destruct (Z.of_nat (length arr) <=? offset oc).
    - destruct (expand h c (offset oc + 1)) as [h1|] eqn:He; [|discriminate].
      exists h1. split; [reflexivity|]. now apply expand_frame with (n := offset oc + 1).
    - exists h. auto. }
  destruct Hstep as (h1 & Hif & (Hb & Hne & Harr & Hsep) & Hsame).
  rewrite Hif in Hw. cbn [mbind option_bind] in Hw.
  destruct (files h1 !! c) as [o1|] eqn:Hc1; [|discriminate]. cbn [mbind option_bind] in Hw.
  destruct (arrays h1 !! data o1) as [arr1|] eqn:Ha1; [|discriminate]. cbn [mbind option_bind] in Hw.
  inversion Hw; subst h'; clear Hw. cbn [arrays files].
  assert (Hd : data o1 <> data ob) by (apply Hsep; first [exact Hc1 | reflexivity]).
  split.
  - unfold apart. cbn [arrays files]. split; [|split; [|split]].
    + rewrite lookup_insert_ne by congruence. exact Hb.
    + exact Hne.
    + rewrite lookup_insert_ne by exact Hd. exact Harr.
    + intros oc'. rewrite lookup_insert_eq. intros [= <-]. cbn. exact Hd.
  - rewrite lookup_insert_ne by exact Hd. exact Hsame.
Qed.

Lemma writeBytes_frame h b c ob bytes h' :
  apart h b c ob -> writeBytes h c bytes = Some h' ->
  apart h' b c ob /\ arrays h' !! data ob = arrays h !! data ob.
Proof.
  intros Hap Hw. unfold writeBytes in Hw.
  destruct (files h !! c) as [oc|] eqn:Hc; [|discriminate]. cbn [mbind option_bind] in Hw.
  destruct (arrays h !! data oc) as [arr|] eqn:Ha; [|discriminate]. cbn [mbind option_bind] in Hw.
  set (req := offset oc + Z.of_nat (length bytes)) in *.
  assert (Hstep : exists h1, (if Z.of_nat (length arr) <? req
                              then expand h c req else Some h) = Some h1
                  /\ apart h1 b c ob /\ arrays h1 !! data ob = arrays h !! data ob).
  { destruct (Z.of_nat (length arr) <? req).
    - destruct (expand h c req) as [h1|] eqn:He; [|discriminate].
      exists h1. split; [reflexivity|]. now apply expand_frame with (n := req).
    - exists h. auto. }
  destruct Hstep as (h1 & Hif & (Hb & Hne & Harr & Hsep) & Hsame).
  rewrite Hif in Hw. cbn [mbind option_bind] in Hw.
  destruct (files h1 !! c) as [o1|] eqn:Hc1; [|discriminate]. cbn [mbind option_bind] in Hw.
  destruct (arrays h1 !! data o1) as [arr1|] eqn:Ha1; [|discriminate]. cbn [mbind option_bind] in Hw.
  destruct (U8.set arr1 bytes (offset o1)) as [arr2| |]; try discriminate.
  inversion Hw; subst h'; clear Hw. cbn [arrays files].
  assert (Hd : data o1 <> data ob) by (apply Hsep; first [exact Hc1 | reflexivity]).
  split.
  - unfold apart. cbn [arrays files]. split; [|split; [|split]].
    + rewrite lookup_insert_ne by congruence. exact Hb.
    + exact Hne.
    + rewrite lookup_insert_ne by exact Hd. exact Harr.
    + intros oc'. rewrite lookup_insert_eq. intros [= <-]. cbn. exact Hd.
  - rewrite lookup_insert_ne by exact Hd. exact Hsame.
Qed.

Lemma view_inv h c f :
  view h c = Some f ->
  exists oc arr,
    files h !! c = Some oc /\ arrays h !! data oc = Some arr
    /\ f = BinFile.mkBinFile (fileName oc) (fileSize oc) (littleEndian oc) (offset oc)
                             arr (_offsetsStack oc).
Proof.
  unfold view. intros H.
  destruct (files h !! c) as [oc|] eqn:Hc; [|discriminate]. cbn [mbind option_bind] in H.
  destruct (arrays h !! data oc) as [arr|] eqn:Ha; [|discriminate].
  cbn [mbind option_bind] in H.
  exists oc, arr. split; [reflexivity|]. split; [exact Ha|]. now inversion H.
Qed.

Lemma view_intro h c oc arr :
  files h !! c = Some oc -> arrays h !! data oc = Some arr ->
  view h c = Some (BinFile.mkBinFile (fileName oc) (fileSize oc) (littleEndian oc)
                                     (offset oc) arr (_offsetsStack oc)).
Proof. intros Hc Ha. unfold view. rewrite Hc. cbn [mbind option_bind]. now rewrite Ha. Qed.

(** The store operations do what the pure model says to the object they
    are called on. *)
Lemma expand_view h c f n :
  view h c = Some f ->
  exists h', expand h c n = Some h' /\ view h' c = Some (BinFile.expand f n).
Proof.
  intros Hv. destruct (view_inv _ _ _ Hv) as (oc & arr & Hc & Ha & ->).
  unfold expand, BinFile.expand, BinFile.capacity. rewrite Hc. cbn [mbind option_bind].
  rewrite Ha. cbn [mbind option_bind BinFile.data].
  destruct (n <=? Z.of_nat (length arr)).
  - exists h. split; [reflexivity|exact Hv].
  - eexists. split; [reflexivity|].
    unfold view. cbn [files arrays]. rewrite lookup_insert_eq. cbn [mbind option_bind data with_data].
    rewrite lookup_insert_eq. reflexivity.
Qed.

Lemma writeU8_view h c f v :
  view h c = Some f ->
  exists h', writeU8 h c v = Some h' /\ view h' c = Some (BinFile.writeU8 f v).
Proof.
  intros Hv. destruct (view_inv _ _ _ Hv) as (oc & arr & Hc & Ha & Hf).
  unfold writeU8, BinFile.writeU8. rewrite Hc. cbn [mbind option_bind]. rewrite Ha.
  cbn [mbind option_bind].
  assert (Hstep : exists h1,
             (if Z.of_nat (length arr) <=? offset oc
              then expand h c (offset oc + 1) else Some h) = Some h1
             /\ view h1 c = Some (if BinFile.capacity f <=? BinFile.offset f
                                 then BinFile.expand f (BinFile.offset f + 1) else f)).
  { subst f. unfold BinFile.capacity. cbn [BinFile.data BinFile.offset].
    destruct (Z.of_nat (length arr) <=? offset oc).
    - apply expand_view. exact Hv.
    - exists h. split; [reflexivity|exact Hv]. }
  destruct Hstep as (h1 & Hif & Hv1). rewrite Hif. cbn [mbind option_bind].
  set (f1 := if BinFile.capacity f <=? BinFile.offset f
             then BinFile.expand f (BinFile.offset f + 1) else f) in *.
  clearbody f1.
  destruct (view_inv _ _ _ Hv1) as (o1 & arr1 & Hc1 & Ha1 & ->).
  rewrite Hc1. cbn [mbind option_bind]. rewrite Ha1. cbn [mbind option_bind].
  eexists. split; [reflexivity|].
  unfold view. cbn [files arrays]. rewrite lookup_insert_eq. cbn [mbind option_bind data].
  rewrite lookup_insert_eq. cbn [mbind option_bind].
  cbn [BinFile.with_data BinFile.with_offset BinFile.with_fileSize BinFile.data
       BinFile.offset BinFile.fileSize BinFile.fileName BinFile.littleEndian
       BinFile._offsetsStack fileName fileSize littleEndian offset _offsetsStack].
  destruct (fileSize o1 <? offset o1 + 1); reflexivity.
Qed.

Lemma writeBytes_view h c f bytes :
  view h c = Some f -> 0 <= BinFile.offset f ->
  exists h' f', writeBytes h c bytes = Some h'
    /\ BinFile.writeBytes f bytes = JS.Ok f' /\ view h' c = Some f'.
Proof.
  intros Hv H0. destruct (view_inv _ _ _ Hv) as (oc & arr & Hc & Ha & Hf).
  unfold writeBytes, BinFile.writeBytes. rewrite Hc. cbn [mbind option_bind]. rewrite Ha.
  cbn [mbind option_bind].
  set (req := offset oc + Z.of_nat (length bytes)).
  assert (Hreq : BinFile.offset f + Z.of_nat (length bytes) = req) by (subst f; reflexivity).
  rewrite Hreq.
  assert (Hstep : exists h1,
             (if Z.of_nat (length arr) <? req then expand h c req else Some h) = Some h1
             /\ view h1 c = Some (if BinFile.capacity f <? req
                                 then BinFile.expand f req else f)).
  { subst f. unfold BinFile.capacity. cbn [BinFile.data BinFile.offset].
    destruct (Z.of_nat (length arr) <? req).
    - apply expand_view. exact Hv.
    - exists h. split; [reflexivity|exact Hv]. }
  destruct Hstep as (h1 & Hif & Hv1). rewrite Hif. cbn [mbind option_bind].
  assert (Hcap : req <= BinFile.capacity (if BinFile.capacity f <? req
                                          then BinFile.expand f req else f)
                 /\ BinFile.offset (if BinFile.capacity f <? req
                                    then BinFile.expand f req else f) = offset oc).
  { destruct (BinFile.capacity f <? req) eqn:E.
    - rewrite BinFileFacts.capacity_expand.
      destruct (BinFileFacts.expand_fields f req) as (-> & _). subst f. cbn. lia.
    - apply Z.ltb_ge in E. subst f. cbn in *. lia. }
  set (f1 := if BinFile.capacity f <? req then BinFile.expand f req else f) in *.
  clearbody f1. destruct Hcap as (Hcap & Ho1).
  destruct (view_inv _ _ _ Hv1) as (o1 & arr1 & Hc1 & Ha1 & ->).
  cbn [BinFile.offset] in Ho1. unfold BinFile.capacity in Hcap. cbn [BinFile.data] in Hcap.
  rewrite Hc1. cbn [mbind option_bind]. rewrite Ha1. cbn [mbind option_bind BinFile.data BinFile.offset].
  destruct (BinFileFacts.set_ok arr1 bytes (offset o1)) as (d & Hd & _).
  { subst f. cbn in H0. lia. } { subst req. lia. }
  rewrite Hd. cbn [JS.bind].
  eexists. eexists. split; [reflexivity|]. split; [reflexivity|].
  unfold view. cbn [files arrays]. rewrite lookup_insert_eq. cbn [mbind option_bind data].
  rewrite lookup_insert_eq. cbn [mbind option_bind].
  cbn [BinFile.with_data BinFile.with_offset BinFile.with_fileSize BinFile.data
       BinFile.offset BinFile.fileSize BinFile.fileName BinFile.littleEndian
       BinFile._offsetsStack fileName fileSize littleEndian offset _offsetsStack].
  destruct (fileSize o1 <? offset o1 + Z.of_nat (length bytes)); reflexivity.
Qed.

Lemma view_littleEndian h c f :
  view h c = Some f ->
  exists oc, files h !! c = Some oc /\ littleEndian oc = BinFile.littleEndian f.
Proof.
  intros Hv. destruct (view_inv _ _ _ Hv) as (oc & arr & Hc & _ & ->).
  exists oc. split; [exact Hc|reflexivity].
Qed.

Lemma writeU16_view h c f v :
  view h c = Some f ->
  exists h', writeU16 h c v = Some h' /\ view h' c = Some (BinFile.writeU16 f v).
Proof.
  intros Hv. destruct (view_littleEndian _ _ _ Hv) as (oc & Hc & Hle).
  unfold writeU16, BinFile.writeU16. rewrite Hc. cbn [mbind option_bind]. rewrite Hle.
  destruct (BinFile.littleEndian f).
  - destruct (writeU8_view h c f (JS.band v 255) Hv) as (h1 & E1 & Hv1).
    rewrite E1. cbn [mbind option_bind]. now apply writeU8_view.
  - destruct (writeU8_view h c f (JS.band (JS.shr v 8) 255) Hv) as (h1 & E1 & Hv1).
    rewrite E1. cbn [mbind option_bind]. now apply writeU8_view.
Qed.

Lemma writeU24_view h c f v :
  view h c = Some f ->
  exists h', writeU24 h c v = Some h' /\ view h' c = Some (BinFile.writeU24 f v).
Proof.
  intros Hv. destruct (view_littleEndian _ _ _ Hv) as (oc & Hc & Hle).
  unfold writeU24, BinFile.writeU24. rewrite Hc. cbn [mbind option_bind]. rewrite Hle.
  destruct (BinFile.littleEndian f).
  - destruct (writeU8_view h c f (JS.band v 255) Hv) as (h1 & E1 & Hv1).
    rewrite E1. cbn [mbind option_bind].
    destruct (writeU8_view h1 c _ (JS.band (JS.shr v 8) 255) Hv1) as (h2 & E2 & Hv2).
    rewrite E2. cbn [mbind option_bind]. now apply writeU8_view.
  - destruct (writeU8_view h c f (JS.band (JS.shr v 16) 255) Hv) as (h1 & E1 & Hv1).
    rewrite E1. cbn [mbind option_bind].
    destruct (writeU8_view h1 c _ (JS.band (JS.shr v 8) 255) Hv1) as (h2 & E2 & Hv2).
    rewrite E2. cbn [mbind option_bind]. now apply writeU8_view.
Qed.

Lemma writeU32_view h c f v :
  view h c = Some f ->
  exists h', writeU32 h c v = Some h' /\ view h' c = Some (BinFile.writeU32 f v).
Proof.
  intros Hv. destruct (view_littleEndian _ _ _ Hv) as (oc & Hc & Hle).
  unfold writeU32, BinFile.writeU32. rewrite Hc. cbn [mbind option_bind]. rewrite Hle.
  destruct (BinFile.littleEndian f).
  - destruct (writeU8_view h c f (JS.band v 255) Hv) as (h1 & E1 & Hv1).
    rewrite E1. cbn [mbind option_bind].
    destruct (writeU8_view h1 c _ (JS.band (JS.shr v 8) 255) Hv1) as (h2 & E2 & Hv2).
    rewrite E2. cbn [mbind option_bind].
    destruct (writeU8_view h2 c _ (JS.band (JS.shr v 16) 255) Hv2) as (h3 & E3 & Hv3).
    rewrite E3. cbn [mbind option_bind]. now apply writeU8_view.
  - destruct (writeU8_view h c f (JS.band (JS.shr v 24) 255) Hv) as (h1 & E1 & Hv1).
    rewrite E1. cbn [mbind option_bind].
    destruct (writeU8_view h1 c _ (JS.band (JS.shr v 16) 255) Hv1) as (h2 & E2 & Hv2).
    rewrite E2. cbn [mbind option_bind].
    destruct (writeU8_view h2 c _ (JS.band (JS.shr v 8) 255) Hv2) as (h3 & E3 & Hv3).
    rewrite E3. cbn [mbind option_bind]. now apply writeU8_view.
Qed.

(** Every command succeeds on an object whose cursor is not negative, does
    what the pure model says, and leaves the cursor not negative. *)
Lemma run_view h c f cmd :
  view h c = Some f -> 0 <= BinFile.offset f ->
  exists h' f', run h c cmd = Some h' /\ run_pure f cmd = JS.Ok f'
                /\ view h' c = Some f' /\ 0 <= BinFile.offset f'.
Proof.
  intros Hv H0.
  assert (H8 : forall g v, 0 <= BinFile.offset g -> 0 <= BinFile.offset (BinFile.writeU8 g v)).
  { intros g v Hg. destruct (BinFileFacts.writeU8_spec g v Hg) as (-> & _). lia. }
  destruct cmd as [v|v|v|v|bytes|n]; cbn [run run_pure].
  - destruct (writeU8_view h c f v Hv) as (h' & E & Hv').
    exists h', (BinFile.writeU8 f v). auto.
  - destruct (writeU16_view h c f v Hv) as (h' & E & Hv').
    exists h', (BinFile.writeU16 f v). repeat split; auto.
    unfold BinFile.writeU16. destruct (BinFile.littleEndian f); auto.
  - destruct (writeU24_view h c f v Hv) as (h' & E & Hv').
    exists h', (BinFile.writeU24 f v). repeat split; auto.
    unfold BinFile.writeU24. destruct (BinFile.littleEndian f); auto.
  - destruct (writeU32_view h c f v Hv) as (h' & E & Hv').
    exists h', (BinFile.writeU32 f v). repeat split; auto.
    unfold BinFile.writeU32. destruct (BinFile.littleEndian f); auto 6.
  - destruct (writeBytes_view h c f bytes Hv H0) as (h' & f' & E & Ep & Hv').
    exists h', f'. repeat split; auto.
    destruct (BinFileFacts.writeBytes_spec f bytes H0) as (f'' & Ep' & Ho & _).
    rewrite Ep in Ep'. inversion Ep'; subst f''. lia.
  - destruct (expand_view h c f n Hv) as (h' & E & Hv').
    exists h', (BinFile.expand f n). repeat split; auto.
    destruct (BinFileFacts.expand_fields f n) as (-> & _). exact H0.
Qed.

(** Two framed steps in a row are framed. *)
Lemma frame_step (step : heap -> option heap) (k : heap -> option heap) h b c ob h' :
  (forall g g', apart g b c ob -> step g = Some g' ->
                apart g' b c ob /\ arrays g' !! data ob = arrays g !! data ob) ->
  (forall g g', apart g b c ob -> k g = Some g' ->
                apart g' b c ob /\ arrays g' !! data ob = arrays g !! data ob) ->
  apart h b c ob -> (h1 ← step h; k h1) = Some h' ->
  apart h' b c ob /\ arrays h' !! data ob = arrays h !! data ob.
Proof.
  intros Hs Hk Hap H.
  destruct (step h) as [h1|] eqn:E; [|discriminate]. cbn [mbind option_bind] in H.
  destruct (Hs _ _ Hap E) as (Hap1 & E1).
  destruct (Hk _ _ Hap1 H) as (Hap' & E'). split; [exact Hap'|]. congruence.
Qed.

Lemma run_frame h b c ob cmd h' :
  apart h b c ob -> run h c cmd = Some h' ->
  apart h' b c ob /\ arrays h' !! data ob = arrays h !! data ob.
Proof.
  assert (H8 : forall v g g', apart g b c ob -> writeU8 g c v = Some g' ->
                 apart g' b c ob /\ arrays g' !! data ob = arrays g !! data ob).
  { intros v g g' Hg Hw. exact (writeU8_frame g b c ob v g' Hg Hw). }
  intros Hap Hr.
  destruct cmd as [v|v|v|v|bytes|n]; cbn [run] in Hr.
  - now apply H8 with (v := v).
  - unfold writeU16 in Hr.
    destruct (files h !! c) as [oc|]; [|discriminate]. cbn [mbind option_bind] in Hr.
    destruct (littleEndian oc);
      (eapply frame_step; [apply H8| |exact Hap|exact Hr]); apply H8.
  - unfold writeU24 in Hr.
    destruct (files h !! c) as [oc|]; [|discriminate]. cbn [mbind option_bind] in Hr.
    destruct (littleEndian oc);
      (eapply frame_step; [apply H8| |exact Hap|exact Hr]);
      intros g g' Hg Hk;
      (eapply frame_step; [apply H8| |exact Hg|exact Hk]); apply H8.
  - unfold writeU32 in Hr.
    destruct (files h !! c) as [oc|]; [|discriminate]. cbn [mbind option_bind] in Hr.
    destruct (littleEndian oc);
      (eapply frame_step; [apply H8| |exact Hap|exact Hr]);
      intros g g' Hg Hk;
      (eapply frame_step; [apply H8| |exact Hg|exact Hk]);
      intros g1 g1' Hg1 Hk1;
      (eapply frame_step; [apply H8| |exact Hg1|exact Hk1]); apply H8.
  - now apply writeBytes_frame with (bytes := bytes).
  - now apply expand_frame with (n := n).
Qed.

Lemma apart_view h b c ob :
  apart h b c ob -> exists arr, arrays h !! data ob = Some arr
    /\ view h b = Some (BinFile.mkBinFile (fileName ob) (fileSize ob) (littleEndian ob)
                                          (offset ob) arr (_offsetsStack ob)).
Proof.
  intros (Hb & _ & (arr & Harr) & _). exists arr. split; [exact Harr|].
  now apply view_intro.
Qed.

(** Whatever is run on [c], the object [b] and its bytes stay as they are. *)
Lemma run_all_frame cs : forall h b c ob h',
  apart h b c ob -> run_all h c cs = Some h' ->
  apart h' b c ob /\ view h' b = view h b.
Proof.
  induction cs as [|cmd cs IH]; intros h b c ob h' Hap Hr; cbn [run_all] in Hr.
  - inversion Hr; subst h'. auto.
  - destruct (run h c cmd) as [h1|] eqn:E; [|discriminate]. cbn [mbind option_bind] in Hr.
    destruct (run_frame _ _ _ _ _ _ Hap E) as (Hap1 & Harr).
    destruct (IH _ _ _ _ _ Hap1 Hr) as (Hap' & Hv). split; [exact Hap'|].
    rewrite Hv.
    destruct (apart_view _ _ _ _ Hap) as (arr & Ha & ->).
    destruct (apart_view _ _ _ _ Hap1) as (arr1 & Ha1 & ->).
    congruence.
Qed.

(** Every sequence of commands runs to the end on an object whose cursor
    is not negative. *)
Lemma run_all_total cs : forall h c f,
  view h c = Some f -> 0 <= BinFile.offset f ->
  exists h', run_all h c cs = Some h'.
Proof.
  induction cs as [|cmd cs IH]; intros h c f Hv H0; cbn [run_all].
  - eauto.
  - destruct (run_view h c f cmd Hv H0) as (h1 & f1 & E & _ & Hv1 & H1).
    rewrite E. cbn [mbind option_bind]. eauto.
Qed.

Lemma fresh_file_not_used (h : heap) (l : loc) :
  is_Some (files h !! l) -> fresh (dom (files h)) <> l.
Proof.
  intros Hin E. apply elem_of_dom in Hin. rewrite <- E in Hin.
  exact (is_fresh (dom (files h)) Hin).
Qed.

(** [clone] allocates: the new object is not [b], its array is not the array
    of [b], and it reads as the pure model's clone. *)
Lemma clone_spec h b fb :
  view h b = Some fb ->
  exists h1 c ob,
    clone h b = Some (h1, c)
    /\ apart h1 b c ob
    /\ view h1 b = Some fb
    /\ view h1 c = Some (BinFile.clone fb).
Proof.
  intros Hv. destruct (view_inv _ _ _ Hv) as (ob & arr & Hb & Ha & ->).
  unfold clone. rewrite Hb. cbn [mbind option_bind]. rewrite Ha. cbn [mbind option_bind].
  unfold alloc_array, alloc_file. cbn [arrays files].
  set (a1 := fresh (dom (arrays h))).
  set (copy := U8.slice arr 0 (Z.of_nat (length arr))).
  set (a2 := fresh (dom (<[a1 := copy]> (arrays h)))).
  set (c := fresh (dom (files h))).
  assert (H1 : a1 <> data ob) by (apply fresh_array_not_used; eauto).
  assert (H2 : a2 <> data ob).
  { intros E. assert (Hin : data ob ∈ dom (<[a1 := copy]> (arrays h))).
    { apply elem_of_dom. rewrite lookup_insert_ne by exact H1. eauto. }
    rewrite <- E in Hin. exact (is_fresh _ Hin). }
  assert (Hc : c <> b) by (apply fresh_file_not_used; eauto).
  eexists. exists c, ob. split; [reflexivity|].
  assert (Hb1 : <[c := mkObj (fileName ob) (fileSize ob) (littleEndian ob) 0 a2 []]>
                  (files h) !! b = Some ob)
    by (rewrite lookup_insert_ne by exact Hc; exact Hb).
  assert (Ha1 : <[a2 := copy]> (<[a1 := copy]> (arrays h)) !! data ob = Some arr)
    by (rewrite !lookup_insert_ne by assumption; exact Ha).
  split; [|split].
  - unfold apart. cbn [arrays files]. split; [exact Hb1|]. split; [congruence|].
    split; [eauto|]. intros oc. rewrite lookup_insert_eq. intros [= <-]. exact H2.
  - unfold view. cbn [arrays files]. rewrite Hb1. cbn [mbind option_bind].
    now rewrite Ha1.
  - unfold view, BinFile.clone, BinFile.capacity. cbn [arrays files BinFile.data].
    rewrite lookup_insert_eq. cbn [mbind option_bind data]. rewrite lookup_insert_eq.
    reflexivity.
Qed.

(** C10 (clone).  The clone of [b] is a new object with the size, name and
    endianness of [b], the cursor at 0 wherever the cursor of [b] is, and the
    bytes of [b]; [b] itself is as before; and whatever writes and [expand]s
    are then run on the clone, they all run, and [b] - bytes, size, cursor -
    stays as it was. *)
Theorem clone_shares_no_storage (h : heap) (b : loc) (fb : BinFile.BinFile) :
  view h b = Some fb ->
  exists h1 c,
    clone h b = Some (h1, c)
    /\ c <> b
    /\ (exists fc, view h1 c = Some fc
          /\ BinFile.fileSize fc = BinFile.fileSize fb
          /\ BinFile.fileName fc = BinFile.fileName fb
          /\ BinFile.littleEndian fc = BinFile.littleEndian fb
          /\ BinFile.offset fc = 0
          /\ BinFile.getBytes fc = BinFile.getBytes fb)
    /\ view h1 b = Some fb
    /\ forall cs, exists h2, run_all h1 c cs = Some h2 /\ view h2 b = Some fb.
Proof.
  intros Hv. destruct (clone_spec h b fb Hv) as (h1 & c & ob & Hcl & Hap & Hvb & Hvc).
  exists h1, c. split; [exact Hcl|]. split; [destruct Hap as (_ & Hne & _); congruence|].
  split; [|split; [exact Hvb|]].
  - exists (BinFile.clone fb). split; [exact Hvc|].
    unfold BinFile.clone, BinFile.getBytes, BinFile.capacity.
    cbn [BinFile.fileSize BinFile.fileName BinFile.littleEndian BinFile.offset BinFile.data].
    rewrite BinFileFacts.slice_full. repeat split.
  - intros cs.
    destruct (run_all_total cs h1 c (BinFile.clone fb) Hvc) as (h2 & Hr); [cbn; lia|].
    exists h2. split; [exact Hr|].
    destruct (run_all_frame cs h1 b c ob h2 Hap Hr) as (_ & ->). exact Hvb.
Qed.

Lemma clone_shares_no_storage_witness :
  view Samples.one_buffer_store 0%nat = Some Samples.one_buffer
  /\ exists h1 c,
       clone Samples.one_buffer_store 0%nat = Some (h1, c)
       /\ exists h2,
            run_all h1 c [WriteBytes [9; 9; 9; 9]; Expand 64; WriteU32 7] = Some h2
            /\ view h2 0%nat = Some Samples.one_buffer.
Proof.
  assert (Hv : view Samples.one_buffer_store 0%nat = Some Samples.one_buffer)
    by reflexivity.
  split; [exact Hv|].
  destruct (clone_shares_no_storage Samples.one_buffer_store 0%nat Samples.one_buffer Hv)
    as (h1 & c & Hcl & _ & _ & _ & Hrun).
  exists h1, c. split; [exact Hcl|].
  exact (Hrun [WriteBytes [9; 9; 9; 9]; Expand 64; WriteU32 7]).
Defined.

End StoreFacts.

(** ** The dispatcher *)

Module RomPatcherFacts.
Import BinFile RomPatcher.

(** Two prefixes of one string: one is a prefix of the other. *)
Lemma two_prefixes (a : string) : forall b h,
  String.prefix a h = true -> String.prefix b h = true ->
  String.prefix a b = true \/ String.prefix b a = true.
Proof.
  induction a as [|x a IH]; intros b h Ha Hb.
  - left. destruct b; reflexivity.
  - destruct b as [|y b]; [right; reflexivity|].
    destruct h as [|z h]; [discriminate|].
    cbn [String.prefix] in *.
    destruct (ascii_dec x z) as [->|]; [|discriminate].
    destruct (ascii_dec y z) as [->|]; [|discriminate].
    destruct (ascii_dec z z) as [_|N]; [|now elim N].
    eauto.
Qed.

Section Registry.
Variable JSON_parse : string -> option (list (string * string)).

Ltac other_magic Hm :=
  match goal with
  | |- context [String.prefix ?m ?h] =>
      lazymatch type of Hm with
      | String.prefix m h = true => fail
      | _ =>
          let E := fresh "E" in
          destruct (String.prefix m h) eqn:E;
          [exfalso; destruct (two_prefixes _ _ _ Hm E) as [X|X];
           vm_compute in X; discriminate|]
      end
  end.

(** The dispatcher on a buffer of five bytes or more: the one registered
    codec whose magic starts the header is run and its patch returned; with
    no such codec the format is unsupported. *)
Lemma dispatch_registered (module : PatchFormatModule) (patchFile : BinFile) :
  In module (formatModules JSON_parse) ->
  5 <= fileSize patchFile ->
  String.prefix (magic module) (Samples.header_of patchFile) = true ->
  parsePatchFile JSON_parse patchFile = answer module (Samples.rewound patchFile).
Proof.
  intros Hin Hsz Hm. unfold parsePatchFile.
  cbn [fileSize seek with_offset with_littleEndian].
  replace (fileSize patchFile <? 5) with false by (symmetry; apply Z.ltb_ge; lia).
  fold (Samples.header_of patchFile) in *.
  change (readString_ascii (seek (with_littleEndian patchFile false) 0) 6)
    with (Samples.header_of patchFile,
          snd (readString_ascii (seek (with_littleEndian patchFile false) 0) 6)).
  cbv iota. fold (Samples.rewound patchFile).
  set (h := Samples.header_of patchFile) in *.
  set (f := Samples.rewound patchFile).
  unfold formatModules in *. unfold answer.
  cbn [In] in Hin.
  destruct Hin as [<-|[<-|[<-|[<-|[<-|[]]]]]];
    cbn [try_modules magic IPSModule UPSModule APSGBAModule PMSRModule VCDIFFModule] in *;
    repeat other_magic Hm; rewrite ?Hm;
    cbn [parse];
    match goal with
    | |- context [match ?p with (_, _) => _ end] => destruct p as [f' [[patch|]|e|]]
    end;
    cbn [try_modules magic]; repeat other_magic Hm; reflexivity.
Qed.

Lemma dispatch_unregistered (patchFile : BinFile) :
  5 <= fileSize patchFile ->
  (forall module, In module (formatModules JSON_parse) ->
                  String.prefix (magic module) (Samples.header_of patchFile) = false) ->
  parsePatchFile JSON_parse patchFile
  = JS.Throw (JS.UnsupportedFormatError "Unknown patch format").
Proof.
  intros Hsz Hno. unfold parsePatchFile.
  cbn [fileSize seek with_offset with_littleEndian].
  replace (fileSize patchFile <? 5) with false by (symmetry; apply Z.ltb_ge; lia).
  fold (Samples.header_of patchFile) in *.
  change (readString_ascii (seek (with_littleEndian patchFile false) 0) 6)
    with (Samples.header_of patchFile,
          snd (readString_ascii (seek (with_littleEndian patchFile false) 0) 6)).
  cbv iota.
  generalize (seek (snd (readString_ascii (seek (with_littleEndian patchFile false) 0) 6)) 0).
  induction (formatModules JSON_parse) as [|m ms IH]; intros f; cbn [try_modules].
  - reflexivity.
  - rewrite (Hno m) by (left; reflexivity). apply IH.
    intros m' Hm'. apply Hno. now right.
Qed.

End Registry.

(** C5 (dispatch by magic), evaluated on the code.  The minimal IPS patch is
    parsed by the IPS codec; buffers that start with BPS1, PPF, NINJA2 or
    APS10 - magics of the specification - are answered with
    UnsupportedFormat, their codecs not being in the registry; so is a buffer
    that starts with PATCH and stops there, although its magic is matched. *)
Theorem dispatch_on_code :
  parsePatchFile Samples.no_json Samples.ips_minimal_file
    = JS.Ok (IPSPatchFile
               (IPS.mkPatch [IPS.mkRecord 2 IPS.IPS_RECORD_SIMPLE 2 (Some [0xAA; 0xBB]) None]
                            None None))
  /\ String.prefix "BPS1" (Samples.header_of Samples.bps_file) = true
  /\ parsePatchFile Samples.no_json Samples.bps_file
     = JS.Throw (JS.UnsupportedFormatError "Unknown patch format")
  /\ parsePatchFile Samples.no_json Samples.ppf_file
     = JS.Throw (JS.UnsupportedFormatError "Unknown patch format")
  /\ parsePatchFile Samples.no_json Samples.rup_file
     = JS.Throw (JS.UnsupportedFormatError "Unknown patch format")
  /\ parsePatchFile Samples.no_json Samples.aps_n64_file
     = JS.Throw (JS.UnsupportedFormatError "Unknown patch format")
  /\ String.prefix "PATCH" (Samples.header_of Samples.ips_truncated_file) = true
  /\ parsePatchFile Samples.no_json Samples.ips_truncated_file
     = JS.Throw (JS.UnsupportedFormatError "Unknown patch format").
Proof. repeat split; vm_compute; reflexivity. Qed.

End RomPatcherFacts.

(** * Further properties of the code *)

(** ** Bytes and 32-bit operators *)

Module ByteFacts.
Import Cursor.

Lemma ToInt32_mod z : JS.ToInt32 z mod 2 ^ 32 = z mod 2 ^ 32.
Proof.
  unfold JS.ToInt32. destruct (z mod 2 ^ 32 <? 2 ^ 31).
  - apply Z.mod_mod. lia.
  - replace (z mod 2 ^ 32 - 2 ^ 32) with (z mod 2 ^ 32 + (-1) * 2 ^ 32) by lia.
    rewrite Z.mod_add by lia. apply Z.mod_mod. lia.
Qed.

(** Residues modulo a power of two that divides 2^32. *)
Lemma ToInt32_mod_pow2 z n : 0 <= n <= 32 -> JS.ToInt32 z mod 2 ^ n = z mod 2 ^ n.
Proof.
  intros Hn.
  assert (D : (2 ^ n | 2 ^ 32)).
  { exists (2 ^ (32 - n)). rewrite <- Z.pow_add_r by lia. f_equal. lia. }
  rewrite <- (Z.mod_mod_divide (JS.ToInt32 z) _ _ D), ToInt32_mod.
  now apply Z.mod_mod_divide.
Qed.

(** The bits of [lo] lie below those of [hi * 2^n]: or-ing is adding. *)
Lemma lor_add hi lo n : 0 <= n -> 0 <= lo < 2 ^ n -> Z.lor (hi * 2 ^ n) lo = hi * 2 ^ n + lo.
Proof.
  intros Hn Hlo.
  assert (Hland : Z.land (hi * 2 ^ n) lo = 0).
  { apply Z.bits_inj'. intros i Hi. rewrite Z.land_spec, Z.bits_0.
    destruct (Z.lt_ge_cases i n) as [Hlt|Hge].
    - rewrite Z.mul_pow2_bits_low by lia. reflexivity.
    - rewrite <- (Z.mod_small lo (2 ^ n)) by lia.
      rewrite Z.mod_pow2_bits_high by lia. apply andb_false_r. }
  rewrite <- Z.lxor_lor by exact Hland. symmetry. now apply Z.add_nocarry_lxor.
Qed.

(** [a | b] for a 32-bit [a] that is a multiple of [2^n] and [b] below [2^n]. *)
Lemma bor_add hi lo n :
  0 <= n <= 31 -> - 2 ^ 31 <= hi * 2 ^ n < 2 ^ 31 -> 0 <= lo < 2 ^ n ->
  JS.bor (hi * 2 ^ n) lo = hi * 2 ^ n + lo.
Proof.
  intros Hn Hhi Hlo.
  assert (Hle : 2 ^ n <= 2 ^ 31) by (apply Z.pow_le_mono_r; lia).
  unfold JS.bor. rewrite (VLVFacts.ToInt32_id (hi * 2 ^ n)) by exact Hhi.
  rewrite (VLVFacts.ToInt32_id lo) by lia. apply lor_add; lia.
Qed.

Lemma shl_byte b k :
  is_byte b -> 0 <= k <= 16 -> JS.shl b k = b * 2 ^ k.
Proof.
  intros Hb Hk. unfold is_byte in Hb.
  assert (Hle : 2 ^ k <= 2 ^ 16) by (apply Z.pow_le_mono_r; lia).
  assert (Hp : 0 < 2 ^ k) by (apply Z.pow_pos_nonneg; lia).
  unfold JS.shl. rewrite (VLVFacts.ToInt32_id b) by lia.
  rewrite (Z.mod_small k 32) by lia. rewrite Z.shiftl_mul_pow2 by lia.
  apply VLVFacts.ToInt32_id. nia.
Qed.

(** [(b1 << 8) | b2] *)
Lemma u16_of_bytes b1 b2 :
  is_byte b1 -> is_byte b2 -> JS.bor (JS.shl b1 8) b2 = b1 * 2 ^ 8 + b2.
Proof.
  intros H1 H2. rewrite shl_byte by (assumption || lia).
  unfold is_byte in *. apply bor_add; lia.
Qed.

(** [(b1 << 16) | (b2 << 8) | b3] *)
Lemma u24_of_bytes b1 b2 b3 :
  is_byte b1 -> is_byte b2 -> is_byte b3 ->
  JS.bor (JS.bor (JS.shl b1 16) (JS.shl b2 8)) b3 = b1 * 2 ^ 16 + b2 * 2 ^ 8 + b3.
Proof.
  intros H1 H2 H3. rewrite !shl_byte by (assumption || lia).
  unfold is_byte in *.
  rewrite (bor_add b1 (b2 * 2 ^ 8) 16) by lia.
  replace (b1 * 2 ^ 16 + b2 * 2 ^ 8) with ((b1 * 2 ^ 8 + b2) * 2 ^ 8) by lia.
  apply bor_add; lia.
Qed.

(** [((b1 << 24) | (b2 << 16) | (b3 << 8) | b4) >>> 0] *)
Lemma u32_of_bytes b1 b2 b3 b4 :
  is_byte b1 -> is_byte b2 -> is_byte b3 -> is_byte b4 ->
  JS.ushr (JS.bor (JS.bor (JS.bor (JS.shl b1 24) (JS.shl b2 16)) (JS.shl b3 8)) b4) 0
  = b1 * 2 ^ 24 + b2 * 2 ^ 16 + b3 * 2 ^ 8 + b4.
Proof.
  intros H1 H2 H3 H4. rewrite !(shl_byte _ 16), !(shl_byte _ 8) by (assumption || lia).
  unfold is_byte in *.
  (* [b1 << 24] is [h * 2^24] for a signed byte [h] *)
  assert (Hh : exists h, JS.shl b1 24 = h * 2 ^ 24 /\ -128 <= h < 128
                         /\ (h = b1 \/ h = b1 - 256)).
  { unfold JS.shl. rewrite (VLVFacts.ToInt32_id b1) by lia.
    change (24 mod 32) with 24. rewrite Z.shiftl_mul_pow2 by lia.
    destruct (Z.lt_ge_cases b1 128) as [Hlt|Hge].
    - exists b1. rewrite VLVFacts.ToInt32_id by lia. lia.
    - exists (b1 - 256). split; [|lia].
      unfold JS.ToInt32.
      replace ((b1 * 2 ^ 24) mod 2 ^ 32) with (b1 * 2 ^ 24) by (symmetry; apply Z.mod_small; lia).
      replace (b1 * 2 ^ 24 <? 2 ^ 31) with false by (symmetry; apply Z.ltb_ge; lia). lia. }
  destruct Hh as (h & -> & Hh & Hcase).
  rewrite (bor_add h (b2 * 2 ^ 16) 24) by lia.
  replace (h * 2 ^ 24 + b2 * 2 ^ 16) with ((h * 2 ^ 8 + b2) * 2 ^ 16) by lia.
  rewrite (bor_add (h * 2 ^ 8 + b2) (b3 * 2 ^ 8) 16) by lia.
  replace ((h * 2 ^ 8 + b2) * 2 ^ 16 + b3 * 2 ^ 8)
    with ((h * 2 ^ 16 + b2 * 2 ^ 8 + b3) * 2 ^ 8) by lia.
  rewrite (bor_add _ b4 8) by lia.
  unfold JS.ushr, JS.ToUint32. change (0 mod 32) with 0. rewrite Z.shiftr_0_r.
  destruct Hcase as [-> | ->].
  - rewrite Z.mod_small by lia. lia.
  - symmetry. apply Z.mod_unique with (q := -1); lia.
Qed.

(** The byte that [(v >> k) & 0xFF] extracts. *)
Lemma byte_of v k :
  0 <= k < 32 -> JS.band (JS.shr v k) 255 = (JS.ToInt32 v / 2 ^ k) mod 256.
Proof.
  intros Hk. rewrite BinFileFacts.band_255. unfold JS.shr.
  rewrite (Z.mod_small k 32) by lia. rewrite Z.shiftr_div_pow2 by lia.
  rewrite VLVFacts.ToInt32_id; [reflexivity|].
  pose proof (VLVFacts.ToInt32_range v) as Hr.
  assert (Hp : 0 < 2 ^ k) by (apply Z.pow_pos_nonneg; lia).
  split.
  - apply Z.div_le_lower_bound; [lia|]. nia.
  - apply Z.div_lt_upper_bound; [lia|]. nia.
Qed.

Lemma band_255_idem v : JS.band (JS.band v 255) 255 = JS.band v 255.
Proof. apply VLVFacts.band_255_small, BinFileFacts.band_255_range. Qed.

(** The bytes of a value put together again. *)
Lemma be16_value w : (w / 2 ^ 8) mod 256 * 2 ^ 8 + w mod 256 = w mod 2 ^ 16.
Proof.
  change (2 ^ 16) with (256 * 256). rewrite Z.rem_mul_r by lia.
  change (2 ^ 8) with 256. lia.
Qed.

Lemma be24_value w :
  (w / 2 ^ 16) mod 256 * 2 ^ 16 + (w / 2 ^ 8) mod 256 * 2 ^ 8 + w mod 256 = w mod 2 ^ 24.
Proof.
  change (2 ^ 24) with (256 * (256 * 256)). rewrite Z.rem_mul_r by lia.
  rewrite (Z.rem_mul_r (w / 256)) by lia. rewrite Z.div_div by lia.
  change (2 ^ 8) with 256. change (2 ^ 16) with (256 * 256). lia.
Qed.

Lemma be32_value w :
  (w / 2 ^ 24) mod 256 * 2 ^ 24 + (w / 2 ^ 16) mod 256 * 2 ^ 16
  + (w / 2 ^ 8) mod 256 * 2 ^ 8 + w mod 256 = w mod 2 ^ 32.
Proof.
  change (2 ^ 32) with (256 * (256 * (256 * 256))). rewrite Z.rem_mul_r by lia.
  rewrite (Z.rem_mul_r (w / 256)) by lia. rewrite Z.div_div by lia.
  rewrite (Z.rem_mul_r (w / (256 * 256))) by lia. rewrite Z.div_div by lia.
  change (2 ^ 8) with 256. change (2 ^ 16) with (256 * 256).
  change (2 ^ 24) with (256 * 256 * 256). lia.
Qed.

(** A byte of a value depends on the value modulo 2^32 only. *)
Lemma byte_ToInt32 v k :
  0 <= k <= 24 -> (JS.ToInt32 v / 2 ^ k) mod 256 = (v / 2 ^ k) mod 256.
Proof.
  intros Hk.
  assert (Hp : 0 < 2 ^ k) by (apply Z.pow_pos_nonneg; lia).
  pose proof (Z.rem_mul_r (JS.ToInt32 v) (2 ^ k) 256 ltac:(lia) ltac:(lia)) as H1.
  pose proof (Z.rem_mul_r v (2 ^ k) 256 ltac:(lia) ltac:(lia)) as H2.
  change 256 with (2 ^ 8) in H1 at 1. change 256 with (2 ^ 8) in H2 at 1.
  rewrite <- Z.pow_add_r in H1, H2 by lia.
  rewrite !ToInt32_mod_pow2 in H1 by lia.
  apply (Z.mul_reg_l _ _ (2 ^ k)); lia.
Qed.

Lemma is_byte_mod v : is_byte (v mod 256).
Proof. apply Z.mod_pos_bound. lia. Qed.

End ByteFacts.

(** ** Writing and reading at the cursor *)

Module CursorFacts.
Import BinFile Cursor.

Lemma at_cursor_split f :
  0 <= offset f <= capacity f ->
  at_cursor f (firstn (Z.to_nat (offset f)) (data f)) (skipn (Z.to_nat (offset f)) (data f)).
Proof.
  intros H. unfold at_cursor, capacity in *. split.
  - symmetry. apply firstn_skipn.
  - rewrite length_firstn. lia.
Qed.

Lemma put_at pre r rest v :
  U8.put (pre ++ r :: rest) (Z.of_nat (length pre)) v = pre ++ (v mod 256) :: rest.
Proof.
  unfold U8.put. rewrite length_app. cbn [length].
  replace ((0 <=? Z.of_nat (length pre))
           && (Z.of_nat (length pre) <? Z.of_nat (length pre + S (length rest))))
    with true
    by (symmetry; apply andb_true_iff; split; [apply Z.leb_le | apply Z.ltb_lt]; lia).
  rewrite Nat2Z.id.
  rewrite firstn_app, firstn_all, Nat.sub_diag. cbn [firstn]. rewrite app_nil_r.
  rewrite skipn_app.
  rewrite (skipn_all2 pre) by lia.
  replace (S (length pre) - length pre)%nat with 1%nat by lia. reflexivity.
Qed.

Lemma get_at pre b rest : U8.get (pre ++ b :: rest) (Z.of_nat (length pre)) = Some b.
Proof.
  unfold U8.get.
  replace (Z.of_nat (length pre) <? 0) with false by (symmetry; apply Z.ltb_ge; lia).
  rewrite Nat2Z.id, nth_error_app2, Nat.sub_diag by lia. reflexivity.
Qed.

(** One byte written at the cursor. *)
Lemma writeU8_at f pre rest v :
  at_cursor f pre rest ->
  at_cursor (writeU8 f v) (pre ++ [JS.band v 255]) (skipn 1 rest)
  /\ fileSize (writeU8 f v) = Z.max (fileSize f) (offset f + 1)
  /\ littleEndian (writeU8 f v) = littleEndian f
  /\ fileName (writeU8 f v) = fileName f
  /\ _offsetsStack (writeU8 f v) = _offsetsStack f.
Proof.
  intros (Hd & Ho). unfold writeU8, at_cursor.
  assert (Hb : JS.band v 255 mod 256 = JS.band v 255)
    by (apply Z.mod_small, BinFileFacts.band_255_range).
  set (f1 := if capacity f <=? offset f then expand f (offset f + 1) else f).
  assert (Hf1 : exists r rest', data f1 = pre ++ r :: rest' /\ rest' = skipn 1 rest
                /\ offset f1 = Z.of_nat (length pre) /\ fileSize f1 = fileSize f
                /\ littleEndian f1 = littleEndian f /\ fileName f1 = fileName f
                /\ _offsetsStack f1 = _offsetsStack f).
  { unfold f1, capacity. rewrite Hd, Ho, length_app.
    destruct rest as [|r rest'].
    - cbn [length]. replace (Z.of_nat (length pre + 0) <=? Z.of_nat (length pre)) with true
        by (symmetry; apply Z.leb_le; lia).
      unfold expand, capacity. rewrite Hd, length_app. cbn [length].
      replace (Z.of_nat (length pre) + 1 <=? Z.of_nat (length pre + 0)) with false
        by (symmetry; apply Z.leb_gt; lia).
      exists 0, []. cbn [data with_data offset fileSize littleEndian fileName _offsetsStack].
      replace (Z.to_nat (Z.of_nat (length pre) + 1) - (length pre + 0))%nat with 1%nat by lia.
      rewrite app_nil_r. repeat split; try reflexivity. exact Ho.
    - cbn [length].
      replace (Z.of_nat (length pre + S (length rest')) <=? Z.of_nat (length pre)) with false
        by (symmetry; apply Z.leb_gt; lia).
      exists r, rest'. repeat split; try reflexivity; assumption. }
  destruct Hf1 as (r & rest' & Hd1 & Hr & Ho1 & Hs1 & Hl1 & Hn1 & Hst1). clearbody f1.
  cbn [offset fileSize with_offset with_data with_fileSize data].
  rewrite Hd1, Ho1, Ho, put_at, Hb, <- Hr, Hs1.
  destruct (fileSize f <? Z.of_nat (length pre) + 1) eqn:E;
    [apply Z.ltb_lt in E | apply Z.ltb_ge in E];
    cbn [offset fileSize littleEndian fileName _offsetsStack data
         with_offset with_data with_fileSize];
    rewrite ?length_app; cbn [length];
    (split; [split; [now rewrite <- app_assoc | lia] |]);
    repeat split; try assumption; lia.
Qed.

(** One byte read at the cursor. *)
Lemma readU8_at f pre b rest :
  at_cursor f pre (b :: rest) -> offset f < fileSize f ->
  readU8 f = (Some b, with_offset f (offset f + 1))
  /\ at_cursor (with_offset f (offset f + 1)) (pre ++ [b]) rest.
Proof.
  intros (Hd & Ho) Hlt. unfold readU8.
  replace (fileSize f <=? offset f) with false by (symmetry; apply Z.leb_gt; lia).
  rewrite Hd, Ho, get_at. split; [reflexivity|].
  unfold at_cursor. cbn [data offset with_offset]. rewrite Hd, <- app_assoc, length_app.
  cbn [length app]. split; [reflexivity | lia].
Qed.

Lemma with_offset_twice f a b : with_offset (with_offset f a) b = with_offset f b.
Proof. reflexivity. Qed.

(** A block of bytes written at the cursor. *)
Lemma writeBytes_at f pre rest l :
  at_cursor f pre rest ->
  exists f', writeBytes f l = JS.Ok f'
    /\ at_cursor f' (pre ++ l) (skipn (length l) rest)
    /\ fileSize f' = Z.max (fileSize f) (offset f + Z.of_nat (length l))
    /\ littleEndian f' = littleEndian f
    /\ fileName f' = fileName f
    /\ _offsetsStack f' = _offsetsStack f.
Proof.
  intros (Hd & Ho). unfold writeBytes.
  set (f1 := if capacity f <? offset f + Z.of_nat (length l)
             then expand f (offset f + Z.of_nat (length l)) else f).
  assert (Hf1 : data f1 = pre ++ rest ++ repeat 0 (length l - length rest)%nat
                /\ offset f1 = Z.of_nat (length pre) /\ fileSize f1 = fileSize f
                /\ littleEndian f1 = littleEndian f /\ fileName f1 = fileName f
                /\ _offsetsStack f1 = _offsetsStack f).
  { unfold f1, capacity. rewrite Hd, Ho, length_app.
    destruct (Z.of_nat (length pre + length rest)
              <? Z.of_nat (length pre) + Z.of_nat (length l)) eqn:E.
    - apply Z.ltb_lt in E. unfold expand, capacity. rewrite Hd, length_app.
      replace (Z.of_nat (length pre) + Z.of_nat (length l)
               <=? Z.of_nat (length pre + length rest)) with false
        by (symmetry; apply Z.leb_gt; lia).
      cbn [data with_data offset fileSize littleEndian fileName _offsetsStack].
      rewrite <- app_assoc.
      replace (Z.to_nat (Z.of_nat (length pre) + Z.of_nat (length l))
               - (length pre + length rest))%nat
        with (length l - length rest)%nat by lia.
      repeat split; try reflexivity; assumption.
    - apply Z.ltb_ge in E.
      replace (length l - length rest)%nat with 0%nat by lia.
      cbn [repeat]. rewrite app_nil_r. repeat split; try reflexivity; assumption. }
  destruct Hf1 as (Hd1 & Ho1 & Hs1 & Hl1 & Hn1 & Hst1). clearbody f1.
  unfold U8.set. rewrite Hd1, Ho1, !length_app, repeat_length.
  replace (Z.of_nat (length pre) <? 0) with false by (symmetry; apply Z.ltb_ge; lia).
  replace (Z.of_nat (length pre + (length rest + (length l - length rest)))
           <? Z.of_nat (length pre) + Z.of_nat (length l)) with false
    by (symmetry; apply Z.ltb_ge; lia).
  cbn [orb JS.bind]. eexists. split; [reflexivity|].
  rewrite Nat2Z.id, firstn_app, firstn_all, Nat.sub_diag. cbn [firstn]. rewrite app_nil_r.
  rewrite (skipn_app (length pre + length l)).
  rewrite (skipn_all2 pre) by lia.
  replace (length pre + length l - length pre)%nat with (length l) by lia.
  rewrite skipn_app, (skipn_all2 (repeat 0 _)) by (rewrite repeat_length; lia).
  cbn [app]. rewrite app_nil_r.
  unfold at_cursor.
  cbn [offset fileSize with_offset with_data with_fileSize data].
  rewrite Ho1, Hs1, Ho.
  destruct (fileSize f <? Z.of_nat (length pre) + Z.of_nat (length l)) eqn:E;
    [apply Z.ltb_lt in E | apply Z.ltb_ge in E];
    cbn [offset fileSize littleEndian fileName _offsetsStack data
         with_offset with_data with_fileSize];
    rewrite ?length_app;
    (split; [split; [now rewrite <- app_assoc | lia] |]);
    repeat split; try assumption; lia.
Qed.

(** A block of bytes read at the cursor. *)
Lemma readBytes_at f pre l rest :
  at_cursor f pre (l ++ rest) -> offset f + Z.of_nat (length l) <= fileSize f ->
  readBytes f (Z.of_nat (length l)) = (l, with_offset f (offset f + Z.of_nat (length l)))
  /\ at_cursor (with_offset f (offset f + Z.of_nat (length l))) (pre ++ l) rest.
Proof.
  intros (Hd & Ho) Hle. unfold readBytes.
  rewrite Z.min_l by lia. split.
  - f_equal. unfold U8.slice, U8.rel. rewrite Hd, Ho, !length_app.
    replace (Z.of_nat (length pre) <? 0) with false by (symmetry; apply Z.ltb_ge; lia).
    replace (Z.of_nat (length pre) + Z.of_nat (length l) <? 0) with false
      by (symmetry; apply Z.ltb_ge; lia).
    rewrite !Z.min_l by lia.
    replace (Z.to_nat (Z.of_nat (length pre) + Z.of_nat (length l) - Z.of_nat (length pre)))
      with (length l) by lia.
    rewrite Nat2Z.id, skipn_app, (skipn_all2 pre), Nat.sub_diag by lia.
    cbn [app]. rewrite skipn_O, firstn_app, firstn_all, Nat.sub_diag. cbn [firstn].
    apply app_nil_r.
  - unfold at_cursor. cbn [data offset with_offset].
    rewrite Hd, Ho, <- app_assoc, length_app. split; [reflexivity | lia].
Qed.

(** The byte a typed write stores for [(v >> k) & 0xFF]. *)
Lemma written_byte v k :
  0 <= k <= 24 -> JS.band (JS.band (JS.shr v k) 255) 255 = (v / 2 ^ k) mod 256.
Proof.
  intros Hk. rewrite ByteFacts.band_255_idem, ByteFacts.byte_of by lia.
  now apply ByteFacts.byte_ToInt32.
Qed.

Lemma written_byte0 v : JS.band (JS.band v 255) 255 = v mod 256.
Proof.
  rewrite ByteFacts.band_255_idem, BinFileFacts.band_255.
  change 256 with (2 ^ 8). apply ByteFacts.ToInt32_mod_pow2. lia.
Qed.

(** Two, three and four [writeU8] in a row. *)
Lemma writeU8_at2 f pre rest v1 v2 :
  at_cursor f pre rest ->
  let f' := writeU8 (writeU8 f v1) v2 in
  at_cursor f' (pre ++ [JS.band v1 255; JS.band v2 255]) (skipn 2 rest)
  /\ fileSize f' = Z.max (fileSize f) (offset f + 2)
  /\ littleEndian f' = littleEndian f
  /\ fileName f' = fileName f
  /\ _offsetsStack f' = _offsetsStack f.
Proof.
  intros H f'. pose proof H as (_ & Ho).
  destruct (writeU8_at f pre rest v1 H) as (H1 & S1 & L1 & N1 & T1).
  pose proof H1 as (_ & Ho1). rewrite length_app in Ho1. cbn [length] in Ho1.
  destruct (writeU8_at _ _ _ v2 H1) as (H2 & S2 & L2 & N2 & T2).
  rewrite <- app_assoc, skipn_skipn in H2. cbn [app Nat.add] in H2.
  unfold f'. repeat split; try congruence; try apply H2. lia.
Qed.

Lemma writeU8_at3 f pre rest v1 v2 v3 :
  at_cursor f pre rest ->
  let f' := writeU8 (writeU8 (writeU8 f v1) v2) v3 in
  at_cursor f' (pre ++ [JS.band v1 255; JS.band v2 255; JS.band v3 255]) (skipn 3 rest)
  /\ fileSize f' = Z.max (fileSize f) (offset f + 3)
  /\ littleEndian f' = littleEndian f
  /\ fileName f' = fileName f
  /\ _offsetsStack f' = _offsetsStack f.
Proof.
  intros H f'. pose proof H as (_ & Ho).
  destruct (writeU8_at2 f pre rest v1 v2 H) as (H1 & S1 & L1 & N1 & T1).
  pose proof H1 as (_ & Ho1). rewrite length_app in Ho1. cbn [length] in Ho1.
  destruct (writeU8_at _ _ _ v3 H1) as (H2 & S2 & L2 & N2 & T2).
  rewrite <- app_assoc, skipn_skipn in H2. cbn [app Nat.add] in H2.
  unfold f'. repeat split; try congruence; try apply H2. lia.
Qed.

Lemma writeU8_at4 f pre rest v1 v2 v3 v4 :
  at_cursor f pre rest ->
  let f' := writeU8 (writeU8 (writeU8 (writeU8 f v1) v2) v3) v4 in
  at_cursor f' (pre ++ [JS.band v1 255; JS.band v2 255; JS.band v3 255; JS.band v4 255])
            (skipn 4 rest)
  /\ fileSize f' = Z.max (fileSize f) (offset f + 4)
  /\ littleEndian f' = littleEndian f
  /\ fileName f' = fileName f
  /\ _offsetsStack f' = _offsetsStack f.
Proof.
  intros H f'. pose proof H as (_ & Ho).
  destruct (writeU8_at3 f pre rest v1 v2 v3 H) as (H1 & S1 & L1 & N1 & T1).
  pose proof H1 as (_ & Ho1). rewrite length_app in Ho1. cbn [length] in Ho1.
  destruct (writeU8_at _ _ _ v4 H1) as (H2 & S2 & L2 & N2 & T2).
  rewrite <- app_assoc, skipn_skipn in H2. cbn [app Nat.add] in H2.
  unfold f'. repeat split; try congruence; try apply H2. lia.
Qed.

(** The typed writes lay out the low bytes of the value, in the byte order
    of the buffer. *)
Lemma writeU16_at f pre rest v :
  at_cursor f pre rest ->
  at_cursor (writeU16 f v) (pre ++ ordered (littleEndian f) (be16 v)) (skipn 2 rest)
  /\ fileSize (writeU16 f v) = Z.max (fileSize f) (offset f + 2)
  /\ littleEndian (writeU16 f v) = littleEndian f
  /\ fileName (writeU16 f v) = fileName f
  /\ _offsetsStack (writeU16 f v) = _offsetsStack f.
Proof.
  intros H. unfold writeU16, ordered, be16.
  destruct (littleEndian f) eqn:E; cbn [rev app];
    match goal with
    | |- context [writeU8 (writeU8 f ?a) ?b] =>
        pose proof (writeU8_at2 f pre rest a b H) as R
    end;
    cbv zeta in R; rewrite ?written_byte, ?written_byte0 in R by lia;
    rewrite <- E; exact R.
Qed.

Lemma writeU24_at f pre rest v :
  at_cursor f pre rest ->
  at_cursor (writeU24 f v) (pre ++ ordered (littleEndian f) (be24 v)) (skipn 3 rest)
  /\ fileSize (writeU24 f v) = Z.max (fileSize f) (offset f + 3)
  /\ littleEndian (writeU24 f v) = littleEndian f
  /\ fileName (writeU24 f v) = fileName f
  /\ _offsetsStack (writeU24 f v) = _offsetsStack f.
Proof.
  intros H. unfold writeU24, ordered, be24.
  destruct (littleEndian f) eqn:E; cbn [rev app];
    match goal with
    | |- context [writeU8 (writeU8 (writeU8 f ?a) ?b) ?c] =>
        pose proof (writeU8_at3 f pre rest a b c H) as R
    end;
    cbv zeta in R; rewrite ?written_byte, ?written_byte0 in R by lia;
    rewrite <- E; exact R.
Qed.

Lemma writeU32_at f pre rest v :
  at_cursor f pre rest ->
  at_cursor (writeU32 f v) (pre ++ ordered (littleEndian f) (be32 v)) (skipn 4 rest)
  /\ fileSize (writeU32 f v) = Z.max (fileSize f) (offset f + 4)
  /\ littleEndian (writeU32 f v) = littleEndian f
  /\ fileName (writeU32 f v) = fileName f
  /\ _offsetsStack (writeU32 f v) = _offsetsStack f.
Proof.
  intros H. unfold writeU32, ordered, be32.
  destruct (littleEndian f) eqn:E; cbn [rev app];
    match goal with
    | |- context [writeU8 (writeU8 (writeU8 (writeU8 f ?a) ?b) ?c) ?d] =>
        pose proof (writeU8_at4 f pre rest a b c d H) as R
    end;
    cbv zeta in R; rewrite ?written_byte, ?written_byte0 in R by lia;
    rewrite <- E; exact R.
Qed.

(** The typed reads put the bytes under the cursor together again. *)
Lemma readU16_at f pre b1 b2 rest :
  at_cursor f pre (b1 :: b2 :: rest) -> offset f + 2 <= fileSize f ->
  is_byte b1 -> is_byte b2 ->
  readU16 f = (be_value (ordered (littleEndian f) [b1; b2]), with_offset f (offset f + 2))
  /\ at_cursor (with_offset f (offset f + 2)) (pre ++ [b1; b2]) rest.
Proof.
  intros H Hle B1 B2. unfold readU16.
  destruct (readU8_at f pre b1 _ H ltac:(lia)) as (R1 & H1). rewrite R1.
  destruct (readU8_at _ _ b2 _ H1 ltac:(cbn; lia)) as (R2 & H2). rewrite R2.
  cbn [JS.num offset with_offset] in *.
  replace (offset f + 1 + 1) with (offset f + 2) in * by lia.
  rewrite <- app_assoc in H2. cbn [app] in H2. split; [|exact H2].
  f_equal. unfold ordered, be_value.
  destruct (littleEndian f); cbn [rev app fold_left];
    rewrite ByteFacts.u16_of_bytes by assumption; lia.
Qed.

Lemma readU24_at f pre b1 b2 b3 rest :
  at_cursor f pre (b1 :: b2 :: b3 :: rest) -> offset f + 3 <= fileSize f ->
  is_byte b1 -> is_byte b2 -> is_byte b3 ->
  readU24 f = (be_value (ordered (littleEndian f) [b1; b2; b3]),
               with_offset f (offset f + 3))
  /\ at_cursor (with_offset f (offset f + 3)) (pre ++ [b1; b2; b3]) rest.
Proof.
  intros H Hle B1 B2 B3. unfold readU24.
  destruct (readU8_at f pre b1 _ H ltac:(lia)) as (R1 & H1). rewrite R1.
  destruct (readU8_at _ _ b2 _ H1 ltac:(cbn; lia)) as (R2 & H2). rewrite R2.
  destruct (readU8_at _ _ b3 _ H2 ltac:(cbn; lia)) as (R3 & H3). rewrite R3.
  cbn [JS.num offset with_offset] in *.
  replace (offset f + 1 + 1 + 1) with (offset f + 3) in * by lia.
  rewrite <- !app_assoc in H3. cbn [app] in H3. split; [|exact H3].
  f_equal. unfold ordered, be_value.
  destruct (littleEndian f); cbn [rev app fold_left];
    rewrite ByteFacts.u24_of_bytes by assumption; lia.
Qed.

Lemma readU32_at f pre b1 b2 b3 b4 rest :
  at_cursor f pre (b1 :: b2 :: b3 :: b4 :: rest) -> offset f + 4 <= fileSize f ->
  is_byte b1 -> is_byte b2 -> is_byte b3 -> is_byte b4 ->
  readU32 f = (be_value (ordered (littleEndian f) [b1; b2; b3; b4]),
               with_offset f (offset f + 4))
  /\ at_cursor (with_offset f (offset f + 4)) (pre ++ [b1; b2; b3; b4]) rest.
Proof.
  intros H Hle B1 B2 B3 B4. unfold readU32.
  destruct (readU8_at f pre b1 _ H ltac:(lia)) as (R1 & H1). rewrite R1.
  destruct (readU8_at _ _ b2 _ H1 ltac:(cbn; lia)) as (R2 & H2). rewrite R2.
  destruct (readU8_at _ _ b3 _ H2 ltac:(cbn; lia)) as (R3 & H3). rewrite R3.
  destruct (readU8_at _ _ b4 _ H3 ltac:(cbn; lia)) as (R4 & H4). rewrite R4.
  cbn [JS.num offset with_offset] in *.
  replace (offset f + 1 + 1 + 1 + 1) with (offset f + 4) in * by lia.
  rewrite <- !app_assoc in H4. cbn [app] in H4. split; [|exact H4].
  f_equal. unfold ordered, be_value.
  destruct (littleEndian f); cbn [rev app fold_left];
    rewrite ByteFacts.u32_of_bytes by assumption; lia.
Qed.

(** The digits of a value, most significant first, give the value back. *)
Lemma be_value_be16 v : be_value (be16 v) = v mod 2 ^ 16.
Proof. rewrite <- ByteFacts.be16_value. unfold be_value, be16. cbn [fold_left]. lia. Qed.

Lemma be_value_be24 v : be_value (be24 v) = v mod 2 ^ 24.
Proof. rewrite <- ByteFacts.be24_value. unfold be_value, be24. cbn [fold_left]. lia. Qed.

Lemma be_value_be32 v : be_value (be32 v) = v mod 2 ^ 32.
Proof. rewrite <- ByteFacts.be32_value. unfold be_value, be32. cbn [fold_left]. lia. Qed.

Lemma ordered_involutive le l : ordered le (ordered le l) = l.
Proof. unfold ordered. destruct le; [apply rev_involutive | reflexivity]. Qed.

Lemma with_offset_id f : with_offset f (offset f) = f.
Proof. now destruct f. Qed.

(** Moving the cursor back inside the buffer. *)
Lemma seek_at f pre rest :
  data f = pre ++ rest -> Z.of_nat (length pre) <= fileSize f ->
  seek f (Z.of_nat (length pre)) = with_offset f (Z.of_nat (length pre))
  /\ at_cursor (with_offset f (Z.of_nat (length pre))) pre rest.
Proof.
  intros Hd Hle. unfold seek. rewrite Z.min_l, Z.max_r by lia.
  split; [reflexivity|]. split; [exact Hd | reflexivity].
Qed.

End CursorFacts.

(** ** The byte cursor: what is written is what is read *)

Module BinFileProps.
Import BinFile Cursor CursorFacts.

(** A typed write followed by the typed read of the same width at the same
    place gives the value back, reduced modulo 256, 2^16, 2^24 or 2^32, in
    either byte order; the cursor ends where the write left it. *)
Theorem typed_write_read_roundtrip (f : BinFile) (v : Z) :
  wf f ->
  readU8 (seek (writeU8 f v) (offset f)) = (Some (v mod 256), writeU8 f v)
  /\ readU16 (seek (writeU16 f v) (offset f)) = (v mod 2 ^ 16, writeU16 f v)
  /\ readU24 (seek (writeU24 f v) (offset f)) = (v mod 2 ^ 24, writeU24 f v)
  /\ readU32 (seek (writeU32 f v) (offset f)) = (v mod 2 ^ 32, writeU32 f v).
Proof.
  intros (H0 & H1 & H2).
  pose proof (at_cursor_split f ltac:(lia)) as Hat.
  set (pre := firstn (Z.to_nat (offset f)) (data f)) in *.
  set (rest := skipn (Z.to_nat (offset f)) (data f)) in *.
  pose proof Hat as (_ & Ho).
  pose proof (is_byte_mod := ByteFacts.is_byte_mod).
  split; [|split; [|split]].
  - destruct (writeU8_at f pre rest v Hat) as ((Hd & Ho') & Hs & Hl & _).
    rewrite length_app in Ho'. cbn [length] in Ho'.
    rewrite <- app_assoc in Hd. rewrite Ho.
    destruct (seek_at _ _ _ Hd ltac:(lia)) as (-> & Hg).
    destruct (readU8_at _ _ _ _ Hg ltac:(cbn; lia)) as (-> & _).
    rewrite with_offset_twice. cbn [offset with_offset].
    rewrite BinFileFacts.band_255. change 256 with (2 ^ 8).
    rewrite ByteFacts.ToInt32_mod_pow2 by lia.
    f_equal. rewrite <- (with_offset_id (writeU8 f v)) at 2. f_equal. lia.
  - destruct (writeU16_at f pre rest v Hat) as ((Hd & Ho') & Hs & Hl & _).
    rewrite length_app in Ho'. rewrite <- app_assoc in Hd. rewrite Ho.
    destruct (seek_at _ _ _ Hd ltac:(lia)) as (-> & Hg).
    unfold ordered, be16 in Hg, Ho'.
    destruct (littleEndian f) eqn:E; cbn [rev app length] in Hg, Ho';
      (destruct (readU16_at _ _ _ _ _ Hg ltac:(cbn; lia)
                            ltac:(apply is_byte_mod) ltac:(apply is_byte_mod)) as (-> & _));
      rewrite with_offset_twice; cbn [offset with_offset littleEndian];
      rewrite Hl; unfold ordered; cbn [rev app];
      fold (be16 v); rewrite be_value_be16;
      (f_equal; rewrite <- (with_offset_id (writeU16 f v)) at 2; f_equal; lia).
  - destruct (writeU24_at f pre rest v Hat) as ((Hd & Ho') & Hs & Hl & _).
    rewrite length_app in Ho'. rewrite <- app_assoc in Hd. rewrite Ho.
    destruct (seek_at _ _ _ Hd ltac:(lia)) as (-> & Hg).
    unfold ordered, be24 in Hg, Ho'.
    destruct (littleEndian f) eqn:E; cbn [rev app length] in Hg, Ho';
      (destruct (readU24_at _ _ _ _ _ _ Hg ltac:(cbn; lia)
                            ltac:(apply is_byte_mod) ltac:(apply is_byte_mod)
                            ltac:(apply is_byte_mod)) as (-> & _));
      rewrite with_offset_twice; cbn [offset with_offset littleEndian];
      rewrite Hl; unfold ordered; cbn [rev app];
      fold (be24 v); rewrite be_value_be24;
      (f_equal; rewrite <- (with_offset_id (writeU24 f v)) at 2; f_equal; lia).
  - destruct (writeU32_at f pre rest v Hat) as ((Hd & Ho') & Hs & Hl & _).
    rewrite length_app in Ho'. rewrite <- app_assoc in Hd. rewrite Ho.
    destruct (seek_at _ _ _ Hd ltac:(lia)) as (-> & Hg).
    unfold ordered, be32 in Hg, Ho'.
    destruct (littleEndian f) eqn:E; cbn [rev app length] in Hg, Ho';
      (destruct (readU32_at _ _ _ _ _ _ _ Hg ltac:(cbn; lia)
                            ltac:(apply is_byte_mod) ltac:(apply is_byte_mod)
                            ltac:(apply is_byte_mod) ltac:(apply is_byte_mod)) as (-> & _));
      rewrite with_offset_twice; cbn [offset with_offset littleEndian];
      rewrite Hl; unfold ordered; cbn [rev app];
      fold (be32 v); rewrite be_value_be32;
      (f_equal; rewrite <- (with_offset_id (writeU32 f v)) at 2; f_equal; lia).
Qed.

Lemma typed_write_read_roundtrip_witness :
  wf Samples.one_buffer
  /\ readU32 (seek (writeU32 Samples.one_buffer (-2)) 2)
     = (4294967294, writeU32 Samples.one_buffer (-2)).
Proof.
  assert (H : wf Samples.one_buffer) by (unfold wf, capacity; cbn; lia).
  split; [exact H|].
  destruct (typed_write_read_roundtrip Samples.one_buffer (-2) H) as (_ & _ & _ & E).
  exact E.
Defined.

Lemma string_of_bytes_of_string s : string_of_bytes (bytes_of_string s) = s.
Proof.
  unfold string_of_bytes, bytes_of_string. rewrite map_map.
  rewrite <- (string_of_list_ascii_of_string s) at 2. f_equal.
  rewrite <- (map_id (list_ascii_of_string s)) at 2.
  apply map_ext. intros c. rewrite Nat2Z.id. apply ascii_nat_embedding.
Qed.

Lemma bytes_of_string_length s : length (bytes_of_string s) = String.length s.
Proof.
  unfold bytes_of_string. rewrite length_map.
  induction s as [|c s IH]; [reflexivity|]. cbn [list_ascii_of_string length String.length].
  now rewrite IH.
Qed.

(** A block written with [writeBytes], or a string of 8-bit characters
    written with [writeString(s, 'ascii')], is read back unchanged by
    [readBytes] / [readString(n, 'ascii')] from the place it was written at;
    neither write can fail on a buffer that satisfies the cursor invariant. *)
Theorem block_write_read_roundtrip (f : BinFile) :
  wf f ->
  (forall bytes, exists f',
      writeBytes f bytes = JS.Ok f'
      /\ readBytes (seek f' (offset f)) (Z.of_nat (length bytes)) = (bytes, f'))
  /\ (forall s, exists f',
        writeString_ascii f s = JS.Ok f'
        /\ readString_ascii (seek f' (offset f)) (Z.of_nat (String.length s)) = (s, f')).
Proof.
  intros (H0 & H1 & H2).
  pose proof (at_cursor_split f ltac:(lia)) as Hat.
  set (pre := firstn (Z.to_nat (offset f)) (data f)) in *.
  set (rest := skipn (Z.to_nat (offset f)) (data f)) in *.
  pose proof Hat as (_ & Ho).
  assert (Hb : forall bytes, exists f',
             writeBytes f bytes = JS.Ok f'
             /\ readBytes (seek f' (offset f)) (Z.of_nat (length bytes)) = (bytes, f')).
  { intros bytes.
    destruct (writeBytes_at f pre rest bytes Hat) as (f' & Hw & (Hd & Ho') & Hs & _).
    exists f'. split; [exact Hw|].
    rewrite length_app in Ho'. rewrite <- app_assoc in Hd. rewrite Ho.
    destruct (seek_at _ _ _ Hd ltac:(lia)) as (-> & Hg).
    destruct (readBytes_at _ _ _ _ Hg ltac:(cbn; lia)) as (-> & _).
    rewrite with_offset_twice. cbn [offset with_offset].
    f_equal. rewrite <- (with_offset_id f') at 2. f_equal. lia. }
  split; [exact Hb|].
  intros s. unfold writeString_ascii, readString_ascii.
  destruct (Hb (bytes_of_string s)) as (f' & Hw & Hr).
  exists f'. split; [exact Hw|].
  rewrite bytes_of_string_length in Hr. rewrite Hr.
  now rewrite string_of_bytes_of_string.
Qed.

Lemma block_write_read_roundtrip_witness :
  wf Samples.one_buffer
  /\ exists f', writeString_ascii Samples.one_buffer "PATCH" = JS.Ok f'
                /\ readString_ascii (seek f' 2) 5 = ("PATCH"%string, f').
Proof.
  assert (H : wf Samples.one_buffer) by (unfold wf, capacity; cbn; lia).
  split; [exact H|].
  destruct (block_write_read_roundtrip Samples.one_buffer H) as (_ & Hs).
  exact (Hs "PATCH"%string).
Defined.

(** *** Variable-length values *)

Lemma readVLV_loop_total n : forall f value shift,
  fileSize f - offset f <= Z.of_nat n ->
  exists v f', readVLV_loop (S n) f value shift = Some (v, f')
               /\ (wf f -> wf f') /\ offset f <= offset f'.
Proof.
  induction n as [|n IH]; intros f value shift Hn.
  - cbn [readVLV_loop]. rewrite BinFileFacts.readU8_eof by lia.
    cbn [JS.num]. change (JS.band 0 128 =? 0) with true. cbv iota.
    eexists _, f. split; [reflexivity|]. split; [auto | lia].
  - change (readVLV_loop (S (S n)) f value shift)
      with (let '(byte, f1) := readU8 f in
            let value1 := value + JS.band (JS.num byte) 0x7f * shift in
            if JS.band (JS.num byte) 0x80 =? 0 then Some (value1, f1)
            else let shift1 := JS.shl shift 7 in
                 readVLV_loop (S n) f1 (value1 + shift1) shift1).
    pose proof (BinFileFacts.wf_readU8 f) as Hwf.
    assert (Ho : offset f <= offset (snd (readU8 f))
                 /\ fileSize (snd (readU8 f)) - offset (snd (readU8 f)) <= Z.of_nat n).
    { unfold readU8. destruct (fileSize f <=? offset f) eqn:E;
        [apply Z.leb_le in E | apply Z.leb_gt in E]; cbn [snd offset fileSize with_offset]; lia. }
    destruct (readU8 f) as [byte f1]. cbn [snd] in *. cbv zeta.
    destruct (JS.band (JS.num byte) 128 =? 0).
    + eexists _, f1. split; [reflexivity|]. split; [exact Hwf | lia].
    + destruct (IH f1 (value + JS.band (JS.num byte) 127 * shift + JS.shl shift 7)
                   (JS.shl shift 7) ltac:(lia)) as (v & f' & E & Hw & Hle).
      exists v, f'. split; [exact E|]. split; [auto | lia].
Qed.

(** [readVLV] returns on every buffer: a read at the end of the buffer
    yields 0, which ends the loop.  The cursor only moves forward and the
    cursor invariant is kept; at the end of the buffer the value is 0 and
    nothing moves. *)
Theorem readVLV_returns (f : BinFile) :
  exists v f',
    readVLV f = Some (v, f')
    /\ offset f <= offset f'
    /\ (wf f -> wf f')
    /\ (fileSize f <= offset f -> v = 0 /\ f' = f).
Proof.
  unfold readVLV.
  destruct (readVLV_loop_total (Z.to_nat (fileSize f - offset f)) f 0 1 ltac:(lia))
    as (v & f' & E & Hw & Hle).
  exists v, f'. split; [exact E|]. split; [exact Hle|]. split; [exact Hw|].
  intros Heof.
  replace (Z.to_nat (fileSize f - offset f)) with 0%nat in E by lia.
  cbn [readVLV_loop] in E. rewrite BinFileFacts.readU8_eof in E by lia.
  cbn in E. inversion E. auto.
Qed.

Lemma vlv_length_agrees fuel : forall f x len,
  0 <= offset f ->
  match writeVLV fuel f x, getVLVLength_loop fuel len x with
  | Some f', Some n => offset f' = offset f + (n - len)
  | None, None => True
  | _, _ => False
  end.
Proof.
  induction fuel as [|fuel IH]; intros f x len H0; [exact I|].
  cbn [writeVLV getVLVLength_loop].
  destruct (JS.shr x 7 =? 0).
  - destruct (BinFileFacts.writeU8_spec f (JS.band x 127) H0) as (-> & _). lia.
  - destruct (BinFileFacts.writeU8_spec f (JS.bor (JS.band x 127) 128) H0) as (Ho & _).
    specialize (IH (writeU8 f (JS.bor (JS.band x 127) 128)) (JS.shr x 7) (len + 1)
                   ltac:(lia)).
    destruct (writeVLV fuel _ _), (getVLVLength_loop fuel _ _); try exact IH. lia.
Qed.

Lemma getVLVLength_loop_total fuel : forall x len,
  0 <= x < 2 ^ 31 -> x < 128 ^ Z.of_nat (S fuel) ->
  exists n, getVLVLength_loop (S fuel) len x = Some n
            /\ len < n <= len + Z.of_nat (S fuel).
Proof.
  induction fuel as [|fuel IH]; intros x len Hx Hlt.
  - cbn [getVLVLength_loop]. rewrite VLVFacts.shr_7 by exact Hx.
    change (128 ^ Z.of_nat 1) with 128 in Hlt.
    rewrite Z.div_small by lia. cbn. exists (len + 1). split; [reflexivity | lia].
  - change (getVLVLength_loop (S (S fuel)) len x)
      with (let value1 := JS.shr x 7 in
            if value1 =? 0 then Some (len + 1)
            else getVLVLength_loop (S fuel) (len + 1) value1).
    cbv zeta. rewrite VLVFacts.shr_7 by exact Hx.
    destruct (x / 128 =? 0).
    + exists (len + 1). split; [reflexivity | lia].
    + rewrite Nat2Z.inj_succ, Z.pow_succ_r in Hlt by lia.
      assert (Hq : 0 <= x / 128 < 2 ^ 31).
      { split; [apply Z.div_pos; lia|]. apply Z.div_lt_upper_bound; lia. }
      assert (Hq' : x / 128 < 128 ^ Z.of_nat (S fuel))
        by (apply Z.div_lt_upper_bound; lia).
      destruct (IH (x / 128) (len + 1) Hq Hq') as (n & E & Hn).
      exists n. split; [exact E | lia].
Qed.

(** [getVLVLength(x)] is the number of bytes [writeVLV(x)] writes: both
    loops shift the value by 7 bits until it is 0.  For a value below 2^31
    both return, after at most 5 turns. *)
Theorem getVLVLength_counts_writeVLV (fuel : nat) (f : BinFile) (x : Z) :
  0 <= offset f -> 0 <= x < 2 ^ 31 -> (5 <= fuel)%nat ->
  exists f' n,
    writeVLV fuel f x = Some f' /\ getVLVLength fuel x = Some n
    /\ offset f' = offset f + n /\ 1 <= n <= 5.
Proof.
  intros H0 Hx Hfuel. unfold getVLVLength.
  destruct fuel as [|fuel]; [lia|].
  assert (H5 : x < 128 ^ Z.of_nat 5) by (change (128 ^ Z.of_nat 5) with (2 ^ 35); lia).
  destruct (getVLVLength_loop_total 4 x 0 Hx H5) as (n5 & E5 & Hn5).
  assert (Hlt : x < 128 ^ Z.of_nat (S fuel)).
  { apply Z.lt_le_trans with (128 ^ Z.of_nat 5); [exact H5|].
    apply Z.pow_le_mono_r; lia. }
  destruct (getVLVLength_loop_total fuel x 0 Hx Hlt) as (n & E & Hn).
  pose proof (vlv_length_agrees (S fuel) f x 0 H0) as Hag.
  pose proof (vlv_length_agrees 5 f x 0 H0) as Hag5.
  rewrite E in Hag. rewrite E5 in Hag5.
  destruct (writeVLV (S fuel) f x) as [f'|] eqn:Ew; [|contradiction].
  exists f', n. split; [reflexivity|]. split; [exact E|]. split; [lia|].
  (* the count does not depend on the number of turns allowed *)
  assert (Hmono : forall k m y len r, getVLVLength_loop k len y = Some r ->
                                      (k <= m)%nat -> getVLVLength_loop m len y = Some r).
  { induction k as [|k IHk]; intros m y len r Hk Hm; [discriminate|].
    destruct m as [|m]; [lia|]. cbn [getVLVLength_loop] in *.
    destruct (JS.shr y 7 =? 0); [exact Hk|]. apply (IHk m); [exact Hk | lia]. }
  pose proof (Hmono 5%nat (S fuel) x 0 n5 E5 Hfuel) as E'.
  rewrite E in E'. inversion E'; subst. change (Z.of_nat 5) with 5 in Hn5. lia.
Qed.

Lemma getVLVLength_counts_writeVLV_witness :
  exists f' n,
    writeVLV 64 (of_bytes []) 300 = Some f' /\ getVLVLength 64 300 = Some n
    /\ offset f' = 0 + n /\ 1 <= n <= 5.
Proof.
  apply (getVLVLength_counts_writeVLV 64 (of_bytes []) 300); [cbn; lia | lia | lia].
Defined.

End BinFileProps.

(** ** BPS: the variable-length values *)

Module BPSProps.
Import BinFile Cursor CursorFacts.

Lemma bor_128_l b : 0 <= b < 128 -> JS.bor 0x80 b = b + 128.
Proof.
  intros H. rewrite <- (VLVFacts.bor_128 b H). unfold JS.bor. apply Z.lor_comm.
Qed.

(** What [_writeVLV] writes at the cursor. *)
Lemma bps_write_encode fuel : forall f pre rest x,
  at_cursor f pre rest -> 0 <= x < 2 ^ 31 ->
  match BPS._writeVLV fuel f x, bps_encode fuel x with
  | Some f', Some l =>
      at_cursor f' (pre ++ l) (skipn (length l) rest)
      /\ fileSize f' = Z.max (fileSize f) (offset f + Z.of_nat (length l))
      /\ littleEndian f' = littleEndian f
  | None, None => True
  | _, _ => False
  end.
Proof.
  induction fuel as [|fuel IH]; intros f pre rest x Hat Hx; [exact I|].
  cbn [BPS._writeVLV bps_encode].
  rewrite VLVFacts.band_127, VLVFacts.shr_7 by exact Hx.
  pose proof (Z.mod_pos_bound x 128 ltac:(lia)) as Hr.
  destruct (x / 128 =? 0) eqn:E.
  - rewrite bor_128_l by lia.
    destruct (writeU8_at f pre rest (x mod 128 + 128) Hat) as (H1 & S1 & L1 & _).
    rewrite VLVFacts.band_255_small in H1 by lia.
    cbn [length]. repeat split; try apply H1; assumption.
  - apply Z.eqb_neq in E.
    assert (Hq : 0 <= x / 128 - 1 < 2 ^ 31).
    { assert (0 <= x / 128) by (apply Z.div_pos; lia).
      assert (x / 128 < 2 ^ 31) by (apply Z.div_lt_upper_bound; lia). lia. }
    destruct (writeU8_at f pre rest (x mod 128) Hat) as (H1 & S1 & L1 & _).
    rewrite VLVFacts.band_255_small in H1 by lia.
    pose proof Hat as (_ & Ho). pose proof H1 as (_ & Ho1).
    rewrite length_app in Ho1. cbn [length] in Ho1.
    specialize (IH (writeU8 f (x mod 128)) _ _ (x / 128 - 1) H1 Hq).
    destruct (BPS._writeVLV fuel _ _) as [f'|], (bps_encode fuel _) as [l|];
      cbn [option_map]; try exact IH.
    destruct IH as (H2 & S2 & L2).
    rewrite <- app_assoc, skipn_skipn in H2. cbn [app] in H2.
    cbn [length]. replace (S (length l)) with (length l + 1)%nat by lia.
    repeat split; try apply H2; try congruence. lia.
Qed.

Lemma bps_encode_total fuel : forall x,
  0 <= x < 128 ^ Z.of_nat (S fuel) ->
  exists l, bps_encode (S fuel) x = Some l
            /\ Forall is_byte l /\ (1 <= length l <= S fuel)%nat.
Proof.
  induction fuel as [|fuel IH]; intros x Hx.
  - change (128 ^ Z.of_nat 1) with 128 in Hx. cbn [bps_encode].
    rewrite Z.div_small by lia. cbn. eexists. split; [reflexivity|].
    rewrite Z.mod_small by lia. split; [|cbn [length]; lia].
    constructor; [unfold is_byte; lia | constructor].
  - change (bps_encode (S (S fuel)) x)
      with (if x / 128 =? 0 then Some [x mod 128 + 128]
            else option_map (cons (x mod 128)) (bps_encode (S fuel) (x / 128 - 1))).
    pose proof (Z.mod_pos_bound x 128 ltac:(lia)) as Hr.
    destruct (x / 128 =? 0) eqn:E.
    + eexists. split; [reflexivity|]. split; [|cbn; lia].
      constructor; [unfold is_byte; lia | constructor].
    + apply Z.eqb_neq in E.
      rewrite Nat2Z.inj_succ, Z.pow_succ_r in Hx by lia.
      assert (0 <= x / 128) by (apply Z.div_pos; lia).
      assert (x / 128 < 128 ^ Z.of_nat (S fuel)) by (apply Z.div_lt_upper_bound; lia).
      destruct (IH (x / 128 - 1) ltac:(lia)) as (l & El & Hl & Hn).
      rewrite El. cbn [option_map]. eexists. split; [reflexivity|].
      split; [|cbn [length]; lia].
      constructor; [unfold is_byte; lia | exact Hl].
Qed.

(** What [_readVLV] computes from those bytes. *)
Lemma bps_read_encode fuel : forall x l,
  bps_encode fuel x = Some l -> 0 <= x ->
  forall fuel2 g pre rest data shift,
    at_cursor g pre (l ++ rest) -> offset g + Z.of_nat (length l) <= fileSize g ->
    0 < shift -> shift * x < 2 ^ 31 -> (length l <= fuel2)%nat ->
    BPS._readVLV_loop fuel2 g data shift
    = Some (data + shift * x, with_offset g (offset g + Z.of_nat (length l))).
Proof.
  induction fuel as [|fuel IH]; intros x l El Hx fuel2 g pre rest data shift Hat Hle Hs Hb Hf;
    [discriminate|].
  cbn [bps_encode] in El.
  pose proof (Z.mod_pos_bound x 128 ltac:(lia)) as Hr.
  pose proof (Z.div_mod x 128 ltac:(lia)) as Hdm.
  destruct (x / 128 =? 0) eqn:E.
  - apply Z.eqb_eq in E. inversion El; subst l. clear El.
    cbn [length app] in *. destruct fuel2 as [|fuel2]; [lia|].
    cbn [BPS._readVLV_loop].
    destruct (readU8_at g pre _ rest Hat ltac:(lia)) as (-> & _).
    cbn [JS.num].
    rewrite VLVFacts.band_byte_127, VLVFacts.band_byte_128 by lia.
    replace (x mod 128 + 128 <? 128) with false by (symmetry; apply Z.ltb_ge; lia).
    cbn [negb].
    replace ((x mod 128 + 128) mod 128) with (x mod 128)
      by (apply Z.mod_unique with (q := 1); lia).
    assert (Hsmall : x mod 128 = x) by lia. rewrite Hsmall.
    replace (data + x * shift) with (data + shift * x) by lia.
    replace (Z.of_nat 1) with 1 by reflexivity. reflexivity.
  - apply Z.eqb_neq in E.
    destruct (bps_encode fuel (x / 128 - 1)) as [l'|] eqn:El'; [|discriminate].
    cbn [option_map] in El. inversion El; subst l. clear El.
    cbn [length app] in *. destruct fuel2 as [|fuel2]; [lia|].
    cbn [BPS._readVLV_loop].
    destruct (readU8_at g pre _ (l' ++ rest) Hat ltac:(lia)) as (-> & Hat1).
    cbn [JS.num].
    rewrite VLVFacts.band_byte_127, VLVFacts.band_byte_128 by lia.
    replace (x mod 128 <? 128) with true by (symmetry; apply Z.ltb_lt; lia).
    cbn [negb]. rewrite Z.mod_mod by lia.
    assert (Hq : 1 <= x / 128).
    { assert (0 <= x / 128) by (apply Z.div_pos; lia). lia. }
    assert (Hsh : shift * 128 < 2 ^ 31) by nia.
    rewrite VLVFacts.shl_7 by lia.
    rewrite (IH (x / 128 - 1) l' El' ltac:(lia) fuel2 _ (pre ++ [x mod 128]) rest _ _ Hat1);
      cbn [offset fileSize with_offset]; try lia; try nia.
    rewrite with_offset_twice.
    replace (data + x mod 128 * shift + shift * 128 + shift * 128 * (x / 128 - 1))
      with (data + shift * x) by nia.
    replace (offset g + 1 + Z.of_nat (length l'))
      with (offset g + Z.of_nat (S (length l'))) by lia.
    reflexivity.
Qed.

(** The BPS number codec round-trips below 2^31: [_writeVLV] returns within
    five turns, writes between one and five bytes at the cursor, and
    [_readVLV] from the same place returns the value and stops where the
    write stopped. *)
Theorem bps_vlv_roundtrip (fuel : nat) (f : BinFile) (x : Z) :
  wf f -> 0 <= x < 2 ^ 31 -> (5 <= fuel)%nat ->
  exists f',
    BPS._writeVLV fuel f x = Some f'
    /\ offset f < offset f' <= offset f + 5
    /\ BPS._readVLV fuel (seek f' (offset f)) = Some (x, f').
Proof.
  intros (H0 & H1 & H2) Hx Hfuel.
  pose proof (at_cursor_split f ltac:(lia)) as Hat.
  set (pre := firstn (Z.to_nat (offset f)) (data f)) in *.
  set (rest := skipn (Z.to_nat (offset f)) (data f)) in *.
  pose proof Hat as (_ & Ho).
  destruct fuel as [|fuel]; [lia|].
  assert (Hlt : x < 128 ^ Z.of_nat (S fuel)).
  { apply Z.lt_le_trans with (128 ^ Z.of_nat 5).
    - change (128 ^ Z.of_nat 5) with (2 ^ 35). lia.
    - apply Z.pow_le_mono_r; lia. }
  destruct (bps_encode_total fuel x ltac:(lia)) as (l & El & Hl & Hn).
  (* the encoding has five bytes or fewer *)
  assert (H5 : (length l <= 5)%nat).
  { destruct (bps_encode_total 4 x) as (l5 & El5 & _ & Hn5).
    { change (128 ^ Z.of_nat 5) with (2 ^ 35). lia. }
    assert (Hmono : forall k m y r, bps_encode k y = Some r -> (k <= m)%nat ->
                                    bps_encode m y = Some r).
    { induction k as [|k IHk]; intros m y r Hk Hm; [discriminate|].
      destruct m as [|m]; [lia|]. cbn [bps_encode] in *.
      destruct (y / 128 =? 0); [exact Hk|].
      destruct (bps_encode k (y / 128 - 1)) as [r'|] eqn:Er; [|discriminate].
      rewrite (IHk m _ _ Er ltac:(lia)). exact Hk. }
    rewrite (Hmono 5%nat (S fuel) x l5 El5 Hfuel) in El. inversion El; subst. lia. }
  pose proof (bps_write_encode (S fuel) f pre rest x Hat Hx) as Hw.
  rewrite El in Hw.
  destruct (BPS._writeVLV (S fuel) f x) as [f'|]; [|contradiction].
  destruct Hw as ((Hd & Ho') & Hs & _).
  rewrite length_app in Ho'. rewrite <- app_assoc in Hd.
  exists f'. split; [reflexivity|]. split; [lia|].
  rewrite Ho. destruct (seek_at _ _ _ Hd ltac:(lia)) as (-> & Hg).
  unfold BPS._readVLV.
  rewrite (bps_read_encode (S fuel) x l El ltac:(lia) (S fuel) _ pre _ 0 1 Hg);
    cbn [offset fileSize with_offset]; try lia.
  rewrite with_offset_twice. f_equal. f_equal; [lia|].
  rewrite <- (with_offset_id f') at 2. f_equal. lia.
Qed.

Lemma bps_vlv_roundtrip_witness :
  exists f',
    BPS._writeVLV 64 Samples.one_buffer 300 = Some f'
    /\ offset Samples.one_buffer < offset f' <= offset Samples.one_buffer + 5
    /\ BPS._readVLV 64 (seek f' (offset Samples.one_buffer)) = Some (300, f').
Proof.
  apply (bps_vlv_roundtrip 64 Samples.one_buffer 300);
    [unfold wf, capacity; cbn; lia | lia | lia].
Defined.

Lemma bps_length_agrees fuel : forall f x len,
  0 <= offset f ->
  match BPS._writeVLV fuel f x, BPS._getVLVLen_loop fuel len x with
  | Some f', Some n => offset f' = offset f + (n - len)
  | None, None => True
  | _, _ => False
  end.
Proof.
  induction fuel as [|fuel IH]; intros f x len H0; [exact I|].
  cbn [BPS._writeVLV BPS._getVLVLen_loop].
  destruct (JS.shr x 7 =? 0).
  - destruct (BinFileFacts.writeU8_spec f (JS.bor 128 (JS.band x 127)) H0) as (-> & _). lia.
  - destruct (BinFileFacts.writeU8_spec f (JS.band x 127) H0) as (Ho & _).
    specialize (IH (writeU8 f (JS.band x 127)) (JS.shr x 7 - 1) (len + 1) ltac:(lia)).
    destruct (BPS._writeVLV fuel _ _), (BPS._getVLVLen_loop fuel _ _); try exact IH. lia.
Qed.

(** [_getVLVLen(x)], from which [export] computes the size of the patch
    file, is the number of bytes [_writeVLV(x)] writes; whenever one of the
    two loops returns within a number of turns, so does the other. *)
Theorem bps_getVLVLen_counts_writeVLV (fuel : nat) (f : BinFile) (x : Z) :
  0 <= offset f ->
  match BPS._writeVLV fuel f x, BPS._getVLVLen fuel x with
  | Some f', Some n => offset f' = offset f + n
  | None, None => True
  | _, _ => False
  end.
Proof.
  intros H0. pose proof (bps_length_agrees fuel f x 0 H0) as H.
  unfold BPS._getVLVLen.
  destruct (BPS._writeVLV fuel f x), (BPS._getVLVLen_loop fuel 0 x); try exact H. lia.
Qed.

Lemma bps_getVLVLen_counts_writeVLV_witness :
  match BPS._writeVLV 64 Samples.one_buffer 300, BPS._getVLVLen 64 300 with
  | Some f', Some n => offset f' = offset Samples.one_buffer + n
  | None, None => True
  | _, _ => False
  end.
Proof.
  apply (bps_getVLVLen_counts_writeVLV 64 Samples.one_buffer 300). cbn. lia.
Defined.

(** [_readVLV] stops at a byte with bit 7 set only: a read at the end of
    the buffer yields 0, so when no byte from the cursor on has bit 7 set the
    loop never returns, however many turns it is given. *)
Theorem bps_readVLV_needs_terminator (f : BinFile) :
  (forall i b, offset f <= i < fileSize f -> U8.get (data f) i = Some b ->
               JS.band b 0x80 = 0) ->
  forall fuel acc shift, BPS._readVLV_loop fuel f acc shift = None.
Proof.
  intros H fuel. revert f H.
  induction fuel as [|fuel IH]; intros f H acc shift; [reflexivity|].
  cbn [BPS._readVLV_loop]. unfold readU8.
  destruct (fileSize f <=? offset f) eqn:E.
  - cbn [JS.num]. change (JS.band 0 128 =? 0) with true. cbn [negb].
    apply IH. exact H.
  - apply Z.leb_gt in E.
    assert (Hb : JS.band (JS.num (U8.get (data f) (offset f))) 128 = 0).
    { destruct (U8.get (data f) (offset f)) as [b|] eqn:G; [|reflexivity].
      apply (H (offset f) b); [lia | exact G]. }
    rewrite Hb. cbn [Z.eqb negb]. apply IH.
    intros i b Hi. cbn [offset fileSize data with_offset] in *. apply H. lia.
Qed.

Lemma bps_readVLV_needs_terminator_witness :
  BPS._readVLV_loop 1000 (of_bytes [0x7f; 0x01]) 0 1 = None.
Proof.
  apply (bps_readVLV_needs_terminator (of_bytes [0x7f; 0x01])).
  intros i b Hi. cbn in Hi.
  assert (Hc : i = 0 \/ i = 1) by lia.
  destruct Hc as [-> | ->]; cbn; intros Hb; inversion Hb; reflexivity.
Defined.

End BPSProps.

(** ** IPS: export and parse *)

Module IPSProps.
Import BinFile Cursor CursorFacts IPSCodec.

Lemma be16_length v : length (be16 v) = 2%nat.
Proof. reflexivity. Qed.

Lemma be24_length v : length (be24 v) = 3%nat.
Proof. reflexivity. Qed.

Lemma encode_record_length r :
  wf_record r ->
  Z.of_nat (length (encode_record r))
  = if IPS.type r =? IPS.IPS_RECORD_RLE then 3 + 2 + 2 + 1
    else 3 + 2 + Z.of_nat (length (match IPS.data r with Some d => d | None => [] end)).
Proof.
  intros (_ & _ & [(Ht & _) | (Ht & _ & d & Hd & _)]); unfold encode_record; rewrite Ht.
  - reflexivity.
  - change (IPS.IPS_RECORD_SIMPLE =? IPS.IPS_RECORD_RLE) with false. cbv iota.
    rewrite Hd, !length_app, be24_length, be16_length. lia.
Qed.

Section Codec.
Variable JSON_parse : string -> option (list (string * string)).
Variable JSON_stringify : list (string * string) -> string.

(** The size [export] computes is the size of the encoding. *)
Lemma export_size rs : forall s,
  Forall wf_record rs ->
  JS.for_of rs IPS.export_size_step s
  = JS.Ok (s + Z.of_nat (length (flat_map encode_record rs))).
Proof.
  induction rs as [|r rs IH]; intros s Hrs.
  - cbn. f_equal. lia.
  - inversion Hrs as [|? ? Hr Hrs']; subst.
    cbn [JS.for_of flat_map]. rewrite length_app, Nat2Z.inj_add.
    rewrite (encode_record_length r Hr). unfold IPS.export_size_step.
    destruct Hr as (_ & _ & [(Ht & _) | (Ht & _ & d & Hd & _)]); rewrite Ht.
    + change (IPS.IPS_RECORD_RLE =? IPS.IPS_RECORD_RLE) with true. cbv iota.
      cbn [JS.bind]. rewrite IH by assumption. f_equal. lia.
    + change (IPS.IPS_RECORD_SIMPLE =? IPS.IPS_RECORD_RLE) with false. cbv iota.
      rewrite Hd. cbn [JS.bind]. rewrite IH by assumption. f_equal. lia.
Qed.

(** One record written at the cursor of a big-endian buffer. *)
Lemma export_record_at f pre rest r :
  at_cursor f pre rest -> littleEndian f = false -> wf_record r ->
  exists f', IPS.export_record f r = JS.Ok f'
    /\ at_cursor f' (pre ++ encode_record r) (skipn (length (encode_record r)) rest)
    /\ fileSize f' = Z.max (fileSize f) (offset f + Z.of_nat (length (encode_record r)))
    /\ littleEndian f' = false
    /\ fileName f' = fileName f.
Proof.
  intros Hat Hle (Ho & _ & Hr). pose proof Hat as (_ & Hoff).
  unfold IPS.export_record, encode_record.
  destruct (writeU24_at f pre rest (IPS.offset r) Hat) as (H1 & S1 & L1 & N1 & _).
  rewrite Hle in H1. unfold ordered in H1. rewrite Hle in L1.
  pose proof H1 as (_ & O1). rewrite length_app, be24_length in O1.
  destruct Hr as [(Ht & _ & Hlen & b & Hb & Bb) | (Ht & _ & d & Hd & Hn & _ & _)]; rewrite Ht.
  - change (IPS.IPS_RECORD_RLE =? IPS.IPS_RECORD_RLE) with true. cbv iota.
    destruct (writeU16_at _ _ _ 0 H1) as (H2 & S2 & L2 & N2 & _).
    rewrite L1 in H2, L2. unfold ordered in H2.
    pose proof H2 as (_ & O2). rewrite !length_app, be24_length, be16_length in O2.
    destruct (writeU16_at _ _ _ (IPS.length r) H2) as (H3 & S3 & L3 & N3 & _).
    rewrite L2 in H3, L3. unfold ordered in H3.
    pose proof H3 as (_ & O3). rewrite !length_app, be24_length, !be16_length in O3.
    destruct (writeU8_at _ _ _ (JS.num (IPS.byte r)) H3) as (H4 & S4 & L4 & N4 & _).
    rewrite Hb in *. cbn [JS.num] in *.
    rewrite VLVFacts.band_255_small in H4 by exact Bb.
    eexists. split; [reflexivity|].
    rewrite !skipn_skipn in H4. rewrite <- !app_assoc in H4.
    rewrite !length_app, be24_length, be16_length. cbn [length app Nat.add] in *.
    change (be16 0) with [0; 0] in H4. cbn [app] in H4.
    repeat split; try apply H4; try congruence. lia.
  - change (IPS.IPS_RECORD_SIMPLE =? IPS.IPS_RECORD_RLE) with false. cbv iota.
    rewrite Hd.
    destruct (writeU16_at _ _ _ (Z.of_nat (length d)) H1) as (H2 & S2 & L2 & N2 & _).
    rewrite L1 in H2, L2. unfold ordered in H2.
    pose proof H2 as (_ & O2). rewrite !length_app, be24_length, be16_length in O2.
    destruct (writeBytes_at _ _ _ d H2) as (f' & Hw & H3 & S3 & L3 & N3 & _).
    exists f'. split; [exact Hw|].
    rewrite !skipn_skipn in H3. rewrite <- !app_assoc in H3.
    rewrite !length_app, be24_length, be16_length.
    replace (3 + (2 + length d))%nat with (length d + 2 + 3)%nat by lia.
    repeat split; try apply H3; try congruence. lia.
Qed.

Lemma export_records_at rs : forall f pre rest,
  at_cursor f pre rest -> offset f <= fileSize f ->
  littleEndian f = false -> Forall wf_record rs ->
  exists f', JS.for_of rs IPS.export_record f = JS.Ok f'
    /\ at_cursor f' (pre ++ flat_map encode_record rs)
                 (skipn (length (flat_map encode_record rs)) rest)
    /\ fileSize f'
       = Z.max (fileSize f) (offset f + Z.of_nat (length (flat_map encode_record rs)))
    /\ littleEndian f' = false
    /\ fileName f' = fileName f.
Proof.
  induction rs as [|r rs IH]; intros f pre rest Hat Hsz Hle Hrs.
  - exists f. cbn [JS.for_of flat_map length skipn]. rewrite app_nil_r.
    repeat split; try assumption; try apply Hat. lia.
  - inversion Hrs as [|? ? Hr Hrs']; subst.
    destruct (export_record_at f pre rest r Hat Hle Hr) as (f1 & E1 & H1 & S1 & L1 & N1).
    pose proof Hat as (_ & O0). pose proof H1 as (_ & O1). rewrite length_app in O1.
    destruct (IH f1 _ _ H1 ltac:(lia) L1 Hrs') as (f2 & E2 & H2 & S2 & L2 & N2).
    exists f2. cbn [JS.for_of flat_map]. rewrite E1. cbn [JS.bind].
    split; [exact E2|].
    rewrite <- app_assoc, skipn_skipn in H2. rewrite length_app.
    replace (length (encode_record r) + length (flat_map encode_record rs))%nat
      with (length (flat_map encode_record rs) + length (encode_record r))%nat by lia.
    repeat split; try apply H2; try congruence. lia.
Qed.

Lemma skipn_repeat_all (k n : nat) (rest : list Z) :
  length rest = n -> (n <= k)%nat -> skipn k rest = [].
Proof. intros H Hk. apply skipn_all2. lia. Qed.

(** What [export] returns: a big-endian buffer that holds the encoding of
    the patch and nothing else. *)
Lemma export_encoding p name :
  wf_patch p ->
  exists f, IPS.export JSON_stringify p name = JS.Ok f
    /\ data f = encode p
    /\ fileSize f = Z.of_nat (length (encode p))
    /\ littleEndian f = false.
Proof.
  intros (Hrs & Hmeta & Htr). unfold IPS.export, encode, encode_truncate.
  rewrite (export_size _ _ Hrs). cbn [JS.bind].
  set (R := flat_map encode_record (IPS.records p)).
  set (T := match IPS.truncate p with Some t => be24 t | None => [] end).
  assert (HT : IPS.writes_truncate p = match IPS.truncate p with Some _ => true | None => false end).
  { unfold IPS.writes_truncate. rewrite Hmeta. destruct (IPS.truncate p) as [t|]; [|reflexivity].
    replace (t =? 0) with false by (symmetry; apply Z.eqb_neq; lia). reflexivity. }
  set (n := if IPS.writes_truncate p
            then 5 + Z.of_nat (length R) + 3 + 3
            else match IPS.metadata p with
                 | Some m => 5 + Z.of_nat (length R) + 3
                             + Z.of_nat (String.length (JSON_stringify m))
                 | None => 5 + Z.of_nat (length R) + 3
                 end).
  assert (Hn : n = 5 + Z.of_nat (length R) + 3 + Z.of_nat (length T)).
  { unfold n, T. rewrite HT, Hmeta.
    destruct (IPS.truncate p); rewrite ?be24_length; cbn [length]; lia. }
  unfold of_size, U8.alloc.
  replace (n <? 0) with false by (symmetry; apply Z.ltb_ge; lia).
  cbn [JS.bind]. unfold setName.
  match goal with
  | |- context [writeString_ascii ?g IPS.IPS_MAGIC] => set (f0 := g)
  end.
  assert (H0 : at_cursor f0 [] (repeat 0 (Z.to_nat n))) by (split; reflexivity).
  unfold writeString_ascii.
  destruct (writeBytes_at f0 _ _ (bytes_of_string IPS.IPS_MAGIC) H0)
    as (f1 & E1 & H1 & S1 & L1 & _).
  rewrite E1. cbn [JS.bind].
  pose proof H1 as (_ & O1).
  destruct (export_records_at _ f1 _ _ H1 ltac:(cbn in *; lia) L1 Hrs)
    as (f2 & E2 & H2 & S2 & L2 & _).
  rewrite E2. cbn [JS.bind]. fold R in H2, S2.
  pose proof H2 as (_ & O2).
  destruct (writeBytes_at f2 _ _ (bytes_of_string IPS.IPS_EOF) H2)
    as (f3 & E3 & H3 & S3 & L3 & _).
  rewrite E3. cbn [JS.bind].
  pose proof H3 as (_ & O3).
  rewrite !skipn_skipn in H3. rewrite !length_app in O1, O2, O3.
  cbn [length bytes_of_string IPS.IPS_MAGIC IPS.IPS_EOF list_ascii_of_string map app] in *.
  rewrite HT. unfold T in *. destruct (IPS.truncate p) as [t|].
  - rewrite be24_length in Hn.
    destruct (writeU24_at f3 _ _ t H3) as ((Hd & O4) & S4 & L4 & _).
    rewrite L3, L2 in Hd, L4. unfold ordered in Hd.
    rewrite skipn_skipn in Hd.
    rewrite (skipn_repeat_all _ (Z.to_nat n)) in Hd
      by (rewrite ?repeat_length; cbn [length] in *; lia).
    eexists. split; [reflexivity|]. rewrite app_nil_r in Hd.
    rewrite Hd. split; [repeat (cbn [app]; rewrite <- ?app_assoc); reflexivity|].
    split; [|exact L4].
    rewrite S4, S3, S2, S1, O3, O2, O1. cbn [fileSize offset f0 with_fileName length].
    rewrite ?length_app, ?be24_length. cbn [length].
    rewrite ?length_app, ?be24_length. cbn [length]. lia.
  - cbn [length] in Hn. destruct H3 as (Hd & _).
    rewrite (skipn_repeat_all _ (Z.to_nat n)) in Hd
      by (rewrite ?repeat_length; cbn [length] in *; lia).
    rewrite Hmeta. eexists. split; [reflexivity|]. rewrite app_nil_r in Hd.
    rewrite Hd. split; [repeat (cbn [app]; rewrite <- ?app_assoc); reflexivity|].
    split; [|congruence].
    rewrite S3, S2, S1, O2, O1. cbn [fileSize offset f0 with_fileName length].
    rewrite !length_app. cbn [length]. lia.
Qed.

(** The three bytes of a record offset are read as the end marker only
    when the offset is 0x454F46. *)
Lemma offset_is_not_EOF o :
  0 <= o < 2 ^ 24 -> o <> 0x454F46 ->
  String.eqb (string_of_bytes (be24 o)) IPS.IPS_EOF = false.
Proof.
  intros Ho Hne. destruct (String.eqb _ _) eqn:E; [|reflexivity]. exfalso.
  apply String.eqb_eq in E. unfold string_of_bytes, be24 in E.
  cbn [map string_of_list_ascii] in E. unfold IPS.IPS_EOF in E.
  pose proof (Z.mod_pos_bound (o / 2 ^ 16) 256 ltac:(lia)) as B1.
  pose proof (Z.mod_pos_bound (o / 2 ^ 8) 256 ltac:(lia)) as B2.
  pose proof (Z.mod_pos_bound o 256 ltac:(lia)) as B3.
  injection E as E1 E2 E3.
  apply (f_equal nat_of_ascii) in E1, E2, E3.
  rewrite nat_ascii_embedding in E1, E2, E3 by lia.
  change (nat_of_ascii "E") with 69%nat in E1.
  change (nat_of_ascii "O") with 79%nat in E2.
  change (nat_of_ascii "F") with 70%nat in E3.
  pose proof (ByteFacts.be24_value o) as Hv. rewrite (Z.mod_small o (2 ^ 24)) in Hv by lia.
  lia.
Qed.

Lemma string_of_EOF : string_of_bytes (bytes_of_string IPS.IPS_EOF) = IPS.IPS_EOF.
Proof. reflexivity. Qed.

Lemma be_bytes v :
  Forall is_byte (be16 v) /\ Forall is_byte (be24 v) /\ Forall is_byte (be32 v).
Proof.
  unfold be16, be24, be32.
  repeat split; repeat constructor; apply ByteFacts.is_byte_mod.
Qed.

(** The loop of [fromFile] over the encoding of a list of records followed
    by the end marker and the truncation. *)
Lemma parse_records rs : forall fuel patch f pre (tr : option Z),
  at_cursor f pre (flat_map encode_record rs ++ bytes_of_string IPS.IPS_EOF
                   ++ match tr with Some t => be24 t | None => [] end) ->
  fileSize f = Z.of_nat (length (data f)) -> littleEndian f = false ->
  Forall wf_record rs -> (length rs < fuel)%nat ->
  match tr with Some t => 0 < t < 2 ^ 24 | None => True end ->
  exists f',
    IPS.fromFile_loop JSON_parse fuel patch f
    = (f', JS.Ok (IPS.mkPatch (IPS.records patch ++ rs)
                              (match tr with
                               | Some t => Some t
                               | None => IPS.truncate patch
                               end)
                              (IPS.metadata patch))).
Proof.
  induction rs as [|r rs IH]; intros fuel patch f pre tr Hat Hsz Hle Hrs Hfuel Htr;
    (destruct fuel as [|fuel]; [cbn [length] in Hfuel; lia|]);
    pose proof Hat as (Hd & Ho); cbn [IPS.fromFile_loop];
    pose proof Hsz as Hsz0;
    rewrite Hd, !length_app in Hsz.
  - cbn [flat_map app length] in *.
    change (length (bytes_of_string IPS.IPS_EOF)) with 3%nat in Hsz.
    replace (fileSize f <? offset f + 3) with false by (symmetry; apply Z.ltb_ge; lia).
    unfold readString_ascii.
    destruct (readBytes_at f pre (bytes_of_string IPS.IPS_EOF) _ Hat
                           ltac:(cbn [length bytes_of_string IPS.IPS_EOF
                                      list_ascii_of_string map]; lia)) as (R1 & H1).
    change (Z.of_nat (length (bytes_of_string IPS.IPS_EOF))) with 3 in R1, H1.
    rewrite R1, string_of_EOF. rewrite String.eqb_refl.
    cbn [offset fileSize with_offset].
    rewrite app_nil_r. destruct tr as [t|].
    + rewrite be24_length in Hsz.
      replace (offset f + 3 <? fileSize f) with true by (symmetry; apply Z.ltb_lt; lia).
      replace (fileSize f - (offset f + 3) =? 3) with true by (symmetry; apply Z.eqb_eq; lia).
      unfold be24 in H1.
      destruct (be_bytes t) as (_ & B & _). unfold be24 in B.
      inversion B as [|? ? B1 B']; subst. inversion B' as [|? ? B2 B'']; subst.
      inversion B'' as [|? ? B3 _]; subst.
      destruct (readU24_at _ _ _ _ _ _ H1 ltac:(cbn; lia) B1 B2 B3) as (R2 & _).
      rewrite R2. cbn [littleEndian with_offset]. rewrite Hle. unfold ordered.
      fold (be24 t). rewrite be_value_be24, Z.mod_small by lia.
      eexists. reflexivity.
    + cbn [length] in Hsz.
      replace (offset f + 3 <? fileSize f) with false by (symmetry; apply Z.ltb_ge; lia).
      eexists. f_equal. f_equal. now destruct patch.
  - inversion Hrs as [|? ? Hr Hrs']; subst.
    cbn [flat_map length] in *. rewrite <- app_assoc in Hat.
    pose proof Hr as (Hoff & Hne & Hcase).
    set (tl := flat_map encode_record rs ++ bytes_of_string IPS.IPS_EOF
               ++ match tr with Some t => be24 t | None => [] end) in *.
    pose proof (encode_record_length r Hr) as Hlr.
    assert (Hlen : Z.of_nat (length (encode_record r)) >= 5).
    { rewrite Hlr. destruct (IPS.type r =? IPS.IPS_RECORD_RLE); lia. }
    rewrite length_app in Hsz.
    replace (fileSize f <? offset f + 3) with false by (symmetry; apply Z.ltb_ge; lia).
    unfold readString_ascii.
    unfold encode_record in Hat. rewrite <- app_assoc in Hat.
    destruct (readBytes_at f pre (be24 (IPS.offset r)) _ Hat
                           ltac:(rewrite be24_length; lia)) as (R1 & H1).
    rewrite be24_length in R1, H1. change (Z.of_nat 3) with 3 in R1, H1.
    rewrite R1, offset_is_not_EOF by assumption.
    (* back to the beginning of the record *)
    unfold seek. cbn [offset fileSize with_offset].
    replace (Z.max 0 (Z.min (offset f + 3 - 3) (fileSize f))) with (offset f) by lia.
    rewrite with_offset_twice, with_offset_id.
    destruct (be_bytes (IPS.offset r)) as (_ & B & _). unfold be24 in B, Hat.
    inversion B as [|? ? B1 B']; subst. inversion B' as [|? ? B2 B'']; subst.
    inversion B'' as [|? ? B3 _]; subst. cbn [app] in Hat.
    destruct (readU24_at _ _ _ _ _ _ Hat ltac:(lia) B1 B2 B3) as (R2 & H2).
    rewrite R2. rewrite Hle. unfold ordered.
    fold (be24 (IPS.offset r)). rewrite be_value_be24, Z.mod_small by lia.
    fold (be24 (IPS.offset r)) in H2.
    destruct Hcase as [(Ht & Hdata & Hlenr & b & Hb & Bb)
                      | (Ht & Hbyte & d & Hdata & Hn & Hlenr & Bd)];
      rewrite Ht in Hat, H2, Hlr.
    + change (IPS.IPS_RECORD_RLE =? IPS.IPS_RECORD_RLE) with true in *. cbv iota in *.
      rewrite Hb in *. cbn [JS.num] in *.
      cbn [app] in H2.
      destruct (readU16_at _ _ 0 0 _ H2 ltac:(cbn; lia) ltac:(unfold is_byte; lia)
                           ltac:(unfold is_byte; lia)) as (R3 & H3).
      rewrite R3. cbn [littleEndian with_offset ordered be_value fold_left]. rewrite Hle.
      cbn [ordered be_value fold_left].
      change ((0 * 256 + 0) * 256 + 0 =? 0) with true. cbv iota.
      destruct (be_bytes (IPS.length r)) as (B16 & _). unfold be16 in B16, H3.
      inversion B16 as [|? ? C1 C']; subst. inversion C' as [|? ? C2 _]; subst.
      cbn [app] in H3.
      destruct (readU16_at _ _ _ _ _ H3 ltac:(cbn; lia) C1 C2) as (R4 & H4).
      rewrite R4. cbn [littleEndian with_offset]. rewrite Hle. unfold ordered.
      fold (be16 (IPS.length r)). rewrite be_value_be16, Z.mod_small by lia.
      destruct (readU8_at _ _ _ _ H4 ltac:(cbn; lia)) as (R5 & H5).
      rewrite R5. rewrite !with_offset_twice in *. cbn [offset with_offset] in *.
      rewrite <- !app_assoc in H5. cbn [app] in H5.
      destruct (IH fuel (IPS.addRLERecord patch (IPS.offset r) (IPS.length r) (Some b))
                   _ _ tr H5) as (f' & E); try assumption; try lia.
      exists f'. rewrite E. f_equal. f_equal. cbn [IPS.addRLERecord IPS.records
                                                  IPS.truncate IPS.metadata].
      rewrite <- app_assoc. cbn [app]. f_equal. f_equal. f_equal.
      destruct r; cbn in *; subst; reflexivity.
    + change (IPS.IPS_RECORD_SIMPLE =? IPS.IPS_RECORD_RLE) with false in *. cbv iota in *.
      rewrite Hdata in *.
      rewrite <- !app_assoc in H2.
      destruct (be_bytes (Z.of_nat (length d))) as (B16 & _). unfold be16 in B16, H2.
      inversion B16 as [|? ? C1 C']; subst. inversion C' as [|? ? C2 _]; subst.
      cbn [app] in H2.
      destruct (readU16_at _ _ _ _ _ H2 ltac:(cbn; lia) C1 C2) as (R3 & H3).
      rewrite R3. cbn [littleEndian with_offset]. rewrite Hle. unfold ordered.
      fold (be16 (Z.of_nat (length d))). rewrite be_value_be16, Z.mod_small by lia.
      replace (Z.of_nat (length d) =? 0) with false by (symmetry; apply Z.eqb_neq; lia).
      rewrite !with_offset_twice in *. cbn [offset fileSize with_offset] in *.
      replace (fileSize f <? offset f + 3 + 2 + Z.of_nat (length d)) with false
        by (symmetry; apply Z.ltb_ge; lia).
      destruct (readBytes_at _ _ d _ H3 ltac:(cbn; lia)) as (R4 & H4).
      rewrite R4. rewrite !with_offset_twice in *. cbn [offset with_offset] in *.
      rewrite <- !app_assoc in H4. cbn [app] in H4.
      destruct (IH fuel (IPS.addSimpleRecord patch (IPS.offset r) d) _ _ tr H4)
        as (f' & E); try assumption; try lia.
      exists f'. rewrite E. f_equal. f_equal. cbn [IPS.addSimpleRecord IPS.records
                                                  IPS.truncate IPS.metadata].
      rewrite <- app_assoc. cbn [app]. f_equal. f_equal. f_equal.
      destruct r; cbn in *; subst; reflexivity.
Qed.

Lemma records_fit rs :
  Forall wf_record rs -> (length rs <= length (flat_map encode_record rs))%nat.
Proof.
  induction 1 as [|r rs Hr _ IH]; [reflexivity|].
  cbn [flat_map length]. rewrite length_app.
  pose proof (encode_record_length r Hr) as Hl.
  destruct (IPS.type r =? IPS.IPS_RECORD_RLE); lia.
Qed.

(** [fromFile] reads back the patch [export] wrote: for every patch without
    metadata whose records fit the file format (24-bit offsets other than
    0x454F46, runs with a 16-bit length, data of 1 to 65535 bytes) and whose
    truncation, if any, is a 24-bit size other than 0, [export] returns a
    patch file and [fromFile] returns the same patch from it. *)
Theorem ips_export_parse_roundtrip (p : IPS.IPSPatch) (name : option string) :
  wf_patch p ->
  exists f f',
    IPS.export JSON_stringify p name = JS.Ok f
    /\ IPS.fromFile JSON_parse f = (f', JS.Ok p).
Proof.
  intros Hp. destruct (export_encoding p name Hp) as (f & Ex & Hd & Hs & Hle).
  destruct Hp as (Hrs & Hmeta & Htr).
  exists f. unfold IPS.fromFile.
  assert (H0 : at_cursor (seek f 0) [] (encode p)).
  { split; [exact Hd|]. unfold seek. cbn [offset with_offset length]. lia. }
  unfold encode in H0. unfold readString_ascii.
  destruct (readBytes_at _ _ (bytes_of_string IPS.IPS_MAGIC) _ H0) as (R1 & H1).
  { unfold seek. cbn [offset fileSize with_offset]. rewrite Hs. unfold encode.
    rewrite length_app. lia. }
  change (Z.of_nat (length (bytes_of_string IPS.IPS_MAGIC))) with 5 in R1, H1.
  rewrite R1. change (string_of_bytes (bytes_of_string IPS.IPS_MAGIC)) with IPS.IPS_MAGIC.
  rewrite String.eqb_refl. cbn [negb app].
  unfold encode_truncate in H1.
  destruct (parse_records (IPS.records p)
              (S (Z.to_nat (fileSize (with_offset (seek f 0) (offset (seek f 0) + 5)))))
              (IPS.mkPatch [] None None) _ _ (IPS.truncate p) H1) as (f' & E).
  - cbn [fileSize data with_offset seek]. now rewrite Hs, Hd.
  - exact Hle.
  - exact Hrs.
  - cbn [fileSize with_offset seek]. rewrite Hs. unfold encode.
    rewrite !length_app. pose proof (records_fit _ Hrs). lia.
  - exact Htr.
  - exists f'. split; [exact Ex|]. rewrite E. f_equal. f_equal.
    cbn [IPS.records IPS.truncate IPS.metadata app].
    destruct p as [rs tr meta]. cbn in *. subst meta. now destruct tr.
Qed.

(** *** [fromFile] on an arbitrary buffer *)

Lemma readU8_inb f :
  inb f ->
  inb (snd (readU8 f)) /\ fileSize (snd (readU8 f)) = fileSize f
  /\ offset f <= offset (snd (readU8 f))
  /\ (offset f < fileSize f -> offset (snd (readU8 f)) = offset f + 1).
Proof.
  unfold inb, readU8. intros H.
  destruct (fileSize f <=? offset f) eqn:E;
    [apply Z.leb_le in E | apply Z.leb_gt in E]; cbn [snd offset fileSize with_offset]; lia.
Qed.

Lemma readU16_inb f :
  inb f ->
  inb (snd (readU16 f)) /\ fileSize (snd (readU16 f)) = fileSize f
  /\ offset f <= offset (snd (readU16 f)).
Proof.
  intros H. unfold readU16.
  destruct (readU8_inb f H) as (I1 & S1 & O1 & _). destruct (readU8 f) as [b1 f1].
  cbn [snd] in *.
  destruct (readU8_inb f1 I1) as (I2 & S2 & O2 & _). destruct (readU8 f1) as [b2 f2].
  cbn [snd] in *. repeat split; try apply I2; lia.
Qed.

Lemma readU24_inb f :
  inb f ->
  inb (snd (readU24 f)) /\ fileSize (snd (readU24 f)) = fileSize f
  /\ offset f <= offset (snd (readU24 f))
  /\ (offset f + 3 <= fileSize f -> offset (snd (readU24 f)) = offset f + 3).
Proof.
  intros H. unfold readU24.
  destruct (readU8_inb f H) as (I1 & S1 & O1 & X1). destruct (readU8 f) as [b1 f1].
  cbn [snd] in *.
  destruct (readU8_inb f1 I1) as (I2 & S2 & O2 & X2). destruct (readU8 f1) as [b2 f2].
  cbn [snd] in *.
  destruct (readU8_inb f2 I2) as (I3 & S3 & O3 & X3). destruct (readU8 f2) as [b3 f3].
  cbn [snd] in *. repeat split; try apply I3; lia.
Qed.

Lemma readBytes_inb f n :
  inb f -> 0 <= n ->
  inb (snd (readBytes f n)) /\ fileSize (snd (readBytes f n)) = fileSize f
  /\ offset f <= offset (snd (readBytes f n)).
Proof. unfold inb, readBytes. cbn [snd offset fileSize with_offset]. lia. Qed.

(** The reads leave the bytes alone, and a 16-bit read of bytes is not
    negative. *)
Lemma readU8_data f : data (snd (readU8 f)) = data f.
Proof. unfold readU8. destruct (fileSize f <=? offset f); reflexivity. Qed.

Lemma readU8_byte f :
  Forall is_byte (data f) -> is_byte (JS.num (fst (readU8 f))).
Proof.
  intros Hb. unfold readU8.
  destruct (fileSize f <=? offset f); cbn [fst JS.num]; [unfold is_byte; lia|].
  unfold U8.get. destruct (offset f <? 0); [cbn; unfold is_byte; lia|].
  destruct (nth_error (data f) (Z.to_nat (offset f))) as [b|] eqn:E;
    [|cbn; unfold is_byte; lia].
  cbn [JS.num]. apply nth_error_In in E.
  exact (proj1 (List.Forall_forall _ _) Hb b E).
Qed.

Lemma readU16_data f :
  Forall is_byte (data f) ->
  data (snd (readU16 f)) = data f /\ 0 <= fst (readU16 f).
Proof.
  intros Hb. unfold readU16.
  pose proof (readU8_data f) as D1. pose proof (readU8_byte f Hb) as B1.
  destruct (readU8 f) as [b1 f1]. cbn [snd fst] in *.
  pose proof (readU8_data f1) as D2. rewrite <- D1 in Hb.
  pose proof (readU8_byte f1 Hb) as B2.
  destruct (readU8 f1) as [b2 f2]. cbn [snd fst] in *.
  split; [congruence|].
  destruct (littleEndian f); rewrite ByteFacts.u16_of_bytes by assumption;
    unfold is_byte in *; lia.
Qed.

Lemma readU24_data f : data (snd (readU24 f)) = data f.
Proof.
  unfold readU24.
  pose proof (readU8_data f) as D1. destruct (readU8 f) as [b1 f1]. cbn [snd] in *.
  pose proof (readU8_data f1) as D2. destruct (readU8 f1) as [b2 f2]. cbn [snd] in *.
  pose proof (readU8_data f2) as D3. destruct (readU8 f2) as [b3 f3]. cbn [snd] in *.
  congruence.
Qed.

Lemma fromFile_loop_returns fuel : forall patch f,
  inb f -> Forall is_byte (data f) -> fileSize f - offset f < 3 * Z.of_nat fuel ->
  returns_or_rejects (snd (IPS.fromFile_loop JSON_parse fuel patch f)).
Proof.
  induction fuel as [|fuel IH]; intros patch f Hin Hb Hm; [unfold inb in Hin; lia|].
  cbn [IPS.fromFile_loop].
  destruct (fileSize f <? offset f + 3) eqn:E3;
    [right; right; left; reflexivity | apply Z.ltb_ge in E3].
  unfold readString_ascii.
  pose proof (readBytes_inb f 3 Hin ltac:(lia)) as (I1 & S1 & _).
  assert (O1 : offset (snd (readBytes f 3)) = offset f + 3)
    by (unfold readBytes; cbn [snd offset with_offset]; lia).
  assert (D1 : data (snd (readBytes f 3)) = data f) by reflexivity.
  destruct (readBytes f 3) as [marker f1]. cbn [snd] in *.
  destruct (String.eqb (string_of_bytes marker) IPS.IPS_EOF).
  - destruct (offset f1 <? fileSize f1); [|left; eexists; reflexivity].
    destruct (fileSize f1 - offset f1 =? 3).
    + destruct (readU24 f1) as [t f2]. left. eexists. reflexivity.
    + destruct (readBytes f1 (fileSize f1 - offset f1)) as [bytes f2].
      cbn [snd]. destruct (JSON_parse _); left; eexists; reflexivity.
  - assert (I2 : inb (seek f1 (offset f1 - 3))
                 /\ offset (seek f1 (offset f1 - 3)) = offset f
                 /\ fileSize (seek f1 (offset f1 - 3)) = fileSize f
                 /\ data (seek f1 (offset f1 - 3)) = data f).
    { unfold inb, seek in *. cbn [offset fileSize data with_offset].
      repeat split; try lia. exact D1. }
    destruct I2 as (I2 & O2 & S2 & D2).
    destruct (readU24_inb _ I2) as (I3 & S3 & _ & O3). specialize (O3 ltac:(lia)).
    pose proof (readU24_data (seek f1 (offset f1 - 3))) as D3.
    destruct (readU24 (seek f1 (offset f1 - 3))) as [o f3]. cbn [snd] in *.
    assert (Hb3 : Forall is_byte (data f3)) by (rewrite D3, D2; exact Hb).
    destruct (readU16_inb _ I3) as (I4 & S4 & O4).
    destruct (readU16_data _ Hb3) as (D4 & N4).
    destruct (readU16 f3) as [len f4]. cbn [snd fst] in *.
    assert (Hb4 : Forall is_byte (data f4)) by (rewrite D4; exact Hb3).
    destruct (len =? 0).
    + destruct (readU16_inb _ I4) as (I5 & S5 & O5).
      destruct (readU16_data _ Hb4) as (D5 & _).
      destruct (readU16 f4) as [rleLength f5]. cbn [snd] in *.
      destruct (readU8_inb _ I5) as (I6 & S6 & O6 & _).
      pose proof (readU8_data f5) as D6.
      destruct (readU8 f5) as [rleByte f6]. cbn [snd] in *.
      apply IH; [exact I6 | rewrite D6, D5; exact Hb4 | lia].
    + destruct (fileSize f4 <? offset f4 + len) eqn:E5;
        [right; right; right; reflexivity | apply Z.ltb_ge in E5].
      destruct (readBytes_inb f4 len I4 N4) as (I5 & S5 & O5).
      assert (D5 : data (snd (readBytes f4 len)) = data f4) by reflexivity.
      destruct (readBytes f4 len) as [d f5]. cbn [snd] in *.
      apply IH; [exact I5 | rewrite D5; exact Hb4 | lia].
Qed.

(** [fromFile] returns on every buffer: each turn of its loop either stops
    or moves the cursor forward by three bytes or more.  It gives a patch, or
    throws one of its three [InvalidPatchFileError]s; a buffer that does not
    begin with PATCH gets the first, and one that ends within three bytes
    after PATCH the second. *)
Theorem ips_fromFile_returns (patchFile : BinFile) :
  0 <= fileSize patchFile -> Forall is_byte (data patchFile) ->
  returns_or_rejects (snd (IPS.fromFile JSON_parse patchFile))
  /\ (fst (readString_ascii (seek patchFile 0) 5) <> IPS.IPS_MAGIC ->
      snd (IPS.fromFile JSON_parse patchFile)
      = JS.Throw (JS.InvalidPatchFileError "Invalid IPS file: missing PATCH header"))
  /\ (fst (readString_ascii (seek patchFile 0) 5) = IPS.IPS_MAGIC ->
      fileSize patchFile < 8 ->
      snd (IPS.fromFile JSON_parse patchFile)
      = JS.Throw (JS.InvalidPatchFileError "Unexpected end of IPS file")).
Proof.
  intros Hs Hb. unfold IPS.fromFile.
  assert (I0 : inb (seek patchFile 0)) by (unfold inb, seek; cbn; lia).
  unfold readString_ascii.
  pose proof (readBytes_inb _ 5 I0 ltac:(lia)) as (I1 & S1 & _).
  assert (D1 : data (snd (readBytes (seek patchFile 0) 5)) = data patchFile) by reflexivity.
  assert (O1 : offset (snd (readBytes (seek patchFile 0) 5)) = Z.min 5 (fileSize patchFile)).
  { unfold readBytes, seek. cbn [snd offset fileSize with_offset]. lia. }
  assert (L1 : length (fst (readBytes (seek patchFile 0) 5)) = 5%nat ->
               5 <= fileSize patchFile).
  { unfold readBytes, seek, U8.slice, U8.rel. cbn [fst offset fileSize with_offset data].
    rewrite length_firstn, length_skipn. intros HL.
    destruct (Z.max 0 (Z.min 0 (fileSize patchFile)) <? 0) eqn:E1;
      [apply Z.ltb_lt in E1; lia|].
    destruct (Z.min (Z.max 0 (Z.min 0 (fileSize patchFile)) + 5) (fileSize patchFile) <? 0)
      eqn:E2; [apply Z.ltb_lt in E2; lia|]. lia. }
  destruct (readBytes (seek patchFile 0) 5) as [magic f1]. cbn [snd fst] in *.
  assert (S1' : fileSize f1 = fileSize patchFile) by (rewrite S1; reflexivity).
  split; [|split].
  - destruct (String.eqb (string_of_bytes magic) IPS.IPS_MAGIC); cbn [negb snd].
    + apply fromFile_loop_returns; [exact I1 | rewrite D1; exact Hb |].
      unfold inb in I1. lia.
    + right. left. reflexivity.
  - intros Hne. apply String.eqb_neq in Hne. rewrite Hne. reflexivity.
  - intros He Hlt. pose proof He as He'. apply String.eqb_eq in He. rewrite He. cbn [negb].
    assert (HL : length magic = 5%nat).
    { unfold string_of_bytes in He'.
      apply (f_equal String.length) in He'.
      rewrite <- (length_map (fun b => ascii_of_nat (Z.to_nat b))).
      revert He'. generalize (map (fun b : Z => ascii_of_nat (Z.to_nat b)) magic).
      intros l. cbn [IPS.IPS_MAGIC String.length].
      clear. revert l. assert (G : forall l, String.length (string_of_list_ascii l) = length l).
      { induction l as [|c l IH]; cbn; [reflexivity | now rewrite IH]. }
      intros l. now rewrite G. }
    specialize (L1 HL).
    destruct (Z.to_nat (fileSize f1)) as [|k] eqn:Ek; [lia|].
    cbn [IPS.fromFile_loop].
    replace (fileSize f1 <? offset f1 + 3) with true by (symmetry; apply Z.ltb_lt; lia).
    reflexivity.
Qed.

End Codec.

(** *** [apply] *)

Lemma getBytes_firstn f :
  0 <= fileSize f <= capacity f -> getBytes f = firstn (Z.to_nat (fileSize f)) (data f).
Proof.
  intros H. unfold getBytes, U8.slice, U8.rel, capacity in *.
  change (0 <? 0) with false. cbv iota.
  replace (fileSize f <? 0) with false by (symmetry; apply Z.ltb_ge; lia).
  rewrite !Z.min_l by lia. rewrite Z.sub_0_r. change (Z.to_nat 0) with 0%nat.
  now rewrite skipn_O.
Qed.

Lemma splice_lists (pre rest l : list Z) (A : nat) :
  (length pre <= A <= length pre + length rest)%nat ->
  firstn (Nat.max A (length pre + length l)) (pre ++ l ++ skipn (length l) rest)
  = firstn (length pre) (firstn A (pre ++ rest)) ++ l
    ++ skipn (length pre + length l) (firstn A (pre ++ rest)).
Proof.
  intros H.
  rewrite (firstn_app A), (firstn_all2 pre) by lia.
  rewrite (firstn_app (length pre)), firstn_all, Nat.sub_diag. cbn [firstn].
  rewrite app_nil_r.
  rewrite firstn_app, (firstn_all2 pre) by lia. f_equal.
  rewrite firstn_app, (firstn_all2 l) by lia. f_equal.
  rewrite skipn_app, (skipn_all2 pre) by lia. cbn [app].
  replace (length pre + length l - length pre)%nat with (length l) by lia.
  rewrite skipn_firstn_comm. f_equal. lia.
Qed.

(** The bytes of a buffer after [l] has been written at its cursor, however
    the write was done. *)
Lemma getBytes_written g f' pre rest l :
  at_cursor g pre rest -> inb g -> fileSize g <= capacity g ->
  at_cursor f' (pre ++ l) (skipn (length l) rest) ->
  fileSize f' = Z.max (fileSize g) (offset g + Z.of_nat (length l)) ->
  getBytes f' = splice_at (getBytes g) (offset g) l
  /\ 0 <= fileSize f' <= capacity f'.
Proof.
  intros (Hd & Ho) (H0 & H1) Hc (Hd' & Ho') Hs.
  assert (Hcap : capacity f' = Z.max (capacity g) (offset g + Z.of_nat (length l))).
  { unfold capacity. rewrite Hd', Hd, !length_app, length_skipn. lia. }
  split; [|lia].
  rewrite (getBytes_firstn f') by lia. rewrite (getBytes_firstn g) by lia.
  unfold splice_at. rewrite length_firstn.
  unfold capacity in Hc. rewrite Hd, length_app in Hc.
  rewrite Hd, Hd', Hs, Ho. rewrite Ho in H1.
  rewrite length_app, <- app_assoc.
  replace (Z.to_nat (Z.max 0 (Z.min (Z.of_nat (length pre))
             (Z.of_nat (Nat.min (Z.to_nat (fileSize g)) (length pre + length rest))))))
    with (length pre) by lia.
  replace (Z.to_nat (Z.max (fileSize g) (Z.of_nat (length pre) + Z.of_nat (length l))))
    with (Nat.max (Z.to_nat (fileSize g)) (length pre + length l)) by lia.
  apply splice_lists. lia.
Qed.

(** A run written byte by byte. *)
Lemma write_run_at n : forall g pre rest v,
  at_cursor g pre rest -> inb g ->
  let f' := Nat.iter n (fun f => writeU8 f v) g in
  at_cursor f' (pre ++ repeat (JS.band v 255) n) (skipn n rest)
  /\ fileSize f' = Z.max (fileSize g) (offset g + Z.of_nat n)
  /\ fileName f' = fileName g /\ littleEndian f' = littleEndian g.
Proof.
  induction n as [|n IH]; intros g pre rest v Hat Hin f'.
  - unfold f'. cbn [Nat.iter nat_rect repeat skipn]. rewrite app_nil_r.
    unfold inb in Hin. repeat split; try apply Hat. lia.
  - destruct (IH g pre rest v Hat Hin) as (H1 & S1 & N1 & L1).
    unfold f'. cbn [Nat.iter nat_rect]. fold (Nat.iter n (fun f => writeU8 f v) g).
    destruct (writeU8_at _ _ _ v H1) as (H2 & S2 & L2 & N2 & _).
    pose proof Hat as (_ & O0). pose proof H1 as (_ & O1).
    rewrite length_app, repeat_length in O1.
    rewrite <- app_assoc, skipn_skipn in H2.
    replace (repeat (JS.band v 255) n ++ [JS.band v 255])
      with (repeat (JS.band v 255) (S n)) in H2
      by (now rewrite <- repeat_cons).
    replace (1 + n)%nat with (S n) in H2 by lia.
    repeat split; try apply H2; try congruence. lia.
Qed.

(** One record applied. *)
Lemma apply_record_splices f r :
  0 <= fileSize f <= capacity f -> has_payload r ->
  exists f', IPS.apply_record f r = JS.Ok f'
    /\ getBytes f' = splice (getBytes f) r
    /\ 0 <= fileSize f' <= capacity f'
    /\ fileName f' = fileName f.
Proof.
  intros Hf Hr. unfold IPS.apply_record, splice.
  set (g := seek f (IPS.offset r)).
  assert (Hg : inb g /\ fileSize g = fileSize f /\ capacity g = capacity f
               /\ getBytes g = getBytes f /\ fileName g = fileName f
               /\ offset g = Z.max 0 (Z.min (IPS.offset r) (fileSize f))).
  { unfold g, inb, seek, capacity, getBytes. cbn [offset fileSize data fileName with_offset].
    repeat split; lia. }
  destruct Hg as (Hin & Sg & Cg & Bg & Ng & Og).
  pose proof (at_cursor_split g ltac:(unfold inb in Hin; lia)) as Hat.
  assert (Hlen : Z.of_nat (length (getBytes f)) = fileSize f).
  { rewrite getBytes_firstn by lia. rewrite length_firstn. unfold capacity in Hf. lia. }
  assert (Hsp : forall l, splice_at (getBytes g) (offset g) l
                          = splice_at (getBytes f) (IPS.offset r) l).
  { intros l. unfold splice_at. rewrite Bg, Og, Hlen. f_equal; [f_equal; lia|].
    f_equal. f_equal. lia. }
  unfold payload. destruct (IPS.type r =? IPS.IPS_RECORD_RLE) eqn:Et.
  - destruct (write_run_at (Z.to_nat (IPS.length r)) g _ _ (JS.num (IPS.byte r)) Hat Hin)
      as (H1 & S1 & N1 & _).
    eexists. split; [reflexivity|].
    destruct (getBytes_written g
                (Nat.iter (Z.to_nat (IPS.length r))
                          (fun f => writeU8 f (JS.num (IPS.byte r))) g)
                _ _ (repeat (JS.band (JS.num (IPS.byte r)) 255) (Z.to_nat (IPS.length r)))
                Hat Hin ltac:(lia)) as (B & J).
    + rewrite repeat_length. exact H1.
    + rewrite repeat_length. exact S1.
    + rewrite B, Hsp. repeat split; try lia. congruence.
  - destruct Hr as [Habs | (d & Hd)];
      [rewrite Habs in Et; discriminate Et|].
    rewrite Hd.
    destruct (writeBytes_at g _ _ d Hat) as (f' & Hw & H1 & S1 & _ & N1 & _).
    exists f'. split; [exact Hw|].
    destruct (getBytes_written g f' _ _ d Hat Hin ltac:(lia) H1 S1) as (B & J).
    rewrite B, Hsp. repeat split; try lia. congruence.
Qed.

Lemma apply_records_splice rs : forall f,
  0 <= fileSize f <= capacity f -> Forall has_payload rs ->
  exists f', JS.for_of rs IPS.apply_record f = JS.Ok f'
    /\ getBytes f' = fold_left splice rs (getBytes f)
    /\ 0 <= fileSize f' <= capacity f'
    /\ fileName f' = fileName f.
Proof.
  induction rs as [|r rs IH]; intros f Hf Hrs.
  - exists f. cbn. auto.
  - inversion Hrs as [|? ? Hr Hrs']; subst.
    destruct (apply_record_splices f r Hf Hr) as (f1 & E1 & B1 & J1 & N1).
    destruct (IH f1 J1 Hrs') as (f2 & E2 & B2 & J2 & N2).
    exists f2. cbn [JS.for_of fold_left]. rewrite E1. cbn [JS.bind].
    split; [exact E2|]. rewrite B2, B1. repeat split; try lia. congruence.
Qed.

(** [apply] puts the records into the bytes of the ROM one after the other:
    each record's data (or run) replaces what lies at its offset, the offset
    being moved into the range from 0 to the current size, so that a record
    past the end is appended right at the end; a truncation size other than
    0 and within the result then cuts it.  The output is named after the ROM
    with the tag " (patched)". *)
Theorem ips_apply_splices (p : IPS.IPSPatch) (romFile : BinFile) :
  0 <= fileSize romFile <= capacity romFile ->
  Forall has_payload (IPS.records p) ->
  match IPS.truncate p with
  | Some t => 0 <= t <= Z.of_nat (length (fold_left splice (IPS.records p) (getBytes romFile)))
  | None => True
  end ->
  exists out,
    IPS.apply p romFile = JS.Ok out
    /\ getBytes out
       = cut (IPS.truncate p) (fold_left splice (IPS.records p) (getBytes romFile))
    /\ fileName out = patched_name romFile " (patched)".
Proof.
  intros Hf Hrs Htr. unfold IPS.apply.
  set (c := clone romFile).
  set (m := IPS.maxOffset_of (fileSize c) (IPS.records p)).
  set (c1 := if fileSize c <? m then expand c m else c).
  assert (Hc1 : 0 <= fileSize c1 <= capacity c1 /\ getBytes c1 = getBytes romFile).
  { assert (Hc : 0 <= fileSize c <= capacity c /\ getBytes c = getBytes romFile).
    { unfold c, clone, capacity, getBytes. cbn [fileSize data].
      rewrite BinFileFacts.slice_full. unfold capacity in Hf. auto. }
    unfold c1. destruct (fileSize c <? m); [|exact Hc].
    destruct Hc as (Hc & Bc).
    destruct (BinFileFacts.expand_fields c m) as (_ & Es & _).
    pose proof (BinFileFacts.capacity_expand c m) as Ec.
    split; [lia|].
    rewrite getBytes_firstn by lia. rewrite <- Bc, (getBytes_firstn c) by lia.
    rewrite Es. unfold expand. destruct (m <=? capacity c); [reflexivity|].
    cbn [data with_data]. rewrite firstn_app.
    replace (Z.to_nat (fileSize c) - length (data c))%nat with 0%nat
      by (unfold capacity in Hc; lia).
    cbn [firstn]. apply app_nil_r. }
  destruct Hc1 as (J1 & B1). clearbody c1.
  destruct (apply_records_splice (IPS.records p) c1 J1 Hrs) as (f2 & E2 & B2 & J2 & _).
  rewrite E2. cbn [JS.bind]. rewrite B1 in B2. eexists. split; [reflexivity|].
  split; [|reflexivity].
  assert (Hn : forall x n, getBytes (setName x n) = getBytes x) by reflexivity.
  rewrite Hn.
  unfold cut. destruct (IPS.truncate p) as [t|]; [|exact B2].
  destruct (t =? 0) eqn:Et; [exact B2|].
  assert (Hlen : Z.of_nat (length (getBytes f2)) = fileSize f2).
  { rewrite getBytes_firstn by lia. rewrite length_firstn. unfold capacity in J2. lia. }
  rewrite <- B2 in Htr |- *. rewrite Hlen in Htr.
  assert (Ht : fileSize (truncate f2 t) = t /\ data (truncate f2 t) = data f2).
  { unfold truncate. cbn [fileSize offset data with_fileSize with_offset].
    destruct (Z.min t (capacity f2) <? offset f2);
      cbn [fileSize data with_offset with_fileSize]; (split; [lia | reflexivity]). }
  destruct Ht as (Ts & Td).
  rewrite (getBytes_firstn (truncate f2 t)) by (unfold capacity in *; rewrite Ts, Td; lia).
  rewrite (getBytes_firstn f2) by lia. rewrite Ts, Td, firstn_firstn. f_equal. lia.
Qed.

Lemma ips_apply_splices_witness :
  exists out,
    IPS.apply Samples2.ips_tail_patch Samples.bps_source = JS.Ok out
    /\ getBytes out = [1; 9; 3; 4; 7; 7; 7; 7]
    /\ fileName out = " (patched)"%string.
Proof.
  apply (ips_apply_splices Samples2.ips_tail_patch Samples.bps_source).
  - unfold capacity. cbn. lia.
  - constructor; [right; eexists; reflexivity|].
    constructor; [left; reflexivity | constructor].
  - exact I.
Defined.

Lemma ips_fromFile_returns_witness :
  snd (IPS.fromFile Samples.no_json Samples.ips_truncated_file)
  = JS.Throw (JS.InvalidPatchFileError "Unexpected end of IPS file").
Proof.
  destruct (ips_fromFile_returns Samples.no_json Samples.ips_truncated_file) as (_ & _ & H).
  - cbn. lia.
  - repeat constructor; unfold is_byte; cbn; lia.
  - apply H; [reflexivity | cbn; lia].
Defined.

Lemma ips_export_parse_roundtrip_witness :
  wf_patch Samples2.ips_patch
  /\ exists f f',
       IPS.export (fun _ => EmptyString) Samples2.ips_patch None = JS.Ok f
       /\ IPS.fromFile Samples.no_json f = (f', JS.Ok Samples2.ips_patch).
Proof.
  assert (H : wf_patch Samples2.ips_patch).
  { unfold wf_patch, Samples2.ips_patch. cbn [IPS.records IPS.metadata IPS.truncate].
    split; [|split; [reflexivity | lia]].
    constructor; [|constructor; [|constructor]]; unfold wf_record;
      cbn [IPS.offset IPS.type IPS.length IPS.data IPS.byte].
    - split; [lia|]. split; [lia|]. right.
      split; [reflexivity|]. split; [reflexivity|]. exists [0xAA; 0xBB].
      split; [reflexivity|]. split; [cbn; lia|]. split; [reflexivity|].
      repeat constructor; unfold is_byte; lia.
    - split; [lia|]. split; [lia|]. left.
      split; [reflexivity|]. split; [reflexivity|]. split; [lia|].
      exists 0. split; [reflexivity | unfold is_byte; lia]. }
  split; [exact H|].
  exact (ips_export_parse_roundtrip Samples.no_json (fun _ => EmptyString)
                                    Samples2.ips_patch None H).
Defined.

End IPSProps.

(** ** PMSR: export and parse, build and apply *)

Module PMSRProps.
Import BinFile Cursor CursorFacts PMSRCodec.

Lemma be32_length v : length (be32 v) = 4%nat.
Proof. reflexivity. Qed.

Lemma pmsr_export_size rs : forall s,
  fold_left (fun size r => size + (8 + Z.of_nat (length (PMSR.data r)))) rs s
  = s + Z.of_nat (length (flat_map encode_record rs)).
Proof.
  induction rs as [|r rs IH]; intros s; cbn [fold_left flat_map].
  - cbn. lia.
  - rewrite IH, length_app. unfold encode_record.
    rewrite !length_app, !be32_length. lia.
Qed.

Lemma pmsr_export_records_at rs : forall f pre rest,
  at_cursor f pre rest -> offset f <= fileSize f -> littleEndian f = false ->
  exists f',
    JS.for_of rs
      (fun tempFile r =>
         writeBytes (writeU32 (writeU32 tempFile (PMSR.offset r))
                              (Z.of_nat (length (PMSR.data r))))
                    (PMSR.data r)) f = JS.Ok f'
    /\ at_cursor f' (pre ++ flat_map encode_record rs)
                 (skipn (length (flat_map encode_record rs)) rest)
    /\ fileSize f'
       = Z.max (fileSize f) (offset f + Z.of_nat (length (flat_map encode_record rs)))
    /\ littleEndian f' = false.
Proof.
  induction rs as [|r rs IH]; intros f pre rest Hat Hsz Hle.
  - exists f. cbn [JS.for_of flat_map length skipn]. rewrite app_nil_r.
    repeat split; try assumption; try apply Hat. lia.
  - pose proof Hat as (_ & O0).
    destruct (writeU32_at f pre rest (PMSR.offset r) Hat) as (H1 & S1 & L1 & _).
    rewrite Hle in H1, L1. unfold ordered in H1.
    pose proof H1 as (_ & O1). rewrite length_app, be32_length in O1.
    destruct (writeU32_at _ _ _ (Z.of_nat (length (PMSR.data r))) H1) as (H2 & S2 & L2 & _).
    rewrite L1 in H2, L2. unfold ordered in H2.
    pose proof H2 as (_ & O2). rewrite !length_app, !be32_length in O2.
    destruct (writeBytes_at _ _ _ (PMSR.data r) H2) as (f1 & E1 & H3 & S3 & L3 & _).
    pose proof H3 as (_ & O3). rewrite !length_app, !be32_length in O3.
    destruct (IH f1 _ _ H3 ltac:(lia) ltac:(congruence)) as (f2 & E2 & H4 & S4 & L4).
    exists f2. cbn [JS.for_of flat_map]. rewrite E1. cbn [JS.bind].
    split; [exact E2|].
    rewrite <- !app_assoc, !skipn_skipn in H4.
    assert (Hcnt : (length (encode_record r ++ flat_map encode_record rs)
                    = length (flat_map encode_record rs) + length (PMSR.data r) + 4 + 4)%nat).
    { rewrite length_app. unfold encode_record. rewrite !length_app, !be32_length. lia. }
    rewrite Hcnt. unfold encode_record at 1. rewrite <- !app_assoc.
    repeat split; try apply H4; try assumption. lia.
Qed.

(** What [export] returns: a big-endian buffer that holds the encoding of
    the patch and nothing else. *)
Lemma pmsr_export_encoding p name :
  exists f, PMSR.export p name = JS.Ok f
    /\ data f = encode p
    /\ fileSize f = Z.of_nat (length (encode p))
    /\ littleEndian f = false.
Proof.
  unfold PMSR.export, encode. rewrite pmsr_export_size.
  set (R := flat_map encode_record (PMSR.records p)).
  set (n := 8 + Z.of_nat (length R)).
  unfold of_size, U8.alloc.
  replace (n <? 0) with false by (symmetry; apply Z.ltb_ge; lia).
  cbn [JS.bind].
  match goal with
  | |- context [writeString_ascii ?g PMSR.PMSR_MAGIC] => set (f0 := g)
  end.
  assert (H0 : at_cursor f0 [] (repeat 0 (Z.to_nat n))) by (split; reflexivity).
  unfold writeString_ascii.
  destruct (writeBytes_at f0 _ _ (bytes_of_string PMSR.PMSR_MAGIC) H0)
    as (f1 & E1 & H1 & S1 & L1 & _).
  rewrite E1. cbn [JS.bind]. pose proof H1 as (_ & O1).
  destruct (writeU32_at f1 _ _ (Z.of_nat (length (PMSR.records p))) H1)
    as (H2 & S2 & L2 & _).
  rewrite L1 in H2, L2. cbn [littleEndian f0 with_fileName] in H2, L2.
  unfold ordered in H2. pose proof H2 as (_ & O2).
  rewrite length_app, be32_length in O2.
  destruct (pmsr_export_records_at (PMSR.records p) _ _ _ H2) as (f3 & E3 & (Hd & O3) & S3 & L3).
  { rewrite S2. lia. }
  { exact L2. }
  exists f3. split; [exact E3|]. fold R in Hd, S3, O3.
  rewrite !skipn_skipn in Hd.
  change (length (bytes_of_string PMSR.PMSR_MAGIC)) with 4%nat in *.
  change (length []) with 0%nat in *.
  rewrite (skipn_all2 (repeat 0 (Z.to_nat n))) in Hd by (rewrite repeat_length; lia).
  rewrite app_nil_r in Hd. cbn [app] in Hd.
  split; [rewrite Hd, <- app_assoc; reflexivity|].
  split; [|exact L3].
  rewrite S3, S2, S1, O2, O1. cbn [fileSize offset f0 with_fileName].
  rewrite !length_app, be32_length.
  change (length (bytes_of_string PMSR.PMSR_MAGIC)) with 4%nat.
  change (length (@nil Z)) with 0%nat. unfold n. lia.
Qed.

Lemma pmsr_parse_records rs : forall patch f pre tl,
  at_cursor f pre (flat_map encode_record rs ++ tl) ->
  fileSize f = Z.of_nat (length (data f)) -> littleEndian f = false ->
  Forall wf_record rs ->
  exists f',
    Nat.iter (length rs) PMSR.read_record (patch, f)
    = (PMSR.mkPatch (parsed_targetSize rs (PMSR.targetSize patch))
                    (PMSR.records patch ++ rs), f').
Proof.
  induction rs as [|r rs IH]; intros patch f pre tl Hat Hsz Hle Hrs.
  - exists f. cbn [length Nat.iter nat_rect parsed_targetSize fold_left].
    rewrite app_nil_r. now destruct patch.
  - inversion Hrs as [|? ? (Ho & Hn & Hb) Hrs']; subst.
    cbn [length]. rewrite Nat.iter_succ_r.
    pose proof Hat as (Hd & Hoff). pose proof Hsz as Hsz'.
    rewrite Hd in Hsz'. cbn [flat_map] in Hsz', Hat.
    rewrite !length_app in Hsz'. unfold encode_record in Hat, Hsz'.
    rewrite !length_app, !be32_length in Hsz'. rewrite <- !app_assoc in Hat.
    destruct (IPSProps.be_bytes (PMSR.offset r)) as (_ & _ & B1).
    destruct (IPSProps.be_bytes (Z.of_nat (length (PMSR.data r)))) as (_ & _ & B2).
    unfold be32 in Hat, B1, B2. cbn [app] in Hat.
    inversion B1 as [|? ? X1 B1a]; subst. inversion B1a as [|? ? X2 B1b]; subst.
    inversion B1b as [|? ? X3 B1c]; subst. inversion B1c as [|? ? X4 _]; subst.
    inversion B2 as [|? ? Y1 B2a]; subst. inversion B2a as [|? ? Y2 B2b]; subst.
    inversion B2b as [|? ? Y3 B2c]; subst. inversion B2c as [|? ? Y4 _]; subst.
    unfold PMSR.read_record at 2.
    destruct (readU32_at _ _ _ _ _ _ _ Hat ltac:(lia) X1 X2 X3 X4) as (R1 & H1).
    rewrite R1, Hle. unfold ordered. fold (be32 (PMSR.offset r)).
    rewrite be_value_be32, Z.mod_small by lia.
    destruct (readU32_at _ _ _ _ _ _ _ H1 ltac:(cbn; lia) Y1 Y2 Y3 Y4) as (R2 & H2).
    rewrite R2. cbn [littleEndian with_offset]. rewrite Hle. unfold ordered.
    fold (be32 (Z.of_nat (length (PMSR.data r)))).
    rewrite be_value_be32, Z.mod_small by lia.
    destruct (readBytes_at _ _ (PMSR.data r) _ H2 ltac:(cbn; lia)) as (R3 & H3).
    rewrite R3.
    destruct (IH (PMSR.mkPatch
                    (if PMSR.targetSize patch
                        <? PMSR.offset r + Z.of_nat (length (PMSR.data r))
                     then PMSR.offset r + Z.of_nat (length (PMSR.data r))
                     else PMSR.targetSize patch)
                    (PMSR.records patch ++ [PMSR.mkRecord (PMSR.offset r) (PMSR.data r)]))
                 _ _ tl H3 Hsz Hle Hrs') as (f' & E).
    exists f'. rewrite E. f_equal. cbn [PMSR.targetSize PMSR.records].
    rewrite <- app_assoc. cbn [app parsed_targetSize fold_left].
    f_equal.
    + f_equal.
      destruct (PMSR.targetSize patch <? PMSR.offset r + Z.of_nat (length (PMSR.data r)))
        eqn:E1; [apply Z.ltb_lt in E1 | apply Z.ltb_ge in E1]; lia.
    + f_equal. f_equal. now destruct r.
Qed.

(** [fromFile] reads back the records [export] wrote: for every patch whose
    records fit the file format (32-bit offsets, data of fewer than 2^32
    bytes, fewer than 2^32 records), [export] returns a patch file from
    which [fromFile] returns the same records, in the same order.  The
    target size is not stored: [fromFile] sets it to the size of the Paper
    Mario ROM, or to the end of the record that reaches furthest. *)
Theorem pmsr_export_parse_roundtrip (p : PMSR.PMSRPatch) (name : option string) :
  wf_patch p ->
  exists f f',
    PMSR.export p name = JS.Ok f
    /\ PMSR.fromFile f
       = (f', Some (PMSR.mkPatch
                      (parsed_targetSize (PMSR.records p) PMSR.PAPER_MARIO_USA10_FILE_SIZE)
                      (PMSR.records p))).
Proof.
  intros (Hrs & Hn). destruct (pmsr_export_encoding p name) as (f & Ex & Hd & Hs & Hle).
  exists f. unfold PMSR.fromFile.
  assert (H0 : at_cursor (seek f 0) [] (encode p)).
  { split; [exact Hd|]. unfold seek. cbn [offset with_offset length]. lia. }
  unfold encode in H0, Hs. rewrite !length_app, be32_length in Hs.
  change (length (bytes_of_string PMSR.PMSR_MAGIC)) with 4%nat in Hs.
  unfold readString_is.
  destruct (readBytes_at _ _ (bytes_of_string PMSR.PMSR_MAGIC) _ H0) as (R1 & H1).
  { unfold seek. cbn [offset fileSize with_offset length]. rewrite Hs.
    change (length (bytes_of_string PMSR.PMSR_MAGIC)) with 4%nat. lia. }
  change (Z.of_nat (String.length PMSR.PMSR_MAGIC)) with 4.
  change (Z.of_nat (length (bytes_of_string PMSR.PMSR_MAGIC))) with 4 in R1, H1.
  rewrite R1. change (string_of_bytes (bytes_of_string PMSR.PMSR_MAGIC)) with PMSR.PMSR_MAGIC.
  rewrite String.eqb_refl. cbn [negb app].
  destruct (IPSProps.be_bytes (Z.of_nat (length (PMSR.records p)))) as (_ & _ & B).
  unfold be32 in H1, B. cbn [app] in H1.
  inversion B as [|? ? X1 Ba]; subst. inversion Ba as [|? ? X2 Bb]; subst.
  inversion Bb as [|? ? X3 Bc]; subst. inversion Bc as [|? ? X4 _]; subst.
  destruct (readU32_at _ _ _ _ _ _ _ H1) as (R2 & H2); try assumption.
  { unfold seek. cbn [offset fileSize with_offset]. rewrite Hs. lia. }
  rewrite R2. cbn [littleEndian with_offset seek]. rewrite Hle. unfold ordered.
  fold (be32 (Z.of_nat (length (PMSR.records p)))).
  rewrite be_value_be32, Z.mod_small, Nat2Z.id by lia.
  destruct (pmsr_parse_records (PMSR.records p)
              (PMSR.mkPatch PMSR.PAPER_MARIO_USA10_FILE_SIZE []) _ _ []
              ltac:(rewrite app_nil_r; exact H2)) as (f' & E).
  - cbn [fileSize data with_offset seek]. rewrite Hd. unfold encode.
    rewrite !length_app, be32_length.
    change (length (bytes_of_string PMSR.PMSR_MAGIC)) with 4%nat. exact Hs.
  - exact Hle.
  - exact Hrs.
  - exists f'. split; [exact Ex|]. rewrite E. reflexivity.
Qed.

Lemma pmsr_export_parse_roundtrip_witness :
  exists f f',
    PMSR.export Samples2.pmsr_patch None = JS.Ok f
    /\ PMSR.fromFile f
       = (f', Some (PMSR.mkPatch 41943040 (PMSR.records Samples2.pmsr_patch))).
Proof.
  apply (pmsr_export_parse_roundtrip Samples2.pmsr_patch None).
  split; [|cbn; lia].
  repeat constructor; cbn; unfold is_byte; lia.
Defined.

(** *** [apply] *)

Lemma seek_write_splices f o d :
  0 <= fileSize f <= capacity f ->
  exists f', writeBytes (seek f o) d = JS.Ok f'
    /\ getBytes f' = IPSCodec.splice_at (getBytes f) o d
    /\ 0 <= fileSize f' <= capacity f'
    /\ fileName f' = fileName f.
Proof.
  intros Hf. set (g := seek f o).
  assert (Hg : inb g /\ fileSize g = fileSize f /\ capacity g = capacity f
               /\ getBytes g = getBytes f /\ fileName g = fileName f
               /\ offset g = Z.max 0 (Z.min o (fileSize f))).
  { unfold g, inb, seek, capacity, getBytes. cbn [offset fileSize data fileName with_offset].
    repeat split; lia. }
  destruct Hg as (Hin & Sg & Cg & Bg & Ng & Og).
  pose proof (CursorFacts.at_cursor_split g ltac:(unfold inb in Hin; lia)) as Hat.
  assert (Hlen : Z.of_nat (length (getBytes f)) = fileSize f).
  { rewrite IPSProps.getBytes_firstn by lia. rewrite length_firstn.
    unfold capacity in Hf. lia. }
  destruct (CursorFacts.writeBytes_at g _ _ d Hat) as (f' & Hw & H1 & S1 & _ & N1 & _).
  exists f'. split; [exact Hw|].
  destruct (IPSProps.getBytes_written g f' _ _ d Hat Hin ltac:(lia) H1 S1) as (Bw & J).
  rewrite Bw. split; [|split; [lia | congruence]].
  unfold IPSCodec.splice_at. rewrite Bg, Og, Hlen.
  replace (Z.max 0 (Z.min (Z.max 0 (Z.min o (fileSize f))) (fileSize f)))
    with (Z.max 0 (Z.min o (fileSize f))) by lia.
  reflexivity.
Qed.

Lemma apply_records_list rs : forall f,
  0 <= fileSize f <= capacity f ->
  exists f',
    JS.for_of rs (fun tempFile r =>
                    writeBytes (seek tempFile (PMSR.offset r)) (PMSR.data r)) f
    = JS.Ok f'
    /\ getBytes f' = apply_list rs (getBytes f)
    /\ 0 <= fileSize f' <= capacity f'.
Proof.
  induction rs as [|r rs IH]; intros f Hf.
  - exists f. cbn. auto.
  - destruct (seek_write_splices f (PMSR.offset r) (PMSR.data r) Hf)
      as (f1 & E1 & B1 & J1 & _).
    destruct (IH f1 J1) as (f2 & E2 & B2 & J2).
    exists f2. cbn [JS.for_of]. rewrite E1. cbn [JS.bind].
    split; [exact E2|]. split; [|exact J2].
    rewrite B2, B1. reflexivity.
Qed.

Lemma clone_bytes f :
  getBytes (clone f) = getBytes f /\ capacity (clone f) = capacity f
  /\ fileSize (clone f) = fileSize f.
Proof.
  unfold clone, getBytes, capacity. cbn [data fileSize].
  rewrite !BinFileFacts.slice_full. auto.
Qed.

Lemma apply_unchecked p romFile :
  0 <= fileSize romFile <= capacity romFile -> 0 <= PMSR.targetSize p ->
  exists out, PMSR.apply p romFile false = JS.Ok out
    /\ getBytes out = apply_list (PMSR.records p) (apply_base p romFile).
Proof.
  intros Hf Ht. unfold PMSR.apply, apply_base. cbn [andb].
  assert (Hbase : exists t,
             (if PMSR.targetSize p =? fileSize romFile then JS.Ok (clone romFile)
              else (let* t := of_size (PMSR.targetSize p) in copyTo romFile t 0 None))
             = JS.Ok t
             /\ getBytes t
                = (if PMSR.targetSize p =? fileSize romFile then getBytes romFile
                   else IPSCodec.splice_at (repeat 0 (Z.to_nat (PMSR.targetSize p))) 0
                          (U8.slice (data romFile) (offset romFile) (fileSize romFile)))
             /\ 0 <= fileSize t <= capacity t).
  { destruct (PMSR.targetSize p =? fileSize romFile).
    - exists (clone romFile). destruct (clone_bytes romFile) as (Hb & Hc & Hs).
      split; [reflexivity|]. split; [exact Hb | lia].
    - unfold of_size, U8.alloc.
      replace (PMSR.targetSize p <? 0) with false by (symmetry; apply Z.ltb_ge; lia).
      cbn [JS.bind]. unfold copyTo.
      set (t := mkBinFile _ _ _ _ _ _).
      assert (Jt : 0 <= fileSize t <= capacity t).
      { unfold t, capacity. cbn [fileSize data]. rewrite repeat_length. lia. }
      destruct (seek_write_splices t 0
                  (U8.slice (data romFile) (offset romFile)
                     (offset romFile + (fileSize romFile - offset romFile))) Jt)
        as (t' & E & Bt & J & _).
      exists t'. split; [exact E|]. split; [|exact J].
      rewrite Bt. rewrite (IPSProps.getBytes_firstn t Jt).
      unfold t. cbn [fileSize data].
      rewrite firstn_all2 by (rewrite repeat_length; lia).
      do 2 f_equal. lia. }
  destruct Hbase as (t & -> & Bt & Jt). cbn [JS.bind].
  destruct (apply_records_list (PMSR.records p) t Jt) as (out & E & Bo & _).
  exists out. split; [exact E|]. now rewrite Bo, Bt.
Qed.

(** [apply] without the checksum test, with a target size of 0 or more,
    returns; the bytes of its output are the records put one after the
    other, each at its offset moved into the range from 0 to the current
    size, into the bytes of the ROM when the target size is the size of the
    ROM, and otherwise into a zero-filled buffer of the target size that
    holds the bytes of the ROM from its cursor on.  A negative target size
    makes the allocation of that buffer throw a [RangeError]; with the
    checksum test, a ROM that has not the size of the Paper Mario ROM is
    rejected. *)
Theorem pmsr_apply_splices (p : PMSR.PMSRPatch) (romFile : BinFile) :
  0 <= fileSize romFile <= capacity romFile ->
  (0 <= PMSR.targetSize p ->
   exists out, PMSR.apply p romFile false = JS.Ok out
     /\ getBytes out = apply_list (PMSR.records p) (apply_base p romFile))
  /\ (PMSR.targetSize p < 0 -> PMSR.apply p romFile false = JS.Throw JS.RangeError)
  /\ (fileSize romFile <> PMSR.PAPER_MARIO_USA10_FILE_SIZE ->
      PMSR.apply p romFile true = JS.Throw (JS.Error "Source ROM checksum mismatch")).
Proof.
  intros Hf. split; [|split].
  - intros Ht. exact (apply_unchecked p romFile Hf Ht).
  - intros Ht. unfold PMSR.apply. cbn [andb].
    replace (PMSR.targetSize p =? fileSize romFile) with false
      by (symmetry; apply Z.eqb_neq; lia).
    unfold of_size, U8.alloc.
    replace (PMSR.targetSize p <? 0) with true by (symmetry; apply Z.ltb_lt; lia).
    reflexivity.
  - intros Hs. unfold PMSR.apply, PMSR.validateSource.
    replace (fileSize romFile =? PMSR.PAPER_MARIO_USA10_FILE_SIZE) with false
      by (symmetry; apply Z.eqb_neq; exact Hs).
    reflexivity.
Qed.

Lemma pmsr_apply_splices_witness :
  (0 <= PMSR.targetSize Samples2.pmsr_patch ->
   exists out, PMSR.apply Samples2.pmsr_patch Samples2.rom5 false = JS.Ok out
     /\ getBytes out
        = apply_list (PMSR.records Samples2.pmsr_patch)
                     (apply_base Samples2.pmsr_patch Samples2.rom5))
  /\ (PMSR.targetSize Samples2.pmsr_patch < 0 ->
      PMSR.apply Samples2.pmsr_patch Samples2.rom5 false = JS.Throw JS.RangeError)
  /\ (fileSize Samples2.rom5 <> PMSR.PAPER_MARIO_USA10_FILE_SIZE ->
      PMSR.apply Samples2.pmsr_patch Samples2.rom5 true
      = JS.Throw (JS.Error "Source ROM checksum mismatch")).
Proof.
  apply (pmsr_apply_splices Samples2.pmsr_patch Samples2.rom5).
  unfold capacity. cbn. lia.
Defined.

(** *** [buildFromRoms] then [apply] *)

Lemma get_nth l k :
  (k < length l)%nat -> U8.get l (Z.of_nat k) = Some (nth k l 0).
Proof.
  intros H. unfold U8.get.
  replace (Z.of_nat k <? 0) with false by (symmetry; apply Z.ltb_ge; lia).
  rewrite Nat2Z.id. now apply nth_error_nth'.
Qed.

Lemma firstn_snoc (l : list Z) k :
  (k < length l)%nat -> firstn (S k) l = firstn k l ++ [nth k l 0].
Proof.
  revert k. induction l as [|x l IH]; intros k H; cbn [length] in H; [lia|].
  destruct k as [|k]; [reflexivity|]. cbn [firstn nth app]. f_equal. apply IH. lia.
Qed.

Lemma skipn_cons (l : list Z) k :
  (k < length l)%nat -> skipn k l = nth k l 0 :: skipn (S k) l.
Proof.
  revert k. induction l as [|x l IH]; intros k H; cbn [length] in H; [lia|].
  destruct k as [|k]; [reflexivity|]. cbn [skipn nth]. apply IH. lia.
Qed.

Lemma seg_snoc l a k :
  (a <= k < length l)%nat -> seg l a (S k) = seg l a k ++ [nth k l 0].
Proof.
  intros H. unfold seg.
  replace (S k - a)%nat with (S (k - a)) by lia.
  rewrite firstn_snoc by (rewrite length_skipn; lia). f_equal. f_equal.
  rewrite nth_skipn. f_equal. lia.
Qed.

Lemma firstn_seg l a k :
  (a <= k)%nat -> firstn a l ++ seg l a k = firstn k l.
Proof.
  intros H. unfold seg. rewrite <- (firstn_skipn a (firstn k l)).
  rewrite firstn_firstn, Nat.min_l by lia. f_equal.
  now rewrite skipn_firstn_comm.
Qed.

Lemma seg_length l a k : (a <= k <= length l)%nat -> length (seg l a k) = (k - a)%nat.
Proof. intros H. unfold seg. rewrite length_firstn, length_skipn. lia. Qed.

Lemma of_array_bytes l :
  Forall is_byte l -> U8.of_array (Some l) = l.
Proof.
  intros H. unfold U8.of_array. rewrite <- (map_id l) at 2.
  apply map_ext_in. intros b Hb.
  apply Z.mod_small. exact (proj1 (List.Forall_forall _ _) H b Hb).
Qed.

Lemma seg_bytes l a k : Forall is_byte l -> Forall is_byte (seg l a k).
Proof.
  intros H. unfold seg. apply Forall_take, Forall_drop, H.
Qed.

Lemma skipn_zeros k n : skipn k (repeat 0 n) = repeat 0 (n - k).
Proof.
  revert k. induction n as [|n IH]; intros [|k]; cbn [repeat skipn Nat.sub];
    try reflexivity. apply IH.
Qed.

Section Build.
Variables ob mb : list Z.
Hypothesis Hmb : Forall is_byte mb.
Hypothesis Hlen : (length ob <= length mb)%nat.

Local Notation "'B'" := (padded ob (length mb)).

Lemma padded_length : length B = length mb.
Proof. unfold padded. rewrite length_app, repeat_length. lia. Qed.

Lemma padded_nth k :
  nth k B 0 = if (k <? length ob)%nat then nth k ob 0 else 0.
Proof.
  unfold padded. destruct (k <? length ob)%nat eqn:E.
  - apply Nat.ltb_lt in E. now rewrite app_nth1.
  - apply Nat.ltb_ge in E. rewrite app_nth2 by lia.
    destruct (Nat.lt_ge_cases (k - length ob) (length mb - length ob)) as [H|H].
    + now rewrite nth_repeat_lt.
    + rewrite nth_overflow; [reflexivity | rewrite repeat_length; lia].
Qed.

(** A block closed at [k]: the bytes up to [k] are the modified ones. *)
Lemma close_block ds off d k :
  build_inv ob mb k ds (Some (off, d)) -> (k <= length mb)%nat ->
  apply_list (map rec_of (ds ++ [(off, d)])) B = firstn k mb ++ skipn k B.
Proof.
  intros (HA & H0 & Hk & Hd) Hle.
  rewrite map_app. unfold apply_list. rewrite fold_left_app.
  fold (apply_list (map rec_of ds) B). rewrite HA.
  cbn [map fold_left rec_of PMSR.offset PMSR.data fst snd].
  rewrite Hd, of_array_bytes by (apply seg_bytes; exact Hmb).
  unfold IPSCodec.splice_at.
  assert (Ha : (Z.to_nat off <= k)%nat) by lia.
  rewrite !length_app, length_firstn, length_skipn, padded_length.
  replace (Z.to_nat (Z.max 0 (Z.min off
             (Z.of_nat (Nat.min (Z.to_nat off) (length mb)
                        + (length mb - Z.to_nat off))))))
    with (Z.to_nat off) by lia.
  rewrite seg_length by lia.
  rewrite firstn_app, firstn_firstn, Nat.min_id.
  rewrite length_firstn.
  replace (Z.to_nat off - Nat.min (Z.to_nat off) (length mb))%nat with 0%nat by lia.
  cbn [firstn]. rewrite app_nil_r.
  rewrite skipn_app, length_firstn.
  rewrite (skipn_all2 (firstn (Z.to_nat off) mb)) by (rewrite length_firstn; lia).
  cbn [app].
  rewrite skipn_skipn.
  replace (Z.to_nat off + (k - Z.to_nat off) - Nat.min (Z.to_nat off) (length mb)
           + Z.to_nat off)%nat with k by lia.
  rewrite app_assoc, firstn_seg by lia. reflexivity.
Qed.

(** The loop of [buildFromRoms], from the byte [k] on. *)
Lemma build_loop_inv n : forall k fuel original modified ds cur,
  (length mb - k <= n)%nat -> (n <= fuel)%nat -> (k <= length mb)%nat ->
  data original = ob -> fileSize original = Z.of_nat (length ob) ->
  offset original = Z.of_nat (Nat.min k (length ob)) ->
  data modified = mb -> fileSize modified = Z.of_nat (length mb) ->
  offset modified = Z.of_nat k ->
  build_inv ob mb k ds cur ->
  exists o' m' ds' cur',
    PMSR.build_loop fuel original modified ds cur = Some (o', m', ds', cur')
    /\ build_inv ob mb (length mb) ds' cur'
    /\ fileSize m' = Z.of_nat (length mb).
Proof.
  induction n as [|n IH]; intros k fuel original modified ds cur Hn Hfuel Hk
                                Do So Oo Dm Sm Om Hinv.
  - assert (k = length mb) by lia. subst k.
    destruct fuel; cbn [PMSR.build_loop]; unfold isEOF; rewrite Sm, Om, Z.leb_refl;
      (eexists _, _, _, _; split; [reflexivity | split; [exact Hinv | exact Sm]]).
  - destruct (Nat.eq_dec k (length mb)) as [->|Hne].
    { destruct fuel; cbn [PMSR.build_loop]; unfold isEOF; rewrite Sm, Om, Z.leb_refl;
        (eexists _, _, _, _; split; [reflexivity | split; [exact Hinv | exact Sm]]). }
    destruct fuel as [|fuel]; [lia|]. cbn [PMSR.build_loop]. unfold isEOF at 1.
    rewrite Sm, Om.
    replace (Z.of_nat (length mb) <=? Z.of_nat k) with false
      by (symmetry; apply Z.leb_gt; lia).
    (* the byte of the original, or 0 past its end *)
    assert (HO : exists original1,
               (if isEOF original then (Some 0, original) else readU8 original)
               = (Some (nth k B 0), original1)
               /\ data original1 = ob /\ fileSize original1 = Z.of_nat (length ob)
               /\ offset original1 = Z.of_nat (Nat.min (S k) (length ob))).
    { unfold isEOF, readU8. rewrite So, Oo, padded_nth.
      destruct (Z.of_nat (length ob) <=? Z.of_nat (Nat.min k (length ob))) eqn:E;
        [apply Z.leb_le in E | apply Z.leb_gt in E].
      - replace (k <? length ob)%nat with false by (symmetry; apply Nat.ltb_ge; lia).
        exists original. repeat split; try assumption. rewrite Oo. lia.
      - replace (k <? length ob)%nat with true by (symmetry; apply Nat.ltb_lt; lia).
        eexists. split.
        { rewrite Do. replace (Nat.min k (length ob)) with k by lia.
          rewrite get_nth by lia. reflexivity. }
        cbn [data fileSize offset with_offset]. repeat split; try assumption. lia. }
    destruct HO as (original1 & -> & Do1 & So1 & Oo1).
    unfold readU8 at 1. rewrite Sm, Om, Dm.
    replace (Z.of_nat (length mb) <=? Z.of_nat k) with false
      by (symmetry; apply Z.leb_gt; lia).
    rewrite get_nth by lia.
    set (modified1 := with_offset modified (Z.of_nat k + 1)).
    assert (Hm1 : data modified1 = mb /\ fileSize modified1 = Z.of_nat (length mb)
                  /\ offset modified1 = Z.of_nat (S k)).
    { unfold modified1. cbn [data fileSize offset with_offset]. repeat split; try assumption.
      lia. }
    destruct Hm1 as (Dm1 & Sm1 & Om1).
    assert (Hstep : forall ds' cur',
               build_inv ob mb (S k) ds' cur' ->
               exists o' m' ds'' cur'',
                 PMSR.build_loop fuel original1 modified1 ds' cur'
                 = Some (o', m', ds'', cur'')
                 /\ build_inv ob mb (length mb) ds'' cur''
                 /\ fileSize m' = Z.of_nat (length mb)).
    { intros ds' cur' Hinv'.
      apply (IH (S k)); try assumption; lia. }
    cbn [JS.strict_eq].
    pose proof (firstn_snoc mb k ltac:(lia)) as Hfs.
    pose proof (skipn_cons B k ltac:(rewrite padded_length; lia)) as Hsk.
    destruct (nth k B 0 =? nth k mb 0) eqn:Eb; cbn [negb];
      [apply Z.eqb_eq in Eb | apply Z.eqb_neq in Eb].
    + (* the bytes agree *)
      destruct cur as [[off d]|].
      * apply Hstep. split; [|exact I].
        etransitivity; [exact (close_block ds off d k Hinv ltac:(lia))|].
        rewrite Hfs, Hsk, Eb, <- app_assoc. reflexivity.
      * apply Hstep. destruct Hinv as (HA & _). split; [|exact I].
        rewrite HA, Hfs, Hsk, Eb, <- app_assoc. reflexivity.
    + (* the bytes differ *)
      destruct cur as [[off d]|].
      * destruct Hinv as (HA & H0 & Hoff & Hd).
        replace (Z.of_nat k =? off + Z.of_nat (length d)) with true
          by (symmetry; apply Z.eqb_eq; lia).
        cbn [negb]. apply Hstep. split; [exact HA|].
        split; [exact H0|]. split; [rewrite length_app; cbn [length]; lia|].
        rewrite map_app, Hd. cbn [map JS.num]. rewrite seg_snoc by lia. reflexivity.
      * destruct Hinv as (HA & _). apply Hstep. split.
        -- rewrite Nat2Z.id. exact HA.
        -- split; [lia|]. split; [cbn [length]; lia|].
           rewrite Nat2Z.id. cbn [map JS.num]. unfold seg.
           replace (S k - k)%nat with 1%nat by lia.
           rewrite (skipn_cons mb k) by lia. reflexivity.
Qed.

Lemma build_and_apply original modified :
  data original = ob -> fileSize original = Z.of_nat (length ob) ->
  data modified = mb -> fileSize modified = Z.of_nat (length mb) ->
  exists o' m' p,
    PMSR.buildFromRoms original modified = Some (o', m', p)
    /\ PMSR.targetSize p = fileSize modified
    /\ exists out, PMSR.apply p (seek original 0) false = JS.Ok out
         /\ getBytes out = mb.
Proof.
  intros Do So Dm Sm. unfold PMSR.buildFromRoms.
  destruct (build_loop_inv (length mb) 0 (Z.to_nat (fileSize (seek modified 0)))
              (seek original 0) (seek modified 0) [] None) as
    (o' & m' & ds & cur & E & Hinv & Sm').
  - lia.
  - unfold seek. cbn [fileSize with_offset]. lia.
  - lia.
  - exact Do.
  - exact So.
  - unfold seek. cbn [offset with_offset]. lia.
  - exact Dm.
  - exact Sm.
  - unfold seek. cbn [offset with_offset]. lia.
  - split; [reflexivity | exact I].
  - rewrite E. eexists _, _, _. split; [reflexivity|].
    cbn [PMSR.targetSize]. split; [congruence|].
    set (p := PMSR.mkPatch _ _).
    destruct (apply_unchecked p (seek original 0)) as (out & Eo & Bo).
    + unfold seek, capacity. cbn [fileSize data with_offset]. rewrite So, Do. lia.
    + unfold p. cbn [PMSR.targetSize]. lia.
    + exists out. split; [exact Eo|]. rewrite Bo.
      assert (Hbase : apply_base p (seek original 0) = B).
      { unfold apply_base, p, seek, getBytes, padded.
        cbn [PMSR.targetSize fileSize data offset with_offset].
        rewrite Sm', So, Do.
        replace (Z.max 0 (Z.min 0 (Z.of_nat (length ob)))) with 0 by lia.
        rewrite BinFileFacts.slice_full.
        destruct (Z.of_nat (length mb) =? Z.of_nat (length ob)) eqn:Es.
        - apply Z.eqb_eq in Es. replace (length mb - length ob)%nat with 0%nat by lia.
          cbn [repeat]. now rewrite app_nil_r.
        - unfold IPSCodec.splice_at. rewrite repeat_length.
          replace (Z.to_nat (Z.max 0 (Z.min 0 (Z.of_nat (Z.to_nat (Z.of_nat (length mb)))))))
            with 0%nat by lia.
          cbn [firstn app Nat.add]. rewrite skipn_zeros, Nat2Z.id. reflexivity. }
      rewrite Hbase. unfold p. cbn [PMSR.records].
      change (map (fun diff : PMSR.Diff =>
                     PMSR.mkRecord (fst diff) (U8.of_array (Some (map JS.num (snd diff))))))
        with (map rec_of).
      destruct cur as [[off d]|].
      * etransitivity; [exact (close_block ds off d (length mb) Hinv (Nat.le_refl _))|].
        rewrite firstn_all, skipn_all2 by (rewrite padded_length; lia).
        apply app_nil_r.
      * destruct Hinv as (HA & _). rewrite HA.
        rewrite firstn_all, skipn_all2 by (rewrite padded_length; lia).
        apply app_nil_r.
Qed.

End Build.

(** A patch built from two buffers, the modified one at least as long as
    the original, turns the original into the modified one: [buildFromRoms]
    returns a patch whose target size is the size of the modified file, and
    [apply], without the checksum test, on the original read from its
    beginning gives a file with the bytes of the modified one. *)
Theorem pmsr_build_apply_roundtrip (original modified : BinFile) :
  tight original -> tight modified -> fileSize original <= fileSize modified ->
  exists o' m' p,
    PMSR.buildFromRoms original modified = Some (o', m', p)
    /\ PMSR.targetSize p = fileSize modified
    /\ exists out, PMSR.apply p (seek original 0) false = JS.Ok out
         /\ getBytes out = getBytes modified.
Proof.
  intros (So & Bo) (Sm & Bm) Hle.
  assert (Hg : getBytes modified = data modified).
  { unfold getBytes. rewrite Sm. apply BinFileFacts.slice_full. }
  rewrite Hg.
  apply (build_and_apply (data original) (data modified) Bm ltac:(lia));
    auto.
Qed.

Lemma pmsr_build_apply_roundtrip_witness :
  exists o' m' p,
    PMSR.buildFromRoms Samples2.rom3 Samples2.rom5 = Some (o', m', p)
    /\ PMSR.targetSize p = fileSize Samples2.rom5
    /\ exists out, PMSR.apply p (seek Samples2.rom3 0) false = JS.Ok out
         /\ getBytes out = getBytes Samples2.rom5.
Proof.
  apply (pmsr_build_apply_roundtrip Samples2.rom3 Samples2.rom5).
  - split; [reflexivity|]. unfold is_byte. cbn. repeat constructor; lia.
  - split; [reflexivity|]. unfold is_byte. cbn. repeat constructor; lia.
  - cbn. lia.
Defined.

End PMSRProps.

(** ** Whole files: slices, and files put together *)

Module FileFacts.
Import BinFile Cursor.

Lemma slice_head l s :
  0 <= s <= Z.of_nat (length l) -> U8.slice l 0 s = firstn (Z.to_nat s) l.
Proof.
  intros H. unfold U8.slice, U8.rel. change (0 <? 0) with false. cbv iota.
  replace (s <? 0) with false by (symmetry; apply Z.ltb_ge; lia).
  rewrite !Z.min_l by lia. rewrite Z.sub_0_r. change (Z.to_nat 0) with 0%nat.
  now rewrite skipn_O.
Qed.

Lemma slice_tail l s :
  0 <= s -> U8.slice l s (Z.of_nat (length l)) = skipn (Z.to_nat s) l.
Proof.
  intros H. unfold U8.slice, U8.rel.
  replace (s <? 0) with false by (symmetry; apply Z.ltb_ge; lia).
  replace (Z.of_nat (length l) <? 0) with false by (symmetry; apply Z.ltb_ge; lia).
  rewrite Z.min_id.
  destruct (Z.le_gt_cases s (Z.of_nat (length l))) as [Hs|Hs].
  - rewrite Z.min_l by lia. apply firstn_all2. rewrite length_skipn. lia.
  - rewrite Z.min_r by lia. rewrite Nat2Z.id, Z.sub_diag.
    cbn [Z.to_nat firstn]. symmetry. apply skipn_all2. lia.
Qed.

Lemma getBytes_length f :
  0 <= fileSize f <= capacity f -> Z.of_nat (length (getBytes f)) = fileSize f.
Proof.
  intros H. rewrite IPSProps.getBytes_firstn by exact H.
  rewrite length_firstn. unfold capacity in H. lia.
Qed.

Lemma of_bytes_named l nm :
  getBytes (with_fileName (of_bytes l) nm) = l
  /\ fileSize (with_fileName (of_bytes l) nm) = Z.of_nat (length l)
  /\ fileName (with_fileName (of_bytes l) nm) = nm.
Proof.
  unfold getBytes, of_bytes, with_fileName. cbn [data fileSize fileName].
  rewrite BinFileFacts.slice_full. auto.
Qed.

(** Two blocks written one after the other into a new file of their size. *)
Lemma join_files a b n nm :
  n = Z.of_nat (length a + length b) ->
  exists g,
    (let* t := writeBytes (with_fileName (mkBinFile EmptyString n false 0
                                            (repeat 0 (Z.to_nat n)) []) nm) a in
     writeBytes t b) = JS.Ok g
    /\ getBytes g = a ++ b /\ fileSize g = n /\ fileName g = nm.
Proof.
  intros Hn.
  set (t0 := with_fileName _ nm).
  assert (H0 : at_cursor t0 [] (repeat 0 (Z.to_nat n))) by (split; reflexivity).
  destruct (CursorFacts.writeBytes_at t0 _ _ a H0) as (t1 & E1 & H1 & S1 & _ & N1 & _).
  destruct (CursorFacts.writeBytes_at t1 _ _ b H1) as (t2 & E2 & H2 & S2 & _ & N2 & _).
  exists t2. rewrite E1. cbn [JS.bind]. split; [exact E2|].
  destruct H1 as (_ & O1). destruct H2 as (D2 & _).
  assert (Hs : fileSize t2 = n).
  { rewrite S2, S1, O1. cbn [app length]. unfold t0.
    cbn [fileSize offset with_fileName]. lia. }
  rewrite skipn_skipn, skipn_all2 in D2 by (rewrite repeat_length; lia).
  rewrite app_nil_r in D2. cbn [app] in D2.
  split; [|split; [exact Hs | rewrite N2, N1; reflexivity]].
  unfold getBytes. rewrite Hs, D2, Hn, <- length_app. apply BinFileFacts.slice_full.
Qed.

Lemma same_extension f g : fileName g = fileName f -> getExtension g = getExtension f.
Proof. intros H. unfold getExtension. now rewrite H. Qed.

End FileFacts.

(** ** APS (GBA): [export] and [fromFile] *)

Module APSProps.
Import BinFile Cursor CursorFacts APSCodec.

Lemma le32_length v : length (le32 v) = 4%nat.
Proof. reflexivity. Qed.

Lemma le16_length v : length (le16 v) = 2%nat.
Proof. reflexivity. Qed.

Lemma aps_record_length r :
  wf_record r -> Z.of_nat (length (encode_record r)) = APSGBA.APS_GBA_RECORD_SIZE.
Proof.
  intros (_ & _ & _ & Hl & _). unfold encode_record.
  rewrite !length_app, le32_length, !le16_length.
  unfold APSGBA.APS_GBA_RECORD_SIZE. lia.
Qed.

Lemma aps_records_length rs :
  Forall wf_record rs ->
  Z.of_nat (length (flat_map encode_record rs))
  = Z.of_nat (length rs) * APSGBA.APS_GBA_RECORD_SIZE.
Proof.
  induction 1 as [|r rs Hr _ IH]; [reflexivity|].
  cbn [flat_map length]. rewrite length_app, Nat2Z.inj_add, IH, (aps_record_length r Hr).
  lia.
Qed.

Lemma aps_export_records_at rs : forall f pre rest,
  at_cursor f pre rest -> offset f <= fileSize f -> littleEndian f = true ->
  exists f',
    JS.for_of rs
      (fun tempFile r =>
         writeBytes
           (writeU16 (writeU16 (writeU32 tempFile (APSGBA.offset r))
                               (APSGBA.sourceCrc16 r))
                     (APSGBA.targetCrc16 r))
           (APSGBA.xorBytes r)) f = JS.Ok f'
    /\ at_cursor f' (pre ++ flat_map encode_record rs)
                 (skipn (length (flat_map encode_record rs)) rest)
    /\ fileSize f'
       = Z.max (fileSize f) (offset f + Z.of_nat (length (flat_map encode_record rs)))
    /\ littleEndian f' = true.
Proof.
  induction rs as [|r rs IH]; intros f pre rest Hat Hsz Hle.
  - exists f. cbn [JS.for_of flat_map length skipn]. rewrite app_nil_r.
    split; [reflexivity|]. split; [exact Hat|]. split; [lia | exact Hle].
  - pose proof Hat as (_ & O0).
    destruct (writeU32_at f pre rest (APSGBA.offset r) Hat) as (H1 & S1 & L1 & _).
    rewrite Hle in H1, L1. unfold ordered in H1. fold (le32 (APSGBA.offset r)) in H1.
    pose proof H1 as (_ & O1). rewrite length_app, le32_length in O1.
    destruct (writeU16_at _ _ _ (APSGBA.sourceCrc16 r) H1) as (H2 & S2 & L2 & _).
    rewrite L1 in H2, L2. unfold ordered in H2. fold (le16 (APSGBA.sourceCrc16 r)) in H2.
    pose proof H2 as (_ & O2). rewrite !length_app, le32_length, le16_length in O2.
    destruct (writeU16_at _ _ _ (APSGBA.targetCrc16 r) H2) as (H3 & S3 & L3 & _).
    rewrite L2 in H3, L3. unfold ordered in H3. fold (le16 (APSGBA.targetCrc16 r)) in H3.
    pose proof H3 as (_ & O3). rewrite !length_app, le32_length, !le16_length in O3.
    destruct (writeBytes_at _ _ _ (APSGBA.xorBytes r) H3) as (f1 & E1 & H4 & S4 & L4 & _).
    pose proof H4 as (_ & O4). rewrite !length_app, le32_length, !le16_length in O4.
    destruct (IH f1 _ _ H4 ltac:(lia) ltac:(congruence)) as (f2 & E2 & H5 & S5 & L5).
    exists f2. cbn [JS.for_of flat_map]. rewrite E1. cbn [JS.bind].
    split; [exact E2|].
    rewrite <- !app_assoc, !skipn_skipn in H5.
    assert (Hcnt : (length (encode_record r ++ flat_map encode_record rs)
                    = length (flat_map encode_record rs)
                      + length (APSGBA.xorBytes r) + 2 + 2 + 4)%nat).
    { rewrite length_app. unfold encode_record.
      rewrite !length_app, le32_length, !le16_length. lia. }
    rewrite Hcnt. unfold encode_record at 1. rewrite <- !app_assoc.
    split; [exact H5|]. split; [lia | exact L5].
Qed.

(** What [export] returns: a little-endian buffer that holds the encoding
    of the patch and nothing else. *)
Lemma aps_export_encoding p name :
  Forall wf_record (APSGBA.apsRecords p) ->
  exists f, APSGBA.export p name = JS.Ok f
    /\ data f = encode p
    /\ fileSize f = Z.of_nat (length (encode p))
    /\ littleEndian f = true.
Proof.
  intros Hrs. unfold APSGBA.export, encode.
  pose proof (aps_records_length _ Hrs) as HR.
  set (R := flat_map encode_record (APSGBA.apsRecords p)) in *.
  set (n := 12 + Z.of_nat (length (APSGBA.apsRecords p)) * APSGBA.APS_GBA_RECORD_SIZE).
  assert (Hn : n = 12 + Z.of_nat (length R)) by (unfold n; lia).
  unfold of_size, U8.alloc.
  replace (n <? 0) with false by (symmetry; apply Z.ltb_ge; lia).
  cbn [JS.bind].
  match goal with
  | |- context [writeString_ascii ?g APSGBA.APS_GBA_MAGIC] => set (f0 := g)
  end.
  assert (H0 : at_cursor f0 [] (repeat 0 (Z.to_nat n))) by (split; reflexivity).
  unfold writeString_ascii.
  destruct (writeBytes_at f0 _ _ (bytes_of_string APSGBA.APS_GBA_MAGIC) H0)
    as (f1 & E1 & H1 & S1 & L1 & _).
  rewrite E1. cbn [JS.bind]. cbn [app] in H1. pose proof H1 as (_ & O1).
  destruct (writeU32_at f1 _ _ (APSGBA.sourceSize p) H1) as (H2 & S2 & L2 & _).
  rewrite L1 in H2, L2. cbn [littleEndian f0 with_fileName with_littleEndian] in H2, L2.
  unfold ordered in H2. fold (le32 (APSGBA.sourceSize p)) in H2.
  pose proof H2 as (_ & O2). rewrite length_app, le32_length in O2.
  destruct (writeU32_at _ _ _ (APSGBA.targetSize p) H2) as (H3 & S3 & L3 & _).
  rewrite L2 in H3, L3. unfold ordered in H3. fold (le32 (APSGBA.targetSize p)) in H3.
  pose proof H3 as (_ & O3). rewrite !length_app, !le32_length in O3.
  destruct (aps_export_records_at (APSGBA.apsRecords p) _ _ _ H3)
    as (f4 & E4 & (Hd & O4) & S4 & L4).
  { rewrite S3. lia. }
  { exact L3. }
  exists f4. split; [exact E4|]. fold R in Hd, S4, O4.
  rewrite !skipn_skipn in Hd.
  change (length (bytes_of_string APSGBA.APS_GBA_MAGIC)) with 4%nat in *.
  change (length (@nil Z)) with 0%nat in *.
  rewrite (skipn_all2 (repeat 0 (Z.to_nat n))) in Hd by (rewrite repeat_length; lia).
  rewrite app_nil_r in Hd. cbn [app] in Hd.
  split; [rewrite Hd, <- !app_assoc; reflexivity|].
  split; [|exact L4].
  rewrite S4, S3, S2, S1, O3, O2, O1.
  cbn [fileSize offset f0 with_fileName with_littleEndian].
  rewrite !length_app, !le32_length.
  change (length (bytes_of_string APSGBA.APS_GBA_MAGIC)) with 4%nat.
  change (length (@nil Z)) with 0%nat. lia.
Qed.

Lemma aps_parse_records rs : forall fuel patch f pre,
  at_cursor f pre (flat_map encode_record rs) ->
  fileSize f = Z.of_nat (length (data f)) -> littleEndian f = true ->
  Forall wf_record rs -> (length rs <= fuel)%nat ->
  APSGBA.read_records fuel patch f
  = JS.Ok (APSGBA.mkPatch (APSGBA.sourceSize patch) (APSGBA.targetSize patch)
                          (APSGBA.apsRecords patch ++ rs)).
Proof.
  induction rs as [|r rs IH]; intros fuel patch f pre Hat Hsz Hle Hrs Hfuel.
  - destruct Hat as (Hd & Ho). cbn [flat_map] in Hd. rewrite app_nil_r in Hd.
    assert (He : isEOF f = true).
    { unfold isEOF. apply Z.leb_le. rewrite Hsz, Hd, Ho. lia. }
    rewrite app_nil_r. destruct fuel; cbn [APSGBA.read_records]; rewrite He;
      now destruct patch.
  - inversion Hrs as [|? ? Hr Hrs']; subst.
    pose proof Hr as (Ho & Hs & Ht & Hl & Hb).
    destruct fuel as [|fuel]; [cbn [length] in Hfuel; lia|].
    pose proof Hat as (Hd & Hoff). pose proof Hsz as Hsz'.
    rewrite Hd in Hsz'. cbn [flat_map] in Hsz', Hat.
    rewrite !length_app in Hsz'. pose proof (aps_record_length r Hr) as Lr.
    unfold APSGBA.APS_GBA_RECORD_SIZE in Lr.
    assert (He : isEOF f = false).
    { unfold isEOF. apply Z.leb_gt. unfold APSGBA.APS_GBA_BLOCK_SIZE in Lr. lia. }
    cbn [APSGBA.read_records]. rewrite He.
    unfold encode_record, le32, le16, be32, be16 in Hat. cbn [rev app] in Hat.
    rewrite <- ?app_assoc in Hat. cbn [app] in Hat.
    unfold APSGBA.APS_GBA_BLOCK_SIZE in Lr, Hl.
    destruct (readU32_at _ _ _ _ _ _ _ Hat ltac:(lia)) as (R1 & H1);
      try apply ByteFacts.is_byte_mod.
    rewrite R1, Hle. unfold ordered. cbn [rev app]. fold (be32 (APSGBA.offset r)).
    rewrite be_value_be32, Z.mod_small by lia.
    destruct (readU16_at _ _ _ _ _ H1 ltac:(cbn [offset fileSize with_offset]; lia))
      as (R2 & H2); try apply ByteFacts.is_byte_mod.
    rewrite R2. cbn [littleEndian with_offset]. rewrite Hle. unfold ordered.
    cbn [rev app]. fold (be16 (APSGBA.sourceCrc16 r)).
    rewrite be_value_be16, Z.mod_small by lia.
    destruct (readU16_at _ _ _ _ _ H2 ltac:(cbn [offset fileSize with_offset]; lia))
      as (R3 & H3); try apply ByteFacts.is_byte_mod.
    rewrite R3. cbn [littleEndian with_offset]. rewrite Hle. unfold ordered.
    cbn [rev app]. fold (be16 (APSGBA.targetCrc16 r)).
    rewrite be_value_be16, Z.mod_small by lia.
    destruct (readBytes_at _ _ (APSGBA.xorBytes r) _ H3
                ltac:(cbn [offset fileSize with_offset]; lia)) as (R4 & H4).
    unfold APSGBA.APS_GBA_BLOCK_SIZE. rewrite <- Hl, R4.
    rewrite (IH fuel _ _ _ H4 Hsz Hle Hrs' ltac:(cbn [length] in Hfuel; lia)).
    cbn [APSGBA.sourceSize APSGBA.targetSize APSGBA.apsRecords].
    rewrite <- app_assoc. cbn [app]. now destruct r.
Qed.

(** [fromFile] reads back what [export] wrote: for every patch with 32-bit
    sizes whose records hold a 32-bit offset, two 16-bit checksums and a
    block of 65536 bytes, [export] returns a patch file, and [fromFile]
    returns the same patch from it if the patch has a record or more.  A
    patch without records exports to its twelve-byte header, from which
    [fromFile] returns [null]. *)
Theorem aps_export_parse_roundtrip (p : APSGBA.APSGBAPatch) (name : option string) :
  wf_patch p ->
  exists f f',
    APSGBA.export p name = JS.Ok f
    /\ APSGBA.fromFile f = (f', JS.Ok (parsed p)).
Proof.
  intros (HsS & HtS & Hrs).
  destruct (aps_export_encoding p name Hrs) as (f & Ex & Hd & Hs & _).
  exists f. unfold APSGBA.fromFile.
  set (f0 := with_littleEndian (seek f 0) true).
  assert (H0 : at_cursor f0 [] (encode p)).
  { split; [exact Hd|]. unfold f0, seek. cbn [offset with_offset with_littleEndian length].
    lia. }
  pose proof (aps_records_length _ Hrs) as HR.
  unfold encode in H0, Hs. rewrite !length_app, !le32_length in Hs.
  change (length (bytes_of_string APSGBA.APS_GBA_MAGIC)) with 4%nat in Hs.
  assert (Hs0 : fileSize f0 = fileSize f) by reflexivity.
  unfold readString_is.
  destruct (readBytes_at _ _ (bytes_of_string APSGBA.APS_GBA_MAGIC) _ H0) as (R1 & H1).
  { rewrite Hs0, Hs. unfold f0, seek. cbn [offset with_offset with_littleEndian].
    change (length (bytes_of_string APSGBA.APS_GBA_MAGIC)) with 4%nat. lia. }
  change (Z.of_nat (String.length APSGBA.APS_GBA_MAGIC)) with 4.
  change (Z.of_nat (length (bytes_of_string APSGBA.APS_GBA_MAGIC))) with 4 in R1, H1.
  rewrite R1.
  change (string_of_bytes (bytes_of_string APSGBA.APS_GBA_MAGIC))
    with APSGBA.APS_GBA_MAGIC.
  rewrite String.eqb_refl. cbn [negb orb app].
  assert (Ho0 : offset f0 = 0) by (unfold f0, seek; cbn; lia).
  set (f1 := with_offset f0 (offset f0 + 4)) in *.
  assert (Hs1 : fileSize f1 = 12 + Z.of_nat (length (APSGBA.apsRecords p))
                               * APSGBA.APS_GBA_RECORD_SIZE).
  { unfold f1. cbn [fileSize with_offset]. rewrite Hs0, Hs. lia. }
  rewrite Hs1. unfold parsed.
  destruct (APSGBA.apsRecords p) as [|r rs] eqn:Ers.
  - cbn [length]. exists f1. split; [exact Ex|]. reflexivity.
  - replace (12 + Z.of_nat (length (r :: rs)) * APSGBA.APS_GBA_RECORD_SIZE
             <? 12 + APSGBA.APS_GBA_RECORD_SIZE) with false
      by (symmetry; apply Z.ltb_ge; cbn [length]; unfold APSGBA.APS_GBA_RECORD_SIZE,
            APSGBA.APS_GBA_BLOCK_SIZE; lia).
    replace (12 + Z.of_nat (length (r :: rs)) * APSGBA.APS_GBA_RECORD_SIZE - 12)
      with (Z.of_nat (length (r :: rs)) * APSGBA.APS_GBA_RECORD_SIZE) by lia.
    rewrite Z.rem_mul by (unfold APSGBA.APS_GBA_RECORD_SIZE, APSGBA.APS_GBA_BLOCK_SIZE; lia).
    cbn [Z.eqb negb orb].
    unfold le32, be32 in H1. cbn [rev app] in H1.
    destruct (readU32_at _ _ _ _ _ _ _ H1) as (R2 & H2);
      try apply ByteFacts.is_byte_mod.
    { rewrite Hs1. unfold f1. cbn [offset with_offset]. rewrite Ho0. cbn [length].
      unfold APSGBA.APS_GBA_RECORD_SIZE, APSGBA.APS_GBA_BLOCK_SIZE. lia. }
    rewrite R2. unfold ordered.
    change (littleEndian f1) with true. cbn [rev app].
    fold (be32 (APSGBA.sourceSize p)). rewrite be_value_be32, Z.mod_small by lia.
    destruct (readU32_at _ _ _ _ _ _ _ H2) as (R3 & H3);
      try apply ByteFacts.is_byte_mod.
    { cbn [offset fileSize with_offset]. rewrite Hs1. unfold f1.
      cbn [offset with_offset]. rewrite Ho0. cbn [length].
      unfold APSGBA.APS_GBA_RECORD_SIZE, APSGBA.APS_GBA_BLOCK_SIZE. lia. }
    rewrite R3. unfold ordered.
    change (littleEndian (with_offset f1 (offset f1 + 4))) with true. cbn [rev app].
    fold (be32 (APSGBA.targetSize p)). rewrite be_value_be32, Z.mod_small by lia.
    eexists. split; [exact Ex|].
    rewrite (aps_parse_records (r :: rs) _ _ _ _ H3).
    + cbn [APSGBA.sourceSize APSGBA.targetSize APSGBA.apsRecords app].
      rewrite <- Ers. now destruct p.
    + cbn [fileSize data with_offset]. unfold f1. cbn [fileSize data with_offset].
      unfold f0, seek. cbn [fileSize data with_offset with_littleEndian].
      rewrite Hd. unfold encode. rewrite Ers, !length_app, !le32_length.
      change (length (bytes_of_string APSGBA.APS_GBA_MAGIC)) with 4%nat. exact Hs.
    + reflexivity.
    + exact Hrs.
    + cbn [fileSize with_offset]. rewrite Hs1.
      unfold APSGBA.APS_GBA_RECORD_SIZE, APSGBA.APS_GBA_BLOCK_SIZE. lia.
Qed.

Lemma aps_export_parse_roundtrip_witness :
  exists f f',
    APSGBA.export Samples2.aps_patch None = JS.Ok f
    /\ APSGBA.fromFile f = (f', JS.Ok (parsed Samples2.aps_patch)).
Proof.
  apply (aps_export_parse_roundtrip Samples2.aps_patch None).
  split; [cbn; lia|]. split; [cbn; lia|].
  constructor; [|constructor].
  split; [cbn; lia|]. split; [cbn; lia|]. split; [cbn; lia|].
  split; [vm_compute; reflexivity|].
  apply List.Forall_forall. intros x Hx.
  apply repeat_spec in Hx. subst x. unfold is_byte. lia.
Defined.

End APSProps.

(** ** BPS: [export] and [fromFile] *)

Module BPSFileProps.
Import BinFile Cursor CursorFacts BPSCodec.

Lemma bps_encode_mono fuel : forall x l fuel',
  bps_encode fuel x = Some l -> (fuel <= fuel')%nat -> bps_encode fuel' x = Some l.
Proof.
  induction fuel as [|fuel IH]; intros x l fuel' E Hle; [discriminate|].
  destruct fuel' as [|fuel']; [lia|].
  cbn [bps_encode] in *. destruct (x / 128 =? 0); [exact E|].
  destruct (bps_encode fuel (x / 128 - 1)) as [l0|] eqn:E0; [|discriminate].
  rewrite (IH _ _ fuel' E0) by lia. exact E.
Qed.

Lemma enc_spec x fuel :
  0 <= x < 2 ^ 31 -> (5 <= fuel)%nat ->
  bps_encode fuel x = Some (enc x)
  /\ Forall is_byte (enc x) /\ (1 <= length (enc x) <= 5)%nat.
Proof.
  intros Hx Hf.
  destruct (BPSProps.bps_encode_total 4 x) as (l & E & Hb & Hl).
  { change (128 ^ Z.of_nat 5) with (2 ^ 35). lia. }
  unfold enc. rewrite E. split; [|split; assumption].
  now apply (bps_encode_mono 5).
Qed.

Lemma write_enc f pre rest x fuel :
  at_cursor f pre rest -> 0 <= x < 2 ^ 31 -> (5 <= fuel)%nat ->
  exists f', BPS._writeVLV fuel f x = Some f'
    /\ at_cursor f' (pre ++ enc x) (skipn (length (enc x)) rest)
    /\ fileSize f' = Z.max (fileSize f) (offset f + Z.of_nat (length (enc x)))
    /\ littleEndian f' = littleEndian f.
Proof.
  intros Hat Hx Hf. destruct (enc_spec x fuel Hx Hf) as (E & _).
  pose proof (BPSProps.bps_write_encode fuel f pre rest x Hat Hx) as H.
  rewrite E in H. destruct (BPS._writeVLV fuel f x) as [f'|]; [|destruct H].
  exists f'. split; [reflexivity | exact H].
Qed.

Lemma len_enc x fuel :
  0 <= x < 2 ^ 31 -> (5 <= fuel)%nat ->
  BPS._getVLVLen fuel x = Some (Z.of_nat (length (enc x))).
Proof.
  intros Hx Hf.
  assert (H0 : at_cursor (of_bytes []) [] []) by (split; reflexivity).
  destruct (write_enc _ _ _ x fuel H0 Hx Hf) as (f' & E & (_ & Ho) & _).
  pose proof (BPSProps.bps_length_agrees fuel (of_bytes []) x 0 ltac:(cbn; lia)) as H.
  rewrite E in H. unfold BPS._getVLVLen.
  destruct (BPS._getVLVLen_loop fuel 0 x) as [n|]; [|destruct H].
  f_equal. rewrite Ho in H. cbn [app offset of_bytes] in H. lia.
Qed.

Lemma read_enc g pre rest x fuel :
  at_cursor g pre (enc x ++ rest) ->
  offset g + Z.of_nat (length (enc x)) <= fileSize g ->
  0 <= x < 2 ^ 31 -> (5 <= fuel)%nat ->
  BPS._readVLV fuel g = Some (x, with_offset g (offset g + Z.of_nat (length (enc x))))
  /\ at_cursor (with_offset g (offset g + Z.of_nat (length (enc x)))) (pre ++ enc x) rest.
Proof.
  intros Hat Hle Hx Hf. destruct (enc_spec x 5 Hx ltac:(lia)) as (E & _ & Hl).
  split.
  - unfold BPS._readVLV.
    rewrite (BPSProps.bps_read_encode 5 x (enc x) E ltac:(lia) fuel g pre rest 0 1 Hat Hle)
      by lia.
    do 2 f_equal. lia.
  - destruct Hat as (Hd & Ho). split; cbn [data offset with_offset].
    + now rewrite Hd, <- app_assoc.
    + rewrite length_app. lia.
Qed.

(** The numbers of an action, and how they are taken apart again. *)
Lemma shl_small a n :
  0 <= n < 32 -> 0 <= a -> a * 2 ^ n < 2 ^ 31 -> JS.shl a n = a * 2 ^ n.
Proof.
  intros Hn Ha Hb. unfold JS.shl.
  assert (a < 2 ^ 31).
  { assert (1 <= 2 ^ n) by (apply Z.lt_pred_le, Z.pow_pos_nonneg; lia). nia. }
  rewrite (VLVFacts.ToInt32_small a) by lia.
  rewrite (Z.mod_small n 32) by lia. rewrite Z.shiftl_mul_pow2 by lia.
  apply VLVFacts.ToInt32_small. lia.
Qed.

Lemma shr_small a n : 0 <= n < 32 -> 0 <= a < 2 ^ 31 -> JS.shr a n = a / 2 ^ n.
Proof.
  intros Hn Ha. unfold JS.shr. rewrite VLVFacts.ToInt32_small by lia.
  rewrite (Z.mod_small n 32) by lia. now rewrite Z.shiftr_div_pow2.
Qed.

Lemma band_low a k :
  0 <= k -> 0 <= a < 2 ^ 31 -> 2 ^ k - 1 < 2 ^ 31 -> JS.band a (2 ^ k - 1) = a mod 2 ^ k.
Proof.
  intros Hk Ha Hb. unfold JS.band.
  assert (0 < 2 ^ k) by (apply Z.pow_pos_nonneg; lia).
  rewrite !VLVFacts.ToInt32_small by lia.
  replace (2 ^ k - 1) with (Z.ones k) by (rewrite Z.ones_equiv; lia).
  now rewrite Z.land_ones.
Qed.

Lemma action_code_spec a :
  wf_action a ->
  0 <= BPS.type a < 4
  /\ BPS.action_code a = (BPS.length a - 1) * 4 + BPS.type a
  /\ 0 <= BPS.action_code a < 2 ^ 31
  /\ JS.band (BPS.action_code a) 3 = BPS.type a
  /\ JS.shr (BPS.action_code a) 2 + 1 = BPS.length a.
Proof.
  intros (Hl & Ht).
  assert (H4 : 0 <= BPS.type a < 4).
  { unfold BPS.BPS_ACTION_SOURCE_READ, BPS.BPS_ACTION_TARGET_READ,
      BPS.BPS_ACTION_SOURCE_COPY, BPS.BPS_ACTION_TARGET_COPY in Ht.
    destruct Ht as [(-> & _)|[(-> & _)|([-> | ->] & _)]]; lia. }
  assert (Hc : BPS.action_code a = (BPS.length a - 1) * 4 + BPS.type a).
  { unfold BPS.action_code. rewrite shl_small by lia. reflexivity. }
  split; [exact H4|]. split; [exact Hc|]. rewrite Hc.
  split; [lia|]. split.
  - change 3 with (2 ^ 2 - 1). rewrite band_low by lia.
    change (2 ^ 2) with 4. rewrite Z.add_comm, Z.mod_add by lia.
    apply Z.mod_small; lia.
  - rewrite shr_small by lia. change (2 ^ 2) with 4.
    rewrite <- (Z.div_unique ((BPS.length a - 1) * 4 + BPS.type a) 4
                  (BPS.length a - 1) (BPS.type a)) by lia.
    lia.
Qed.

Lemma offset_code_spec a r :
  BPS.relativeOffset a = Some r -> - 2 ^ 30 < r < 2 ^ 30 ->
  0 <= BPS.offset_code a < 2 ^ 31
  /\ (if negb (JS.band (BPS.offset_code a) 1 =? 0) then -1 else 1)
     * JS.shr (BPS.offset_code a) 1 = r.
Proof.
  intros Hr Hb. unfold BPS.offset_code. rewrite Hr.
  rewrite shl_small by lia. change (2 ^ 1) with 2.
  set (s := if r <? 0 then 1 else 0).
  assert (Hs : 0 <= s < 2) by (unfold s; destruct (r <? 0); lia).
  split; [lia|].
  assert (Hm : JS.band (Z.abs r * 2 + s) 1 = s).
  { change 1 with (2 ^ 1 - 1). rewrite band_low by lia. change (2 ^ 1) with 2.
    symmetry. apply (Z.mod_unique _ _ (Z.abs r)); lia. }
  assert (Hd : JS.shr (Z.abs r * 2 + s) 1 = Z.abs r).
  { rewrite shr_small by lia. change (2 ^ 1) with 2.
    symmetry. apply (Z.div_unique _ _ _ s); lia. }
  rewrite Hm, Hd.
  unfold s. destruct (r <? 0) eqn:E; [apply Z.ltb_lt in E | apply Z.ltb_ge in E];
    cbn [Z.eqb negb]; lia.
Qed.

(** The three kinds of actions, as the tests of the code see them. *)
Lemma action_view a :
  wf_action a ->
  ((BPS.type a =? BPS.BPS_ACTION_TARGET_READ) = false
   /\ BPS.is_copy (BPS.type a) = false
   /\ BPS.bytes a = None /\ BPS.relativeOffset a = None)
  \/ ((BPS.type a =? BPS.BPS_ACTION_TARGET_READ) = true
      /\ BPS.relativeOffset a = None
      /\ exists bs, BPS.bytes a = Some bs
                    /\ Z.of_nat (length bs) = BPS.length a /\ Forall is_byte bs)
  \/ ((BPS.type a =? BPS.BPS_ACTION_TARGET_READ) = false
      /\ BPS.is_copy (BPS.type a) = true
      /\ BPS.bytes a = None
      /\ exists r, BPS.relativeOffset a = Some r /\ - 2 ^ 30 < r < 2 ^ 30).
Proof.
  intros (_ & [(Ht & Hb & Hr)|[(Ht & Hr & Hb)|(Ht & Hb & Hr)]]).
  - left. rewrite Ht. auto.
  - right; left. rewrite Ht. auto.
  - right; right. destruct Ht as [Ht|Ht]; rewrite Ht; auto.
Qed.

Lemma encode_action_length a :
  wf_action a ->
  length (encode_action a)
  = Nat.add (length (enc (BPS.action_code a)))
      (if BPS.type a =? BPS.BPS_ACTION_TARGET_READ then Z.to_nat (BPS.length a)
       else if BPS.is_copy (BPS.type a) then length (enc (BPS.offset_code a))
       else 0%nat).
Proof.
  intros Hw. unfold encode_action. rewrite length_app. f_equal.
  destruct (action_view a Hw) as [(T1 & T2 & _)|[(T1 & _ & bs & Hb & Hl & Hbs)|(T1 & T2 & _)]];
    rewrite T1, ?T2; try reflexivity.
  rewrite Hb, PMSRProps.of_array_bytes by exact Hbs. lia.
Qed.

Lemma action_size fuel s a :
  wf_action a -> (5 <= fuel)%nat ->
  BPS.export_size_step fuel s a = JS.Ok (s + Z.of_nat (length (encode_action a))).
Proof.
  intros Hw Hf. destruct (action_code_spec a Hw) as (_ & _ & Hc & _).
  unfold BPS.export_size_step. rewrite (len_enc _ fuel Hc Hf). cbn [BPS.returned JS.bind].
  rewrite (encode_action_length a Hw).
  destruct (action_view a Hw)
    as [(T1 & T2 & _)|[(T1 & _ & bs & Hb & Hl & Hbs)|(T1 & T2 & _ & r & Hr & Hb)]];
    rewrite T1, ?T2.
  - f_equal. lia.
  - f_equal. lia.
  - destruct (offset_code_spec a r Hr Hb) as (Ho & _).
    rewrite (len_enc _ fuel Ho Hf). cbn [BPS.returned JS.bind]. f_equal. lia.
Qed.

Lemma actions_size fuel acts : forall s,
  Forall wf_action acts -> (5 <= fuel)%nat ->
  JS.for_of acts (BPS.export_size_step fuel) s
  = JS.Ok (s + Z.of_nat (length (flat_map encode_action acts))).
Proof.
  induction acts as [|a acts IH]; intros s Hw Hf.
  - cbn. f_equal. lia.
  - inversion Hw as [|? ? Ha Hw']; subst.
    cbn [JS.for_of flat_map]. rewrite (action_size fuel s a Ha Hf). cbn [JS.bind].
    rewrite (IH _ Hw' Hf), length_app. f_equal. lia.
Qed.

(** One action written at the cursor. *)
Lemma export_action_at fuel f pre rest a :
  at_cursor f pre rest -> wf_action a -> (5 <= fuel)%nat ->
  exists f', BPS.export_action fuel f a = JS.Ok f'
    /\ at_cursor f' (pre ++ encode_action a) (skipn (length (encode_action a)) rest)
    /\ fileSize f' = Z.max (fileSize f) (offset f + Z.of_nat (length (encode_action a)))
    /\ littleEndian f' = littleEndian f.
Proof.
  intros Hat Hw Hf. destruct (action_code_spec a Hw) as (_ & _ & Hc & _).
  unfold BPS.export_action, encode_action.
  destruct (write_enc f pre rest _ fuel Hat Hc Hf) as (f1 & E1 & H1 & S1 & L1).
  rewrite E1. cbn [BPS.returned JS.bind].
  pose proof Hat as (_ & O0). pose proof H1 as (_ & O1). rewrite length_app in O1.
  destruct (action_view a Hw)
    as [(T1 & T2 & _)|[(T1 & _ & bs & Hb & Hl & Hbs)|(T1 & T2 & _ & r & Hr & Hb)]];
    rewrite T1, ?T2.
  - exists f1. split; [reflexivity|]. rewrite !app_nil_r. auto.
  - rewrite Hb, PMSRProps.of_array_bytes by exact Hbs.
    destruct (writeBytes_at f1 _ _ bs H1) as (f2 & E2 & H2 & S2 & L2 & _).
    exists f2. split; [exact E2|].
    rewrite <- app_assoc, skipn_skipn in H2.
    rewrite length_app, (Nat.add_comm (length (enc _))).
    split; [exact H2|]. split; [lia | congruence].
  - destruct (offset_code_spec a r Hr Hb) as (Ho & _).
    destruct (write_enc f1 _ _ _ fuel H1 Ho Hf) as (f2 & E2 & H2 & S2 & L2).
    rewrite E2. cbn [BPS.returned]. exists f2. split; [reflexivity|].
    rewrite <- app_assoc, skipn_skipn in H2.
    rewrite length_app, (Nat.add_comm (length (enc (BPS.action_code a)))).
    split; [exact H2|]. split; [lia | congruence].
Qed.

Lemma export_actions_at fuel acts : forall f pre rest,
  at_cursor f pre rest -> offset f <= fileSize f ->
  Forall wf_action acts -> (5 <= fuel)%nat ->
  exists f', JS.for_of acts (BPS.export_action fuel) f = JS.Ok f'
    /\ at_cursor f' (pre ++ flat_map encode_action acts)
                 (skipn (length (flat_map encode_action acts)) rest)
    /\ fileSize f'
       = Z.max (fileSize f) (offset f + Z.of_nat (length (flat_map encode_action acts)))
    /\ littleEndian f' = littleEndian f.
Proof.
  induction acts as [|a acts IH]; intros f pre rest Hat Hsz Hw Hf.
  - exists f. cbn [JS.for_of flat_map length skipn]. rewrite app_nil_r.
    split; [reflexivity|]. split; [exact Hat|]. split; [lia | reflexivity].
  - inversion Hw as [|? ? Ha Hw']; subst.
    destruct (export_action_at fuel f pre rest a Hat Ha Hf) as (f1 & E1 & H1 & S1 & L1).
    pose proof Hat as (_ & O0). pose proof H1 as (_ & O1). rewrite length_app in O1.
    destruct (IH f1 _ _ H1 ltac:(lia) Hw' Hf) as (f2 & E2 & H2 & S2 & L2).
    exists f2. cbn [JS.for_of flat_map]. rewrite E1. cbn [JS.bind].
    split; [exact E2|].
    rewrite <- app_assoc, skipn_skipn in H2.
    rewrite length_app, (Nat.add_comm (length (encode_action a))).
    split; [exact H2|]. split; [lia | congruence].
Qed.

Lemma encode_length p :
  Z.of_nat (length (encode p))
  = 4 + Z.of_nat (length (enc (BPS.sourceSize p)))
    + Z.of_nat (length (enc (BPS.targetSize p)))
    + Z.of_nat (length (enc (Z.of_nat (String.length (BPS.metaData p)))))
    + Z.of_nat (String.length (BPS.metaData p))
    + Z.of_nat (length (flat_map encode_action (BPS.actions p)))
    + 12.
Proof.
  unfold encode, encode_body.
  rewrite !length_app, !APSProps.le32_length, !BinFileProps.bytes_of_string_length.
  change (String.length BPS.BPS_MAGIC) with 4%nat. lia.
Qed.

(** What [export] returns: a little-endian buffer that holds the encoding
    of the patch and nothing else. *)
Lemma bps_export_encoding fuel p name :
  0 <= BPS.sourceSize p < 2 ^ 31 -> 0 <= BPS.targetSize p < 2 ^ 31 ->
  Z.of_nat (String.length (BPS.metaData p)) < 2 ^ 31 ->
  Forall wf_action (BPS.actions p) -> (5 <= fuel)%nat ->
  exists f, BPS.export fuel p name = JS.Ok f
    /\ data f = encode p
    /\ fileSize f = Z.of_nat (length (encode p))
    /\ littleEndian f = true.
Proof.
  intros HsS HtS Hm Hw Hf.
  assert (HmL : 0 <= Z.of_nat (String.length (BPS.metaData p)) < 2 ^ 31) by lia.
  unfold BPS.export.
  rewrite (len_enc _ fuel HsS Hf). cbn [BPS.returned JS.bind].
  rewrite (len_enc _ fuel HtS Hf). cbn [BPS.returned JS.bind].
  rewrite (len_enc _ fuel HmL Hf). cbn [BPS.returned JS.bind].
  rewrite (actions_size fuel _ _ Hw Hf). cbn [JS.bind].
  change (Z.of_nat (String.length BPS.BPS_MAGIC)) with 4.
  pose proof (encode_length p) as HL.
  set (n := 4 + _ + _ + _ + _ + _ + 12) in *.
  unfold of_size, U8.alloc.
  replace (n <? 0) with false by (symmetry; apply Z.ltb_ge; lia).
  cbn [JS.bind].
  match goal with
  | |- context [writeString_ascii ?g BPS.BPS_MAGIC] => set (f0 := g)
  end.
  assert (H0 : at_cursor f0 [] (repeat 0 (Z.to_nat n))) by (split; reflexivity).
  assert (S0 : fileSize f0 = n) by reflexivity.
  assert (L0 : littleEndian f0 = true) by reflexivity.
  unfold writeString_ascii.
  destruct (writeBytes_at f0 _ _ (bytes_of_string BPS.BPS_MAGIC) H0)
    as (f1 & E1 & H1 & S1 & L1 & _).
  rewrite E1. cbn [JS.bind]. cbn [app] in H1.
  pose proof H0 as (_ & O0). pose proof H1 as (_ & O1).
  destruct (write_enc f1 _ _ _ fuel H1 HsS Hf) as (f2 & E2 & H2 & S2 & L2).
  rewrite E2. cbn [BPS.returned JS.bind].
  pose proof H2 as (_ & O2). rewrite !length_app in O2.
  destruct (write_enc f2 _ _ _ fuel H2 HtS Hf) as (f3 & E3 & H3 & S3 & L3).
  rewrite E3. cbn [BPS.returned JS.bind].
  pose proof H3 as (_ & O3). rewrite !length_app in O3.
  destruct (write_enc f3 _ _ _ fuel H3 HmL Hf) as (f4 & E4 & H4 & S4 & L4).
  rewrite E4. cbn [BPS.returned JS.bind].
  pose proof H4 as (_ & O4). rewrite !length_app in O4.
  destruct (writeBytes_at f4 _ _ (bytes_of_string (BPS.metaData p)) H4)
    as (f5 & E5 & H5 & S5 & L5 & _).
  rewrite E5. cbn [JS.bind].
  pose proof H5 as (_ & O5). rewrite !length_app in O5.
  pose proof (BinFileProps.bytes_of_string_length (BPS.metaData p)) as LM.
  change (length (bytes_of_string BPS.BPS_MAGIC)) with 4%nat in *.
  change (length (@nil Z)) with 0%nat in *.
  destruct (export_actions_at fuel (BPS.actions p) f5 _ _ H5 ltac:(lia) Hw Hf)
    as (f6 & E6 & H6 & S6 & L6).
  rewrite E6. cbn [JS.bind].
  pose proof H6 as (_ & O6). rewrite !length_app in O6.
  change (length (bytes_of_string BPS.BPS_MAGIC)) with 4%nat in O6.
  destruct (writeU32_at f6 _ _ (BPS.sourceChecksum p) H6) as (H7 & S7 & L7 & _).
  assert (LE6 : littleEndian f6 = true) by congruence.
  rewrite LE6 in H7, L7. unfold ordered in H7. fold (APSCodec.le32 (BPS.sourceChecksum p)) in H7.
  pose proof H7 as (_ & O7). rewrite !length_app, APSProps.le32_length in O7.
  change (length (bytes_of_string BPS.BPS_MAGIC)) with 4%nat in O7.
  destruct (writeU32_at _ _ _ (BPS.targetChecksum p) H7) as (H8 & S8 & L8 & _).
  rewrite L7 in H8, L8. unfold ordered in H8. fold (APSCodec.le32 (BPS.targetChecksum p)) in H8.
  pose proof H8 as (_ & O8). rewrite !length_app, !APSProps.le32_length in O8.
  change (length (bytes_of_string BPS.BPS_MAGIC)) with 4%nat in O8.
  destruct (writeU32_at _ _ _ (BPS.patchChecksum p) H8) as (H9 & S9 & L9 & _).
  rewrite L8 in H9, L9. unfold ordered in H9. fold (APSCodec.le32 (BPS.patchChecksum p)) in H9.
  eexists. split; [reflexivity|].
  destruct H9 as (Hd & O9). rewrite !length_app, !APSProps.le32_length in O9.
  change (length (bytes_of_string BPS.BPS_MAGIC)) with 4%nat in O9.
  rewrite !skipn_skipn in Hd.
  rewrite (skipn_all2 (repeat 0 (Z.to_nat n))) in Hd by (rewrite repeat_length; lia).
  rewrite app_nil_r in Hd.
  split; [rewrite Hd; unfold encode, encode_body; rewrite <- !app_assoc; reflexivity|].
  split; [|exact L9]. lia.
Qed.

(** One action read back. *)
Lemma read_action_at fuel f pre rest a :
  at_cursor f pre (encode_action a ++ rest) ->
  offset f + Z.of_nat (length (encode_action a)) <= fileSize f ->
  wf_action a -> (5 <= fuel)%nat ->
  exists f', BPS.read_action fuel f = JS.Ok (a, f')
    /\ at_cursor f' (pre ++ encode_action a) rest
    /\ fileSize f' = fileSize f /\ littleEndian f' = littleEndian f
    /\ data f' = data f.
Proof.
  intros Hat Hle Hw Hf.
  destruct (action_code_spec a Hw) as (_ & _ & Hc & Hty & Hln).
  pose proof (encode_action_length a Hw) as HL.
  unfold encode_action in Hat. rewrite <- app_assoc in Hat.
  destruct (read_enc f pre _ _ fuel Hat ltac:(lia) Hc Hf) as (R1 & H1).
  unfold BPS.read_action. rewrite R1. cbn [BPS.returned JS.bind].
  rewrite Hty, Hln. unfold encode_action.
  destruct (action_view a Hw)
    as [(T1 & T2 & Hb & Hr)|[(T1 & Hr & bs & Hb & Hl & Hbs)|(T1 & T2 & Hb & r & Hr & Hrb)]];
    rewrite T1, ?T2 in *.
  - eexists. split; [|rewrite app_nil_r; split; [exact H1 | auto]].
    destruct a as [ty len byt rel]. cbn in Hb, Hr. now subst.
  - rewrite Hb, PMSRProps.of_array_bytes in H1 |- * by exact Hbs.
    destruct (readBytes_at _ _ bs _ H1 ltac:(cbn [offset fileSize with_offset]; lia))
      as (R2 & H2).
    rewrite <- Hl, R2. eexists. split; [|rewrite app_assoc; split; [exact H2 | auto]].
    destruct a as [ty len byt rel]. cbn in Hb, Hr, Hl. now subst.
  - destruct (offset_code_spec a r Hr Hrb) as (Ho & Hdec).
    destruct (read_enc _ _ _ _ fuel H1 ltac:(cbn [offset fileSize with_offset]; lia) Ho Hf)
      as (R2 & H2).
    rewrite R2. cbn [BPS.returned JS.bind]. rewrite Hdec.
    eexists. split; [|rewrite app_assoc; split; [exact H2 | auto]].
    destruct a as [ty len byt rel]. cbn in Hb, Hr. now subst.
Qed.

Lemma enc_nonempty x : 0 <= x < 2 ^ 31 -> (1 <= length (enc x))%nat.
Proof. intros Hx. now destruct (enc_spec x 5 Hx ltac:(lia)) as (_ & _ & H & _). Qed.

(** The loop of [fromFile] over the encoding of the actions, which the
    twelve bytes of the checksums follow. *)
Lemma read_actions_at fuel acts : forall turns acc f pre tl,
  at_cursor f pre (flat_map encode_action acts ++ tl) ->
  length tl = 12%nat -> fileSize f = Z.of_nat (length (data f)) ->
  Forall wf_action acts -> (length acts <= turns)%nat -> (5 <= fuel)%nat ->
  exists f', BPS.read_actions turns fuel acc f (fileSize f - 12) = JS.Ok (acc ++ acts, f')
    /\ at_cursor f' (pre ++ flat_map encode_action acts) tl
    /\ fileSize f' = fileSize f /\ littleEndian f' = littleEndian f
    /\ data f' = data f.
Proof.
  induction acts as [|a acts IH]; intros turns acc f pre tl Hat Htl Hsz Hw Ht Hf.
  - cbn [flat_map app] in *. pose proof Hat as (Hd & Ho).
    assert (Hg : (offset f <? fileSize f - 12) = false).
    { apply Z.ltb_ge. rewrite Hsz, Hd, Ho, length_app. lia. }
    exists f. rewrite !app_nil_r.
    destruct turns; cbn [BPS.read_actions]; rewrite Hg; auto.
  - inversion Hw as [|? ? Ha Hw']; subst.
    destruct (action_code_spec a Ha) as (_ & _ & Hc & _).
    pose proof (enc_nonempty _ Hc) as Hne.
    pose proof (encode_action_length a Ha) as HL.
    pose proof Hat as (Hd & Ho). cbn [flat_map] in Hat, Hd.
    rewrite <- app_assoc in Hat.
    assert (Hlen : Z.of_nat (length (data f))
                   = Z.of_nat (length pre) + Z.of_nat (length (encode_action a))
                     + Z.of_nat (length (flat_map encode_action acts)) + 12).
    { rewrite Hd, !length_app. lia. }
    assert (Hg : (offset f <? fileSize f - 12) = true) by (apply Z.ltb_lt; lia).
    destruct turns as [|turns]; [cbn [length] in Ht; lia|].
    cbn [BPS.read_actions]. rewrite Hg.
    destruct (read_action_at fuel f pre _ a Hat ltac:(lia) Ha Hf)
      as (f1 & E1 & H1 & S1 & L1 & D1).
    rewrite E1. cbn [JS.bind].
    destruct (IH turns (acc ++ [a]) f1 _ tl H1 Htl ltac:(congruence) Hw'
                ltac:(cbn [length] in Ht; lia) Hf)
      as (f2 & E2 & H2 & S2 & L2 & D2).
    exists f2. rewrite <- S1, E2, <- !app_assoc. cbn [app flat_map].
    split; [reflexivity|]. rewrite <- app_assoc in H2.
    split; [exact H2|]. split; [congruence|]. split; congruence.
Qed.

Lemma crc32_range l : 0 <= UPSCodec.crc32_bytes l < 2 ^ 32.
Proof.
  unfold UPSCodec.crc32_bytes, hashCRC32, JS.ushr, JS.ToUint32.
  change (0 mod 32) with 0. rewrite Z.shiftr_0_r. apply Z.mod_pos_bound. lia.
Qed.

Lemma crc32_prefix g e :
  hashCRC32 g 0 (Some e) = UPSCodec.crc32_bytes (U8.slice (data g) 0 e).
Proof.
  unfold UPSCodec.crc32_bytes, hashCRC32, of_bytes. cbn [data fileSize].
  now rewrite BinFileFacts.slice_full.
Qed.

Lemma le32_value g pre v rest :
  at_cursor g pre (APSCodec.le32 v ++ rest) -> offset g + 4 <= fileSize g ->
  littleEndian g = true -> 0 <= v < 2 ^ 32 ->
  readU32 g = (v, with_offset g (offset g + 4))
  /\ at_cursor (with_offset g (offset g + 4)) (pre ++ APSCodec.le32 v) rest.
Proof.
  intros Hat Hle HL Hv. unfold APSCodec.le32, be32 in *. cbn [rev app] in *.
  destruct (readU32_at _ _ _ _ _ _ _ Hat Hle) as (R & H);
    try apply ByteFacts.is_byte_mod.
  split; [|exact H]. rewrite R, HL. unfold ordered. cbn [rev app]. fold (be32 v).
  now rewrite be_value_be32, Z.mod_small by lia.
Qed.

(** [fromFile] reads back what [export] wrote: for every patch whose
    numbers fit the file format and whose own checksum is the CRC32 of its
    file, [export] returns a patch file, and [fromFile] returns the same
    patch from it, its check of the checksum included. *)
Theorem bps_export_parse_roundtrip (fuel : nat) (p : BPS.BPSPatch) (name : option string) :
  wf_patch p -> (5 <= fuel)%nat -> (length (BPS.actions p) <= fuel)%nat ->
  exists f f',
    BPS.export fuel p name = JS.Ok f
    /\ BPS.fromFile fuel f = JS.Ok (p, f').
Proof.
  intros (HsS & HtS & Hm & HsC & HtC & Hw & HpC) Hf Hn.
  assert (HmL : 0 <= Z.of_nat (String.length (BPS.metaData p)) < 2 ^ 31) by lia.
  pose proof (crc32_range (encode_body p)) as HpR. rewrite <- HpC in HpR.
  destruct (bps_export_encoding fuel p name HsS HtS Hm Hw Hf) as (f & Ex & Hd & Hs & _).
  destruct (bps_export_encoding fuel p None HsS HtS Hm Hw Hf) as (f2 & Ex2 & Hd2 & Hs2 & _).
  exists f. pose proof (encode_length p) as HL.
  pose proof (BinFileProps.bytes_of_string_length (BPS.metaData p)) as LM.
  unfold BPS.fromFile.
  set (g0 := seek (with_littleEndian f true) 4).
  assert (S0 : fileSize g0 = Z.of_nat (length (encode p))) by exact Hs.
  assert (D0 : data g0 = encode p) by exact Hd.
  assert (L0 : littleEndian g0 = true) by reflexivity.
  assert (O0 : offset g0 = 4).
  { unfold g0, seek. cbn [offset fileSize with_offset with_littleEndian]. lia. }
  assert (H0 : at_cursor g0 (bytes_of_string BPS.BPS_MAGIC)
                 (enc (BPS.sourceSize p) ++ enc (BPS.targetSize p)
                  ++ enc (Z.of_nat (String.length (BPS.metaData p)))
                  ++ bytes_of_string (BPS.metaData p)
                  ++ (flat_map encode_action (BPS.actions p)
                      ++ APSCodec.le32 (BPS.sourceChecksum p)
                      ++ APSCodec.le32 (BPS.targetChecksum p)
                      ++ APSCodec.le32 (BPS.patchChecksum p)))).
  { split; [|exact O0]. rewrite D0. unfold encode, encode_body.
    rewrite <- !app_assoc. reflexivity. }
  clearbody g0.
  destruct (read_enc g0 _ _ _ fuel H0 ltac:(lia) HsS Hf) as (R1 & H1).
  rewrite R1. cbn [BPS.returned JS.bind].
  pose proof H1 as (_ & O1). rewrite !length_app in O1.
  change (length (bytes_of_string BPS.BPS_MAGIC)) with 4%nat in O1.
  set (g1 := with_offset g0 _) in *.
  assert (S1 : fileSize g1 = fileSize g0) by reflexivity.
  assert (L1 : littleEndian g1 = true) by exact L0.
  assert (D1 : data g1 = data g0) by reflexivity.
  clearbody g1.
  destruct (read_enc g1 _ _ _ fuel H1 ltac:(lia) HtS Hf) as (R2 & H2).
  rewrite R2. cbn [BPS.returned JS.bind].
  pose proof H2 as (_ & O2). rewrite !length_app in O2.
  change (length (bytes_of_string BPS.BPS_MAGIC)) with 4%nat in O2.
  set (g2 := with_offset g1 _) in *.
  assert (S2 : fileSize g2 = fileSize g1) by reflexivity.
  assert (L2 : littleEndian g2 = true) by exact L1.
  assert (D2 : data g2 = data g1) by reflexivity.
  clearbody g2.
  destruct (read_enc g2 _ _ _ fuel H2 ltac:(lia) HmL Hf) as (R3 & H3).
  rewrite R3. cbn [BPS.returned JS.bind].
  pose proof H3 as (_ & O3). rewrite !length_app in O3.
  change (length (bytes_of_string BPS.BPS_MAGIC)) with 4%nat in O3.
  set (g3 := with_offset g2 _) in *.
  assert (S3 : fileSize g3 = fileSize g2) by reflexivity.
  assert (L3 : littleEndian g3 = true) by exact L2.
  assert (D3 : data g3 = data g2) by reflexivity.
  clearbody g3.
  (* the metadata *)
  assert (HM : exists g4,
             (if negb (Z.of_nat (String.length (BPS.metaData p)) =? 0)
              then readString_ascii g3 (Z.of_nat (String.length (BPS.metaData p)))
              else (EmptyString, g3)) = (BPS.metaData p, g4)
             /\ at_cursor g4
                  ((((bytes_of_string BPS.BPS_MAGIC ++ enc (BPS.sourceSize p))
                     ++ enc (BPS.targetSize p))
                    ++ enc (Z.of_nat (String.length (BPS.metaData p))))
                   ++ bytes_of_string (BPS.metaData p))
                  (flat_map encode_action (BPS.actions p)
                   ++ APSCodec.le32 (BPS.sourceChecksum p)
                   ++ APSCodec.le32 (BPS.targetChecksum p)
                   ++ APSCodec.le32 (BPS.patchChecksum p))
             /\ fileSize g4 = fileSize g3 /\ littleEndian g4 = true
             /\ data g4 = data g3).
  { destruct (Z.of_nat (String.length (BPS.metaData p)) =? 0) eqn:E0; cbn [negb].
    - apply Z.eqb_eq in E0. destruct (BPS.metaData p) as [|c s]; [|cbn in E0; lia].
      exists g3. cbn [bytes_of_string list_ascii_of_string map app] in *.
      rewrite app_nil_r. auto.
    - destruct (readBytes_at g3 _ (bytes_of_string (BPS.metaData p)) _ H3 ltac:(lia))
        as (R4 & H4).
      unfold readString_ascii.
      replace (readBytes g3 (Z.of_nat (String.length (BPS.metaData p))))
        with (readBytes g3 (Z.of_nat (length (bytes_of_string (BPS.metaData p)))))
        by (now rewrite LM).
      rewrite R4, BinFileProps.string_of_bytes_of_string.
      eexists. split; [reflexivity|]. split; [exact H4|]. auto. }
  destruct HM as (g4 & -> & H4 & S4 & L4 & D4).
  pose proof H4 as (_ & O4). rewrite !length_app in O4.
  change (length (bytes_of_string BPS.BPS_MAGIC)) with 4%nat in O4.
  destruct (read_actions_at fuel (BPS.actions p) fuel [] g4 _ _ H4)
    as (g5 & E5 & H5 & S5 & L5 & D5); try assumption.
  { rewrite !length_app, !APSProps.le32_length. reflexivity. }
  { rewrite D4, D3, D2, D1, D0. congruence. }
  rewrite E5. cbn [JS.bind app].
  pose proof H5 as (_ & O5). rewrite !length_app in O5.
  change (length (bytes_of_string BPS.BPS_MAGIC)) with 4%nat in O5.
  destruct (le32_value g5 _ _ _ H5 ltac:(lia) ltac:(congruence) HsC) as (R6 & H6).
  rewrite R6.
  destruct (le32_value _ _ _ _ H6 ltac:(cbn [offset fileSize with_offset]; lia)
              ltac:(cbn [littleEndian with_offset]; congruence) HtC) as (R7 & H7).
  rewrite R7.
  assert (H7' : at_cursor (with_offset (with_offset g5 (offset g5 + 4))
                             (offset (with_offset g5 (offset g5 + 4)) + 4))
                  (((((((bytes_of_string BPS.BPS_MAGIC ++ enc (BPS.sourceSize p))
                        ++ enc (BPS.targetSize p))
                       ++ enc (Z.of_nat (String.length (BPS.metaData p))))
                      ++ bytes_of_string (BPS.metaData p))
                     ++ flat_map encode_action (BPS.actions p))
                    ++ APSCodec.le32 (BPS.sourceChecksum p))
                   ++ APSCodec.le32 (BPS.targetChecksum p))
                  (APSCodec.le32 (BPS.patchChecksum p) ++ []))
    by (rewrite app_nil_r; exact H7).
  destruct (le32_value _ _ _ _ H7'
              ltac:(cbn [offset fileSize with_offset]; lia)
              ltac:(cbn [littleEndian with_offset]; congruence) HpR) as (R8 & _).
  rewrite R8.
  replace (BPS.mkPatch (BPS.sourceSize p) (BPS.targetSize p) (BPS.metaData p)
             (BPS.actions p) (BPS.sourceChecksum p) (BPS.targetChecksum p)
             (BPS.patchChecksum p)) with p by (now destruct p).
  unfold BPS.calculateFileChecksum. rewrite Ex2. cbn [JS.bind].
  rewrite crc32_prefix, Hd2, Hs2.
  assert (Hb : U8.slice (encode p) 0 (Z.of_nat (length (encode p)) - 4) = encode_body p).
  { rewrite FileFacts.slice_head by lia. unfold encode.
    rewrite length_app, APSProps.le32_length.
    replace (Z.to_nat (Z.of_nat (length (encode_body p) + 4) - 4))
      with (length (encode_body p) + 0)%nat by lia.
    rewrite firstn_app_2. cbn [firstn]. apply app_nil_r. }
  rewrite Hb, <- HpC, Z.eqb_refl. cbn [negb].
  eexists. split; [exact Ex | reflexivity].
Qed.

Lemma bps_export_parse_roundtrip_witness :
  exists f f',
    BPS.export 8 Samples2.bps_patch None = JS.Ok f
    /\ BPS.fromFile 8 f = JS.Ok (Samples2.bps_patch, f').
Proof.
  apply (bps_export_parse_roundtrip 8 Samples2.bps_patch None).
  - split; [cbn; lia|]. split; [cbn; lia|]. split; [cbn; lia|].
    split; [cbn; lia|]. split; [cbn; lia|]. split.
    + unfold wf_action.
      constructor; [cbn; split; [lia | left; auto]|].
      constructor; [cbn; split; [lia|]; right; left; split; [reflexivity|];
                    split; [reflexivity|]; exists [7; 8; 9];
                    split; [reflexivity|]; split; [reflexivity|];
                    unfold is_byte; repeat constructor; lia|].
      constructor; [cbn; split; [lia|]; right; right; split; [left; reflexivity|];
                    split; [reflexivity|]; exists (-1); split; [reflexivity | lia]|].
      constructor; [cbn; split; [lia|]; right; right; split; [right; reflexivity|];
                    split; [reflexivity|]; exists 300; split; [reflexivity | lia]|].
      constructor.
    + reflexivity.
  - lia.
  - cbn. lia.
Defined.

End BPSFileProps.

(** ** UPS: the parser *)

Module UPSProps.
Import BinFile Cursor UPSCodec FileFacts.

Lemma readVLV_loop_moves n : forall f value shift,
  inb f -> fileSize f - offset f <= Z.of_nat n ->
  exists v f', readVLV_loop (S n) f value shift = Some (v, f')
    /\ inb f' /\ fileSize f' = fileSize f
    /\ offset f <= offset f'
    /\ (offset f < fileSize f -> offset f < offset f').
Proof.
  induction n as [|n IH]; intros f value shift Hi Hn.
  - cbn [readVLV_loop]. unfold inb in Hi.
    rewrite BinFileFacts.readU8_eof by lia.
    cbn [JS.num]. change (JS.band 0 128 =? 0) with true. cbv iota.
    eexists _, f. split; [reflexivity|]. split; [exact Hi|]. split; [reflexivity|].
    split; lia.
  - change (readVLV_loop (S (S n)) f value shift)
      with (let '(byte, f1) := readU8 f in
            let value1 := value + JS.band (JS.num byte) 0x7f * shift in
            if JS.band (JS.num byte) 0x80 =? 0 then Some (value1, f1)
            else let shift1 := JS.shl shift 7 in
                 readVLV_loop (S n) f1 (value1 + shift1) shift1).
    destruct (IPSProps.readU8_inb f Hi) as (I1 & S1 & O1 & P1).
    destruct (readU8 f) as [byte f1]. cbn [snd] in *. cbv zeta.
    destruct (JS.band (JS.num byte) 128 =? 0).
    + eexists _, f1. split; [reflexivity|]. split; [exact I1|]. split; [exact S1|].
      split; [exact O1|]. intros H. specialize (P1 H). lia.
    + assert (Hn1 : fileSize f1 - offset f1 <= Z.of_nat n).
      { unfold inb in Hi. destruct (Z.lt_ge_cases (offset f) (fileSize f)) as [H|H].
        - specialize (P1 H). lia.
        - lia. }
      destruct (IH f1 (value + JS.band (JS.num byte) 127 * shift + JS.shl shift 7)
                   (JS.shl shift 7) I1 Hn1) as (v & f' & E & I' & S' & O' & _).
      exists v, f'. split; [exact E|]. split; [exact I'|]. split; [congruence|].
      split; [lia|]. intros H. specialize (P1 H). lia.
Qed.

Lemma readVLV_moves f :
  inb f ->
  exists v f', readVLV f = Some (v, f')
    /\ inb f' /\ fileSize f' = fileSize f
    /\ (offset f < fileSize f -> offset f < offset f').
Proof.
  intros Hi. unfold readVLV.
  destruct (readVLV_loop_moves (Z.to_nat (fileSize f - offset f)) f 0 1 Hi ltac:(lia))
    as (v & f' & E & I' & S' & _ & P').
  exists v, f'. auto.
Qed.

(** The inner loop of [fromFile] stops at a zero byte or at the end of the
    buffer, where a read yields 0. *)
Lemma read_xor_total n : forall f acc,
  inb f -> fileSize f - offset f <= Z.of_nat n ->
  exists l f', UPS.read_xor (S n) f acc = Some (l, f')
    /\ inb f' /\ fileSize f' = fileSize f /\ offset f <= offset f'.
Proof.
  induction n as [|n IH]; intros f acc Hi Hn.
  - cbn [UPS.read_xor]. unfold inb in Hi.
    rewrite BinFileFacts.readU8_eof by lia. cbn [JS.strict_eq].
    change (0 =? 0) with true. cbv iota.
    eexists _, f. split; [reflexivity|]. split; [exact Hi|]. split; [reflexivity | lia].
  - change (UPS.read_xor (S (S n)) f acc)
      with (let '(byte, f1) := readU8 f in
            if JS.strict_eq byte (Some 0) then Some (acc, f1)
            else UPS.read_xor (S n) f1 (acc ++ [byte])).
    destruct (IPSProps.readU8_inb f Hi) as (I1 & S1 & O1 & P1).
    destruct (Z.lt_ge_cases (offset f) (fileSize f)) as [H|H].
    + specialize (P1 H). destruct (readU8 f) as [byte f1]. cbn [snd] in *.
      destruct (JS.strict_eq byte (Some 0)).
      * eexists _, f1. split; [reflexivity|]. auto.
      * destruct (IH f1 (acc ++ [byte]) I1 ltac:(lia)) as (l & f' & E & I' & S' & O').
        exists l, f'. split; [exact E|]. split; [exact I'|]. split; [congruence | lia].
    + rewrite BinFileFacts.readU8_eof by lia. cbn [JS.strict_eq].
      change (0 =? 0) with true. cbv iota.
      eexists _, f. split; [reflexivity|]. split; [exact Hi|]. split; [reflexivity | lia].
Qed.

(** The loop over the records: every turn consumes a byte or more. *)
Lemma read_records_total fuel : forall patch f,
  inb f -> fileSize f - offset f <= Z.of_nat fuel ->
  exists p f', UPS.read_records fuel patch f = Some (p, f')
    /\ inb f' /\ fileSize f' = fileSize f.
Proof.
  induction fuel as [|fuel IH]; intros patch f Hi Hn.
  - cbn [UPS.read_records].
    replace (offset f <? fileSize f - 12) with false
      by (symmetry; apply Z.ltb_ge; lia).
    eexists _, f. auto.
  - cbn [UPS.read_records].
    destruct (offset f <? fileSize f - 12) eqn:E;
      [apply Z.ltb_lt in E | eexists _, f; auto].
    destruct (readVLV_moves f Hi) as (v & f1 & E1 & I1 & S1 & P1).
    specialize (P1 ltac:(lia)). rewrite E1.
    destruct (read_xor_total (Z.to_nat (fileSize f1 - offset f1)) f1 [] I1 ltac:(lia))
      as (l & f2 & E2 & I2 & S2 & O2).
    rewrite E2.
    destruct (IH (UPS.addRecord patch v l) f2 I2 ltac:(lia)) as (p & f' & E' & I' & S').
    exists p, f'. split; [exact E'|]. split; [exact I' | congruence].
Qed.

(** [UPSPatch.fromFile] returns on every buffer: its loops stop at the end
    of the buffer at the latest.  It gives [null], a patch, or throws
    [Patch checksum mismatch]; a buffer that does not begin with UPS1 gets
    [null]. *)
Theorem ups_fromFile_returns (patchFile : BinFile) :
  0 <= fileSize patchFile ->
  parsed_or_rejected (snd (UPS.fromFile patchFile))
  /\ (fst (readString_is (seek patchFile 0) UPS.UPS_MAGIC) = false ->
      snd (UPS.fromFile patchFile) = JS.Ok None).
Proof.
  intros Hs. unfold UPS.fromFile.
  assert (I0 : inb (seek patchFile 0)) by (unfold inb, seek; cbn; lia).
  assert (Hr : inb (snd (readString_is (seek patchFile 0) UPS.UPS_MAGIC))
               /\ fileSize (snd (readString_is (seek patchFile 0) UPS.UPS_MAGIC))
                  = fileSize (seek patchFile 0)).
  { unfold readString_is.
    destruct (IPSProps.readBytes_inb (seek patchFile 0)
                (Z.of_nat (String.length UPS.UPS_MAGIC)) I0 ltac:(lia)) as (I1 & S1 & _).
    destruct (readBytes (seek patchFile 0) (Z.of_nat (String.length UPS.UPS_MAGIC)))
      as [bytes f1]. cbn [snd] in *. auto. }
  destruct (readString_is (seek patchFile 0) UPS.UPS_MAGIC) as [is_magic f1].
  cbn [fst snd] in *. destruct Hr as (I1 & S1).
  destruct is_magic; cbn [negb].
  2:{ cbn [snd]. split; [left; reflexivity | reflexivity]. }
  split; [|discriminate].
  destruct (readVLV_moves f1 I1) as (v1 & f2 & E2 & I2 & S2 & _). rewrite E2.
  destruct (readVLV_moves f2 I2) as (v2 & f3 & E3 & I3 & S3 & _). rewrite E3.
  destruct (read_records_total (Z.to_nat (fileSize f3)) (UPS.mkPatch [] v1 v2 0 0) f3 I3)
    as (p & f4 & E4 & _).
  { unfold inb in I3. lia. }
  rewrite E4.
  destruct (readU32 (with_littleEndian f4 true)) as [c1 g1].
  destruct (readU32 g1) as [c2 g2]. destruct (readU32 g2) as [c3 g3].
  destruct (negb (c3 =? hashCRC32 g3 0 (Some (fileSize g3 - 4)))); cbn [snd].
  - right; right; reflexivity.
  - right; left. eexists. reflexivity.
Qed.

Lemma ups_fromFile_returns_witness :
  parsed_or_rejected (snd (UPS.fromFile (of_bytes [85; 80; 83; 49; 3; 3])))
  /\ (fst (readString_is (seek (of_bytes [85; 80; 83; 49; 3; 3]) 0) UPS.UPS_MAGIC) = false ->
      snd (UPS.fromFile (of_bytes [85; 80; 83; 49; 3; 3])) = JS.Ok None).
Proof.
  apply (ups_fromFile_returns (of_bytes [85; 80; 83; 49; 3; 3])).
  cbn. lia.
Defined.

(** *** [apply] *)

Lemma crc32_of_bytes f : hashCRC32 f 0 None = crc32_bytes (getBytes f).
Proof.
  unfold crc32_bytes, hashCRC32, getBytes, of_bytes. cbn [data fileSize].
  now rewrite BinFileFacts.slice_full.
Qed.

Lemma nth_getBytes f q :
  0 <= fileSize f <= capacity f -> 0 <= q < fileSize f ->
  U8.get (data f) q = Some (nth (Z.to_nat q) (getBytes f) 0).
Proof.
  intros Hf Hq. rewrite IPSProps.getBytes_firstn by exact Hf.
  unfold capacity in Hf.
  rewrite <- (Z2Nat.id q) at 1 by lia.
  rewrite PMSRProps.get_nth by lia. f_equal.
  rewrite <- (firstn_skipn (Z.to_nat (fileSize f)) (data f)) at 1.
  rewrite app_nth1; [reflexivity | rewrite length_firstn; lia].
Qed.

(** The loop over the XOR bytes of one record. *)
Lemma xor_loop_at xs : forall t rom pre rest q,
  at_cursor t pre rest -> offset t <= fileSize t ->
  0 <= fileSize rom <= capacity rom -> 0 <= q ->
  offset rom = Z.min q (fileSize rom) ->
  exists t' rom',
    fold_left
      (fun '(t, rom) xorByte =>
         let '(originalByte, rom') :=
           if isEOF rom then (Some 0, rom) else readU8 rom in
         (writeU8 t (JS.bxor (JS.num originalByte) (JS.num xorByte)), rom'))
      xs (t, rom) = (t', rom')
    /\ at_cursor t' (pre ++ xor_bytes (getBytes rom) q xs) (skipn (length xs) rest)
    /\ fileSize t' = Z.max (fileSize t) (offset t + Z.of_nat (length xs))
    /\ fileName t' = fileName t
    /\ data rom' = data rom /\ fileSize rom' = fileSize rom.
Proof.
  induction xs as [|x xs IH]; intros t rom pre rest q Hat Hin Hf Hq Ho.
  - exists t, rom. cbn [fold_left xor_bytes length skipn]. rewrite app_nil_r.
    split; [reflexivity|]. split; [exact Hat|]. destruct Hat as (_ & Ot).
    repeat split; lia.
  - cbn [fold_left xor_bytes].
    assert (Hstep : exists rom1,
               (if isEOF rom then (Some 0, rom) else readU8 rom)
               = (Some (nth (Z.to_nat q) (getBytes rom) 0), rom1)
               /\ data rom1 = data rom /\ fileSize rom1 = fileSize rom
               /\ offset rom1 = Z.min (q + 1) (fileSize rom)).
    { unfold isEOF, readU8.
      destruct (fileSize rom <=? offset rom) eqn:E;
        [apply Z.leb_le in E | apply Z.leb_gt in E].
      - exists rom. split; [|repeat split; lia].
        rewrite nth_overflow; [reflexivity|].
        pose proof (getBytes_length rom Hf). lia.
      - exists (with_offset rom (offset rom + 1)).
        split; [|cbn [data fileSize offset with_offset]; repeat split; lia].
        rewrite nth_getBytes by lia. do 3 f_equal. lia. }
    destruct Hstep as (rom1 & -> & D1 & S1 & O1).
    cbn [JS.num].
    set (v := JS.bxor (nth (Z.to_nat q) (getBytes rom) 0) (JS.num x)).
    destruct (CursorFacts.writeU8_at t pre rest v Hat) as (H1 & St & _ & Nt & _).
    assert (Hg : getBytes rom1 = getBytes rom) by (unfold getBytes; now rewrite D1, S1).
    assert (Hf1 : 0 <= fileSize rom1 <= capacity rom1)
      by (unfold capacity in *; rewrite D1, S1; exact Hf).
    assert (Hin1 : offset (writeU8 t v) <= fileSize (writeU8 t v)).
    { destruct Hat as (_ & Ot). destruct H1 as (_ & O1').
      rewrite length_app in O1'. cbn [length] in O1'. lia. }
    destruct (IH (writeU8 t v) rom1 _ _ (q + 1) H1 Hin1 Hf1 ltac:(lia)
                 ltac:(rewrite S1; exact O1))
      as (t' & rom' & E & H' & S' & N' & D' & Sr').
    exists t', rom'. split; [exact E|].
    rewrite Hg in H'. rewrite <- app_assoc, skipn_skipn in H'. cbn [app] in H'.
    replace (length xs + 1)%nat with (S (length xs)) in H' by lia.
    split; [exact H'|].
    destruct Hat as (_ & Ot). destruct H1 as (_ & O1').
    rewrite length_app in O1'. cbn [length] in *.
    repeat split; try congruence. lia.
Qed.

Lemma xor_bytes_length src xs : forall q, length (xor_bytes src q xs) = length xs.
Proof. induction xs as [|x xs IH]; intros q; cbn [xor_bytes length]; auto. Qed.

(** One record applied. *)
Lemma apply_record_xors t rom abs0 r :
  0 <= fileSize t <= capacity t -> 0 <= fileSize rom <= capacity rom ->
  exists t' rom',
    UPS.apply_record (t, rom, abs0) r
    = (t', rom', abs0 + UPS.offset r + Z.of_nat (length (UPS.XORdata r)))
    /\ xor_record (getBytes rom) (getBytes t, abs0) r
       = (getBytes t', abs0 + UPS.offset r + Z.of_nat (length (UPS.XORdata r)))
    /\ 0 <= fileSize t' <= capacity t'
    /\ fileName t' = fileName t
    /\ data rom' = data rom /\ fileSize rom' = fileSize rom.
Proof.
  intros Ht Hr. unfold UPS.apply_record, xor_record.
  set (abs := abs0 + UPS.offset r).
  set (t1 := seek t abs). set (rom1 := seek rom abs).
  pose proof (getBytes_length rom Hr) as Lr.
  pose proof (getBytes_length t Ht) as Lt.
  set (q := Z.max 0 (Z.min abs (Z.of_nat (length (getBytes rom))))).
  assert (Ht1 : inb t1 /\ fileSize t1 = fileSize t /\ capacity t1 = capacity t
                /\ getBytes t1 = getBytes t /\ fileName t1 = fileName t
                /\ offset t1 = Z.max 0 (Z.min abs (fileSize t))).
  { unfold t1, inb, seek, capacity, getBytes. cbn [offset fileSize data fileName with_offset].
    repeat split; lia. }
  destruct Ht1 as (It & St & Ct & Bt & Nt & Ot).
  assert (Hr1 : 0 <= fileSize rom1 <= capacity rom1 /\ getBytes rom1 = getBytes rom
                /\ data rom1 = data rom /\ fileSize rom1 = fileSize rom
                /\ offset rom1 = Z.min q (fileSize rom1)).
  { unfold rom1, seek, capacity, getBytes, q. cbn [offset fileSize data with_offset].
    unfold capacity in Hr. rewrite Lr. repeat split; lia. }
  destruct Hr1 as (Jr & Br & Dr & Sr & Or).
  pose proof (CursorFacts.at_cursor_split t1 ltac:(unfold inb in It; lia)) as Hat.
  destruct (xor_loop_at (UPS.XORdata r) t1 rom1 _ _ q Hat ltac:(unfold inb in It; lia)
              Jr ltac:(unfold q; lia) Or)
    as (t' & rom' & E & H' & S' & N' & D' & Sr').
  rewrite E. exists t', rom'. split; [reflexivity|].
  rewrite Br in H'.
  destruct (IPSProps.getBytes_written t1 t' _ _
              (xor_bytes (getBytes rom) q (UPS.XORdata r)) Hat It ltac:(lia))
    as (Bw & J).
  { rewrite xor_bytes_length. exact H'. }
  { rewrite xor_bytes_length. exact S'. }
  split.
  - f_equal. rewrite Bw. unfold IPSCodec.splice_at. rewrite Bt, Ot, Lt.
    replace (Z.max 0 (Z.min (Z.max 0 (Z.min abs (fileSize t))) (fileSize t)))
      with (Z.max 0 (Z.min abs (fileSize t))) by lia.
    reflexivity.
  - split; [exact J|]. repeat split; congruence.
Qed.

Lemma apply_records_xor rs : forall t rom abs0,
  0 <= fileSize t <= capacity t -> 0 <= fileSize rom <= capacity rom ->
  exists t' rom' abs',
    fold_left UPS.apply_record rs (t, rom, abs0) = (t', rom', abs')
    /\ fst (fold_left (xor_record (getBytes rom)) rs (getBytes t, abs0)) = getBytes t'
    /\ fileName t' = fileName t.
Proof.
  induction rs as [|r rs IH]; intros t rom abs0 Ht Hr.
  - exists t, rom, abs0. cbn. auto.
  - destruct (apply_record_xors t rom abs0 r Ht Hr)
      as (t1 & rom1 & E1 & X1 & J1 & N1 & D1 & S1).
    assert (Hr1 : 0 <= fileSize rom1 <= capacity rom1)
      by (unfold capacity in *; rewrite D1, S1; exact Hr).
    assert (Hg : getBytes rom1 = getBytes rom) by (unfold getBytes; now rewrite D1, S1).
    destruct (IH t1 rom1 (abs0 + UPS.offset r + Z.of_nat (length (UPS.XORdata r))) J1 Hr1)
      as (t' & rom' & abs' & E' & X' & N').
    exists t', rom', abs'. cbn [fold_left]. rewrite E1, X1.
    split; [exact E'|]. rewrite <- Hg. split; [exact X' | congruence].
Qed.

(** [apply] on a ROM whose checksum the patch accepts: the output starts as
    zeros with the bytes of the ROM put at the beginning; every record then
    replaces the bytes at its place, the running offset plus its own, by the
    source bytes at that place (0 past the end of the source) combined by
    exclusive or with its XOR bytes.  If the CRC32 of the result is the
    output checksum of the patch, the result is returned under the name of
    the ROM with the tag " (patched)"; if not, [apply] throws; and it throws
    at once for a ROM whose CRC32 is not the input checksum. *)
Theorem ups_apply_xors (p : UPS.UPSPatch) (romFile : BinFile) :
  0 <= fileSize romFile <= capacity romFile -> 0 <= UPS.sizeOutput p ->
  (UPS.validateSource p romFile 0 = false ->
   UPS.apply p romFile = JS.Throw (JS.Error "Source ROM checksum mismatch"))
  /\ (UPS.validateSource p romFile 0 = true ->
      crc32_bytes (xor_result p romFile) <> UPS.checksumOutput p ->
      UPS.apply p romFile = JS.Throw (JS.Error "Target ROM checksum mismatch"))
  /\ (UPS.validateSource p romFile 0 = true ->
      crc32_bytes (xor_result p romFile) = UPS.checksumOutput p ->
      exists out,
        UPS.apply p romFile = JS.Ok out
        /\ getBytes out = xor_result p romFile
        /\ fileName out = patched_name romFile " (patched)").
Proof.
  intros Hf Ho.
  assert (Hrun : UPS.validateSource p romFile 0 = true ->
            exists t,
              UPS.apply p romFile
              = (if negb (hashCRC32 t 0 None =? UPS.checksumOutput p)
                 then JS.Throw (JS.Error "Target ROM checksum mismatch")
                 else JS.Ok (setName t (patched_name romFile " (patched)")))
              /\ getBytes t = xor_result p romFile).
  { intros Hv. unfold UPS.apply, xor_result, xor_base, effective_sizes.
    rewrite Hv. cbn [negb].
    set (sizes := if UPS.sizeInput p <? fileSize romFile then _ else _).
    assert (Hs : 0 <= snd sizes).
    { unfold sizes. destruct (UPS.sizeInput p <? fileSize romFile); cbn [snd]; [|exact Ho].
      destruct (UPS.sizeOutput p <? fileSize romFile); lia. }
    destruct sizes as [sI sO]. cbn [snd] in Hs.
    unfold of_size, U8.alloc.
    replace (sO <? 0) with false by (symmetry; apply Z.ltb_ge; lia).
    cbn [JS.bind]. unfold copyTo.
    set (t0 := mkBinFile _ _ _ _ _ _).
    assert (J0 : 0 <= fileSize t0 <= capacity t0).
    { unfold t0, capacity. cbn [fileSize data]. rewrite repeat_length. lia. }
    destruct (PMSRProps.seek_write_splices t0 0
                (U8.slice (data romFile) (offset romFile) (offset romFile + sI)) J0)
      as (t1 & E1 & B1 & J1 & _).
    rewrite E1. cbn [JS.bind].
    destruct (apply_records_xor (UPS.upsRecords p) t1 romFile 0 J1 Hf)
      as (t' & rom' & abs' & E' & X' & _).
    rewrite E'. exists t'. split; [reflexivity|].
    rewrite <- X', B1. rewrite (IPSProps.getBytes_firstn t0 J0).
    unfold t0. cbn [fileSize data].
    rewrite firstn_all2 by (rewrite repeat_length; lia). reflexivity. }
  split; [|split].
  - intros Hv. unfold UPS.apply. now rewrite Hv.
  - intros Hv Hc. destruct (Hrun Hv) as (t & -> & Bt).
    rewrite crc32_of_bytes, Bt.
    replace (crc32_bytes (xor_result p romFile) =? UPS.checksumOutput p) with false
      by (symmetry; apply Z.eqb_neq; exact Hc).
    reflexivity.
  - intros Hv Hc. destruct (Hrun Hv) as (t & -> & Bt).
    rewrite crc32_of_bytes, Bt, Hc, Z.eqb_refl. cbn [negb].
    eexists. split; [reflexivity|]. split; [exact Bt | reflexivity].
Qed.

Lemma ups_apply_xors_witness :
  (UPS.validateSource Samples2.ups_patch Samples2.ups_rom 0 = true
   /\ crc32_bytes (xor_result Samples2.ups_patch Samples2.ups_rom)
      = UPS.checksumOutput Samples2.ups_patch
   /\ xor_result Samples2.ups_patch Samples2.ups_rom = [1; 0xF2; 3; 0x51; 0x66])
  /\ (UPS.validateSource Samples2.ups_patch Samples2.ups_rom 0 = false ->
      UPS.apply Samples2.ups_patch Samples2.ups_rom
      = JS.Throw (JS.Error "Source ROM checksum mismatch"))
  /\ (UPS.validateSource Samples2.ups_patch Samples2.ups_rom 0 = true ->
      crc32_bytes (xor_result Samples2.ups_patch Samples2.ups_rom)
      <> UPS.checksumOutput Samples2.ups_patch ->
      UPS.apply Samples2.ups_patch Samples2.ups_rom
      = JS.Throw (JS.Error "Target ROM checksum mismatch"))
  /\ (UPS.validateSource Samples2.ups_patch Samples2.ups_rom 0 = true ->
      crc32_bytes (xor_result Samples2.ups_patch Samples2.ups_rom)
      = UPS.checksumOutput Samples2.ups_patch ->
      exists out,
        UPS.apply Samples2.ups_patch Samples2.ups_rom = JS.Ok out
        /\ getBytes out = xor_result Samples2.ups_patch Samples2.ups_rom
        /\ fileName out = patched_name Samples2.ups_rom " (patched)").
Proof.
  split; [vm_compute; auto|].
  apply (ups_apply_xors Samples2.ups_patch Samples2.ups_rom).
  - unfold capacity. cbn. lia.
  - cbn. lia.
Defined.

End UPSProps.

(** ** APS (GBA): [apply] *)

Module APSApplyProps.
Import BinFile Cursor FileFacts APSApply.

(** [validateSource] leaves the bytes alone and, when it accepts the ROM,
    the cursor at the offset of the last record. *)
Lemma validate_records_spec rs : forall f b f',
  APSGBA.validate_records rs f 0 = (b, f') ->
  data f' = data f /\ fileSize f' = fileSize f
  /\ (b = true ->
      offset f' = match rev rs with
                  | [] => offset f
                  | r :: _ => Z.max 0 (Z.min (APSGBA.offset r) (fileSize f))
                  end).
Proof.
  induction rs as [|r rs IH]; intros f b f' E.
  - cbn in E. inversion E; subst. auto.
  - cbn [APSGBA.validate_records] in E. rewrite Z.add_0_r in E.
    destruct (negb (hashCRC16 (seek f (APSGBA.offset r)) (APSGBA.offset r)
                      (Some APSGBA.APS_GBA_BLOCK_SIZE) =? APSGBA.sourceCrc16 r)).
    + inversion E; subst. split; [reflexivity|]. split; [reflexivity | discriminate].
    + destruct (IH _ _ _ E) as (D & S & O).
      split; [exact D|]. split; [exact S|]. intros Hb. specialize (O Hb).
      cbn [rev]. destruct (rev rs) as [|r' l]; cbn [app]; exact O.
Qed.

Lemma slice_of_getBytes f s e :
  0 <= fileSize f <= capacity f -> 0 <= s -> 0 <= e <= fileSize f ->
  U8.slice (data f) s e = U8.slice (getBytes f) s e.
Proof.
  intros Hf Hs He. rewrite IPSProps.getBytes_firstn by exact Hf.
  unfold U8.slice, U8.rel, capacity in *. rewrite length_firstn.
  replace (s <? 0) with false by (symmetry; apply Z.ltb_ge; lia).
  replace (e <? 0) with false by (symmetry; apply Z.ltb_ge; lia).
  replace (Z.of_nat (Nat.min (Z.to_nat (fileSize f)) (length (data f))))
    with (fileSize f) by lia.
  rewrite !(Z.min_l e) by lia.
  destruct (Z.le_gt_cases s (fileSize f)) as [H|H].
  - rewrite !(Z.min_l s) by lia.
    rewrite skipn_firstn_comm, firstn_firstn. f_equal. lia.
  - replace (Z.to_nat (e - Z.min s (Z.of_nat (length (data f))))) with 0%nat by lia.
    replace (Z.to_nat (e - Z.min s (fileSize f))) with 0%nat by lia.
    reflexivity.
Qed.

Lemma hashCRC16_bytes f s :
  0 <= fileSize f <= capacity f -> 0 <= s ->
  hashCRC16 f s (Some APSGBA.APS_GBA_BLOCK_SIZE) = crc16_block (getBytes f) s.
Proof.
  intros Hf Hs. pose proof (getBytes_length f Hf) as HL.
  unfold crc16_block, hashCRC16, of_bytes. cbn [data fileSize]. rewrite HL.
  change (APSGBA.APS_GBA_BLOCK_SIZE =? 0) with false. cbv iota.
  rewrite (slice_of_getBytes f s _ Hf Hs)
    by (unfold APSGBA.APS_GBA_BLOCK_SIZE; lia).
  reflexivity.
Qed.

(** The loop over the 65536 bytes of a block is the loop of UPS over the
    XOR bytes of the record, those past the end of its array missing. *)
Lemma block_loop xs : forall js st,
  fold_left
    (fun '(t, rom) j =>
       let '(sourceByte, rom') := readU8 rom in
       let xorByte := nth_error xs j in
       (writeU8 t (JS.bxor (JS.num sourceByte) (JS.num xorByte)), rom'))
    js st
  = fold_left
      (fun '(t, rom) xorByte =>
         let '(originalByte, rom') :=
           if isEOF rom then (Some 0, rom) else readU8 rom in
         (writeU8 t (JS.bxor (JS.num originalByte) (JS.num xorByte)), rom'))
      (map (nth_error xs) js) st.
Proof.
  induction js as [|j js IH]; intros [t rom]; [reflexivity|].
  cbn [fold_left map]. rewrite <- IH. f_equal.
  unfold isEOF, readU8. destruct (fileSize rom <=? offset rom); reflexivity.
Qed.

(** The loop of UPS over XOR bytes, after the two cursors are set. *)
Lemma ups_block t rom o xs :
  0 <= fileSize t <= capacity t -> 0 <= fileSize rom <= capacity rom ->
  exists t' rom',
    fold_left
      (fun '(t, rom) xorByte =>
         let '(originalByte, rom') :=
           if isEOF rom then (Some 0, rom) else readU8 rom in
         (writeU8 t (JS.bxor (JS.num originalByte) (JS.num xorByte)), rom'))
      xs (seek t o, seek rom o) = (t', rom')
    /\ getBytes t'
       = IPSCodec.splice_at (getBytes t) o
           (UPSCodec.xor_bytes (getBytes rom)
              (Z.max 0 (Z.min o (Z.of_nat (length (getBytes rom))))) xs)
    /\ 0 <= fileSize t' <= capacity t'
    /\ data rom' = data rom /\ fileSize rom' = fileSize rom.
Proof.
  intros Ht Hr.
  destruct (UPSProps.apply_record_xors t rom 0 (UPS.mkRecord o xs) Ht Hr)
    as (t' & rom' & E & X & J' & _ & D' & S').
  unfold UPS.apply_record in E. cbn [UPS.offset UPS.XORdata] in E.
  rewrite Z.add_0_l in E.
  unfold UPSCodec.xor_record in X. cbn [UPS.offset UPS.XORdata] in X.
  rewrite Z.add_0_l in X.
  destruct (fold_left _ xs _) as [a b] eqn:F.
  exists t', rom'.
  assert (Ea : a = t' /\ b = rom') by (split; congruence).
  destruct Ea as (-> & ->).
  split; [reflexivity|]. split; [congruence | auto].
Qed.

(** One record applied. *)
Lemma apply_record_block t rom r :
  0 <= fileSize t <= capacity t -> 0 <= fileSize rom <= capacity rom ->
  0 <= APSGBA.offset r ->
  match xor_block_at (getBytes rom) (Some (getBytes t)) r with
  | Some out' =>
      exists t' rom',
        APSGBA.apply_record (t, rom) r = JS.Ok (t', rom')
        /\ getBytes t' = out'
        /\ 0 <= fileSize t' <= capacity t'
        /\ data rom' = data rom /\ fileSize rom' = fileSize rom
  | None =>
      APSGBA.apply_record (t, rom) r
      = JS.Throw (JS.Error "Target ROM checksum mismatch")
  end.
Proof.
  intros Ht Hr Ho.
  unfold APSGBA.apply_record, xor_block_at, xor_block. rewrite block_loop.
  generalize (map (nth_error (APSGBA.xorBytes r))
                  (seq 0 (Z.to_nat APSGBA.APS_GBA_BLOCK_SIZE))).
  intros xs.
  destruct (ups_block t rom (APSGBA.offset r) xs Ht Hr)
    as (t' & rom' & F & X1 & J' & D' & S').
  rewrite F, <- X1.
  rewrite (hashCRC16_bytes t' _ J' Ho).
  destruct (crc16_block (getBytes t') (APSGBA.offset r) =? APSGBA.targetCrc16 r);
    cbn [negb].
  - exists t', rom'. auto.
  - reflexivity.
Qed.

Lemma apply_records_blocks rs : forall t rom,
  0 <= fileSize t <= capacity t -> 0 <= fileSize rom <= capacity rom ->
  Forall (fun r => 0 <= APSGBA.offset r) rs ->
  match fold_left (xor_block_at (getBytes rom)) rs (Some (getBytes t)) with
  | Some bytes =>
      exists t' rom',
        JS.for_of rs APSGBA.apply_record (t, rom) = JS.Ok (t', rom')
        /\ getBytes t' = bytes
  | None =>
      JS.for_of rs APSGBA.apply_record (t, rom)
      = JS.Throw (JS.Error "Target ROM checksum mismatch")
  end.
Proof.
  induction rs as [|r rs IH]; intros t rom Ht Hr Ho.
  - cbn. exists t, rom. auto.
  - inversion Ho as [|? ? Ho1 Ho']; subst.
    pose proof (apply_record_block t rom r Ht Hr Ho1) as H1.
    cbn [fold_left JS.for_of].
    destruct (xor_block_at (getBytes rom) (Some (getBytes t)) r) as [out'|].
    + destruct H1 as (t1 & rom1 & E1 & B1 & J1 & D1 & S1).
      rewrite E1. cbn [JS.bind].
      assert (Hr1 : 0 <= fileSize rom1 <= capacity rom1)
        by (unfold capacity in *; rewrite D1, S1; exact Hr).
      assert (Hg : getBytes rom1 = getBytes rom) by (unfold getBytes; now rewrite D1, S1).
      specialize (IH t1 rom1 J1 Hr1 Ho'). rewrite Hg, B1 in IH. exact IH.
    + rewrite H1. cbn [JS.bind].
      assert (Hn : forall l, fold_left (xor_block_at (getBytes rom)) l None = None)
        by (induction l; [reflexivity | assumption]).
      now rewrite Hn.
Qed.

(** [apply] throws for a ROM that [validateSource] rejects.  For a ROM it
    accepts, the cursor of the ROM is where [validateSource] left it, at the
    offset of the last record; the output starts as zeros, with the bytes of
    the ROM from that cursor on, not from its beginning, put at the
    beginning; every record then replaces the block at its offset by the
    source bytes at that offset combined by exclusive or with its XOR bytes,
    and [apply] throws as soon as the CRC16 of a new block is not the one
    the record gives. *)
Theorem aps_apply_xors (p : APSGBA.APSGBAPatch) (romFile : BinFile) :
  0 <= fileSize romFile <= capacity romFile -> 0 <= APSGBA.targetSize p ->
  Forall (fun r => 0 <= APSGBA.offset r) (APSGBA.apsRecords p) ->
  (fst (APSGBA.validateSource p romFile 0) = false ->
   APSGBA.apply p romFile = JS.Throw (JS.Error "Source ROM checksum mismatch"))
  /\ (fst (APSGBA.validateSource p romFile 0) = true ->
      offset (snd (APSGBA.validateSource p romFile 0)) = cursor_after p romFile
      /\ getBytes (snd (APSGBA.validateSource p romFile 0)) = getBytes romFile
      /\ match result p (snd (APSGBA.validateSource p romFile 0)) with
         | Some bytes =>
             exists out, APSGBA.apply p romFile = JS.Ok out /\ getBytes out = bytes
         | None =>
             APSGBA.apply p romFile
             = JS.Throw (JS.Error "Target ROM checksum mismatch")
         end).
Proof.
  intros Hf Ht Ho. unfold APSGBA.apply.
  destruct (APSGBA.validateSource p romFile 0) as [valid rom'] eqn:V.
  cbn [fst snd]. split; [intros ->; reflexivity|]. intros ->. cbn [negb].
  assert (Hv : data rom' = data romFile /\ fileSize rom' = fileSize romFile
               /\ offset rom' = cursor_after p romFile).
  { unfold APSGBA.validateSource in V.
    destruct (negb (fileSize romFile =? APSGBA.sourceSize p)); [discriminate V|].
    destruct (validate_records_spec _ _ _ _ V) as (D & S & O).
    split; [exact D|]. split; [exact S|]. exact (O eq_refl). }
  destruct Hv as (D & S & O).
  assert (Hg : getBytes rom' = getBytes romFile) by (unfold getBytes; now rewrite D, S).
  assert (Hr : 0 <= fileSize rom' <= capacity rom')
    by (unfold capacity in *; rewrite D, S; exact Hf).
  split; [exact O|]. split; [exact Hg|].
  unfold of_size, U8.alloc.
  replace (APSGBA.targetSize p <? 0) with false by (symmetry; apply Z.ltb_ge; lia).
  cbn [JS.bind]. unfold copyTo.
  set (t0 := mkBinFile _ _ _ _ _ _).
  assert (J0 : 0 <= fileSize t0 <= capacity t0).
  { unfold t0, capacity. cbn [fileSize data]. rewrite repeat_length. lia. }
  destruct (PMSRProps.seek_write_splices t0 0
              (U8.slice (data rom') (offset rom') (offset rom' + fileSize rom')) J0)
    as (t1 & E1 & B1 & J1 & _).
  rewrite E1. cbn [JS.bind].
  assert (Hb : getBytes t1 = base p rom').
  { rewrite B1, (IPSProps.getBytes_firstn t0 J0). unfold t0, base. cbn [fileSize data].
    rewrite firstn_all2 by (rewrite repeat_length; lia). reflexivity. }
  pose proof (apply_records_blocks (APSGBA.apsRecords p) t1 rom' J1 Hr Ho) as H.
  rewrite Hb in H. unfold result.
  destruct (fold_left (xor_block_at (getBytes rom')) (APSGBA.apsRecords p)
              (Some (base p rom'))) as [bytes|].
  - destruct H as (t' & rom2 & E & B). rewrite E. cbn [JS.bind].
    exists t'. auto.
  - rewrite H. reflexivity.
Qed.

Lemma aps_apply_xors_witness :
  (offset Samples2.aps_rom = 0
   /\ APSGBA.validateSource Samples2.aps_apply_patch Samples2.aps_rom 0
      = (true, seek Samples2.aps_rom 2)
   /\ base Samples2.aps_apply_patch (seek Samples2.aps_rom 2) = [3; 4; 0; 0])
  /\ (fun p romFile =>
        (fst (APSGBA.validateSource p romFile 0) = false ->
         APSGBA.apply p romFile = JS.Throw (JS.Error "Source ROM checksum mismatch"))
        /\ (fst (APSGBA.validateSource p romFile 0) = true ->
            offset (snd (APSGBA.validateSource p romFile 0)) = cursor_after p romFile
            /\ getBytes (snd (APSGBA.validateSource p romFile 0)) = getBytes romFile
            /\ match result p (snd (APSGBA.validateSource p romFile 0)) with
               | Some bytes =>
                   exists out,
                     APSGBA.apply p romFile = JS.Ok out /\ getBytes out = bytes
               | None =>
                   APSGBA.apply p romFile
                   = JS.Throw (JS.Error "Target ROM checksum mismatch")
               end))
       Samples2.aps_apply_patch Samples2.aps_rom.
Proof.
  split; [split; [reflexivity | split; lazy; reflexivity]|].
  refine (aps_apply_xors Samples2.aps_apply_patch Samples2.aps_rom _ _ _).
  - change (0 <= 4 <= 4). lia.
  - change (0 <= 4). lia.
  - constructor; [change (0 <= 2); lia | constructor].
Defined.

End APSApplyProps.

(** ** ROM headers and [applyPatch] *)

Module RomPatcherProps.
Import BinFile Cursor RomPatcher FileFacts.

Lemma find_unique {A} (p : A -> bool) l h :
  In h l -> p h = true -> (forall x, In x l -> p x = true -> x = h) ->
  find p l = Some h.
Proof.
  induction l as [|x l IH]; intros Hin Hp Hu; [destruct Hin|].
  cbn [find]. destruct (p x) eqn:E.
  - f_equal. apply Hu; [left; reflexivity | exact E].
  - destruct Hin as [->|Hin]; [congruence|].
    apply IH; auto. intros y Hy. apply Hu. now right.
Qed.

Lemma find_all_false {A} (p : A -> bool) l :
  (forall x, In x l -> p x = false) -> find p l = None.
Proof.
  induction l as [|x l IH]; intros H; [reflexivity|].
  cbn [find]. rewrite (H x) by (left; reflexivity).
  apply IH. intros y Hy. apply H. now right.
Qed.

(** Every header of the table is shorter than the multiple it goes with. *)
Lemma header_sizes h :
  In h HEADERS_INFO -> 0 < Header.size h < Header.romSizeMultiple h.
Proof.
  intros H. unfold HEADERS_INFO in H. cbn [In] in H.
  repeat (destruct H as [<-|H]; [cbn; lia|]). destruct H.
Qed.

(** No extension is listed by two entries of the table. *)
Lemma entry_unique e h h' :
  In h HEADERS_INFO -> In h' HEADERS_INFO ->
  includes (Header.extensions h) e = true ->
  includes (Header.extensions h') e = true -> h = h'.
Proof.
  intros H H' Hi Hi'. unfold HEADERS_INFO in H, H'. cbn [In] in H, H'.
  unfold includes in *.
  repeat (destruct H as [<-|H]); try destruct H;
    repeat (destruct H' as [<-|H']); try destruct H'; try reflexivity; exfalso;
    cbn [Header.extensions existsb] in Hi, Hi';
    rewrite ?Bool.orb_false_r in Hi, Hi';
    repeat match goal with
           | Hx : (_ || _)%bool = true |- _ =>
               apply Bool.orb_true_iff in Hx; destruct Hx
           end;
    repeat match goal with
           | Hx : String.eqb _ _ = true |- _ => apply String.eqb_eq in Hx
           end;
    congruence.
Qed.

Lemma canRomGetHeader_spec f h :
  canRomGetHeader f = Some h
  <-> In h HEADERS_INFO
      /\ includes (Header.extensions h) (getExtension f) = true
      /\ Z.rem (fileSize f) (Header.romSizeMultiple h) = 0.
Proof.
  unfold canRomGetHeader. split.
  - intros H. apply find_some in H as (Hin & Hp).
    apply Bool.andb_true_iff in Hp as (Hi & Hr). apply Z.eqb_eq in Hr. auto.
  - intros (Hin & Hi & Hr). apply find_unique; [exact Hin | |].
    + rewrite Hi, Hr. reflexivity.
    + intros x Hx Hp. apply Bool.andb_true_iff in Hp as (Hi' & _).
      exact (entry_unique _ _ _ Hx Hin Hi' Hi).
Qed.

Lemma isRomHeadered_spec f h :
  isRomHeadered f = Some h
  <-> In h HEADERS_INFO
      /\ includes (Header.extensions h) (getExtension f) = true
      /\ Z.rem (fileSize f - Header.size h) (Header.romSizeMultiple h) = 0.
Proof.
  unfold isRomHeadered. split.
  - intros H. apply find_some in H as (Hin & Hp).
    apply Bool.andb_true_iff in Hp as (Hi & Hr). apply Z.eqb_eq in Hr. auto.
  - intros (Hin & Hi & Hr). apply find_unique; [exact Hin | |].
    + rewrite Hi, Hr. reflexivity.
    + intros x Hx Hp. apply Bool.andb_true_iff in Hp as (Hi' & _).
      exact (entry_unique _ _ _ Hx Hin Hi' Hi).
Qed.

(** A size cannot be a multiple both with and without the header. *)
Lemma not_both h a :
  In h HEADERS_INFO ->
  Z.rem a (Header.romSizeMultiple h) = 0 ->
  Z.rem (a - Header.size h) (Header.romSizeMultiple h) = 0 -> False.
Proof.
  intros Hin H1 H2. pose proof (header_sizes h Hin) as Hs.
  apply Z.rem_divide in H1; [|lia]. apply Z.rem_divide in H2; [|lia].
  destruct H1 as (k1 & E1). destruct H2 as (k2 & E2).
  assert (E : Header.size h = (k1 - k2) * Header.romSizeMultiple h) by lia.
  assert (0 < k1 - k2) by nia. nia.
Qed.

Lemma headered_size h f :
  0 <= fileSize f -> In h HEADERS_INFO ->
  Z.rem (fileSize f - Header.size h) (Header.romSizeMultiple h) = 0 ->
  Header.size h <= fileSize f.
Proof.
  intros Hf Hin H. pose proof (header_sizes h Hin) as Hs.
  apply Z.rem_divide in H; [|lia]. destruct H as (k & E).
  assert (0 <= k) by nia. nia.
Qed.

Lemma not_headered_when_can_get f h :
  canRomGetHeader f = Some h -> isRomHeadered f = None.
Proof.
  intros H. apply canRomGetHeader_spec in H as (Hin & Hi & Hr).
  unfold isRomHeadered. apply find_all_false. intros x Hx.
  destruct (includes (Header.extensions x) (getExtension f)) eqn:Ex; [|reflexivity].
  cbn [andb]. apply Z.eqb_neq. intros Hr'.
  assert (x = h) by exact (entry_unique _ _ _ Hx Hin Ex Hi). subst x.
  exact (not_both h _ Hin Hr Hr').
Qed.

Lemma cannot_get_when_headered f h :
  isRomHeadered f = Some h -> canRomGetHeader f = None.
Proof.
  intros H. destruct (canRomGetHeader f) as [h'|] eqn:E; [|reflexivity].
  apply not_headered_when_can_get in E. congruence.
Qed.

Lemma addFakeHeader_bytes romFile h :
  0 <= fileSize romFile <= capacity romFile ->
  canRomGetHeader romFile = Some h ->
  exists g, addFakeHeader romFile = JS.Ok g
    /\ getBytes g = repeat 0 (Z.to_nat (Header.size h)) ++ getBytes romFile
    /\ fileSize g = Header.size h + fileSize romFile
    /\ fileName g = fileName romFile.
Proof.
  intros Hf Hc. pose proof (proj1 (canRomGetHeader_spec _ _) Hc) as (Hin & _).
  pose proof (header_sizes h Hin) as Hs.
  unfold addFakeHeader. rewrite Hc. unfold U8.alloc at 1.
  replace (Header.size h <? 0) with false by (symmetry; apply Z.ltb_ge; lia).
  cbn [JS.bind]. unfold of_size, U8.alloc.
  replace (Header.size h + fileSize romFile <? 0) with false
    by (symmetry; apply Z.ltb_ge; lia).
  cbn [JS.bind].
  apply join_files. rewrite repeat_length, Nat2Z.inj_add, getBytes_length by exact Hf. lia.
Qed.

Lemma removeHeader_bytes romFile h :
  0 <= fileSize romFile <= capacity romFile ->
  isRomHeadered romFile = Some h ->
  exists header rom,
    removeHeader romFile = JS.Ok (header, rom)
    /\ getBytes header = firstn (Z.to_nat (Header.size h)) (getBytes romFile)
    /\ getBytes rom = skipn (Z.to_nat (Header.size h)) (getBytes romFile)
    /\ fileSize header = Header.size h
    /\ fileSize rom = fileSize romFile - Header.size h
    /\ fileName header = append (fileName romFile) ".header"
    /\ fileName rom = fileName romFile.
Proof.
  intros Hf Hh. pose proof (proj1 (isRomHeadered_spec _ _) Hh) as (Hin & _ & Hr).
  pose proof (header_sizes h Hin) as Hs.
  pose proof (headered_size h romFile ltac:(lia) Hin Hr) as Hle.
  pose proof (getBytes_length romFile Hf) as Hl.
  unfold removeHeader. rewrite Hh. eexists _, _. split; [reflexivity|].
  rewrite slice_head, slice_tail by lia.
  destruct (of_bytes_named (firstn (Z.to_nat (Header.size h)) (getBytes romFile))
              (append (fileName romFile) ".header")) as (B1 & S1 & N1).
  destruct (of_bytes_named (skipn (Z.to_nat (Header.size h)) (getBytes romFile))
              (fileName romFile)) as (B2 & S2 & N2).
  rewrite B1, B2, S1, S2, N1, N2, length_firstn, length_skipn.
  repeat split; lia.
Qed.

(** A ROM that can get a header has none yet.  [addFakeHeader] puts as many
    zero bytes as the header is long before the bytes of the ROM and keeps
    the name; the result is recognised as headered, with the same kind of
    header, and [removeHeader] gives back the bytes and the name of the
    ROM. *)
Theorem fake_header_roundtrip (romFile : BinFile) (h : Header.HeaderInfo) :
  0 <= fileSize romFile <= capacity romFile ->
  canRomGetHeader romFile = Some h ->
  isRomHeadered romFile = None
  /\ exists g,
       addFakeHeader romFile = JS.Ok g
       /\ getBytes g = repeat 0 (Z.to_nat (Header.size h)) ++ getBytes romFile
       /\ fileName g = fileName romFile
       /\ isRomHeadered g = Some h
       /\ exists header rom,
            removeHeader g = JS.Ok (header, rom)
            /\ getBytes header = repeat 0 (Z.to_nat (Header.size h))
            /\ getBytes rom = getBytes romFile
            /\ fileName rom = fileName romFile.
Proof.
  intros Hf Hc. split; [exact (not_headered_when_can_get _ _ Hc)|].
  destruct (addFakeHeader_bytes romFile h Hf Hc) as (g & E & Bg & Sg & Ng).
  pose proof (proj1 (canRomGetHeader_spec _ _) Hc) as (Hin & Hi & Hr).
  pose proof (header_sizes h Hin) as Hs.
  exists g. split; [exact E|]. split; [exact Bg|]. split; [exact Ng|].
  assert (Hh : isRomHeadered g = Some h).
  { apply isRomHeadered_spec. split; [exact Hin|]. split.
    - now rewrite (same_extension romFile g Ng).
    - rewrite Sg. replace (Header.size h + fileSize romFile - Header.size h)
        with (fileSize romFile) by lia. exact Hr. }
  split; [exact Hh|].
  assert (Hg : 0 <= fileSize g <= capacity g).
  { split; [lia|]. unfold capacity.
    assert (Hl : (length (getBytes g) <= length (data g))%nat).
    { unfold getBytes, U8.slice. rewrite length_firstn, length_skipn. lia. }
    rewrite Bg, length_app, repeat_length in Hl.
    pose proof (getBytes_length romFile Hf). lia. }
  destruct (removeHeader_bytes g h Hg Hh) as (header & rom & Er & Bh & Br & _ & _ & _ & Nr).
  exists header, rom. split; [exact Er|].
  rewrite Bh, Br, Bg.
  rewrite firstn_app, skipn_app, repeat_length, Nat.sub_diag.
  rewrite firstn_all2, skipn_all2 by (rewrite repeat_length; lia).
  cbn [firstn skipn app]. rewrite app_nil_r.
  split; [reflexivity|]. split; [reflexivity | congruence].
Qed.

Lemma fake_header_roundtrip_witness :
  isRomHeadered Samples2.nes_rom = None
  /\ exists g,
       addFakeHeader Samples2.nes_rom = JS.Ok g
       /\ getBytes g = repeat 0 (Z.to_nat (Header.size Samples2.iNES))
                       ++ getBytes Samples2.nes_rom
       /\ fileName g = fileName Samples2.nes_rom
       /\ isRomHeadered g = Some Samples2.iNES
       /\ exists header rom,
            removeHeader g = JS.Ok (header, rom)
            /\ getBytes header = repeat 0 (Z.to_nat (Header.size Samples2.iNES))
            /\ getBytes rom = getBytes Samples2.nes_rom
            /\ fileName rom = fileName Samples2.nes_rom.
Proof.
  apply (fake_header_roundtrip Samples2.nes_rom Samples2.iNES).
  - vm_compute. split; discriminate.
  - vm_compute. reflexivity.
Defined.

(** [removeHeader] splits a headered ROM: the header, named after the ROM
    with [.header] appended, holds the first bytes, as many as the table
    says, and the ROM, under its own name, the rest; the ROM that is left can
    get a header of the same kind and is not headered itself.  A ROM that
    is not headered is rejected. *)
Theorem removeHeader_splits (romFile : BinFile) :
  0 <= fileSize romFile <= capacity romFile ->
  (forall h, isRomHeadered romFile = Some h ->
     canRomGetHeader romFile = None
     /\ exists header rom,
          removeHeader romFile = JS.Ok (header, rom)
          /\ getBytes header ++ getBytes rom = getBytes romFile
          /\ fileSize header = Header.size h
          /\ fileSize rom = fileSize romFile - Header.size h
          /\ fileName header = append (fileName romFile) ".header"
          /\ fileName rom = fileName romFile
          /\ canRomGetHeader rom = Some h)
  /\ (isRomHeadered romFile = None ->
      removeHeader romFile
      = JS.Throw (JS.InvalidRomFileError "ROM does not have a removable header")).
Proof.
  intros Hf. split.
  - intros h Hh. split; [exact (cannot_get_when_headered _ _ Hh)|].
    destruct (removeHeader_bytes romFile h Hf Hh)
      as (header & rom & Er & Bh & Br & Sh & Sr & Nh & Nr).
    exists header, rom. split; [exact Er|].
    split; [rewrite Bh, Br; apply firstn_skipn|].
    repeat (split; [assumption|]).
    apply isRomHeadered_spec in Hh as (Hin & Hi & Hr).
    apply canRomGetHeader_spec. split; [exact Hin|]. split.
    + now rewrite (same_extension romFile rom Nr).
    + now rewrite Sr.
  - intros Hn. unfold removeHeader. now rewrite Hn.
Qed.

Lemma removeHeader_splits_witness :
  (forall h, isRomHeadered Samples2.nes_headered = Some h ->
     canRomGetHeader Samples2.nes_headered = None
     /\ exists header rom,
          removeHeader Samples2.nes_headered = JS.Ok (header, rom)
          /\ getBytes header ++ getBytes rom = getBytes Samples2.nes_headered
          /\ fileSize header = Header.size h
          /\ fileSize rom = fileSize Samples2.nes_headered - Header.size h
          /\ fileName header = append (fileName Samples2.nes_headered) ".header"
          /\ fileName rom = fileName Samples2.nes_headered
          /\ canRomGetHeader rom = Some h)
  /\ (isRomHeadered Samples2.nes_headered = None ->
      removeHeader Samples2.nes_headered
      = JS.Throw (JS.InvalidRomFileError "ROM does not have a removable header")).
Proof.
  apply (removeHeader_splits Samples2.nes_headered).
  vm_compute. split; discriminate.
Defined.

(** *** [applyPatch] *)

(** With the option [removeHeader] and without validation, [applyPatch] on
    a headered ROM hands the ROM without its header to the patch and puts the
    header back before what the patch returns: the output holds the bytes of
    the header followed by the bytes of the patched ROM, under the name the
    patch gave. *)
Theorem applyPatch_reattaches_header (romFile : BinFile) (patch : PatchObject)
  (options : PatchOptions.t) (header rom patched : BinFile) :
  PatchOptions.removeHeader options = true ->
  PatchOptions.requireValidation options = false ->
  removeHeader romFile = JS.Ok (header, rom) ->
  apply patch rom = JS.Ok patched ->
  0 <= fileSize patched <= capacity patched ->
  exists out,
    applyPatch romFile patch options = JS.Ok out
    /\ getBytes out = getBytes header ++ getBytes patched
    /\ fileSize out = fileSize header + fileSize patched
    /\ fileName out = fileName patched.
Proof.
  intros Hr Hv Er Ea Hp. unfold applyPatch. rewrite Hr, Hv.
  assert (Hh : exists h, isRomHeadered romFile = Some h
                         /\ header = with_fileName
                                       (of_bytes (U8.slice (getBytes romFile) 0
                                                           (Header.size h)))
                                       (append (fileName romFile) ".header")).
  { unfold removeHeader in Er. destruct (isRomHeadered romFile) as [h|]; [|discriminate Er].
    exists h. split; [reflexivity|]. now inversion Er. }
  destruct Hh as (h & Hh & Eh). rewrite Hh, Er. cbn [JS.bind negb].
  rewrite Ea. cbn [JS.bind].
  assert (Hfix : (if PatchOptions.fixChecksum options
                  then fixRomHeaderChecksum patched else patched) = patched)
    by (destruct (PatchOptions.fixChecksum options); reflexivity).
  rewrite Hfix.
  destruct (of_bytes_named (U8.slice (getBytes romFile) 0 (Header.size h))
              (append (fileName romFile) ".header")) as (Bh & Sh & _).
  rewrite <- Eh in Bh, Sh. rewrite <- Bh in Sh.
  pose proof (getBytes_length patched Hp) as Lp.
  unfold of_size, U8.alloc.
  replace (fileSize header + fileSize patched <? 0) with false
    by (symmetry; apply Z.ltb_ge; lia).
  cbn [JS.bind].
  destruct (join_files (getBytes header) (getBytes patched)
              (fileSize header + fileSize patched) (fileName patched))
    as (out & Eo & Bo & So & No).
  { rewrite Nat2Z.inj_add. lia. }
  exists out. auto.
Qed.

Lemma applyPatch_reattaches_header_witness :
  exists out,
    applyPatch Samples2.nes_headered Samples2.ips_object Samples2.remove_options
    = JS.Ok out
    /\ getBytes out = getBytes Samples2.nes_header ++ getBytes Samples2.nes_patched
    /\ fileSize out = fileSize Samples2.nes_header + fileSize Samples2.nes_patched
    /\ fileName out = fileName Samples2.nes_patched.
Proof.
  apply (applyPatch_reattaches_header Samples2.nes_headered Samples2.ips_object
           Samples2.remove_options Samples2.nes_header Samples2.nes_rom
           Samples2.nes_patched).
  - reflexivity.
  - reflexivity.
  - vm_compute. reflexivity.
  - vm_compute. reflexivity.
  - vm_compute. split; discriminate.
Defined.

(** With the option [addHeader] (and neither [removeHeader] nor validation),
    [applyPatch] on a ROM that can get a header patches the ROM behind a
    header of zeros and then drops as many bytes as the header is long from
    the beginning of what the patch returns; the output carries the name of
    the ROM, not the name the patch gave. *)
Theorem applyPatch_strips_fake_header (romFile : BinFile) (patch : PatchObject)
  (options : PatchOptions.t) (h : Header.HeaderInfo) (w patched : BinFile) :
  PatchOptions.removeHeader options = false ->
  PatchOptions.addHeader options = true ->
  PatchOptions.requireValidation options = false ->
  canRomGetHeader romFile = Some h ->
  addFakeHeader romFile = JS.Ok w ->
  apply patch w = JS.Ok patched ->
  exists out,
    applyPatch romFile patch options = JS.Ok out
    /\ getBytes out = skipn (Z.to_nat (Header.size h)) (getBytes patched)
    /\ fileName out = fileName romFile.
Proof.
  intros Hr Ha Hv Hc Ew Ea. unfold applyPatch. rewrite Hr, Ha, Hv, Hc, Ew.
  cbn [JS.bind negb]. rewrite Ea. cbn [JS.bind].
  pose proof (proj1 (canRomGetHeader_spec _ _) Hc) as (Hin & _).
  pose proof (header_sizes h Hin) as Hs.
  replace (0 <? Header.size h) with true by (symmetry; apply Z.ltb_lt; lia).
  eexists. split; [reflexivity|].
  rewrite slice_tail by lia.
  destruct (of_bytes_named (skipn (Z.to_nat (Header.size h)) (getBytes patched))
              (fileName romFile)) as (B & _ & N).
  auto.
Qed.

Lemma applyPatch_strips_fake_header_witness :
  exists out,
    applyPatch Samples2.nes_rom Samples2.ips_object Samples2.add_options = JS.Ok out
    /\ getBytes out
       = skipn (Z.to_nat (Header.size Samples2.iNES)) (getBytes Samples2.nes_fake_patched)
    /\ fileName out = fileName Samples2.nes_rom.
Proof.
  apply (applyPatch_strips_fake_header Samples2.nes_rom Samples2.ips_object
           Samples2.add_options Samples2.iNES Samples2.nes_fake
           Samples2.nes_fake_patched).
  - reflexivity.
  - reflexivity.
  - reflexivity.
  - vm_compute. reflexivity.
  - vm_compute. reflexivity.
  - vm_compute. reflexivity.
Defined.

(** *** [createPatch] *)

(** [createPatch] looks the format up among the magics of the registered
    modules, not among their names: of the ten values of [PatchFormat] only
    [pmsr] is the magic of a module, in lower case.  For that format the
    patch is built by the PMSR module; for each of the nine others, the
    default [ips] among them, [createPatch] throws
    [Unsupported patch format]. *)
Theorem createPatch_only_pmsr
  (JSON_parse : string -> option (list (string * string)))
  (build : PatchFormatModule -> BinFile -> BinFile ->
           option (list (string * string)) -> JS.result PatchFile)
  (originalFile modifiedFile : BinFile) (metadata : option (list (string * string))) :
  createPatch JSON_parse build originalFile modifiedFile PatchFormat.PMSR metadata
  = build PMSRModule originalFile modifiedFile metadata
  /\ forall format, In format PatchFormat.values -> format <> PatchFormat.PMSR ->
       createPatch JSON_parse build originalFile modifiedFile format metadata
       = JS.Throw (JS.UnsupportedFormatError
                     (append "Unsupported patch format: " format)).
Proof.
  split; [reflexivity|].
  intros format Hin Hne. unfold PatchFormat.values in Hin. cbn [In] in Hin.
  repeat (destruct Hin as [<-|Hin]; [first [reflexivity | congruence]|]).
  destruct Hin.
Qed.

End RomPatcherProps.

(** ** The CRC32 of [HashCalculator] *)

Module HashProps.
Import BinFile.

Lemma updateCRC32_app crc a b :
  HashCalculator.updateCRC32 crc (a ++ b)
  = HashCalculator.updateCRC32 (HashCalculator.updateCRC32 crc a) b.
Proof. unfold HashCalculator.updateCRC32. apply fold_left_app. Qed.

Lemma firstn_past (l : list Z) n m :
  (length l <= n)%nat -> (length l <= m)%nat -> firstn n l = firstn m l.
Proof. intros Hn Hm. now rewrite !firstn_all2. Qed.

(** The loop over the chunks, from a chunk boundary on. *)
Lemma crc32_loop_spec fuel : forall data offset,
  0 <= offset -> (Z.of_nat (length data) - offset <= Z.of_nat fuel) ->
  HashCalculator.crc32_loop fuel data offset
    (HashCalculator.updateCRC32 HashCalculator.initCRC32
       (firstn (Z.to_nat offset) data))
  = Some (HashCalculator.updateCRC32 HashCalculator.initCRC32 data).
Proof.
  induction fuel as [|fuel IH]; intros data offset Ho Hf.
  - cbn [HashCalculator.crc32_loop].
    replace (offset <? Z.of_nat (length data)) with false
      by (symmetry; apply Z.ltb_ge; lia).
    rewrite firstn_all2 by lia. reflexivity.
  - cbn [HashCalculator.crc32_loop].
    destruct (offset <? Z.of_nat (length data)) eqn:E;
      [apply Z.ltb_lt in E | apply Z.ltb_ge in E].
    2:{ rewrite firstn_all2 by lia. reflexivity. }
    rewrite <- updateCRC32_app.
    assert (Hc : firstn (Z.to_nat offset) data
                 ++ U8.slice data offset
                      (Z.min (offset + HashCalculator.chunkSize) (Z.of_nat (length data)))
                 = firstn (Z.to_nat (offset + HashCalculator.chunkSize)) data).
    { unfold U8.slice, U8.rel, HashCalculator.chunkSize.
      replace (offset <? 0) with false by (symmetry; apply Z.ltb_ge; lia).
      replace (Z.min (offset + 64 * 1024) (Z.of_nat (length data)) <? 0) with false
        by (symmetry; apply Z.ltb_ge; lia).
      rewrite (Z.min_l offset) by lia.
      replace (Z.min (Z.min (offset + 64 * 1024) (Z.of_nat (length data)))
                     (Z.of_nat (length data)))
        with (Z.min (offset + 64 * 1024) (Z.of_nat (length data))) by lia.
      rewrite <- (firstn_skipn (Z.to_nat offset)
                    (firstn (Z.to_nat (offset + 64 * 1024)) data)).
      rewrite firstn_firstn, Nat.min_l by lia. f_equal.
      rewrite skipn_firstn_comm.
      destruct (Z.le_gt_cases (offset + 64 * 1024) (Z.of_nat (length data))) as [H|H].
      - rewrite Z.min_l by lia. f_equal. lia.
      - rewrite Z.min_r by lia.
        apply firstn_past; rewrite length_skipn; lia. }
    rewrite Hc. apply IH; unfold HashCalculator.chunkSize; lia.
Qed.

(** The CRC32 that [calculateHashes] reports is the one [BinFile.hashCRC32]
    computes: the loop over the chunks returns, and the checksum does not
    depend on where the chunks end; the report is the number in upper-case
    hexadecimal digits, eight at least. *)
Theorem chunked_crc32_is_hashCRC32 (bytes : list Z) :
  HashCalculator.calculateHashes_crc32 bytes
  = Some (padStart0 (HashCalculator.toUpperCase
                       (toString16 (hashCRC32 (of_bytes bytes) 0 None))) 8).
Proof.
  unfold HashCalculator.calculateHashes_crc32.
  pose proof (crc32_loop_spec (S (length bytes)) bytes 0 ltac:(lia) ltac:(lia)) as H.
  change (firstn (Z.to_nat 0) bytes) with (@nil Z) in H.
  change (HashCalculator.updateCRC32 HashCalculator.initCRC32 [])
    with HashCalculator.initCRC32 in H.
  rewrite H. cbn [option_map]. f_equal.
  unfold HashCalculator.finalizeCRC32, hashCRC32, of_bytes. cbn [data fileSize].
  rewrite BinFileFacts.slice_full. reflexivity.
Qed.

End HashProps.
